(** * DiscBurn: manifest state machine, signal gateway and polling executor

    A shallow embedding of the TypeScript sources of discburn-cli:

    - [Js]        the JavaScript primitives the sources rely on (32-bit
                  integer wrap-around, [Number.prototype.toString(16)],
                  [Date.prototype.toISOString], [JSON.stringify], [RegExp.test],
                  the stable [Array.prototype.sort]);
    - [Manifest]  core/manifest.ts ([createManifest], [VALID_TRANSITIONS],
                  [isValidTransition], [transitionState]);
    - [UsbSignal] adapters/usb-signal.ts with the security helm
                  ([validateSignalSecurity], [generateChecksum],
                  [createSignal], [receiveSignals], [sendCommand]);
    - [Executor]  core/executor.ts ([pollAndProcess], [processJob],
                  [updateJobStatus], [syncToOneDriveAfterBurn]) over an
                  explicit world (store, clock, adapter state);
    - [Automate]  automate.ts ([fetchPendingJobs]) and the retry loop of
                  [executeAutomate].

    JavaScript strings are modelled by [string]: every character stands for
    one UTF-16 code unit below 256.  Numbers are modelled by [Z]; the sources
    only do integer arithmetic on them. *)

From Stdlib Require Import ZArith List String Ascii Bool Lia.
From Stdlib Require Import DecimalString Permutation Sorted.
Import ListNotations.

Local Open Scope list_scope.
Local Open Scope string_scope.
Local Open Scope Z_scope.

(* ================================================================== *)
(** ** JavaScript primitives *)
(* ================================================================== *)

Module Js.

(** The completion of a call: it returns a value or throws an [Error]
    carrying a message. *)
Inductive outcome (A : Type) : Type :=
| Returned (a : A)
| Thrown (msg : string).
Arguments Returned {A} a.
Arguments Thrown {A} msg.

(** [ToInt32]: the wrap-around every bitwise operator applies. *)
Definition int32 (z : Z) : Z := (z + 2 ^ 31) mod 2 ^ 32 - 2 ^ 31.

Definition charCode (c : ascii) : Z := Z.of_nat (nat_of_ascii c).

(** One round of the rolling hash used by both checksum functions:
    [hash = ((hash << 5) - hash) + c; hash = hash & hash]. *)
Definition hashStep (hash : Z) (c : ascii) : Z :=
  let h := (int32 (Z.shiftl (int32 hash) 5) - hash) + charCode c in
  int32 (Z.land (int32 h) (int32 h)).

Fixpoint hashFrom (hash : Z) (s : string) : Z :=
  match s with
  | EmptyString => hash
  | String c rest => hashFrom (hashStep hash c) rest
  end.

(** [let hash = 0; for (i < str.length) ...]. *)
Definition rollingHash (s : string) : Z := hashFrom 0 s.

Definition hexDigit (d : Z) : ascii :=
  if d <? 10 then ascii_of_nat (Z.to_nat (48 + d))
  else ascii_of_nat (Z.to_nat (87 + d)).

Fixpoint hexDigits (fuel : nat) (n : Z) (acc : string) : string :=
  match fuel with
  | O => acc
  | S fuel' =>
      let acc' := String (hexDigit (n mod 16)) acc in
      if n / 16 =? 0 then acc' else hexDigits fuel' (n / 16) acc'
  end.

(** [n.toString(16)] for an integer [n]: lower-case digits, a leading
    minus sign for negative numbers. *)
Definition toString16 (n : Z) : string :=
  let digits := hexDigits (S (Z.to_nat (Z.log2 (Z.abs n)))) (Z.abs n) "" in
  if n <? 0 then String "-" digits else digits.

(** [String(n)] for an integer [n]. *)
Definition toString10 (n : Z) : string := NilZero.string_of_int (Z.to_int n).

Fixpoint repeatChar (n : nat) (c : ascii) : string :=
  match n with
  | O => ""
  | S n' => String c (repeatChar n' c)
  end.

(** [s.padStart(width, c)] with a one-character filler. *)
Definition padStart (width : nat) (c : ascii) (s : string) : string :=
  repeatChar (width - String.length s) c ++ s.

(** [s.substring(0, n)]. *)
Definition substring0 (n : nat) (s : string) : string := String.substring 0 n s.

(** [s.split(sep)] for a one-character separator. *)
Fixpoint splitChar (sep : ascii) (s : string) : list string :=
  match s with
  | EmptyString => [""]
  | String c rest =>
      if Ascii.eqb c sep then "" :: splitChar sep rest
      else match splitChar sep rest with
           | [] => [String c ""]
           | w :: ws => String c w :: ws
           end
  end.

(** [xs.join(sep)]. *)
Fixpoint join (sep : string) (xs : list string) : string :=
  match xs with
  | [] => ""
  | [x] => x
  | x :: rest => x ++ sep ++ join sep rest
  end.

(** [s.endsWith(suffix)]. *)
Definition endsWith (suffix s : string) : bool :=
  let n := String.length s in
  let k := String.length suffix in
  (k <=? n)%nat && String.eqb (String.substring (n - k) k s) suffix.

(** [s.startsWith(prefix)]. *)
Definition startsWith (pre s : string) : bool := String.prefix pre s.

(** *** [Array.prototype.sort]

    The sort is stable.  [cmp a b] is the number the comparator returns; an
    element moves in front of the ones behind it only where the comparator
    is negative, so elements that compare equal keep their order. *)
Section Sort.
Context {A : Type} (cmp : A -> A -> Z).

Fixpoint insertSorted (x : A) (l : list A) : list A :=
  match l with
  | [] => [x]
  | y :: rest => if cmp x y <=? 0 then x :: l else y :: insertSorted x rest
  end.

Definition sort (l : list A) : list A := fold_right insertSorted [] l.
End Sort.

(** The default comparator of [sort()] on strings: code-unit order. *)
Definition defaultCompare (a b : string) : Z :=
  match String.compare a b with
  | Lt => -1
  | Eq => 0
  | Gt => 1
  end.

(** *** [Date.prototype.toISOString]

    [toISOString ms] for a time [ms] in milliseconds since the epoch, in the
    years 0000 to 9999 (the four-digit form of the format). *)
Definition pad2 (n : Z) : string := padStart 2 "0" (toString10 n).
Definition pad3 (n : Z) : string := padStart 3 "0" (toString10 n).
Definition pad4 (n : Z) : string := padStart 4 "0" (toString10 n).

Definition civilFromDays (days : Z) : Z * Z * Z :=
  let z := days + 719468 in
  let era := z / 146097 in
  let doe := z - era * 146097 in
  let yoe := (doe - doe / 1460 + doe / 36524 - doe / 146096) / 365 in
  let doy := doe - (365 * yoe + yoe / 4 - yoe / 100) in
  let mp := (5 * doy + 2) / 153 in
  let d := doy - (153 * mp + 2) / 5 + 1 in
  let m := if mp <? 10 then mp + 3 else mp - 9 in
  let y := yoe + era * 400 + (if m <=? 2 then 1 else 0) in
  (y, m, d).

Definition isoDate (ms : Z) : string :=
  let '(y, m, d) := civilFromDays (ms / 86400000) in
  pad4 y ++ "-" ++ pad2 m ++ "-" ++ pad2 d.

Definition toISOString (ms : Z) : string :=
  let r := ms mod 86400000 in
  isoDate ms ++ "T" ++ pad2 (r / 3600000) ++ ":" ++ pad2 ((r / 60000) mod 60)
    ++ ":" ++ pad2 ((r / 1000) mod 60) ++ "." ++ pad3 (r mod 1000) ++ "Z".

End Js.


(* ================================================================== *)
(** ** JSON values and [JSON.stringify] *)
(* ================================================================== *)

Module Json.

(** The values [JSON.parse] produces.  Numbers are the integers the
    sources work with (clock readings, counters, sizes, progress), all
    within the safe range below 2^53 in absolute value, where a number is
    the integer itself and [JSON.stringify] writes all its digits; larger
    numbers are outside the model.  The properties of an object are listed
    in the object's own key order. *)
#[warnings="-register-all"]
Inductive json : Type :=
| JNull
| JBool (b : bool)
| JNum (n : Z)
| JStr (s : string)
| JArr (items : list json)
| JObj (props : list (string * json)).

(** [ToBoolean], as used by [||] and [if]. *)
Definition truthy (v : json) : bool :=
  match v with
  | JNull => false
  | JBool b => b
  | JNum n => negb (n =? 0)
  | JStr s => negb (String.eqb s "")
  | JArr _ | JObj _ => true
  end.

Fixpoint assoc {A : Type} (key : string) (props : list (string * A)) : option A :=
  match props with
  | [] => None
  | (k, v) :: rest => if String.eqb k key then Some v else assoc key rest
  end.

(** [v?.key] for a value that may be [undefined] ([None]): only objects
    carry the keys the sources read. *)
Definition getProp (key : string) (v : option json) : option json :=
  match v with
  | Some (JObj props) => assoc key props
  | _ => None
  end.

(** The double-quote character, code unit 34. *)
Definition dquote : ascii := ascii_of_nat 34.

(** The escape [JSON.stringify] writes for one code unit of a string. *)
Definition escapeChar (c : ascii) : string :=
  let n := Js.charCode c in
  if n =? 34 then String "\" (String dquote "")
  else if n =? 92 then "\\"
  else if n =? 8 then "\b"
  else if n =? 9 then "\t"
  else if n =? 10 then "\n"
  else if n =? 12 then "\f"
  else if n =? 13 then "\r"
  else if n <? 32 then "\u" ++ Js.padStart 4 "0" (Js.toString16 n)
  else String c "".

Fixpoint escape (s : string) : string :=
  match s with
  | EmptyString => ""
  | String c rest => escapeChar c ++ escape rest
  end.

Definition quote (s : string) : string :=
  String dquote (escape s ++ String dquote "").

(** [JSON.stringify(v)] without indentation. *)
Fixpoint stringify (v : json) : string :=
  match v with
  | JNull => "null"
  | JBool true => "true"
  | JBool false => "false"
  | JNum n => Js.toString10 n
  | JStr s => quote s
  | JArr items => "[" ++ Js.join "," (map stringify items) ++ "]"
  | JObj props =>
      "{" ++ Js.join "," (map (fun p => let '(k, x) := p in quote k ++ ":" ++ stringify x) props)
          ++ "}"
  end.

(** [unquoted s] is [s] with every apostrophe replaced by a double quote:
    a way to write JSON texts down. *)
Fixpoint unquoted (s : string) : string :=
  match s with
  | EmptyString => ""
  | String c rest => String (if Ascii.eqb c "'" then dquote else c) (unquoted rest)
  end.

(** The same object with its properties listed in another order. *)
Inductive keyPermuted : json -> json -> Prop :=
| kp_obj (ps qs : list (string * json)) :
    Permutation ps qs -> keyPermuted (JObj ps) (JObj qs).

End Json.

(* ================================================================== *)
(** ** Regular expressions and [RegExp.prototype.test] *)
(* ================================================================== *)

Module RegExp.

Inductive regex : Type :=
| Void
| Eps
| Cls (p : ascii -> bool)
| Cat (r1 r2 : regex)
| Alt (r1 r2 : regex)
| Star (r : regex).

Fixpoint nullable (r : regex) : bool :=
  match r with
  | Void => false
  | Eps => true
  | Cls _ => false
  | Cat r1 r2 => nullable r1 && nullable r2
  | Alt r1 r2 => nullable r1 || nullable r2
  | Star _ => true
  end.

Definition mkCat (r1 r2 : regex) : regex :=
  match r1, r2 with
  | Void, _ => Void
  | _, Void => Void
  | Eps, _ => r2
  | _, Eps => r1
  | _, _ => Cat r1 r2
  end.

Definition mkAlt (r1 r2 : regex) : regex :=
  match r1, r2 with
  | Void, _ => r2
  | _, Void => r1
  | _, _ => Alt r1 r2
  end.

(** The derivative of [r] by the character [c]. *)
Fixpoint deriv (c : ascii) (r : regex) : regex :=
  match r with
  | Void => Void
  | Eps => Void
  | Cls p => if p c then Eps else Void
  | Cat r1 r2 =>
      if nullable r1 then mkAlt (mkCat (deriv c r1) r2) (deriv c r2)
      else mkCat (deriv c r1) r2
  | Alt r1 r2 => mkAlt (deriv c r1) (deriv c r2)
  | Star r1 => mkCat (deriv c r1) (Star r1)
  end.

(** [scan live r s]: some part of [s] that starts at or after the current
    position, or continues one of the partial matches [live], matches [r]. *)
Fixpoint scan (live r : regex) (s : string) : bool :=
  match s with
  | EmptyString => false
  | String c rest =>
      let live' := mkAlt (deriv c live) (deriv c r) in
      nullable live' || scan live' r rest
  end.

(** [/r/.test(s)]: the expression matches somewhere in [s]. *)
Definition test (r : regex) (s : string) : bool := nullable r || scan Void r s.

(** Character classes.  With the [i] flag a letter matches both cases. *)
Definition lower (c : ascii) : ascii :=
  let n := Js.charCode c in
  if (65 <=? n) && (n <=? 90) then ascii_of_nat (Z.to_nat (n + 32)) else c.

Definition chr (c : ascii) : regex := Cls (fun x => Ascii.eqb (lower x) (lower c)).

(** [\s] on code units below 256. *)
Definition space : regex :=
  Cls (fun x => let n := Js.charCode x in
                ((9 <=? n) && (n <=? 13)) || (n =? 32) || (n =? 160)).

(** [\w]. *)
Definition word : regex :=
  Cls (fun x => let n := Js.charCode x in
                ((48 <=? n) && (n <=? 57)) || ((65 <=? n) && (n <=? 90))
                || ((97 <=? n) && (n <=? 122)) || (n =? 95)).

Fixpoint lit (s : string) : regex :=
  match s with
  | EmptyString => Eps
  | String c rest => Cat (chr c) (lit rest)
  end.

Definition plus (r : regex) : regex := Cat r (Star r).

Fixpoint seq (rs : list regex) : regex :=
  match rs with
  | [] => Eps
  | r :: rest => Cat r (seq rest)
  end.

(** A regular-expression object: its printed form ([String(pattern)]) and
    the expression it denotes. *)
Record pattern : Type := { printed : string; re : regex }.

Definition matches (p : pattern) (s : string) : bool := test (re p) s.

End RegExp.

(* ================================================================== *)
(** ** core/manifest.ts: the job manifest and its state machine *)
(* ================================================================== *)

Module Manifest.
Import Js.

Definition MANIFEST_VERSION : string := "2.0.0".

Inductive JobStatus : Type :=
| created | pending | queued | downloading | burning
| verifying | complete | failed | cancelled.

Inductive Priority : Type := low | normal | high | urgent.

Definition JobStatus_eqb (a b : JobStatus) : bool :=
  match a, b with
  | created, created | pending, pending | queued, queued
  | downloading, downloading | burning, burning | verifying, verifying
  | complete, complete | failed, failed | cancelled, cancelled => true
  | _, _ => false
  end.

(** The string each status is in the source. *)
Definition statusName (s : JobStatus) : string :=
  match s with
  | created => "created"
  | pending => "pending"
  | queued => "queued"
  | downloading => "downloading"
  | burning => "burning"
  | verifying => "verifying"
  | complete => "complete"
  | failed => "failed"
  | cancelled => "cancelled"
  end.

Definition priorityName (p : Priority) : string :=
  match p with
  | low => "low"
  | normal => "normal"
  | high => "high"
  | urgent => "urgent"
  end.

Record StateTransition : Type := {
  from : option JobStatus;
  to : JobStatus;
  timestamp : string;
  actor : option string;
  reason : option string
}.

(** The [details] objects the module writes into the audit log. *)
Inductive AuditDetails : Type :=
| FileCount (fileCount : Z)
| TransitionDetails (dfrom dto : JobStatus) (dreason : option string).

Record AuditEntry : Type := {
  a_timestamp : string;
  a_action : string;
  a_actor : string;
  a_details : option AuditDetails
}.

Record PayloadFile : Type := {
  path : string;
  size : option Z;
  f_checksum : option string;
  include : bool
}.

Record JobSource : Type := {
  platform : string;
  workspace : string;
  user : option string
}.

Record JobInfo : Type := {
  id : string;
  j_created : string;
  updated : string;
  status : JobStatus;
  priority : Priority;
  source : JobSource
}.

Record Device : Type := {
  d_name : string;
  d_type : string;
  model : option string;
  connection : option string
}.

Record DiscSettings : Type := {
  disc_type : string;
  speed : string;
  verify : bool;
  finalize : bool;
  label : option string
}.

Record Target : Type := {
  device : Device;
  destinations : list string;
  discSettings : DiscSettings
}.

Record Payload : Type := {
  totalFiles : Z;
  totalSize : option Z;
  p_checksum : option string;
  files : list PayloadFile
}.

Record Lifecycle : Type := {
  states : list StateTransition;
  currentState : JobStatus;
  retryCount : Z;
  maxRetries : Z
}.

Record Notifications : Type := {
  onStateChange : bool;
  onComplete : bool;
  onError : bool;
  webhooks : option (list string)
}.

Record Admin : Type := {
  createdBy : option string;
  approvedBy : option string;
  executorId : option string;
  auditLog : list AuditEntry
}.

Record BurnManifest : Type := {
  version : string;
  schema : string;
  job : JobInfo;
  target : Target;
  payload : Payload;
  lifecycle : Lifecycle;
  notifications : Notifications;
  admin : Admin
}.

(** [calculatePayloadChecksum(files)].  [files.sort()] sorts the caller's
    array in place; the sorted array is the first component of the result. *)
Definition calculatePayloadChecksum (fs : list string) : list string * string :=
  let sorted := sort defaultCompare fs in
  let content := join (String (ascii_of_nat 10) "") sorted in
  let hash := rollingHash content in
  (sorted, "sha256:" ++ padStart 16 "0" (toString16 (Z.abs hash))).

Record ManifestOptions : Type := {
  o_jobId : string;
  o_files : list string;
  o_target : option string;
  o_priority : option Priority;
  o_device : option string
}.

(** [x || dflt] for an optional string: [undefined] and the empty string
    are falsy. *)
Definition orString (x : option string) (dflt : string) : string :=
  match x with
  | Some s => if String.eqb s "" then dflt else s
  | None => dflt
  end.

(** [createManifest(options)] at clock reading [now], in working directory
    [cwd]. *)
Definition createManifest (cwd : string) (now : Z) (options : ManifestOptions)
  : BurnManifest :=
  let now := toISOString now in
  (* [options.files.length] is read before the checksum sorts the array *)
  let count := Z.of_nat (List.length (o_files options)) in
  let '(sortedFiles, checksum) := calculatePayloadChecksum (o_files options) in
  {| version := MANIFEST_VERSION;
     schema := "discburn-manifest-v2";
     job := {| id := o_jobId options;
               j_created := now;
               updated := now;
               status := created;
               priority := match o_priority options with
                           | Some p => p
                           | None => normal
                           end;
               source := {| platform := "Replit"; workspace := cwd; user := None |} |};
     target := {| device := {| d_name := orString (o_device options) "HP DVD557s";
                               d_type := "dvd";
                               model := Some "HP DVD557s";
                               connection := Some "usb" |};
                  destinations := ["OneDrive"; "SovereignCapsule"];
                  discSettings :=
                    {| disc_type := "DVD-R";
                       speed := "auto";
                       verify := true;
                       finalize := true;
                       label := Some ("DiscBurn_" ++
                         orString (option_map (substring0 10)
                                     (nth_error (splitChar "-" (o_jobId options)) 1))
                                  "backup") |} |};
     payload := {| totalFiles := count;
                   totalSize := Some 0;
                   p_checksum := Some checksum;
                   files := map (fun f => {| path := f; size := None;
                                             f_checksum := None; include := true |})
                                sortedFiles |};
     lifecycle := {| states := [ {| from := None;
                                    to := created;
                                    timestamp := now;
                                    actor := Some "system";
                                    reason := Some "Job initialized" |} ];
                     currentState := created;
                     retryCount := 0;
                     maxRetries := 3 |};
     notifications := {| onStateChange := true; onComplete := true;
                         onError := true; webhooks := None |};
     admin := {| createdBy := None; approvedBy := None; executorId := None;
                 auditLog := [ {| a_timestamp := now;
                                  a_action := "JOB_CREATED";
                                  a_actor := "system";
                                  a_details := Some (FileCount count) |} ] |} |}.

Definition VALID_TRANSITIONS (s : JobStatus) : list JobStatus :=
  match s with
  | created => [pending; cancelled]
  | pending => [queued; cancelled]
  | queued => [downloading; cancelled]
  | downloading => [burning; failed; cancelled]
  | burning => [verifying; failed; cancelled]
  | verifying => [complete; failed]
  | complete => []
  | failed => [pending]
  | cancelled => [pending]
  end.

(** [VALID_TRANSITIONS[from]?.includes(to) ?? false]. *)
Definition isValidTransition (a b : JobStatus) : bool :=
  existsb (JobStatus_eqb b) (VALID_TRANSITIONS a).

(** The manifest after the writes of a successful [transitionState]. *)
Definition applyTransition (manifest : BurnManifest) (newState : JobStatus)
    (now : string) (actor : string) (reason : option string) : BurnManifest :=
  let previousState := currentState (lifecycle manifest) in
  let lc := lifecycle manifest in
  let jb := job manifest in
  let ad := admin manifest in
  {| version := version manifest;
     schema := schema manifest;
     job := {| id := id jb; j_created := j_created jb;
               updated := now;
               status := newState;
               priority := priority jb; source := source jb |};
     target := target manifest;
     payload := payload manifest;
     lifecycle := {| states := (states lc ++ [ {| from := Some previousState;
                                                 to := newState;
                                                 timestamp := now;
                                                 actor := Some actor;
                                                 reason := reason |} ])%list;
                     currentState := newState;
                     retryCount := retryCount lc;
                     maxRetries := maxRetries lc |};
     notifications := notifications manifest;
     admin := {| createdBy := createdBy ad; approvedBy := approvedBy ad;
                 executorId := executorId ad;
                 auditLog := (auditLog ad ++ [ {| a_timestamp := now;
                                                 a_action := "STATE_TRANSITION";
                                                 a_actor := actor;
                                                 a_details := Some (TransitionDetails
                                                    previousState newState reason) |} ])%list |} |}.

(** [transitionState(manifest, newState, actor, reason)] at clock reading
    [now].  The function works on the caller's object: the second component
    is that object after the call, also when the call throws.  [actor] is the
    argument after its default ['system'] has been filled in. *)
Definition transitionState (manifest : BurnManifest) (newState : JobStatus)
    (actor : string) (reason : option string) (now : Z)
  : outcome BurnManifest * BurnManifest :=
  let now := toISOString now in
  let previousState := currentState (lifecycle manifest) in
  if negb (isValidTransition previousState newState) then
    (Thrown ("Invalid state transition: " ++ statusName previousState
               ++ " -> " ++ statusName newState),
     manifest)
  else
    let m' := applyTransition manifest newState now actor reason in
    (Returned m', m').

(** The transition table as the specification lists it (section 4.1),
    one pair per allowed move. *)
Inductive specAllowed : JobStatus -> JobStatus -> Prop :=
| sa_created_pending : specAllowed created pending
| sa_created_cancelled : specAllowed created cancelled
| sa_pending_queued : specAllowed pending queued
| sa_pending_cancelled : specAllowed pending cancelled
| sa_queued_downloading : specAllowed queued downloading
| sa_queued_cancelled : specAllowed queued cancelled
| sa_downloading_burning : specAllowed downloading burning
| sa_downloading_failed : specAllowed downloading failed
| sa_downloading_cancelled : specAllowed downloading cancelled
| sa_burning_verifying : specAllowed burning verifying
| sa_burning_failed : specAllowed burning failed
| sa_burning_cancelled : specAllowed burning cancelled
| sa_verifying_complete : specAllowed verifying complete
| sa_verifying_failed : specAllowed verifying failed
| sa_failed_pending : specAllowed failed pending
| sa_cancelled_pending : specAllowed cancelled pending.

(** A call succeeded. *)
Definition succeeded {A : Type} (r : outcome A) : Prop :=
  match r with
  | Returned _ => True
  | Thrown _ => False
  end.

(** The manifests the module can produce: [createManifest] followed by
    successful and failed calls of [transitionState]. *)
Inductive produced : BurnManifest -> Prop :=
| produced_create (cwd : string) (now : Z) (options : ManifestOptions) :
    produced (createManifest cwd now options)
| produced_transition (m : BurnManifest) (newState : JobStatus) (actor : string)
    (reason : option string) (now : Z) :
    produced m -> produced (snd (transitionState m newState actor reason now)).

Fixpoint lastOf {A : Type} (l : list A) : option A :=
  match l with
  | [] => None
  | [x] => Some x
  | _ :: rest => lastOf rest
  end.

(** [currentState] is the [to] field of the last transition record. *)
Definition currentIsLast (m : BurnManifest) : Prop :=
  option_map to (lastOf (states (lifecycle m))) = Some (currentState (lifecycle m)).

(** The transition record and the audit entry a successful call appends. *)
Definition recordOf (m : BurnManifest) (newState : JobStatus) (actor : string)
    (reason : option string) (now : Z) : StateTransition :=
  {| from := Some (currentState (lifecycle m)); to := newState;
     timestamp := toISOString now; actor := Some actor; reason := reason |}.

Definition auditOf (m : BurnManifest) (newState : JobStatus) (actor : string)
    (reason : option string) (now : Z) : AuditEntry :=
  {| a_timestamp := toISOString now; a_action := "STATE_TRANSITION"; a_actor := actor;
     a_details := Some (TransitionDetails (currentState (lifecycle m)) newState reason) |}.

(** What a successful call leaves alone. *)
Definition sameElsewhere (m m' : BurnManifest) : Prop :=
  version m' = version m /\ schema m' = schema m /\ target m' = target m
  /\ payload m' = payload m /\ notifications m' = notifications m
  /\ id (job m') = id (job m) /\ j_created (job m') = j_created (job m)
  /\ priority (job m') = priority (job m) /\ source (job m') = source (job m)
  /\ retryCount (lifecycle m') = retryCount (lifecycle m)
  /\ maxRetries (lifecycle m') = maxRetries (lifecycle m)
  /\ createdBy (admin m') = createdBy (admin m)
  /\ approvedBy (admin m') = approvedBy (admin m)
  /\ executorId (admin m') = executorId (admin m).

End Manifest.

(* ================================================================== *)
(** ** adapters/usb-signal.ts: signal envelopes and the security helm *)
(* ================================================================== *)

Module UsbSignal.
Import Js Json.

Definition ALLOWED_DEVICE_ID : string := "HP-DVD557s".
Definition ALLOWED_SOURCES : list string := ["dvd557s"; "HP-DVD557s"; "dvd557s_driver"].

(** The helm configuration object [HELM]; every field can be rewritten by
    [setHelmOption]. *)
Record Helm : Type := {
  active : bool;
  blockWebSockets : bool;
  blockScriptInjection : bool;
  onlyDVD557s : bool;
  maxSignalAge : Z;
  rateLimitPerMinute : Z;
  blockedPatterns : list RegExp.pattern
}.

Definition defaultPatterns : list RegExp.pattern :=
  let lit := RegExp.lit in
  let seq := RegExp.seq in
  let spaces := RegExp.Star RegExp.space in
  [ {| RegExp.printed := "/eval\s*\(/i";
       RegExp.re := seq [lit "eval"; spaces; lit "("] |};
    {| RegExp.printed := "/Function\s*\(/i";
       RegExp.re := seq [lit "Function"; spaces; lit "("] |};
    {| RegExp.printed := "/<script/i";
       RegExp.re := lit "<script" |};
    {| RegExp.printed := "/javascript:/i";
       RegExp.re := lit "javascript:" |};
    {| RegExp.printed := "/on\w+\s*=/i";
       RegExp.re := seq [lit "on"; RegExp.plus RegExp.word; spaces; lit "="] |};
    {| RegExp.printed := "/websocket/i";
       RegExp.re := lit "websocket" |};
    {| RegExp.printed := "/ws:\/\//i";
       RegExp.re := lit "ws://" |};
    {| RegExp.printed := "/wss:\/\//i";
       RegExp.re := lit "wss://" |};
    {| RegExp.printed := "/new\s+WebSocket/i";
       RegExp.re := seq [lit "new"; RegExp.plus RegExp.space; lit "WebSocket"] |};
    {| RegExp.printed := "/\.connect\s*\(/i";
       RegExp.re := seq [lit ".connect"; spaces; lit "("] |};
    {| RegExp.printed := "/socket\.io/i";
       RegExp.re := lit "socket.io" |} ].

(** The initial value of [HELM]. *)
Definition HELM : Helm :=
  {| active := true;
     blockWebSockets := true;
     blockScriptInjection := true;
     onlyDVD557s := true;
     maxSignalAge := 30000;
     rateLimitPerMinute := 60;
     blockedPatterns := defaultPatterns |}.

(** [/websocket|ws:\/\/|wss:\/\/|socket\.io/i]. *)
Definition webSocketPattern : RegExp.regex :=
  RegExp.Alt (RegExp.lit "websocket")
    (RegExp.Alt (RegExp.lit "ws://")
       (RegExp.Alt (RegExp.lit "wss://") (RegExp.lit "socket.io"))).

(** [signalRateTracker]. *)
Record RateTracker : Type := { count : Z; resetTime : Z }.

(** The tracker as the module creates it when it is loaded at time [now]. *)
Definition initialTracker (now : Z) : RateTracker :=
  {| count := 0; resetTime := now + 60000 |}.

Inductive SignalType : Type := t_command | t_status | t_ack | t_data.
Inductive Direction : Type := outbound | inbound.

(** [payload] is [None] where the envelope has no payload ([undefined]). *)
Record SignalPacket : Type := {
  type : SignalType;
  direction : Direction;
  timestamp : Z;
  payload : option json;
  checksum : string;
  source : option string;
  deviceId : option string
}.

Record SecurityResult : Type := { allowed : bool; reason : option string }.

Definition allow : SecurityResult := {| allowed := true; reason := None |}.
Definition block (why : string) : SecurityResult :=
  {| allowed := false; reason := Some why |}.

(** [generateChecksum(data)].  [JSON.stringify(undefined)] is [undefined],
    and reading its [length] throws a [TypeError]. *)
Definition generateChecksum (data : option json) : outcome string :=
  match data with
  | None => Thrown "TypeError: Cannot read properties of undefined (reading 'length')"
  | Some v => Returned (toString16 (rollingHash (stringify v)))
  end.

(** [a || b] on values that may be [undefined]. *)
Definition orElse (a : option json) (b : json) : json :=
  match a with
  | Some v => if truthy v then v else b
  | None => b
  end.

(** [signal.source || signal.payload?.source || ''], and the same for
    [deviceId]. *)
Definition declared (own : option string) (key : string) (p : option json) : json :=
  orElse (option_map JStr own) (orElse (getProp key p) (JStr "")).

(** [xs.includes(v)] on an array of strings. *)
Definition includes (xs : list string) (v : json) : bool :=
  match v with
  | JStr s => existsb (String.eqb s) xs
  | _ => false
  end.

(** The source allow-list check passes. *)
Definition sourceAllowed (signal : SignalPacket) : bool :=
  includes ALLOWED_SOURCES (declared (source signal) "source" (payload signal))
  || includes ALLOWED_SOURCES (declared (deviceId signal) "deviceId" (payload signal)).

(** [JSON.stringify(signal.payload || {})]. *)
Definition payloadText (signal : SignalPacket) : string :=
  stringify (orElse (payload signal) (JObj [])).

(** The first pattern of the list that matches, as the [for] loop finds it. *)
Fixpoint firstMatch (ps : list RegExp.pattern) (s : string) : option RegExp.pattern :=
  match ps with
  | [] => None
  | p :: rest => if RegExp.matches p s then Some p else firstMatch rest s
  end.

(** [if (Date.now() > resetTime) { count = 0; resetTime = Date.now() + 60000 }]. *)
Definition rateWindow (now : Z) (t : RateTracker) : RateTracker :=
  if now >? resetTime t then {| count := 0; resetTime := now + 60000 |} else t.

(** [signalRateTracker.count++]. *)
Definition rateCount (t : RateTracker) : RateTracker :=
  {| count := count t + 1; resetTime := resetTime t |}.

Definition reasonSource : string := "BLOCKED: Source not DVD557s".
Definition reasonTooOld : string := "BLOCKED: Signal too old (replay attack prevention)".
Definition reasonRate : string := "BLOCKED: Rate limit exceeded".
Definition reasonInjection (p : RegExp.pattern) : string :=
  "BLOCKED: Script injection detected (" ++ RegExp.printed p ++ ")".
Definition reasonWebSocket : string := "BLOCKED: WebSocket connection attempt".
Definition reasonChecksum : string := "BLOCKED: Invalid checksum (tampering detected)".

(** [validateSignalSecurity(signal)] with the helm [helm] and the rate
    tracker [tracker], at clock reading [now]: the call is synchronous and
    its readings of [Date.now()] are taken at one instant.  The second
    component is the rate tracker after the call. *)
Definition validateSignalSecurity (helm : Helm) (tracker : RateTracker) (now : Z)
    (signal : SignalPacket) : outcome SecurityResult * RateTracker :=
  if negb (active helm) then (Returned allow, tracker)
  else if onlyDVD557s helm && negb (sourceAllowed signal) then
    (Returned (block reasonSource), tracker)
  else if now - timestamp signal >? maxSignalAge helm then
    (Returned (block reasonTooOld), tracker)
  else
    let tracker := rateCount (rateWindow now tracker) in
    if count tracker >? rateLimitPerMinute helm then
      (Returned (block reasonRate), tracker)
    else
      match (if blockScriptInjection helm
             then firstMatch (blockedPatterns helm) (payloadText signal)
             else None) with
      | Some p => (Returned (block (reasonInjection p)), tracker)
      | None =>
          if blockWebSockets helm && RegExp.test webSocketPattern (payloadText signal) then
            (Returned (block reasonWebSocket), tracker)
          else
            match generateChecksum (payload signal) with
            | Thrown msg => (Thrown msg, tracker)
            | Returned expectedChecksum =>
                if negb (String.eqb (checksum signal) expectedChecksum) then
                  (Returned (block reasonChecksum), tracker)
                else (Returned allow, tracker)
            end
      end.

(** [createSignal(type, payload)] at clock reading [now]. *)
Definition createSignal (ty : SignalType) (p : option json) (now : Z)
  : outcome SignalPacket :=
  match generateChecksum p with
  | Thrown msg => Thrown msg
  | Returned c =>
      Returned {| type := ty; direction := outbound; timestamp := now;
                  payload := p; checksum := c; source := None; deviceId := None |}
  end.

Definition activateHelm (helm : Helm) : Helm :=
  {| active := true;
     blockWebSockets := blockWebSockets helm;
     blockScriptInjection := blockScriptInjection helm;
     onlyDVD557s := onlyDVD557s helm;
     maxSignalAge := maxSignalAge helm;
     rateLimitPerMinute := rateLimitPerMinute helm;
     blockedPatterns := blockedPatterns helm |}.

Definition deactivateHelm (helm : Helm) : Helm :=
  {| active := false;
     blockWebSockets := blockWebSockets helm;
     blockScriptInjection := blockScriptInjection helm;
     onlyDVD557s := onlyDVD557s helm;
     maxSignalAge := maxSignalAge helm;
     rateLimitPerMinute := rateLimitPerMinute helm;
     blockedPatterns := blockedPatterns helm |}.

(** [state: DeviceState]. *)
Record DeviceState : Type := {
  connected : bool;
  ready : bool;
  lastSignal : Z;
  st_deviceId : option string;
  capabilities : list string
}.

(** The module's variables. *)
Record Adapter : Type := {
  helm : Helm;
  tracker : RateTracker;
  state : DeviceState;
  signalQueue : list SignalPacket;
  responseBuffer : list SignalPacket
}.

Definition initialAdapter (now : Z) : Adapter :=
  {| helm := HELM;
     tracker := initialTracker now;
     state := {| connected := false; ready := false; lastSignal := 0;
                 st_deviceId := None; capabilities := [] |};
     signalQueue := [];
     responseBuffer := [] |}.

(** The validation loop of [receiveSignals]: the signals that pass, in
    order, unless a validation throws. *)
Fixpoint validateEach (h : Helm) (t : RateTracker) (now : Z)
    (signals validated : list SignalPacket)
  : outcome (list SignalPacket) * RateTracker :=
  match signals with
  | [] => (Returned validated, t)
  | s :: rest =>
      match validateSignalSecurity h t now s with
      | (Thrown msg, t') => (Thrown msg, t')
      | (Returned security, t') =>
          if allowed security then validateEach h t' now rest (validated ++ [s])%list
          else validateEach h t' now rest validated
      end
  end.

(** [Math.max(...xs)] on a non-empty list, starting from [x]. *)
Definition maxOf (x : Z) (xs : list Z) : Z := fold_left Z.max xs x.

(** [receiveSignals()] at clock reading [now].  [data] is the [queue] of
    the parsed signals/inbound.json, or [None] where the file is absent, is
    not JSON or has no queue: all three return the empty list and change
    nothing.  Every exception is caught by the function's [try]. *)
Definition receiveSignals (data : option (list SignalPacket)) (now : Z) (a : Adapter)
  : list SignalPacket * Adapter :=
  match data with
  | None => ([], a)
  | Some queue =>
      let newSignals :=
        filter (fun s => timestamp s >? lastSignal (state a)) queue in
      match validateEach (helm a) (tracker a) now newSignals [] with
      | (Thrown _, t') =>
          ([], {| helm := helm a; tracker := t'; state := state a;
                  signalQueue := signalQueue a; responseBuffer := responseBuffer a |})
      | (Returned validatedSignals, t') =>
          match map timestamp validatedSignals with
          | [] =>
              ([], {| helm := helm a; tracker := t'; state := state a;
                      signalQueue := signalQueue a;
                      responseBuffer := responseBuffer a |})
          | ts :: tss =>
              (validatedSignals,
               {| helm := helm a; tracker := t';
                  state := {| connected := connected (state a);
                              ready := ready (state a);
                              lastSignal := maxOf ts tss;
                              st_deviceId := st_deviceId (state a);
                              capabilities := capabilities (state a) |};
                  signalQueue := signalQueue a;
                  responseBuffer := (responseBuffer a ++ validatedSignals)%list |})
          end
      end
  end.

(** [verify(encode(type, payload))]: the integrity check alone, on the
    envelope [createSignal] makes. *)
Definition integrityHolds (signal : SignalPacket) : bool :=
  match generateChecksum (payload signal) with
  | Returned expected => String.eqb (checksum signal) expected
  | Thrown _ => false
  end.

End UsbSignal.

(* ================================================================== *)
(** ** The gateway's checks, listed as the specification orders them *)
(* ================================================================== *)

Module GatewaySpec.
Import Js Json UsbSignal.

(** The five checks of section 4.4. *)
Inductive Check : Type :=
| SourceAllowList | Freshness | RateLimit | ContentPatterns | Integrity.

Definition checkOrder : list Check :=
  [SourceAllowList; Freshness; RateLimit; ContentPatterns; Integrity].

(** [failure helm tracker now signal c] is the reason check [c] gives for
    rejecting [signal], or [None] where the check passes or is switched off.
    [tracker] is the rate tracker before the call. *)
Definition failure (helm : Helm) (tracker : RateTracker) (now : Z)
    (signal : SignalPacket) (c : Check) : option string :=
  match c with
  | SourceAllowList =>
      if onlyDVD557s helm && negb (sourceAllowed signal) then Some reasonSource else None
  | Freshness =>
      if now - timestamp signal >? maxSignalAge helm then Some reasonTooOld else None
  | RateLimit =>
      if count (rateCount (rateWindow now tracker)) >? rateLimitPerMinute helm
      then Some reasonRate else None
  | ContentPatterns =>
      match (if blockScriptInjection helm
             then firstMatch (blockedPatterns helm) (payloadText signal)
             else None) with
      | Some p => Some (reasonInjection p)
      | None =>
          if blockWebSockets helm && RegExp.test webSocketPattern (payloadText signal)
          then Some reasonWebSocket else None
      end
  | Integrity =>
      if integrityHolds signal then None else Some reasonChecksum
  end.

(** The reason of the first check of the list that fails. *)
Fixpoint firstFailure (helm : Helm) (tracker : RateTracker) (now : Z)
    (signal : SignalPacket) (checks : list Check) : option string :=
  match checks with
  | [] => None
  | c :: rest =>
      match failure helm tracker now signal c with
      | Some why => Some why
      | None => firstFailure helm tracker now signal rest
      end
  end.

(** The decision the ordered checks give. *)
Definition decision (helm : Helm) (tracker : RateTracker) (now : Z)
    (signal : SignalPacket) : SecurityResult :=
  match firstFailure helm tracker now signal checkOrder with
  | Some why => block why
  | None => allow
  end.

(** The tracker after a call that got as far as the rate limit. *)
Definition counted (now : Z) (tracker : RateTracker) : RateTracker :=
  rateCount (rateWindow now tracker).

(** Every check other than the rate limit passes. *)
Definition otherwiseValid (helm : Helm) (now : Z) (signal : SignalPacket) : Prop :=
  (exists p, payload signal = Some p)
  /\ forall tracker c, c <> RateLimit -> failure helm tracker now signal c = None.

(** Validate the envelopes of [batch] one after the other, each at its own
    clock reading, and collect the decisions. *)
Fixpoint submitAll (helm : Helm) (tracker : RateTracker)
    (batch : list (Z * SignalPacket))
  : list (outcome SecurityResult) * RateTracker :=
  match batch with
  | [] => ([], tracker)
  | (now, signal) :: rest =>
      let '(r, tracker') := validateSignalSecurity helm tracker now signal in
      let '(rs, tracker'') := submitAll helm tracker' rest in
      (r :: rs, tracker'')
  end.

End GatewaySpec.

(* ================================================================== *)
(** ** The world the executor runs in *)
(* ================================================================== *)

Module World.
Import Js Json.

(** [BurnJob], the job descriptor of core/executor.ts. *)
Record BurnJob : Type := {
  jobId : string;
  status : Manifest.JobStatus;
  priority : Manifest.Priority;
  files : list string;
  created : string;
  started : option string;
  completed : option string;
  progress : option Z;
  error : option string;
  retryCount : Z
}.

(** The object [updateJobStatus] writes to status/<jobId>.json. *)
Record StatusUpdate : Type := {
  su_jobId : string;
  su_status : Manifest.JobStatus;
  su_progress : Z;
  su_error : option string;
  su_updated : string;
  su_device : string
}.

(** The object [syncToOneDriveAfterBurn] writes to completed/ and archive/. *)
Record CompletionRecord : Type := {
  cr_jobId : string;
  cr_status : Manifest.JobStatus;
  cr_completedAt : string;
  cr_error : option string;
  cr_device : string;
  cr_syncedToOneDrive : bool
}.

(** The content of a file of the store: one of the objects the executor
    serializes, or a text that is not JSON. *)
Inductive blob : Type :=
| BJob (job : BurnJob)
| BStatus (update : StatusUpdate)
| BCompletion (record : CompletionRecord)
| BOutbound (queue : list UsbSignal.SignalPacket) (lastUpdate : Z)
| BText (text : string).

(** [ExecutorState]. *)
Record ExecutorState : Type := {
  running : bool;
  currentJob : option BurnJob;
  completedJobs : list string;
  failedJobs : list string
}.

(** The store holds the files under /DiscBurn by path, in the order a
    listing returns them.  The environment decides, for each request to the
    store that is still to come, whether it fails ([faults], none left: it
    succeeds), and what each read of signals/inbound.json finds
    ([inboundFeed], none left: no file).  The clock moves in [sleep] only:
    a request to the store or to the signal channel takes no time in the
    model, so two readings of the clock with such requests between them are
    equal here, which the code does not promise. *)
Record World : Type := {
  store : list (string * blob);
  faults : list bool;
  inboundFeed : list (option (list UsbSignal.SignalPacket));
  clock : Z;
  adapter : UsbSignal.Adapter;
  exec : ExecutorState
}.

Definition M (A : Type) : Type := World -> outcome A * World.

Definition ret {A : Type} (a : A) : M A := fun w => (Returned a, w).

Definition bind {A B : Type} (m : M A) (f : A -> M B) : M B :=
  fun w =>
    match m w with
    | (Returned a, w') => f a w'
    | (Thrown msg, w') => (Thrown msg, w')
    end.

Definition throw {A : Type} (msg : string) : M A := fun w => (Thrown msg, w).

(** [try { body } catch (error) { handler(error.message) }]. *)
Definition tryCatch {A : Type} (body : M A) (handler : string -> M A) : M A :=
  fun w =>
    match body w with
    | (Returned a, w') => (Returned a, w')
    | (Thrown msg, w') => handler msg w'
    end.

Notation "x <- m ;; k" := (bind m (fun x => k))
  (at level 61, m at next level, right associativity).
Notation "m ;; k" := (bind m (fun _ => k))
  (at level 61, right associativity).

Definition setStore (s : list (string * blob)) (w : World) : World :=
  {| store := s; faults := faults w; inboundFeed := inboundFeed w;
     clock := clock w; adapter := adapter w; exec := exec w |}.

Definition setFaults (f : list bool) (w : World) : World :=
  {| store := store w; faults := f; inboundFeed := inboundFeed w;
     clock := clock w; adapter := adapter w; exec := exec w |}.

Definition setInboundFeed (f : list (option (list UsbSignal.SignalPacket))) (w : World)
  : World :=
  {| store := store w; faults := faults w; inboundFeed := f;
     clock := clock w; adapter := adapter w; exec := exec w |}.

Definition setClock (t : Z) (w : World) : World :=
  {| store := store w; faults := faults w; inboundFeed := inboundFeed w;
     clock := t; adapter := adapter w; exec := exec w |}.

Definition setAdapter (a : UsbSignal.Adapter) (w : World) : World :=
  {| store := store w; faults := faults w; inboundFeed := inboundFeed w;
     clock := clock w; adapter := a; exec := exec w |}.

Definition setExec (e : ExecutorState) (w : World) : World :=
  {| store := store w; faults := faults w; inboundFeed := inboundFeed w;
     clock := clock w; adapter := adapter w; exec := e |}.

(** [Date.now()]. *)
Definition now : M Z := fun w => (Returned (clock w), w).

(** [await sleep(ms)]. *)
Definition sleep (ms : Z) : M unit := fun w => (Returned tt, setClock (clock w + ms) w).

(** Whether the next request to the store fails. *)
Definition nextFault : M bool :=
  fun w =>
    match faults w with
    | [] => (Returned false, w)
    | f :: rest => (Returned f, setFaults rest w)
    end.

Definition lookup (path : string) (s : list (string * blob)) : option blob :=
  assoc path s.

(** Writing a file: in place where the path exists, at the end otherwise. *)
Fixpoint put (path : string) (b : blob) (s : list (string * blob))
  : list (string * blob) :=
  match s with
  | [] => [(path, b)]
  | (k, v) :: rest =>
      if String.eqb k path then (k, b) :: rest else (k, v) :: put path b rest
  end.

Fixpoint remove (path : string) (s : list (string * blob)) : list (string * blob) :=
  match s with
  | [] => []
  | (k, v) :: rest =>
      if String.eqb k path then rest else (k, v) :: remove path rest
  end.

(** The name of a file that sits directly in [folder]. *)
Definition nameIn (folder path : string) : option string :=
  let pre := folder ++ "/" in
  if startsWith pre path then
    let name := String.substring (String.length pre)
                  (String.length path - String.length pre) path in
    match splitChar "/" name with
    | [_] => Some name
    | _ => None
    end
  else None.

Fixpoint namesIn (folder : string) (s : list (string * blob)) : list string :=
  match s with
  | [] => []
  | (k, _) :: rest =>
      match nameIn folder k with
      | Some name => name :: namesIn folder rest
      | None => namesIn folder rest
      end
  end.

(** adapters/onedrive.ts.  Paths are relative to /DiscBurn. *)

(** [uploadToOneDrive(fileName, content)] throws when the request fails. *)
Definition uploadToOneDrive (fileName : string) (content : blob) : M unit :=
  failed <- nextFault ;;
  if failed then throw "OneDrive request failed"
  else fun w => (Returned tt, setStore (put fileName content (store w)) w).

(** [readFromOneDrive(fileName)] returns [null] when the request fails. *)
Definition readFromOneDrive (fileName : string) : M (option blob) :=
  failed <- nextFault ;;
  if failed then ret None
  else fun w => (Returned (lookup fileName (store w)), w).

(** [deleteFromOneDrive(fileName)] returns [false] when the request fails. *)
Definition deleteFromOneDrive (fileName : string) : M bool :=
  failed <- nextFault ;;
  if failed then ret false
  else fun w =>
    match lookup fileName (store w) with
    | Some _ => (Returned true, setStore (remove fileName (store w)) w)
    | None => (Returned false, w)
    end.

(** [listOneDriveFiles('/DiscBurn/' + folder)]: the names of the files of
    the folder; a folder that does not exist lists as empty; any other
    failure is thrown. *)
Definition listOneDriveFiles (folder : string) : M (list string) :=
  failed <- nextFault ;;
  if failed then throw "OneDrive request failed"
  else fun w => (Returned (namesIn folder (store w)), w).

(** [xs.slice(-n)]. *)
Definition lastN {A : Type} (n : nat) (xs : list A) : list A :=
  skipn (List.length xs - n) xs.

(** The payload of [sendCommand(command, params)]; a property whose value
    is [undefined] does not reach the serialization and is left out. *)
Definition commandPayload (command : string) (params : option json) : json :=
  JObj ([("action", JStr command)]
        ++ match params with
           | Some p => [("params", p)]
           | None => []
           end
        ++ [("source", JStr "phone-cli"); ("target", JStr "dvd557s")])%list.

(** adapters/usb-signal.ts, [sendCommand(command, params)]. *)
Definition sendCommand (command : string) (params : option json)
  : M UsbSignal.SignalPacket :=
  t <- now ;;
  match UsbSignal.createSignal UsbSignal.t_command
          (Some (commandPayload command params)) t with
  | Thrown msg => throw msg
  | Returned signal =>
      (fun w =>
         let a := adapter w in
         (Returned tt,
          setAdapter {| UsbSignal.helm := UsbSignal.helm a;
                        UsbSignal.tracker := UsbSignal.tracker a;
                        UsbSignal.state := UsbSignal.state a;
                        UsbSignal.signalQueue :=
                          (UsbSignal.signalQueue a ++ [signal])%list;
                        UsbSignal.responseBuffer := UsbSignal.responseBuffer a |} w)) ;;
      queue <- (fun w => (Returned (UsbSignal.signalQueue (adapter w)), w)) ;;
      t' <- now ;;
      uploadToOneDrive "signals/outbound.json" (BOutbound (lastN 10 queue) t') ;;
      ret signal
  end.

(** adapters/usb-signal.ts, [receiveSignals()]: the read of
    signals/inbound.json is answered by the environment. *)
Definition receiveSignals : M (list UsbSignal.SignalPacket) :=
  fun w =>
    let '(data, feed) := match inboundFeed w with
                         | [] => (None, [])
                         | d :: rest => (d, rest)
                         end in
    let '(signals, a) := UsbSignal.receiveSignals data (clock w) (adapter w) in
    (Returned signals, setAdapter a (setInboundFeed feed w)).

(** [w'] is [w] but for the store and the faults still to come. *)
Definition sameButStore (w w' : World) : Prop :=
  exec w' = exec w /\ adapter w' = adapter w /\ clock w' = clock w
  /\ inboundFeed w' = inboundFeed w.

End World.

(* ================================================================== *)
(** ** core/executor.ts: the polling executor *)
(* ================================================================== *)

Module Executor.
Import Js Json World.
Import Manifest (JobStatus, Priority, statusName, priorityName).

Definition DEVICE : string := "HP DVD557s".

(** [priorityOrder = { urgent: 0, high: 1, normal: 2, low: 3 }]. *)
Definition priorityOrder (p : Priority) : Z :=
  match p with
  | Manifest.urgent => 0
  | Manifest.high => 1
  | Manifest.normal => 2
  | Manifest.low => 3
  end.

(** [x || d] on numbers: zero is falsy. *)
Definition orNumber (x d : Z) : Z := if x =? 0 then d else x.

(** The rank the comparator gives a job: [priorityOrder[job.priority] || 2]. *)
Definition rank (job : BurnJob) : Z := orNumber (priorityOrder (priority job)) 2.

(** The comparator of [jobs.sort(...)]:
    [(a, b) => (priorityOrder[a.priority] || 2) - (priorityOrder[b.priority] || 2)]. *)
Definition comparePriority (a b : BurnJob) : Z := rank a - rank b.

Definition sortJobs (jobs : list BurnJob) : list BurnJob := sort comparePriority jobs.

(** [JSON.parse(content)] as a job descriptor; a text that is not JSON
    throws.  The model covers a pending/ folder that holds descriptors and
    such texts.  A file there with other JSON in it (a status object,
    [null]) is outside the model: the executor pushes whatever [JSON.parse]
    returns, where the model passes the file over like a text that is not
    JSON. *)
Definition parseJob (content : blob) : outcome BurnJob :=
  match content with
  | BJob job => Returned job
  | _ => Thrown "SyntaxError: Unexpected token"
  end.

(** [if (content)]: an empty text is falsy. *)
Definition nonEmpty (content : blob) : bool :=
  match content with
  | BText t => negb (String.eqb t "")
  | _ => true
  end.

Definition statusJson (u : StatusUpdate) : json :=
  JObj ([("jobId", JStr (su_jobId u));
         ("status", JStr (statusName (su_status u)));
         ("progress", JNum (su_progress u))]
        ++ match su_error u with
           | Some e => [("error", JStr e)]
           | None => []
           end
        ++ [("updated", JStr (su_updated u)); ("device", JStr (su_device u))])%list.

Definition statusPath (jobId : string) : string := "status/" ++ jobId ++ ".json".
Definition pendingPath (jobId : string) : string := "pending/" ++ jobId ++ ".json".
Definition completedPath (jobId : string) : string := "completed/" ++ jobId ++ ".json".
Definition archivePath (date jobId : string) : string :=
  "archive/" ++ date ++ "/" ++ jobId ++ ".json".

(** [updateJobStatus(jobId, status, progress, error)]. *)
Definition updateJobStatus (jobId : string) (status : JobStatus) (progress : Z)
    (error : option string) : M unit :=
  t <- now ;;
  let statusUpdate :=
    {| su_jobId := jobId; su_status := status; su_progress := progress;
       su_error := error; su_updated := toISOString t; su_device := DEVICE |} in
  uploadToOneDrive (statusPath jobId) (BStatus statusUpdate) ;;
  sendCommand "status" (Some (statusJson statusUpdate)) ;;
  ret tt.

(** [syncToOneDriveAfterBurn(jobId, finalStatus, error)]. *)
Definition syncToOneDriveAfterBurn (jobId : string) (finalStatus : JobStatus)
    (error : option string) : M unit :=
  t <- now ;;
  let completionRecord :=
    {| cr_jobId := jobId; cr_status := finalStatus; cr_completedAt := toISOString t;
       cr_error := error; cr_device := DEVICE; cr_syncedToOneDrive := true |} in
  uploadToOneDrive (completedPath jobId) (BCompletion completionRecord) ;;
  t' <- now ;;
  uploadToOneDrive (archivePath (isoDate t') jobId) (BCompletion completionRecord) ;;
  ret tt.

(** [s.payload?.action === 'cancel' && s.payload?.jobId === job.jobId]. *)
Definition isCancelFor (jobId : string) (s : UsbSignal.SignalPacket) : bool :=
  match getProp "action" (UsbSignal.payload s), getProp "jobId" (UsbSignal.payload s) with
  | Some (JStr a), Some (JStr j) => String.eqb a "cancel" && String.eqb j jobId
  | _, _ => false
  end.

(** The way a call of [processJob] ended: at the [return] of the cancel
    branch (with the progress reached), after the last statement of the [try]
    block, or in the [catch] block. *)
Inductive Exit : Type :=
| Cancelled (progress : Z)
| Completed
| Failed (msg : string).

(** [for (let progress = 20; progress <= 90; progress += 10)], over the
    values [progress] takes.  The result is the progress at which the cancel
    branch returned, or [None] when the loop ran to its end. *)
Fixpoint burnLoop (job : BurnJob) (steps : list Z) : M (option Z) :=
  match steps with
  | [] => ret None
  | progress :: rest =>
      sleep 1000 ;;
      updateJobStatus (jobId job) Manifest.burning progress None ;;
      signals <- receiveSignals ;;
      match find (isCancelFor (jobId job)) signals with
      | Some _ =>
          updateJobStatus (jobId job) Manifest.cancelled progress None ;;
          syncToOneDriveAfterBurn (jobId job) Manifest.cancelled None ;;
          ret (Some progress)
      | None => burnLoop job rest
      end
  end.

Definition progressSteps : list Z := [20; 30; 40; 50; 60; 70; 80; 90].

Definition burnParams (job : BurnJob) : json :=
  JObj [("jobId", JStr (jobId job));
        ("files", JArr (map JStr (files job)));
        ("priority", JStr (priorityName (priority job)))].

Definition setCurrentJob (j : option BurnJob) : M unit :=
  fun w =>
    (Returned tt,
     setExec {| running := running (exec w); currentJob := j;
                completedJobs := completedJobs (exec w);
                failedJobs := failedJobs (exec w) |} w).

Definition pushCompleted (id : string) : M unit :=
  fun w =>
    (Returned tt,
     setExec {| running := running (exec w); currentJob := currentJob (exec w);
                completedJobs := (completedJobs (exec w) ++ [id])%list;
                failedJobs := failedJobs (exec w) |} w).

Definition pushFailed (id : string) : M unit :=
  fun w =>
    (Returned tt,
     setExec {| running := running (exec w); currentJob := currentJob (exec w);
                completedJobs := completedJobs (exec w);
                failedJobs := (failedJobs (exec w) ++ [id])%list |} w).

(** The [try] block of [processJob]. *)
Definition processBody (job : BurnJob) : M Exit :=
  updateJobStatus (jobId job) Manifest.queued 0 None ;;
  sendCommand "burn" (Some (burnParams job)) ;;
  updateJobStatus (jobId job) Manifest.burning 10 None ;;
  cancelledAt <- burnLoop job progressSteps ;;
  match cancelledAt with
  | Some progress => ret (Cancelled progress)
  | None =>
      updateJobStatus (jobId job) Manifest.verifying 95 None ;;
      sleep 500 ;;
      updateJobStatus (jobId job) Manifest.complete 100 None ;;
      syncToOneDriveAfterBurn (jobId job) Manifest.complete None ;;
      deleteFromOneDrive (pendingPath (jobId job)) ;;
      pushCompleted (jobId job) ;;
      ret Completed
  end.

(** The [catch] block of [processJob]. *)
Definition processFailure (job : BurnJob) (msg : string) : M Exit :=
  updateJobStatus (jobId job) Manifest.failed 0 (Some msg) ;;
  syncToOneDriveAfterBurn (jobId job) Manifest.failed (Some msg) ;;
  pushFailed (jobId job) ;;
  ret (Failed msg).

(** [processJob(job)].  The [return] of the cancel branch leaves the
    function from inside the [try] block, so the last statement,
    [state.currentJob = null], is not reached on that path. *)
Definition processJob (job : BurnJob) : M Exit :=
  setCurrentJob (Some job) ;;
  exit <- tryCatch (processBody job) (processFailure job) ;;
  match exit with
  | Cancelled _ => ret exit
  | _ => setCurrentJob None ;; ret exit
  end.

(** The loop of [pollAndProcess] that reads and parses the pending files;
    a file that cannot be read or parsed is skipped. *)
Fixpoint readJobs (names : list string) (jobs : list BurnJob) : M (list BurnJob) :=
  match names with
  | [] => ret jobs
  | name :: rest =>
      content <- readFromOneDrive ("pending/" ++ name) ;;
      match content with
      | Some c =>
          if nonEmpty c then
            match parseJob c with
            | Returned job => readJobs rest (jobs ++ [job])%list
            | Thrown _ => readJobs rest jobs
            end
          else readJobs rest jobs
      | None => readJobs rest jobs
      end
  end.

(** The job a poll picks from the descriptors it read: [jobs[0]] after the
    sort. *)
Definition selectJob (jobs : list BurnJob) : option BurnJob := hd_error (sortJobs jobs).

(** [pollAndProcess()].  The result is the job it processed and the way
    that ended, for the record; the function itself returns nothing. *)
Definition pollAndProcess : M (option (BurnJob * Exit)) :=
  tryCatch
    (pendingFiles <- listOneDriveFiles "pending" ;;
     match pendingFiles with
     | [] => ret None
     | _ =>
         jobs <- readJobs pendingFiles [] ;;
         match selectJob jobs with
         | Some job => exit <- processJob job ;; ret (Some (job, exit))
         | None => ret None
         end
     end)
    (fun _ => ret None).

(** [n] rounds of the loop of [startExecutor]:
    [await pollAndProcess(); await sleep(5000)].  The result lists the jobs
    processed, in order. *)
Fixpoint rounds (n : nat) : M (list (BurnJob * Exit)) :=
  match n with
  | O => ret []
  | S n' =>
      r <- pollAndProcess ;;
      sleep 5000 ;;
      rs <- rounds n' ;;
      ret (match r with
           | Some x => x :: rs
           | None => rs
           end)
  end.

(** A status signal of the outbound queue that announces [status]. *)
Definition announces (status : JobStatus) (s : UsbSignal.SignalPacket) : bool :=
  match getProp "action" (UsbSignal.payload s),
        getProp "status" (getProp "params" (UsbSignal.payload s)) with
  | Some (JStr a), Some (JStr st) =>
      String.eqb a "status" && String.eqb st (statusName status)
  | _, _ => false
  end.

(** Neither a [complete] nor a [verifying] status. *)
Definition quiet (s : UsbSignal.SignalPacket) : bool :=
  negb (announces Manifest.complete s) && negb (announces Manifest.verifying s).

(** The status object and the completion record of a job cancelled at
    [progress], written at clock reading [t]. *)
Definition cancelledStatus (job : BurnJob) (progress : Z) (t : Z) : StatusUpdate :=
  {| su_jobId := jobId job; su_status := Manifest.cancelled; su_progress := progress;
     su_error := None; su_updated := toISOString t; su_device := DEVICE |}.

Definition cancelledRecord (job : BurnJob) (t : Z) : CompletionRecord :=
  {| cr_jobId := jobId job; cr_status := Manifest.cancelled;
     cr_completedAt := toISOString t; cr_error := None; cr_device := DEVICE;
     cr_syncedToOneDrive := true |}.

(** The gateway allowed the signal, at clock reading [now] and for some
    state of the rate tracker. *)
Definition validated (h : UsbSignal.Helm) (now : Z) (s : UsbSignal.SignalPacket) : Prop :=
  exists t r,
    fst (UsbSignal.validateSignalSecurity h t now s) = Returned r
    /\ UsbSignal.allowed r = true.

(** From [w0] to [w] the descriptor of the job under pending/ and the
    executor state stayed as they were, the helm too, the outbound queue
    only grew by signals that announce neither [verifying] nor [complete], and
    the response buffer only grew. *)
Definition advanced (id : string) (w0 w : World) : Prop :=
  lookup (pendingPath id) (store w) = lookup (pendingPath id) (store w0)
  /\ exec w = exec w0
  /\ UsbSignal.helm (adapter w) = UsbSignal.helm (adapter w0)
  /\ (exists new,
         UsbSignal.signalQueue (adapter w)
         = (UsbSignal.signalQueue (adapter w0) ++ new)%list
         /\ forallb quiet new = true)
  /\ (exists got,
         UsbSignal.responseBuffer (adapter w)
         = (UsbSignal.responseBuffer (adapter w0) ++ got)%list).

(** The completion record of a job that failed with [msg], written at
    clock reading [t]. *)
Definition failedRecord (job : BurnJob) (msg : string) (t : Z) : CompletionRecord :=
  {| cr_jobId := jobId job; cr_status := Manifest.failed;
     cr_completedAt := toISOString t; cr_error := Some msg; cr_device := DEVICE;
     cr_syncedToOneDrive := true |}.

(** The descriptor of job [id] under pending/ and the executor state are
    the same in [w] and [w']. *)
Definition steady (id : string) (w w' : World) : Prop :=
  lookup (pendingPath id) (store w') = lookup (pendingPath id) (store w)
  /\ exec w' = exec w.

(** Whatever way the action ends, it leaves them alone. *)
Definition keeps (id : string) {A : Type} (m : M A) : Prop :=
  forall w o w', m w = (o, w') -> steady id w w'.

(** When the action throws, it has left them alone. *)
Definition keepsOnThrow (id : string) {A : Type} (m : M A) : Prop :=
  forall w msg w', m w = (Thrown msg, w') -> steady id w w'.

(** The store serves the next [n] requests. *)
Definition serves (n : nat) (w : World) : Prop :=
  forallb negb (firstn n (faults w)) = true.

(** [processJob] from its first statement to the poll of the burning loop
    at progress [p], where [before] lists the values [progress] took in the
    rounds before that one: the result is what the [receiveSignals] of that
    poll returned, or [None] when an earlier round took the cancel
    branch. *)
Definition pollAt (job : BurnJob) (before : list Z) (p : Z)
  : M (option (list UsbSignal.SignalPacket)) :=
  setCurrentJob (Some job) ;;
  updateJobStatus (jobId job) Manifest.queued 0 None ;;
  sendCommand "burn" (Some (burnParams job)) ;;
  updateJobStatus (jobId job) Manifest.burning 10 None ;;
  earlier <- burnLoop job before ;;
  match earlier with
  | Some _ => ret None
  | None =>
      sleep 1000 ;;
      updateJobStatus (jobId job) Manifest.burning p None ;;
      signals <- receiveSignals ;;
      ret (Some signals)
  end.

End Executor.

(* ================================================================== *)
(** ** automate.ts and the retry loop of executeAutomate *)
(* ================================================================== *)

Module Automate.
Import Js Json World.

(** The loop of [fetchPendingJobs]: files whose name does not end in
    .json are passed over. *)
Fixpoint readJobs (names : list string) (jobs : list BurnJob) : M (list BurnJob) :=
  match names with
  | [] => ret jobs
  | name :: rest =>
      if negb (endsWith ".json" name) then readJobs rest jobs
      else
        content <- readFromOneDrive ("pending/" ++ name) ;;
        match content with
        | Some c =>
            if Executor.nonEmpty c then
              match Executor.parseJob c with
              | Returned job => readJobs rest (jobs ++ [job])%list
              | Thrown _ => readJobs rest jobs
              end
            else readJobs rest jobs
        | None => readJobs rest jobs
        end
  end.

(** automate.ts, [fetchPendingJobs()]; the comparator is the one of
    core/executor.ts. *)
Definition fetchPendingJobs : M (list BurnJob) :=
  tryCatch
    (names <- listOneDriveFiles "pending" ;;
     jobs <- readJobs names [] ;;
     ret (sort Executor.comparePriority jobs))
    (fun _ => ret []).

(** A parsed status file as [executeAutomate] reads it: [retryCount] is
    [None] where the object has no such property. *)
Record StatusObject : Type := {
  so_jobId : string;
  so_status : string;
  so_retryCount : option Z;
  so_retriedAt : option string
}.

(** [status.status === 'failed' && status.retryCount < 3]; the comparison
    of [undefined] with a number is false. *)
Definition shouldRequeue (s : StatusObject) : bool :=
  String.eqb (so_status s) "failed"
  && match so_retryCount s with
     | Some n => n <? 3
     | None => false
     end.

(** The object written to pending/<jobId>.json:
    [{ ...status, status: 'pending', retryCount: (status.retryCount || 0) + 1,
       retriedAt }]. *)
Definition requeued (s : StatusObject) (nowIso : string) : StatusObject :=
  {| so_jobId := so_jobId s;
     so_status := "pending";
     so_retryCount := Some (match so_retryCount s with
                            | Some n => Executor.orNumber n 0
                            | None => 0
                            end + 1);
     so_retriedAt := Some nowIso |}.

(** The status object [updateJobStatus] and [updateStatus] write, as
    [executeAutomate] reads it back: it has no [retryCount]. *)
Definition ofStatusUpdate (u : StatusUpdate) : StatusObject :=
  {| so_jobId := su_jobId u;
     so_status := Manifest.statusName (su_status u);
     so_retryCount := None;
     so_retriedAt := None |}.

End Automate.

(* ================================================================== *)
(** ** The hash of the checksum functions, as a polynomial *)
(* ================================================================== *)

Module Hashing.
Import Js.

(** The hash with the arithmetic left unbounded: [hash * 31 + c] for each
    code unit in turn. *)
Definition polynomial (hash : Z) (s : string) : Z :=
  fold_left (fun h c => 31 * h + charCode c) (list_ascii_of_string s) hash.

(** The value of one lower-case hexadecimal digit. *)
Definition hexDigitValue (c : ascii) : option Z :=
  let n := charCode c in
  if (48 <=? n) && (n <=? 57) then Some (n - 48)
  else if (97 <=? n) && (n <=? 102) then Some (n - 87)
  else None.

Fixpoint hexValueFrom (acc : Z) (s : string) : option Z :=
  match s with
  | EmptyString => Some acc
  | String c rest =>
      match hexDigitValue c with
      | Some d => hexValueFrom (16 * acc + d) rest
      | None => None
      end
  end.

(** The number a lower-case hexadecimal numeral denotes, read from the
    most significant digit; [None] for the empty text and for a text with
    any other character. *)
Definition hexValue (s : string) : option Z :=
  match s with
  | EmptyString => None
  | _ => hexValueFrom 0 s
  end.

End Hashing.

(* ================================================================== *)
(** ** Histories and paths of the manifest state machine *)
(* ================================================================== *)

Module ManifestPaths.
Import Js Manifest.

Definition optStatus_eqb (a : option JobStatus) (b : JobStatus) : bool :=
  match a with
  | Some s => JobStatus_eqb s b
  | None => false
  end.

(** Starting in state [prev], every record of [rs] leaves the state the
    one before it reached, by a move of [VALID_TRANSITIONS]. *)
Fixpoint chained (prev : JobStatus) (rs : list StateTransition) : bool :=
  match rs with
  | [] => true
  | r :: rest =>
      optStatus_eqb (from r) prev && isValidTransition prev (to r) && chained (to r) rest
  end.

(** The state a history ends in. *)
Definition endState (start : JobStatus) (rs : list StateTransition) : JobStatus :=
  fold_left (fun _ r => to r) rs start.

(** A history opens with the creation record and goes on by valid moves. *)
Definition legalHistory (rs : list StateTransition) : Prop :=
  match rs with
  | [] => False
  | r :: rest =>
      from r = None /\ to r = created
      /\ chained created rest = true
  end.

(** What every history satisfies, with the state the history ends in. *)
Definition tracked (m : BurnManifest) : Prop :=
  exists r rest,
    states (lifecycle m) = r :: rest
    /\ from r = None /\ to r = created
    /\ chained created rest = true
    /\ currentState (lifecycle m) = endState created rest.

(** The last-modified stamp is the time of the last record. *)
Definition stampedByLast (m : BurnManifest) : Prop :=
  option_map timestamp (lastOf (states (lifecycle m))) = Some (updated (job m)).

(** Call [transitionState] for each state of [path] in turn, at the clock
    readings [now], [now + 1], ...; stop at the first call that throws. *)
Fixpoint drive (m : BurnManifest) (path : list JobStatus) (actor : string) (now : Z)
  : outcome BurnManifest * BurnManifest :=
  match path with
  | [] => (Returned m, m)
  | s :: rest =>
      match transitionState m s actor None now with
      | (Returned m', _) => drive m' rest actor (now + 1)
      | (Thrown msg, m') => (Thrown msg, m')
      end
  end.

(** A way from each state to [complete]. *)
Definition pathToComplete (s : JobStatus) : list JobStatus :=
  match s with
  | created => [pending; queued; downloading; burning; verifying; complete]
  | pending => [queued; downloading; burning; verifying; complete]
  | queued => [downloading; burning; verifying; complete]
  | downloading => [burning; verifying; complete]
  | burning => [verifying; complete]
  | verifying => [complete]
  | complete => []
  | failed => [pending; queued; downloading; burning; verifying; complete]
  | cancelled => [pending; queued; downloading; burning; verifying; complete]
  end.

(** [a] is not after [b] in code-unit order, the order of [sort()]. *)
Definition notAfter (a b : string) : Prop := defaultCompare a b <= 0.

(** [options] with another list of files. *)
Definition withFiles (options : ManifestOptions) (fs : list string) : ManifestOptions :=
  {| o_jobId := o_jobId options; o_files := fs; o_target := o_target options;
     o_priority := o_priority options; o_device := o_device options |}.

End ManifestPaths.

(* ================================================================== *)
(** ** adapters/usb-signal.ts: the commands built on [sendCommand] *)
(* ================================================================== *)

Module SignalCommands.
Import Js Json World.

(** [sendBurnCommand(jobId, files)]. *)
Definition sendBurnCommand (jobId : string) (files : list string)
  : M UsbSignal.SignalPacket :=
  sendCommand "burn"
    (Some (JObj [("jobId", JStr jobId); ("files", JArr (map JStr files));
                 ("device", JStr "HP-DVD557s"); ("discType", JStr "DVD-R")])).

(** [sendStatusRequest()]. *)
Definition sendStatusRequest : M UsbSignal.SignalPacket :=
  t <- now ;;
  sendCommand "status" (Some (JObj [("requestId", JNum t)])).

(** [sendCancel(jobId)], [sendPause(jobId)] and [sendResume(jobId)]. *)
Definition sendCancel (jobId : string) : M UsbSignal.SignalPacket :=
  sendCommand "cancel" (Some (JObj [("jobId", JStr jobId)])).

Definition sendPause (jobId : string) : M UsbSignal.SignalPacket :=
  sendCommand "pause" (Some (JObj [("jobId", JStr jobId)])).

Definition sendResume (jobId : string) : M UsbSignal.SignalPacket :=
  sendCommand "resume" (Some (JObj [("jobId", JStr jobId)])).

(** [l] ends with [suffix]. *)
Definition endsWithList {A : Type} (suffix l : list A) : Prop :=
  exists front, l = (front ++ suffix)%list.

End SignalCommands.

(* ================================================================== *)
(** ** adapters/usb-signal.ts: probing for the drive *)
(* ================================================================== *)

Module Probe.
Import Js Json UsbSignal.

(** What the probe finds around it: [usb] is the answer of
    [navigator.usb.getDevices()], the serial number of each device where it
    has one, or [None] where there is no [navigator.usb]; [dev] is the listing
    of /dev, empty where the directory cannot be read, or the exception of
    the import of fs/promises. *)
Record Surroundings : Type := {
  usb : option (outcome (list (option string)));
  dev : outcome (list string)
}.

Definition setConnection (c : bool) (id : option string) (caps : list string)
    (s : DeviceState) : DeviceState :=
  {| connected := c; ready := ready s; lastSignal := lastSignal s;
     st_deviceId := id; capabilities := caps |}.

Definition setConnected (c : bool) (s : DeviceState) : DeviceState :=
  {| connected := c; ready := ready s; lastSignal := lastSignal s;
     st_deviceId := st_deviceId s; capabilities := capabilities s |}.

Definition setLastSignal (t : Z) (s : DeviceState) : DeviceState :=
  {| connected := connected s; ready := ready s; lastSignal := t;
     st_deviceId := st_deviceId s; capabilities := capabilities s |}.

Definition withState (s : DeviceState) (a : Adapter) : Adapter :=
  {| helm := helm a; tracker := tracker a; state := s;
     signalQueue := signalQueue a; responseBuffer := responseBuffer a |}.

(** [devices[0].serialNumber || 'USB-DEVICE']. *)
Definition serialOf (d : option string) : string :=
  match d with
  | Some s => if String.eqb s "" then "USB-DEVICE" else s
  | None => "USB-DEVICE"
  end.

Definition optical (d : string) : bool :=
  startsWith "sr" d || startsWith "cdrom" d || startsWith "dvd" d.

Definition probePayload : json :=
  JObj [("action", JStr "probe"); ("target", JStr "HP-DVD557s")].

(** The probe signal, made at clock reading [t0]. *)
Definition probeSignal (t0 : Z) : SignalPacket :=
  {| type := t_command; direction := outbound; timestamp := t0;
     payload := Some probePayload;
     checksum := toString16 (rollingHash (stringify probePayload));
     source := None; deviceId := None |}.

(** The state after the USB branch. *)
Definition afterUsb (devices : list (option string)) (s : DeviceState) : DeviceState :=
  match devices with
  | d :: _ => setConnection true (Some (serialOf d)) ["read"; "write"; "burn"] s
  | [] => s
  end.

(** The state after the look at /dev. *)
Definition afterDev (devs : list string) (s : DeviceState) : DeviceState :=
  match filter optical devs with
  | d :: _ => setConnection true (Some d) ["read"; "write"; "burn"] s
  | [] => s
  end.

(** [probeConnection()]: the probe signal is made at clock reading [t0],
    [state.lastSignal] is set at [t1].  The result is the adapter afterwards;
    the function returns its [state]. *)
Definition probeConnection (env : Surroundings) (t0 t1 : Z) (a : Adapter) : Adapter :=
  let s1 :=
    match usb env with
    | None => Returned (state a)
    | Some (Returned devices) => Returned (afterUsb devices (state a))
    | Some (Thrown msg) => Thrown msg
    end in
  match s1 with
  | Thrown _ => withState (setConnected false (state a)) a
  | Returned s1 =>
      match dev env with
      | Thrown _ => withState (setConnected false s1) a
      | Returned devs =>
          {| helm := helm a; tracker := tracker a;
             state := setLastSignal t1 (afterDev devs s1);
             signalQueue := (signalQueue a ++ [probeSignal t0])%list;
             responseBuffer := responseBuffer a |}
      end
  end.

(** The probe ran to the end of its [try] block. *)
Definition completes (env : Surroundings) : bool :=
  match usb env, dev env with
  | Some (Thrown _), _ => false
  | _, Thrown _ => false
  | _, _ => true
  end.

End Probe.

(* ================================================================== *)
(** ** What the matcher of regular expressions computes *)
(* ================================================================== *)

Module RegExpSemantics.
Import RegExp.

(** Some non-empty prefix of [s] matches [r]. *)
Fixpoint anyPrefix (r : regex) (s : string) : bool :=
  match s with
  | EmptyString => false
  | String c rest => nullable (deriv c r) || anyPrefix (deriv c r) rest
  end.

(** Some non-empty part of [s] matches [r]. *)
Fixpoint anyPart (r : regex) (s : string) : bool :=
  match s with
  | EmptyString => false
  | String c rest => anyPrefix r s || anyPart r rest
  end.

End RegExpSemantics.

(* ================================================================== *)
(** ** core/burn-executor.ts: the single burn and the completed job *)
(* ================================================================== *)

Module SingleBurn.
Import Js Json World Executor.

(** The result object [{ success, message }]. *)
Record BurnResult : Type := { success : bool; message : string }.

(** [runSingleBurn(jobId)]. *)
Definition runSingleBurn (jobId : string) : M BurnResult :=
  tryCatch
    (content <- readFromOneDrive ("pending/" ++ jobId ++ ".json") ;;
     match content with
     | Some c =>
         if nonEmpty c then
           match parseJob c with
           | Returned job =>
               processJob job ;;
               ret {| success := true;
                      message := "Burn complete: " ++ jobId ++ " -> synced to OneDrive" |}
           | Thrown msg => throw msg
           end
         else ret {| success := false; message := "Job not found: " ++ jobId |}
     | None => ret {| success := false; message := "Job not found: " ++ jobId |}
     end)
    (fun msg => ret {| success := false; message := msg |}).

(** The status object and the completion record of a completed job,
    written at clock reading [t]. *)
Definition completeStatus (job : BurnJob) (t : Z) : StatusUpdate :=
  {| su_jobId := jobId job; su_status := Manifest.complete; su_progress := 100;
     su_error := None; su_updated := toISOString t; su_device := DEVICE |}.

Definition completeRecord (job : BurnJob) (t : Z) : CompletionRecord :=
  {| cr_jobId := jobId job; cr_status := Manifest.complete;
     cr_completedAt := toISOString t; cr_error := None; cr_device := DEVICE;
     cr_syncedToOneDrive := true |}.

End SingleBurn.

(* ================================================================== *)
(** ** The pending folder as the executor sees it *)
(* ================================================================== *)

Module PendingFolder.
Import Js Json World Executor.

(** The file sits directly in pending/. *)
Definition inPending (path : string) : bool :=
  match nameIn "pending" path with
  | Some _ => true
  | None => false
  end.

(** The entries of the store that sit directly in pending/, in the order
    of the store. *)
Definition pendingView (s : list (string * blob)) : list (string * blob) :=
  filter (fun kv => inPending (fst kv)) s.

(** What the reading loop of [pollAndProcess] collects from the files
    [names] when every read is served. *)
Fixpoint readAll (s : list (string * blob)) (names : list string) (jobs : list BurnJob)
  : list BurnJob :=
  match names with
  | [] => jobs
  | name :: rest =>
      match lookup ("pending/" ++ name) s with
      | Some c =>
          if nonEmpty c then
            match parseJob c with
            | Returned job => readAll s rest (jobs ++ [job])%list
            | Thrown _ => readAll s rest jobs
            end
          else readAll s rest jobs
      | None => readAll s rest jobs
      end
  end.

(** The descriptors of [jobs], each filed under its own job id. *)
Definition filed (jobs : list BurnJob) : list (string * blob) :=
  map (fun j => (pendingPath (jobId j), BJob j)) jobs.

(** [jobs] without the job whose id is [id]. *)
Definition without (id : string) (jobs : list BurnJob) : list BurnJob :=
  filter (fun j => negb (String.eqb (jobId j) id)) jobs.

(** Nothing fails and nothing arrives: every request to the store succeeds
    and signals/inbound.json is absent. *)
Definition undisturbed (w : World) : Prop :=
  faults w = [] /\ inboundFeed w = [].

(** A step that leaves the pending folder and the executor state as they
    were, in a world that stays undisturbed. *)
Definition calm (w w' : World) : Prop :=
  undisturbed w'
  /\ pendingView (store w') = pendingView (store w)
  /\ exec w' = exec w.

End PendingFolder.

(* ================================================================== *)
(** ** automate.ts: the automation script *)
(* ================================================================== *)

(** The script runs as a process of its own, with its own variables
    [processedJobs] and [failedJobs]; its status objects carry free-text
    phase names, so its files have a type of their own. *)
Module Script.
Import Js Json.
Import Manifest (Priority).

(** [interface BurnJob] of automate.ts; [files] may be missing. *)
Record BurnJob : Type := {
  jobId : string;
  status : string;
  priority : Priority;
  files : option (list string);
  created : string;
  progress : option Z
}.

(** The object [updateStatus] writes. *)
Record StatusUpdate : Type := {
  su_jobId : string;
  su_status : string;
  su_progress : Z;
  su_error : option string;
  su_updated : string;
  su_device : string
}.

(** The object [syncCompletion] writes. *)
Record CompletionRecord : Type := {
  cr_jobId : string;
  cr_status : string;
  cr_completedAt : string;
  cr_error : option string;
  cr_device : string
}.

Inductive file : Type :=
| FJob (job : BurnJob)
| FStatus (update : StatusUpdate)
| FCompletion (record : CompletionRecord)
| FText (text : string).

(** [config.maxRetries]. *)
Definition maxRetries : Z := 3.

(** The files under /DiscBurn, the failures of the requests still to come
    (none left: the request succeeds), the clock, and the two variables of
    the module: [processedJobs] and the [failedJobs] map, in insertion
    order. *)
Record State : Type := {
  store : list (string * file);
  faults : list bool;
  clock : Z;
  processedJobs : list string;
  failedJobs : list (string * Z)
}.

Definition M (A : Type) : Type := State -> outcome A * State.

Definition ret {A : Type} (a : A) : M A := fun w => (Returned a, w).

Definition bind {A B : Type} (m : M A) (f : A -> M B) : M B :=
  fun w =>
    match m w with
    | (Returned a, w') => f a w'
    | (Thrown msg, w') => (Thrown msg, w')
    end.

Definition throw {A : Type} (msg : string) : M A := fun w => (Thrown msg, w).

Definition tryCatch {A : Type} (body : M A) (handler : string -> M A) : M A :=
  fun w =>
    match body w with
    | (Returned a, w') => (Returned a, w')
    | (Thrown msg, w') => handler msg w'
    end.

Notation "x <- m ;; k" := (bind m (fun x => k))
  (at level 61, m at next level, right associativity).
Notation "m ;; k" := (bind m (fun _ => k))
  (at level 61, right associativity).

Definition setStore (s : list (string * file)) (w : State) : State :=
  {| store := s; faults := faults w; clock := clock w;
     processedJobs := processedJobs w; failedJobs := failedJobs w |}.

Definition setFaults (f : list bool) (w : State) : State :=
  {| store := store w; faults := f; clock := clock w;
     processedJobs := processedJobs w; failedJobs := failedJobs w |}.

Definition now : M Z := fun w => (Returned (clock w), w).

Definition sleep (ms : Z) : M unit :=
  fun w => (Returned tt,
            {| store := store w; faults := faults w; clock := clock w + ms;
               processedJobs := processedJobs w; failedJobs := failedJobs w |}).

Definition nextFault : M bool :=
  fun w =>
    match faults w with
    | [] => (Returned false, w)
    | f :: rest => (Returned f, setFaults rest w)
    end.

Definition lookup (path : string) (s : list (string * file)) : option file :=
  assoc path s.

Fixpoint put (path : string) (b : file) (s : list (string * file))
  : list (string * file) :=
  match s with
  | [] => [(path, b)]
  | (k, v) :: rest =>
      if String.eqb k path then (k, b) :: rest else (k, v) :: put path b rest
  end.

Fixpoint remove (path : string) (s : list (string * file)) : list (string * file) :=
  match s with
  | [] => []
  | (k, v) :: rest =>
      if String.eqb k path then rest else (k, v) :: remove path rest
  end.

Fixpoint namesIn (folder : string) (s : list (string * file)) : list string :=
  match s with
  | [] => []
  | (k, _) :: rest =>
      match World.nameIn folder k with
      | Some name => name :: namesIn folder rest
      | None => namesIn folder rest
      end
  end.

(** adapters/onedrive.ts, as the script calls it. *)
Definition uploadToOneDrive (fileName : string) (content : file) : M unit :=
  failed <- nextFault ;;
  if failed then throw "OneDrive request failed"
  else fun w => (Returned tt, setStore (put fileName content (store w)) w).

Definition readFromOneDrive (fileName : string) : M (option file) :=
  failed <- nextFault ;;
  if failed then ret None
  else fun w => (Returned (lookup fileName (store w)), w).

Definition deleteFromOneDrive (fileName : string) : M bool :=
  failed <- nextFault ;;
  if failed then ret false
  else fun w =>
    match lookup fileName (store w) with
    | Some _ => (Returned true, setStore (remove fileName (store w)) w)
    | None => (Returned false, w)
    end.

Definition listOneDriveFiles (folder : string) : M (list string) :=
  failed <- nextFault ;;
  if failed then throw "OneDrive request failed"
  else fun w => (Returned (namesIn folder (store w)), w).

(** [JSON.parse(content)] as a job descriptor.  The model covers a
    pending/ folder that holds descriptors and texts that are not JSON.  A
    file there with other JSON in it (a status object, [null]) is outside
    the model: the script pushes whatever [JSON.parse] returns, where the
    model passes the file over. *)
Definition parseJob (content : file) : outcome BurnJob :=
  match content with
  | FJob job => Returned job
  | _ => Thrown "SyntaxError: Unexpected token"
  end.

Definition nonEmpty (content : file) : bool :=
  match content with
  | FText t => negb (String.eqb t "")
  | _ => true
  end.

(** [priorityOrder[job.priority] || 2]. *)
Definition rank (job : BurnJob) : Z :=
  Executor.orNumber (Executor.priorityOrder (priority job)) 2.

Definition comparePriority (a b : BurnJob) : Z := rank a - rank b.

(** The loop of [fetchPendingJobs]. *)
Fixpoint readJobs (names : list string) (jobs : list BurnJob) : M (list BurnJob) :=
  match names with
  | [] => ret jobs
  | name :: rest =>
      if negb (endsWith ".json" name) then readJobs rest jobs
      else
        content <- readFromOneDrive ("pending/" ++ name) ;;
        match content with
        | Some c =>
            if nonEmpty c then
              match parseJob c with
              | Returned job => readJobs rest (jobs ++ [job])%list
              | Thrown _ => readJobs rest jobs
              end
            else readJobs rest jobs
        | None => readJobs rest jobs
        end
  end.

(** [fetchPendingJobs()]. *)
Definition fetchPendingJobs : M (list BurnJob) :=
  tryCatch
    (names <- listOneDriveFiles "pending" ;;
     jobs <- readJobs names [] ;;
     ret (sort comparePriority jobs))
    (fun _ => ret []).

(** [updateStatus(jobId, status, progress, error)]. *)
Definition updateStatus (jobId : string) (status : string) (progress : Z)
    (error : option string) : M unit :=
  t <- now ;;
  uploadToOneDrive ("status/" ++ jobId ++ ".json")
    (FStatus {| su_jobId := jobId; su_status := status; su_progress := progress;
                su_error := error; su_updated := toISOString t;
                su_device := "HP DVD557s" |}).

(** The simulated burn phases. *)
Definition phases : list (string * Z) :=
  [("Preparing", 10); ("Writing lead-in", 20); ("Burning data", 50);
   ("Writing lead-out", 80); ("Verifying", 95)].

Fixpoint runPhases (jobId : string) (ps : list (string * Z)) : M unit :=
  match ps with
  | [] => ret tt
  | (name, progress) :: rest =>
      updateStatus jobId name progress None ;;
      sleep 2000 ;;
      runPhases jobId rest
  end.

(** [executeBurn(job)]. *)
Definition executeBurn (job : BurnJob) : M bool :=
  tryCatch
    (updateStatus (jobId job) "burning" 0 None ;;
     runPhases (jobId job) phases ;;
     updateStatus (jobId job) "complete" 100 None ;;
     ret true)
    (fun msg =>
       updateStatus (jobId job) "failed" 0 (Some msg) ;;
       ret false).

(** [syncCompletion(jobId, success, error)]. *)
Definition syncCompletion (jobId : string) (success : bool) (error : option string)
  : M unit :=
  t <- now ;;
  let record :=
    {| cr_jobId := jobId;
       cr_status := if success then "complete" else "failed";
       cr_completedAt := toISOString t;
       cr_error := error;
       cr_device := "HP DVD557s" |} in
  uploadToOneDrive ("completed/" ++ jobId ++ ".json") (FCompletion record) ;;
  t' <- now ;;
  uploadToOneDrive ("archive/" ++ isoDate t' ++ "/" ++ jobId ++ ".json")
    (FCompletion record) ;;
  deleteFromOneDrive ("pending/" ++ jobId ++ ".json") ;;
  ret tt.

(** [failedJobs.get(id) || 0]. *)
Definition failures (id : string) (w : State) : Z :=
  match assoc id (failedJobs w) with
  | Some n => Executor.orNumber n 0
  | None => 0
  end.

(** [failedJobs.set(id, n)]: in place where the key exists, at the end
    otherwise. *)
Fixpoint setCount (id : string) (n : Z) (m : list (string * Z)) : list (string * Z) :=
  match m with
  | [] => [(id, n)]
  | (k, v) :: rest =>
      if String.eqb k id then (k, n) :: rest else (k, v) :: setCount id n rest
  end.

Definition processed (id : string) (w : State) : bool :=
  existsb (String.eqb id) (processedJobs w).

(** The filter of [processNextJob]. *)
Definition eligible (w : State) (j : BurnJob) : bool :=
  negb (processed (jobId j) w) && (failures (jobId j) w <? maxRetries).

Definition pushProcessed (id : string) : M unit :=
  fun w => (Returned tt,
            {| store := store w; faults := faults w; clock := clock w;
               processedJobs := (processedJobs w ++ [id])%list;
               failedJobs := failedJobs w |}).

Definition setFailures (id : string) (n : Z) : M unit :=
  fun w => (Returned tt,
            {| store := store w; faults := faults w; clock := clock w;
               processedJobs := processedJobs w;
               failedJobs := setCount id n (failedJobs w) |}).

(** [processNextJob()].  The result is the job it executed and whether
    the burn succeeded, for the record; the function itself returns whether
    there was a job. *)
Definition processNextJob : M (option (BurnJob * bool)) :=
  jobs <- fetchPendingJobs ;;
  pending <- (fun w => (Returned (filter (eligible w) jobs), w)) ;;
  match pending with
  | [] => ret None
  | job :: _ =>
      success <- executeBurn job ;;
      (if success then
         pushProcessed (jobId job) ;;
         syncCompletion (jobId job) true None
       else
         retries <- (fun w => (Returned (failures (jobId job) w + 1), w)) ;;
         setFailures (jobId job) retries ;;
         if retries >=? maxRetries then
           syncCompletion (jobId job) false (Some "Max retries exceeded")
         else ret tt) ;;
      ret (Some (job, success))
  end.

(** [n] rounds of the loop of [runAutomation]:
    [await processNextJob(); await sleep(config.pollInterval)], with the
    default interval.  Nothing in the loop catches an exception. *)
Fixpoint rounds (n : nat) : M (list (BurnJob * bool)) :=
  match n with
  | O => ret []
  | S n' =>
      r <- processNextJob ;;
      sleep 5000 ;;
      rs <- rounds n' ;;
      ret (match r with
           | Some x => x :: rs
           | None => rs
           end)
  end.

(** How often the job [id] was executed in a run. *)
Definition executions (id : string) (run : list (BurnJob * bool)) : Z :=
  Z.of_nat (List.length (filter (fun r => String.eqb (jobId (fst r)) id) run)).

(** How often the job [id] may still be executed. *)
Definition budget (id : string) (w : State) : Z :=
  if processed id w then 0 else Z.max 0 (maxRetries - failures id w).

(** The script as it starts. *)
Definition initial (files : list (string * file)) (fs : list bool) (t : Z) : State :=
  {| store := files; faults := fs; clock := t; processedJobs := []; failedJobs := [] |}.

(** The two variables of the module are the same in [w] and [w']. *)
Definition sameCounters (w w' : State) : Prop :=
  processedJobs w' = processedJobs w /\ failedJobs w' = failedJobs w.

(** However the action ends, it leaves the two variables alone. *)
Definition keepsCounters {A : Type} (m : M A) : Prop :=
  forall w o w', m w = (o, w') -> sameCounters w w'.

(** What one round costs the job [id]: one execution when the round
    executed it. *)
Definition charge (id : string) (r : option (BurnJob * bool)) : Z :=
  match r with
  | Some (job, _) => if String.eqb (jobId job) id then 1 else 0
  | None => 0
  end.

(** However the action ends, it leaves every file but [path] as it
    was. *)
Definition touchesOnly (path : string) {A : Type} (m : M A) : Prop :=
  forall w o w', m w = (o, w') ->
    forall other, path <> other -> lookup other (store w') = lookup other (store w).

(** However the action ends, it leaves the store as it was. *)
Definition readsOnly {A : Type} (m : M A) : Prop :=
  forall w o w', m w = (o, w') -> store w' = store w.

End Script.

(* ================================================================== *)
(** ** core/admin.ts and storage/fileStorage.ts: the audit log and the
       command history *)
(* ================================================================== *)

Module Admin.
Import Js Json.

(** [xs.slice(start)] for an integer [start]: a negative [start] counts
    from the end. *)
Definition sliceFrom {A : Type} (start : Z) (xs : list A) : list A :=
  let len := Z.of_nat (List.length xs) in
  let k := if start <? 0 then Z.max (len + start) 0 else Z.min start len in
  skipn (Z.to_nat k) xs.

Inductive Level : Type := info | warn | error | admin.
Inductive Result : Type := success | failure.

(** [AuditEntry]. *)
Record AuditEntry : Type := {
  id : string;
  timestamp : string;
  level : Level;
  category : string;
  action : string;
  actor : string;
  target : option string;
  details : option json;
  result : Result
}.

(** [Omit<AuditEntry, 'id' | 'timestamp'>]. *)
Record AuditInput : Type := {
  i_level : Level;
  i_category : string;
  i_action : string;
  i_actor : string;
  i_target : option string;
  i_details : option json;
  i_result : Result
}.

(** [{ ...entry, id: `audit-${Date.now()}`, timestamp }] at clock reading
    [now]. *)
Definition stamp (entry : AuditInput) (now : Z) : AuditEntry :=
  {| id := "audit-" ++ toString10 now;
     timestamp := toISOString now;
     level := i_level entry; category := i_category entry;
     action := i_action entry; actor := i_actor entry;
     target := i_target entry; details := i_details entry;
     result := i_result entry |}.

(** The way a failing [fs.writeFile] ends.  The call opens the file for
    writing, which empties it, and then writes the text: a call that fails
    before the file is open leaves the file as it was, one that fails
    afterwards leaves an empty or cut-off text, which is not JSON. *)
Inductive WriteError : Type :=
| OpenFails (msg : string)
| WriteFails (msg : string).

(** data/audit.json: the entries it holds, or [None] where the file is
    missing or is not JSON.  [writeFaults] tells, for each write still to
    come, the way it fails, [None] where it succeeds (none left: it
    succeeds). *)
Record Files : Type := {
  audit : option (list AuditEntry);
  writeFaults : list (option WriteError)
}.

(** The way the next write ends, and the faults left for the writes after
    it. *)
Definition nextWrite (faults : list (option WriteError))
  : option WriteError * list (option WriteError) :=
  match faults with
  | [] => (None, [])
  | fault :: rest => (fault, rest)
  end.

(** [readJsonFile(ADMIN_LOG_FILE, { entries: [] })]. *)
Definition readAudit (fs : Files) : list AuditEntry :=
  match audit fs with
  | Some entries => entries
  | None => []
  end.

(** [writeJsonFile(ADMIN_LOG_FILE, { entries })]. *)
Definition writeJsonFile (entries : list AuditEntry) (fs : Files) : outcome unit * Files :=
  let '(fault, rest) := nextWrite (writeFaults fs) in
  match fault with
  | None => (Returned tt, {| audit := Some entries; writeFaults := rest |})
  | Some (OpenFails msg) => (Thrown msg, {| audit := audit fs; writeFaults := rest |})
  | Some (WriteFails msg) => (Thrown msg, {| audit := None; writeFaults := rest |})
  end.

(** [logAudit(entry)] at clock reading [now]. *)
Definition logAudit (entry : AuditInput) (now : Z) (fs : Files) : outcome unit * Files :=
  let entries := (readAudit fs ++ [stamp entry now])%list in
  let trimmed := sliceFrom (-500) entries in
  writeJsonFile trimmed fs.

(** [getAuditLog(limit)]. *)
Definition getAuditLog (limit : Z) (fs : Files) : list AuditEntry :=
  sliceFrom (- limit) (readAudit fs).

(** A series of [logAudit] calls, each at its clock reading; the series
    stops at the first call that throws. *)
Fixpoint logAll (calls : list (AuditInput * Z)) (fs : Files) : outcome unit * Files :=
  match calls with
  | [] => (Returned tt, fs)
  | (entry, now) :: rest =>
      match logAudit entry now fs with
      | (Returned _, fs') => logAll rest fs'
      | (Thrown msg, fs') => (Thrown msg, fs')
      end
  end.

End Admin.

Module History.
Import Js Json.

(** [HistoryEntry]. *)
Record HistoryEntry : Type := {
  id : string;
  input : string;
  result : string;
  success : bool;
  timestamp : string
}.

Record HistoryInput : Type := {
  i_input : string;
  i_result : string;
  i_success : bool
}.

Definition stamp (entry : HistoryInput) (now : Z) : HistoryEntry :=
  {| id := toString10 now; input := i_input entry; result := i_result entry;
     success := i_success entry; timestamp := toISOString now |}.

(** data/history.json, or [None] where the file is missing or is not
    JSON; [writeFaults] as for the audit log. *)
Record Files : Type := {
  history : option (list HistoryEntry);
  writeFaults : list (option Admin.WriteError)
}.

(** [writeJsonFile(HISTORY_FILE, entries)]. *)
Definition writeJsonFile (entries : list HistoryEntry) (fs : Files) : outcome unit * Files :=
  let '(fault, rest) := Admin.nextWrite (writeFaults fs) in
  match fault with
  | None => (Returned tt, {| history := Some entries; writeFaults := rest |})
  | Some (Admin.OpenFails msg) =>
      (Thrown msg, {| history := history fs; writeFaults := rest |})
  | Some (Admin.WriteFails msg) =>
      (Thrown msg, {| history := None; writeFaults := rest |})
  end.

(** [getHistory()]. *)
Definition getHistory (fs : Files) : list HistoryEntry :=
  match history fs with
  | Some entries => entries
  | None => []
  end.

(** [addToHistory(entry)] at clock reading [now]. *)
Definition addToHistory (entry : HistoryInput) (now : Z) (fs : Files)
  : outcome unit * Files :=
  let trimmed := Admin.sliceFrom (-100) (getHistory fs ++ [stamp entry now])%list in
  writeJsonFile trimmed fs.

(** A series of [addToHistory] calls, each at its clock reading. *)
Fixpoint addAll (calls : list (HistoryInput * Z)) (fs : Files) : outcome unit * Files :=
  match calls with
  | [] => (Returned tt, fs)
  | (entry, now) :: rest =>
      match addToHistory entry now fs with
      | (Returned _, fs') => addAll rest fs'
      | (Thrown msg, fs') => (Thrown msg, fs')
      end
  end.

(** [clearHistory()]. *)
Definition clearHistory (fs : Files) : outcome unit * Files := writeJsonFile [] fs.

End History.

(* ================================================================== *)
(** ** core/executor.ts: the workspace scan and the change detection *)
(* ================================================================== *)

Module Workspace.
Import Js.

Definition ignoreDirs : list string :=
  ["node_modules"; ".git"; ".cache"; "data"; ".expo"; ".local"; ".upm"].

Definition ignoreFiles : list string :=
  [".gitignore"; ".replit"; "replit.nix"; "package-lock.json"].

(** A directory entry: a file, or a directory with what [readdir] gives
    for it; [readable] is false where [readdir] throws. *)
#[warnings="-register-all"]
Inductive Entry : Type :=
| File (name : string)
| Dir (name : string) (readable : bool) (children : list Entry).

(** The three [continue] tests of the loop. *)
Definition skipped (name : string) : bool :=
  existsb (String.eqb name) ignoreDirs
  || existsb (String.eqb name) ignoreFiles
  || startsWith "." name.

(** [prefix ? `${prefix}/${entry.name}` : entry.name]. *)
Definition relativePath (prefix name : string) : string :=
  if String.eqb prefix "" then name else prefix ++ "/" ++ name.

(** What the loop of [scan(dir, prefix)] pushes for one entry. *)
Fixpoint scanEntry (prefix : string) (e : Entry) : list string :=
  match e with
  | File name => if skipped name then [] else [relativePath prefix name]
  | Dir name readable children =>
      if skipped name then []
      else if readable then flat_map (scanEntry (relativePath prefix name)) children
      else []
  end.

(** [scanWorkspaceFiles()]: [root] is the listing of the working
    directory, [None] where it cannot be read. *)
Definition scanWorkspaceFiles (root : option (list Entry)) : list string :=
  match root with
  | Some entries => flat_map (scanEntry "") entries
  | None => []
  end.

(** The segments of a prefix; the empty prefix has none. *)
Definition segments (prefix : string) : list string :=
  if String.eqb prefix "" then [] else splitChar "/" prefix.

(** Induction over a tree of entries. *)
Section EntryInduction.
Variable P : Entry -> Prop.
Hypothesis onFile : forall name, P (File name).
Hypothesis onDir : forall name readable children,
  Forall P children -> P (Dir name readable children).

Fixpoint Entry_induction (e : Entry) : P e :=
  match e with
  | File name => onFile name
  | Dir name readable children =>
      onDir name readable children
        ((fix all (l : list Entry) : Forall P l :=
            match l with
            | [] => Forall_nil P
            | x :: rest => Forall_cons x (Entry_induction x) (all rest)
            end) children)
  end.
End EntryInduction.

(** The names of a tree are file names: not empty and without a slash. *)
Definition fileName (name : string) : bool :=
  negb (String.eqb name "")
  && forallb (fun c => negb (Ascii.eqb c "/")) (list_ascii_of_string name).

Fixpoint wellNamed (e : Entry) : bool :=
  match e with
  | File name => fileName name
  | Dir name _ children => fileName name && forallb wellNamed children
  end.

(** [files.join('|').length.toString()], the value [executeAutomate]
    keeps in [lastFileHash]. *)
Definition currentHash (files : list string) : string :=
  toString10 (Z.of_nat (String.length (join "|" files))).

(** [lastFileHash !== '' && lastFileHash !== currentHash]. *)
Definition filesChanged (lastFileHash hash : string) : bool :=
  negb (String.eqb lastFileHash "") && negb (String.eqb lastFileHash hash).

End Workspace.

(* ================================================================== *)
(** ** core/iso-generator.ts: the burn package *)
(* ================================================================== *)

Module IsoGenerator.
Import Js Json.

(** [FileEntry]. *)
Record FileEntry : Type := { path : string; size : Z; content : string }.

(** [ISOManifest]. *)
Record ISOManifest : Type := {
  id : string;
  created : string;
  files : list FileEntry;
  totalSize : Z;
  isoPath : string
}.

(** The archive object uploaded as BURN_PACKAGE.json.  [fileContents]
    lists its properties in the object's own key order. *)
Record Archive : Type := {
  a_id : string;
  a_created : string;
  a_platform : string;
  a_device : string;
  a_files : list (string * Z);
  a_totalSize : Z;
  a_totalFiles : Z;
  a_instructions : string;
  a_fileContents : list (string * string)
}.

Inductive PackageFile : Type :=
| PArchive (archive : Archive)
| PText (text : string).

(** The files written to OneDrive, and the failures of the uploads still
    to come (none left: the upload succeeds). *)
Record Cloud : Type := {
  written : list (string * PackageFile);
  faults : list bool
}.

Fixpoint put (name : string) (b : PackageFile) (s : list (string * PackageFile))
  : list (string * PackageFile) :=
  match s with
  | [] => [(name, b)]
  | (k, v) :: rest =>
      if String.eqb k name then (k, b) :: rest else (k, v) :: put name b rest
  end.

(** [uploadToOneDrive(fileName, content)]. *)
Definition uploadToOneDrive (fileName : string) (b : PackageFile) (c : Cloud)
  : outcome unit * Cloud :=
  match faults c with
  | true :: rest => (Thrown "OneDrive request failed", {| written := written c; faults := rest |})
  | false :: rest => (Returned tt, {| written := put fileName b (written c); faults := rest |})
  | [] => (Returned tt, {| written := put fileName b (written c); faults := [] |})
  end.

(** [Buffer.byteLength(content, 'utf-8')] for code units below 256: one
    byte below 128, two from there on. *)
Definition byteLength (s : string) : Z :=
  fold_right (fun c n => (if charCode c <? 128 then 1 else 2) + n) 0
    (list_ascii_of_string s).

(** [(bytes / 1024 / 1024).toFixed(2)] for a size in bytes: the quotient
    is exact, and [toFixed] rounds it to the nearest hundredth, upwards from
    the middle. *)
Definition megabytes (bytes : Z) : string :=
  let hundredths := (200 * bytes + 1048576) / 2097152 in
  toString10 (hundredths / 100) ++ "." ++ pad2 (hundredths mod 100).

(** The loop over [files]: a file that cannot be read is skipped. *)
Fixpoint readEntries (readFile : string -> option string) (files : list string)
  : list FileEntry :=
  match files with
  | [] => []
  | filePath :: rest =>
      match readFile filePath with
      | Some text =>
          {| path := filePath; size := byteLength text; content := text |}
          :: readEntries readFile rest
      | None => readEntries readFile rest
      end
  end.

Fixpoint decimalFrom (acc : Z) (s : string) : option Z :=
  match s with
  | EmptyString => Some acc
  | String c rest =>
      let n := charCode c in
      if (48 <=? n) && (n <=? 57) then decimalFrom (10 * acc + (n - 48)) rest else None
  end.

(** The array index a property key stands for: the key is the decimal
    numeral, as [String(n)] writes it, of an integer from 0 to 2^32 - 2. *)
Definition arrayIndex (k : string) : option Z :=
  match decimalFrom 0 k with
  | Some n =>
      if String.eqb (toString10 n) k && (n <? 4294967295) then Some n else None
  | None => None
  end.

(** The place of a new property among the own properties of an object:
    array indices come first, in ascending order, and the other keys follow
    in the order they were created. *)
Fixpoint insertKey (k v : string) (acc : list (string * string)) : list (string * string) :=
  match acc with
  | [] => [(k, v)]
  | (k', v') :: rest =>
      match arrayIndex k, arrayIndex k' with
      | Some n, Some n' =>
          if n <? n' then (k, v) :: acc else (k', v') :: insertKey k v rest
      | Some _, None => (k, v) :: acc
      | None, _ => (k', v') :: insertKey k v rest
      end
  end.

Fixpoint replaceKey (k v : string) (acc : list (string * string)) : list (string * string) :=
  match acc with
  | [] => []
  | (k', v') :: rest =>
      if String.eqb k' k then (k', v) :: rest else (k', v') :: replaceKey k v rest
  end.

(** [acc[entry.path] = entry.content] on an object literal: a property
    that exists keeps its place; the key [__proto__] names the prototype
    accessor, whose setter ignores a string, so no property is made. *)
Definition setKey (k v : string) (acc : list (string * string)) : list (string * string) :=
  if String.eqb k "__proto__" then acc
  else match assoc k acc with
       | Some _ => replaceKey k v acc
       | None => insertKey k v acc
       end.

Definition newline : string := String (ascii_of_nat 10) "".

Definition quoted (s : string) : string := String dquote s ++ String dquote "".

(** The template of [instructions]. *)
Definition instructions (count : Z) (bytes : Z) : string :=
  newline ++ "=== BURN INSTRUCTIONS ===" ++ newline
  ++ "1. Download this package from OneDrive" ++ newline
  ++ "2. Extract files to a folder" ++ newline
  ++ "3. Use Windows: Right-click folder -> " ++ quoted "Burn to disc" ++ newline
  ++ "   Or use ImgBurn/CDBurnerXP for more control" ++ newline
  ++ "4. Insert blank DVD-R in HP DVD557s" ++ newline
  ++ "5. Start burn process" ++ newline
  ++ newline
  ++ "Device: HP DVD557s" ++ newline
  ++ "Files: " ++ toString10 count ++ newline
  ++ "Size: " ++ megabytes bytes ++ " MB" ++ newline.

Record PackageResult : Type := {
  success : bool;
  manifest : option ISOManifest;
  message : string
}.

Definition sumSizes (entries : list FileEntry) : Z :=
  fold_left (fun total e => total + size e) entries 0.

(** [generateBurnPackage(files)] at clock reading [now]. *)
Definition generateBurnPackage (readFile : string -> option string)
    (files : list string) (now : Z) (c : Cloud) : PackageResult * Cloud :=
  let id := "disc-" ++ toString10 now in
  let created := toISOString now in
  let fileEntries := readEntries readFile files in
  let totalSize := sumSizes fileEntries in
  let count := Z.of_nat (List.length fileEntries) in
  let burnFolder := "burn-ready/" ++ id in
  let archive :=
    {| a_id := id; a_created := created;
       a_platform := "DiscBurn v2.0"; a_device := "HP DVD557s";
       a_files := map (fun f => (path f, size f)) fileEntries;
       a_totalSize := totalSize; a_totalFiles := count;
       a_instructions := instructions count totalSize;
       a_fileContents :=
         fold_left (fun acc entry => setKey (path entry) (content entry) acc)
           fileEntries [] |} in
  let failed (msg : string) (c' : Cloud) :=
    ({| success := false; manifest := None;
        message := "Failed to generate burn package: " ++ msg |}, c') in
  match uploadToOneDrive (burnFolder ++ "/BURN_PACKAGE.json") (PArchive archive) c with
  | (Thrown msg, c1) => failed msg c1
  | (Returned _, c1) =>
      match uploadToOneDrive (burnFolder ++ "/README_BURN.txt")
              (PText (instructions count totalSize)) c1 with
      | (Thrown msg, c2) => failed msg c2
      | (Returned _, c2) =>
          ({| success := true;
              manifest := Some {| id := id; created := created; files := fileEntries;
                                  totalSize := totalSize;
                                  isoPath := "OneDrive/DiscBurn/" ++ burnFolder |};
              message := "Burn package ready: " ++ toString10 count ++ " files, "
                         ++ megabytes totalSize ++ " MB" |}, c2)
      end
  end.

End IsoGenerator.

(* ================================================================== *)
(** ** Concrete inputs *)
(* ================================================================== *)

Section ManifestSamples.
Import Js Manifest.

(** A manifest to try the state machine on. *)
Definition sampleOptions : ManifestOptions :=
  {| o_jobId := "job-1700000000000-ab"; o_files := ["b.txt"; "a.txt"];
     o_target := None; o_priority := Some high; o_device := None |}.

Definition sampleManifest : BurnManifest :=
  createManifest "/home/runner/workspace" 1700000000000 sampleOptions.

Definition sampleQueued : BurnManifest :=
  snd (transitionState
         (snd (transitionState sampleManifest pending "system" None 1700000001000))
         queued "executor" (Some "picked up") 1700000002000).


End ManifestSamples.

Section GatewaySamples.
Import Js Json UsbSignal GatewaySpec.

(** The payload of a cancel request for job [jobId]. *)
Definition cancelPayload (jobId : string) : json :=
  JObj [("action", JStr "cancel"); ("jobId", JStr jobId)].

(** An inbound envelope stamped [ts] that declares [src] as its source and
    carries the digest of its payload. *)
Definition inboundFrom (src : string) (ts : Z) (p : json) : SignalPacket :=
  {| type := t_command; direction := inbound; timestamp := ts;
     payload := Some p;
     checksum := toString16 (rollingHash (stringify p));
     source := Some src; deviceId := None |}.

Definition clock0 : Z := 1700000000000.

(** The tracker of a module loaded at [clock0]: its window ends at
    [clock0 + 60000]. *)
Definition tracker0 : RateTracker := initialTracker clock0.

(** Sent by the drive 40 seconds before [clock0 + 50000]; every check but
    freshness passes. *)
Definition staleSignal : SignalPacket :=
  inboundFrom "dvd557s" (clock0 + 10000) (cancelPayload "J1").

(** As old as [staleSignal], from a source outside the allow-list. *)
Definition staleForeignSignal : SignalPacket :=
  inboundFrom "attacker" (clock0 + 10000) (cancelPayload "J1").

(** Fresh, from a source outside the allow-list. *)
Definition foreignSignal : SignalPacket :=
  inboundFrom "attacker" (clock0 + 50000) (cancelPayload "J1").

(** Stale, from a source outside the allow-list, with a script tag in the
    payload and a digest that does not match it. *)
Definition tamperedSignal : SignalPacket :=
  {| type := t_command; direction := inbound; timestamp := clock0 + 10000;
     payload := Some (JObj [("action", JStr "<script>x</script>")]);
     checksum := "bad"; source := Some "attacker"; deviceId := None |}.

(** Fresh, from the drive, and without a payload. *)
Definition bareSignal : SignalPacket :=
  {| type := t_status; direction := inbound; timestamp := clock0 + 50000;
     payload := None; checksum := "0"; source := Some "dvd557s"; deviceId := None |}.

(** [n] fresh valid envelopes from the drive, all validated at [now]. *)
Definition burst (n : nat) (now : Z) : list (Z * SignalPacket) :=
  repeat (now, inboundFrom "dvd557s" now (cancelPayload "J1")) n.

(** The same two properties in the two orders. *)
Definition payloadAB : json := JObj [("a", JNum 1); ("b", JNum 2)].
Definition payloadBA : json := JObj [("b", JNum 2); ("a", JNum 1)].

End GatewaySamples.

Section ExecutorSamples.
Import Js Json World Executor.

(** A pending job descriptor. *)
Definition jobOf (id : string) (p : Manifest.Priority) (retries : Z) : BurnJob :=
  {| jobId := id; status := Manifest.pending; priority := p;
     files := ["notes.txt"]; created := toISOString clock0;
     started := None; completed := None; progress := None; error := None;
     retryCount := retries |}.

Definition idleExecutor : ExecutorState :=
  {| running := true; currentJob := None; completedJobs := []; failedJobs := [] |}.

(** A world whose store holds the descriptors [jobs] under pending/, in
    that order, at time [clock0]. *)
Definition worldWith (jobs : list BurnJob)
    (fs : list bool) (feed : list (option (list UsbSignal.SignalPacket))) : World :=
  {| store := map (fun j => (pendingPath (jobId j), BJob j)) jobs;
     faults := fs;
     inboundFeed := feed;
     clock := clock0;
     adapter := UsbSignal.initialAdapter clock0;
     exec := idleExecutor |}.

(** Four jobs submitted in the order low, urgent, normal, high. *)
Definition fourJobs : list BurnJob :=
  [jobOf "J1" Manifest.low 0; jobOf "J2" Manifest.urgent 0;
   jobOf "J3" Manifest.normal 0; jobOf "J4" Manifest.high 0].

(** A cancel request for J1 from the drive, stamped 1.5 seconds after
    [clock0]. *)
Definition cancelJ1 : UsbSignal.SignalPacket :=
  inboundFrom "dvd557s" (clock0 + 1500) (cancelPayload "J1").

(** One high-priority job; the second read of signals/inbound.json, during
    the burn, finds the cancel request. *)
Definition cancelWorld : World :=
  worldWith [jobOf "J1" Manifest.high 0] [] [Some []; Some [cancelJ1]].

(** One job whose first upload fails in every round: of the seven requests
    a failing round makes (list, read, upload of the queued status, and the
    four uploads of the catch block), the third fails. *)
Definition failingRound : list bool := [false; false; true; false; false; false; false].

Definition failingWorld : World :=
  worldWith [jobOf "J1" Manifest.normal 0]
    (failingRound ++ failingRound ++ failingRound ++ failingRound ++ failingRound)%list
    [].

(** One job that has already been retried three times. *)
Definition exhaustedWorld : World :=
  worldWith [jobOf "J9" Manifest.normal 3] [] [].

End ExecutorSamples.

(* ================================================================== *)
(** ** More concrete inputs *)
(* ================================================================== *)

Section LifecycleSamples.
Import Js Manifest ManifestPaths.

(** A manifest driven to [failed]. *)
Definition sampleFailed : BurnManifest :=
  snd (drive sampleManifest [pending; queued; downloading; failed] "executor"
         1700000001000).

End LifecycleSamples.

Section SignalSamples.
Import Js Json UsbSignal Probe.

(** A signed envelope whose payload is a text with [Aa] in it. *)
Definition signedText : SignalPacket := inboundFrom "dvd557s" clock0 (JStr "xAay").

(** A valid cancel request and an envelope without payload, both new and
    fresh at [clock0 + 50000]. *)
Definition mixedBatch : list SignalPacket :=
  [inboundFrom "dvd557s" (clock0 + 49000) (cancelPayload "J1"); bareSignal].

(** A signed envelope from the drive that names a WebSocket address. *)
Definition socketSignal : SignalPacket :=
  inboundFrom "dvd557s" clock0 (JObj [("url", JStr "wss://relay.example")]).

(** No USB interface, and a drive under /dev. *)
Definition driveFound : Surroundings :=
  {| usb := None; dev := Returned ["null"; "sr0"; "tty"] |}.

End SignalSamples.

Section RunSamples.
Import Js Json World Executor SignalCommands.

(** An idle world with no job, a reliable store and no inbound file. *)
Definition quietWorld : World := worldWith [] [] [].

(** The envelope [sendCancel] makes for job J1 in [quietWorld]. *)
Definition sentCancel : UsbSignal.SignalPacket :=
  match fst (sendCancel "J1" quietWorld) with
  | Returned s => s
  | Thrown _ => bareSignal
  end.

(** One job, a reliable store, no inbound file. *)
Definition oneJobWorld : World := worldWith [jobOf "J1" Manifest.high 0] [] [].

(** One job; the read of its descriptor is served, the first upload
    fails, the four uploads of the [catch] block are served. *)
Definition failingBurnWorld : World :=
  worldWith [jobOf "J1" Manifest.normal 0] [false; true; false; false; false; false] [].

(** One job; the twenty-seven uploads are served, the request that
    removes the descriptor fails. *)
Definition undeletedWorld : World :=
  worldWith [jobOf "J1" Manifest.normal 0] (repeat false 27 ++ [true])%list [].

(** As [cancelWorld], but of the uploads the tenth fails: the nine before
    the cancel request is found are served, the upload of the [cancelled]
    status is not. *)
Definition cancelFaultWorld : World :=
  worldWith [jobOf "J1" Manifest.high 0] (repeat false 9 ++ [true])%list
    [Some []; Some [cancelJ1]].

End RunSamples.

Section ScriptSamples.
Import Js Json Script.

Definition scriptJob : BurnJob :=
  {| jobId := "J1"; status := "pending"; priority := Manifest.normal;
     files := Some ["notes.txt"]; created := toISOString clock0; progress := None |}.

(** The script as it starts, with one pending job and the failures [fs]
    to come. *)
Definition scriptStart (fs : list bool) : State :=
  initial [("pending/J1.json", FJob scriptJob)] fs clock0.

(** A round in which the burn fails and the failure is recorded: the
    listing and the read are served, the first status upload fails, the
    upload of the [failed] status is served. *)
Definition failedRound : list bool := [false; false; true; false].

End ScriptSamples.

Section FileSamples.
Import Js Json.

Definition commandAudit : Admin.AuditInput :=
  {| Admin.i_level := Admin.info; Admin.i_category := "command";
     Admin.i_action := "STATUS"; Admin.i_actor := "user";
     Admin.i_target := None; Admin.i_details := None;
     Admin.i_result := Admin.success |}.

Definition noAuditFile : Admin.Files :=
  {| Admin.audit := None; Admin.writeFaults := [] |}.

Definition statusCommand : History.HistoryInput :=
  {| History.i_input := "status"; History.i_result := "ok";
     History.i_success := true |}.

(** A history that is full: a hundred entries, one each millisecond from
    [clock0]. *)
Definition fullHistoryFile : History.Files :=
  {| History.history :=
       Some (map (fun n => History.stamp statusCommand (clock0 + Z.of_nat n)) (seq 0 100));
     History.writeFaults := [] |}.

(** Two more commands, entered after those. *)
Definition twoCommands : list (History.HistoryInput * Z) :=
  [(statusCommand, clock0 + 100); (statusCommand, clock0 + 101)].

(** A workspace with a dot file and a [data] directory below [src]. *)
Definition sampleTree : list Workspace.Entry :=
  [Workspace.File "README.md";
   Workspace.Dir "src" true
     [Workspace.File "main.ts"; Workspace.File ".env";
      Workspace.Dir "data" true [Workspace.File "cache.bin"]];
   Workspace.Dir "node_modules" true [Workspace.File "index.js"]].

End FileSamples.

(* ================================================================== *)
(** ** The manifest state machine *)
(* ================================================================== *)

Section ManifestFacts.
Import Js Manifest.

Lemma JobStatus_eqb_eq (a b : JobStatus) : JobStatus_eqb a b = true <-> a = b.
Proof. split; [destruct a, b; simpl; congruence | intros ->; destruct b; reflexivity]. Qed.

(** The table in the code is the table of the specification. *)
Lemma isValidTransition_specAllowed (a b : JobStatus) :
  isValidTransition a b = true <-> specAllowed a b.
Proof.
  split.
  - destruct a, b; simpl; intros H; try discriminate H; constructor.
  - intros H; destruct H; reflexivity.
Qed.

Lemma lastOf_app_one {A : Type} (l : list A) (x : A) : lastOf (l ++ [x])%list = Some x.
Proof.
  induction l as [|y l IH]; simpl; [reflexivity|].
  rewrite IH. destruct l; reflexivity.
Qed.

(** C2.  For every manifest and target state, [transitionState] succeeds
    exactly when the pair (current state, new state) is in the transition
    table of section 4.1.  A successful call appends exactly one transition
    record and the matching audit-log entry, and sets [currentState], the
    status mirror [job.status] and [job.updated]; nothing else changes.  A
    call on a pair outside the table throws the invalid-transition error and
    leaves the manifest as it was. *)
Theorem transitionState_follows_table (m : BurnManifest) (newState : JobStatus)
    (actor : string) (reason : option string) (now : Z) :
  let res := fst (transitionState m newState actor reason now) in
  let m' := snd (transitionState m newState actor reason now) in
  (specAllowed (currentState (lifecycle m)) newState <-> succeeded res)
  /\ (specAllowed (currentState (lifecycle m)) newState ->
        res = Returned m'
        /\ states (lifecycle m')
           = (states (lifecycle m) ++ [recordOf m newState actor reason now])%list
        /\ auditLog (admin m')
           = (auditLog (admin m) ++ [auditOf m newState actor reason now])%list
        /\ currentState (lifecycle m') = newState
        /\ status (job m') = newState
        /\ updated (job m') = toISOString now
        /\ sameElsewhere m m')
  /\ (~ specAllowed (currentState (lifecycle m)) newState ->
        res = Thrown ("Invalid state transition: "
                        ++ statusName (currentState (lifecycle m))
                        ++ " -> " ++ statusName newState)
        /\ m' = m).
Proof.
  cbv zeta. unfold transitionState.
  destruct (isValidTransition (currentState (lifecycle m)) newState) eqn:E; simpl.
  - apply isValidTransition_specAllowed in E.
    split; [tauto|]. split; [|tauto].
    intros _. unfold sameElsewhere, recordOf, auditOf. simpl. tauto.
  - assert (N : ~ specAllowed (currentState (lifecycle m)) newState).
    { intros H. apply isValidTransition_specAllowed in H. congruence. }
    split; [tauto|]. split; [tauto|]. intros _. split; reflexivity.
Qed.

Lemma transitionState_follows_table_witness :
  fst (transitionState sampleManifest pending "system" None 1700000001000)
  = Returned (snd (transitionState sampleManifest pending "system" None 1700000001000))
  /\ fst (transitionState sampleManifest burning "system" None 1700000001000)
     = Thrown "Invalid state transition: created -> burning"
  /\ snd (transitionState sampleManifest burning "system" None 1700000001000)
     = sampleManifest.
Proof.
  pose proof (transitionState_follows_table sampleManifest pending "system" None
                1700000001000) as [_ [Hok _]].
  pose proof (transitionState_follows_table sampleManifest burning "system" None
                1700000001000) as [_ [_ Hbad]].
  split.
  - apply Hok. constructor.
  - apply Hbad. intros H. inversion H.
Defined.

(** Every operation keeps the history it finds: the records of before are
    the first records of after, unchanged and in place. *)
Lemma transitionState_appends (m : BurnManifest) (newState : JobStatus)
    (actor : string) (reason : option string) (now : Z) :
  exists suffix,
    states (lifecycle (snd (transitionState m newState actor reason now)))
    = (states (lifecycle m) ++ suffix)%list
    /\ (List.length suffix <= 1)%nat.
Proof.
  unfold transitionState.
  destruct (isValidTransition _ _); simpl.
  - eexists; split; [reflexivity | simpl; lia].
  - exists []. rewrite app_nil_r. split; [reflexivity | simpl; lia].
Qed.

Lemma createManifest_currentIsLast (cwd : string) (now : Z) (o : ManifestOptions) :
  currentIsLast (createManifest cwd now o).
Proof.
  unfold currentIsLast, createManifest.
  destruct (calculatePayloadChecksum (o_files o)). reflexivity.
Qed.

Lemma transitionState_currentIsLast (m : BurnManifest) (newState : JobStatus)
    (actor : string) (reason : option string) (now : Z) :
  currentIsLast m -> currentIsLast (snd (transitionState m newState actor reason now)).
Proof.
  unfold transitionState, currentIsLast.
  destruct (isValidTransition _ _); simpl; [|tauto].
  intros _. rewrite lastOf_app_one. reflexivity.
Qed.

(** C9.  In every manifest made by [createManifest] and carried through
    calls of [transitionState], [currentState] is the [to] field of the last
    record of the transition history; and a call of [transitionState] on it
    only ever appends to that history: the records it found stay first,
    unchanged. *)
Theorem history_invariant (m : BurnManifest) :
  produced m ->
  currentIsLast m
  /\ forall newState actor reason now,
       exists suffix,
         states (lifecycle (snd (transitionState m newState actor reason now)))
         = (states (lifecycle m) ++ suffix)%list
         /\ (List.length suffix <= 1)%nat.
Proof.
  intros H. split.
  - induction H as [cwd now o | m s a r now _ IH].
    + apply createManifest_currentIsLast.
    + apply transitionState_currentIsLast, IH.
  - intros. apply transitionState_appends.
Qed.

Lemma history_invariant_witness :
  currentIsLast sampleQueued
  /\ forall newState actor reason now,
       exists suffix,
         states (lifecycle (snd (transitionState sampleQueued newState actor reason now)))
         = (states (lifecycle sampleQueued) ++ suffix)%list
         /\ (List.length suffix <= 1)%nat.
Proof.
  apply (history_invariant sampleQueued).
  unfold sampleQueued, sampleManifest.
  apply produced_transition, produced_transition, produced_create.
Defined.

End ManifestFacts.

Example sampleManifest_label :
  Manifest.label (Manifest.discSettings (Manifest.target sampleManifest))
  = Some "DiscBurn_1700000000".
Proof. vm_compute. reflexivity. Qed.
Example sampleManifest_files :
  map Manifest.path (Manifest.files (Manifest.payload sampleManifest)) = ["a.txt"; "b.txt"].
Proof. vm_compute. reflexivity. Qed.
Example sampleQueued_states :
  map Manifest.to (Manifest.states (Manifest.lifecycle sampleQueued))
  = [Manifest.created; Manifest.pending; Manifest.queued].
Proof. vm_compute. reflexivity. Qed.

(* ================================================================== *)
(** ** The signal codec and the security gateway *)
(* ================================================================== *)

Section GatewayFacts.
Import Js Json UsbSignal GatewaySpec.

Lemma gtb_false (n m : Z) : n <= m -> (n >? m) = false.
Proof. intros H. rewrite Z.gtb_ltb. apply Z.ltb_ge. exact H. Qed.

Lemma integrityHolds_checksum (signal : SignalPacket) (p : json) :
  payload signal = Some p ->
  integrityHolds signal = String.eqb (checksum signal) (toString16 (rollingHash (stringify p))).
Proof. unfold integrityHolds. intros ->. reflexivity. Qed.

(** The code against the ordered list of checks: with the helm active and a
    payload present, the call returns the decision of the first failing
    check. *)
Lemma validate_is_decision (helm : Helm) (tracker : RateTracker) (now : Z)
    (signal : SignalPacket) (p : json) :
  active helm = true ->
  payload signal = Some p ->
  fst (validateSignalSecurity helm tracker now signal)
  = Returned (decision helm tracker now signal).
Proof.
  intros Hact Hp.
  unfold validateSignalSecurity, decision, firstFailure, checkOrder, failure.
  rewrite Hact; simpl negb; cbv iota.
  rewrite (integrityHolds_checksum _ _ Hp).
  unfold generateChecksum. rewrite Hp.
  destruct (onlyDVD557s helm && negb (sourceAllowed signal)); [reflexivity|].
  destruct (now - timestamp signal >? maxSignalAge helm); [reflexivity|].
  destruct (count (rateCount (rateWindow now tracker)) >? rateLimitPerMinute helm);
    [reflexivity|].
  destruct (if blockScriptInjection helm
            then firstMatch (blockedPatterns helm) (payloadText signal)
            else None); [reflexivity|].
  destruct (blockWebSockets helm && RegExp.test webSocketPattern (payloadText signal));
    [reflexivity|].
  destruct (String.eqb (checksum signal) (toString16 (rollingHash (stringify p))));
    reflexivity.
Qed.

(** The rate counter advances exactly when the call reaches the rate
    limit, that is when the source and freshness checks pass. *)
Lemma validate_tracker (helm : Helm) (tracker : RateTracker) (now : Z)
    (signal : SignalPacket) :
  active helm = true ->
  snd (validateSignalSecurity helm tracker now signal)
  = match failure helm tracker now signal SourceAllowList,
          failure helm tracker now signal Freshness with
    | None, None => counted now tracker
    | _, _ => tracker
    end.
Proof.
  intros Hact.
  unfold validateSignalSecurity, failure, counted.
  rewrite Hact; simpl negb; cbv iota.
  destruct (onlyDVD557s helm && negb (sourceAllowed signal)); [reflexivity|].
  destruct (now - timestamp signal >? maxSignalAge helm); [reflexivity|].
  destruct (count (rateCount (rateWindow now tracker)) >? rateLimitPerMinute helm);
    [reflexivity|].
  destruct (if blockScriptInjection helm
            then firstMatch (blockedPatterns helm) (payloadText signal)
            else None); [reflexivity|].
  destruct (blockWebSockets helm && RegExp.test webSocketPattern (payloadText signal));
    [reflexivity|].
  destruct (generateChecksum (payload signal)); [|reflexivity].
  destruct (negb (String.eqb (checksum signal) a)); reflexivity.
Qed.

(** C6 (as amended).  While the helm is active, for every inbound envelope
    that carries a payload, the gateway evaluates the checks that are switched
    on in the fixed order source allow-list, freshness, rate limit, content
    patterns, integrity digest: it returns - it does not throw - the
    structured rejection of the first check that fails, and [allowed] when
    none does.  The rate counter is advanced exactly when the envelope gets
    past the source and freshness checks. *)
Theorem gateway_first_failing_check (helm : Helm) (tracker : RateTracker) (now : Z)
    (signal : SignalPacket) (p : json) :
  active helm = true ->
  payload signal = Some p ->
  validateSignalSecurity helm tracker now signal
  = (Returned (match firstFailure helm tracker now signal checkOrder with
               | Some why => {| allowed := false; reason := Some why |}
               | None => {| allowed := true; reason := None |}
               end),
     match firstFailure helm tracker now signal [SourceAllowList; Freshness] with
     | Some _ => tracker
     | None => rateCount (rateWindow now tracker)
     end).
Proof.
  intros Hact Hp.
  rewrite (surjective_pairing (validateSignalSecurity helm tracker now signal)).
  rewrite (validate_is_decision _ _ _ _ _ Hact Hp), (validate_tracker _ _ _ _ Hact).
  unfold decision, allow, block, counted.
  f_equal. unfold firstFailure.
  destruct (failure helm tracker now signal SourceAllowList); [reflexivity|].
  destruct (failure helm tracker now signal Freshness); reflexivity.
Qed.

Lemma gateway_first_failing_check_witness :
  validateSignalSecurity HELM tracker0 (clock0 + 50000) staleSignal
  = (Returned {| allowed := false; reason := Some reasonTooOld |}, tracker0).
Proof.
  exact (gateway_first_failing_check HELM tracker0 (clock0 + 50000) staleSignal
           (cancelPayload "J1") eq_refl eq_refl).
Defined.

(** C6 as stated does not hold: with the helm switched off no check is
    evaluated.  The envelope below fails the source allow-list, the first
    check of the list, and is allowed. *)
Lemma gateway_inactive_skips_checks :
  firstFailure (deactivateHelm HELM) tracker0 (clock0 + 50000) foreignSignal checkOrder
  = Some reasonSource
  /\ validateSignalSecurity (deactivateHelm HELM) tracker0 (clock0 + 50000) foreignSignal
     = (Returned {| allowed := true; reason := None |}, tracker0).
Proof. split; vm_compute; reflexivity. Qed.

(** An envelope without a payload gets past the content checks, which read
    [signal.payload || {}], and makes [generateChecksum] throw. *)
Lemma gateway_throws_without_payload :
  validateSignalSecurity HELM tracker0 (clock0 + 50000) bareSignal
  = (Thrown "TypeError: Cannot read properties of undefined (reading 'length')",
     {| count := 1; resetTime := clock0 + 60000 |}).
Proof. vm_compute. reflexivity. Qed.

(** C8 (as amended).  While the helm is active, an envelope older than
    [maxSignalAge] is always rejected, and the tracker is left as it was.
    The reason is the too-old one whenever the source check passes or is
    switched off, whatever the rate limit, the content patterns and the
    integrity digest would say; an envelope that fails the source check is
    rejected with the source reason, because that check comes first. *)
Theorem stale_signal_rejected (helm : Helm) (tracker : RateTracker) (now : Z)
    (signal : SignalPacket) :
  active helm = true ->
  now - timestamp signal > maxSignalAge helm ->
  (exists why,
      validateSignalSecurity helm tracker now signal
      = (Returned {| allowed := false; reason := Some why |}, tracker)
      /\ (why = reasonSource \/ why = reasonTooOld))
  /\ (failure helm tracker now signal SourceAllowList = None ->
      validateSignalSecurity helm tracker now signal
      = (Returned {| allowed := false; reason := Some reasonTooOld |}, tracker))
  /\ (onlyDVD557s helm = false \/ sourceAllowed signal = true ->
      validateSignalSecurity helm tracker now signal
      = (Returned {| allowed := false; reason := Some reasonTooOld |}, tracker))
  /\ (onlyDVD557s helm = true -> sourceAllowed signal = false ->
      failure helm tracker now signal SourceAllowList = Some reasonSource
      /\ validateSignalSecurity helm tracker now signal
         = (Returned {| allowed := false; reason := Some reasonSource |}, tracker)).
Proof.
  intros Hact Hage.
  apply Z.gt_lt, Z.gtb_lt in Hage.
  unfold validateSignalSecurity, failure.
  rewrite Hact, Hage; simpl negb; cbv iota.
  destruct (onlyDVD557s helm) eqn:Eonly; destruct (sourceAllowed signal) eqn:Esrc;
    simpl andb; cbv iota.
  - split; [exists reasonTooOld; split; [reflexivity | right; reflexivity]|].
    split; [reflexivity|]. split; [reflexivity|]. discriminate.
  - split; [exists reasonSource; split; [reflexivity | left; reflexivity]|].
    split; [discriminate|]. split; [intros [H|H]; discriminate|].
    intros _ _. split; reflexivity.
  - split; [exists reasonTooOld; split; [reflexivity | right; reflexivity]|].
    split; [reflexivity|]. split; [reflexivity|]. discriminate.
  - split; [exists reasonTooOld; split; [reflexivity | right; reflexivity]|].
    split; [reflexivity|]. split; [reflexivity|]. discriminate.
Qed.

(** A stale envelope from the drive gets the too-old reason, a stale
    envelope from another source the source reason. *)
Lemma stale_signal_rejected_witness :
  validateSignalSecurity HELM tracker0 (clock0 + 50000) staleSignal
  = (Returned {| allowed := false; reason := Some reasonTooOld |}, tracker0)
  /\ validateSignalSecurity HELM tracker0 (clock0 + 50000) staleForeignSignal
     = (Returned {| allowed := false; reason := Some reasonSource |}, tracker0).
Proof.
  split.
  - destruct (stale_signal_rejected HELM tracker0 (clock0 + 50000) staleSignal)
      as (_ & _ & Hold & _).
    + reflexivity.
    + vm_compute. reflexivity.
    + apply Hold. right. vm_compute. reflexivity.
  - destruct (stale_signal_rejected HELM tracker0 (clock0 + 50000) staleForeignSignal)
      as (_ & _ & _ & Hsource).
    + reflexivity.
    + vm_compute. reflexivity.
    + apply Hsource; vm_compute; reflexivity.
Defined.

(** C8 as stated does not hold, for two reasons.  With the default helm a stale
    envelope from a source outside the allow-list is rejected with the source
    reason, not the too-old one.  With the helm switched off a stale envelope
    that passes every other check is allowed. *)
Lemma stale_signal_other_outcomes :
  ((clock0 + 50000) - timestamp staleForeignSignal >? maxSignalAge HELM) = true
  /\ validateSignalSecurity HELM tracker0 (clock0 + 50000) staleForeignSignal
     = (Returned {| allowed := false; reason := Some reasonSource |}, tracker0)
  /\ ((clock0 + 50000) - timestamp staleSignal >? maxSignalAge (deactivateHelm HELM)) = true
  /\ validateSignalSecurity (deactivateHelm HELM) tracker0 (clock0 + 50000) staleSignal
     = (Returned {| allowed := true; reason := None |}, tracker0).
Proof. repeat split; vm_compute; reflexivity. Qed.

Lemma deactivateHelm_inactive (helm : Helm) : active (deactivateHelm helm) = false.
Proof. reflexivity. Qed.

(** C10.  When the helm's [active] flag is false, as it is after
    [deactivateHelm], [validateSignalSecurity] returns [allowed: true] for
    every envelope: no check is evaluated and the rate counter is not
    advanced. *)
Theorem inactive_helm_allows_everything (helm : Helm) (tracker : RateTracker)
    (now : Z) (signal : SignalPacket) :
  active helm = false ->
  validateSignalSecurity helm tracker now signal
  = (Returned {| allowed := true; reason := None |}, tracker)
  /\ validateSignalSecurity (deactivateHelm helm) tracker now signal
     = (Returned {| allowed := true; reason := None |}, tracker).
Proof.
  intros H. unfold validateSignalSecurity.
  rewrite H, deactivateHelm_inactive. split; reflexivity.
Qed.

Lemma inactive_helm_allows_everything_witness :
  firstFailure HELM tracker0 (clock0 + 50000) tamperedSignal checkOrder = Some reasonSource
  /\ validateSignalSecurity (deactivateHelm HELM) tracker0 (clock0 + 50000) tamperedSignal
     = (Returned {| allowed := true; reason := None |}, tracker0).
Proof.
  split.
  - vm_compute. reflexivity.
  - apply (inactive_helm_allows_everything (deactivateHelm HELM) tracker0
             (clock0 + 50000) tamperedSignal). reflexivity.
Defined.

(** An envelope that passes every other check is decided by the rate
    limit alone. *)
Lemma validate_otherwiseValid (helm : Helm) (tracker : RateTracker) (now : Z)
    (signal : SignalPacket) :
  active helm = true ->
  otherwiseValid helm now signal ->
  validateSignalSecurity helm tracker now signal
  = (Returned (if count (counted now tracker) >? rateLimitPerMinute helm
               then block reasonRate else allow),
     counted now tracker).
Proof.
  intros Hact [[p Hp] Hother].
  rewrite (surjective_pairing (validateSignalSecurity helm tracker now signal)).
  rewrite (validate_is_decision _ _ _ _ _ Hact Hp), (validate_tracker _ _ _ _ Hact).
  unfold decision, firstFailure, checkOrder.
  rewrite (Hother tracker SourceAllowList), (Hother tracker Freshness),
    (Hother tracker ContentPatterns), (Hother tracker Integrity) by discriminate.
  unfold failure, counted.
  destruct (count (rateCount (rateWindow now tracker)) >? rateLimitPerMinute helm);
    reflexivity.
Qed.

Lemma submitAll_app (helm : Helm) (tracker : RateTracker)
    (xs ys : list (Z * SignalPacket)) :
  submitAll helm tracker (xs ++ ys)%list
  = ((fst (submitAll helm tracker xs)
      ++ fst (submitAll helm (snd (submitAll helm tracker xs)) ys))%list,
     snd (submitAll helm (snd (submitAll helm tracker xs)) ys)).
Proof.
  revert tracker. induction xs as [|[now s] xs IH]; intros tracker; simpl.
  - destruct (submitAll helm tracker ys); reflexivity.
  - destruct (validateSignalSecurity helm tracker now s) as [r t1].
    rewrite IH. destruct (submitAll helm t1 xs) as [rs t2]. simpl.
    destruct (submitAll helm t2 ys); reflexivity.
Qed.

(** Envelopes validated no later than the tracker's reset time, each
    passing every other check, are allowed as long as the counter stays
    within the limit. *)
Lemma submitAll_within_limit (helm : Helm) (T : Z) (batch : list (Z * SignalPacket)) :
  active helm = true ->
  forall c : Z,
    Forall (fun e => fst e <= T /\ otherwiseValid helm (fst e) (snd e)) batch ->
    c + Z.of_nat (List.length batch) <= rateLimitPerMinute helm ->
    submitAll helm {| count := c; resetTime := T |} batch
    = (repeat (Returned allow) (List.length batch),
       {| count := c + Z.of_nat (List.length batch); resetTime := T |}).
Proof.
  intros Hact. induction batch as [|[now s] batch IH]; intros c Hall Hc.
  - simpl. rewrite Z.add_0_r. reflexivity.
  - inversion Hall as [|e l [Hnow Hvalid] Hrest]; subst. simpl in Hnow, Hvalid.
    cbn [List.length] in Hc. rewrite Nat2Z.inj_succ in Hc.
    cbn [submitAll List.length repeat]. rewrite Nat2Z.inj_succ.
    rewrite (validate_otherwiseValid _ _ _ _ Hact Hvalid).
    unfold counted, rateWindow. cbn [resetTime count].
    replace (now >? T) with false by (symmetry; apply gtb_false; lia).
    unfold rateCount. cbn [resetTime count].
    replace (c + 1 >? rateLimitPerMinute helm) with false
      by (symmetry; apply gtb_false; lia).
    rewrite (IH (c + 1) Hrest) by lia.
    f_equal. f_equal. lia.
Qed.

(** C7 (as amended).  While the helm is active: take a tracker whose
    current window ends at [T] and has counted nothing yet, and submit
    [rateLimitPerMinute + 1] envelopes that pass every other check, each
    validated no later than [T].  The gateway allows all but the last and
    rejects exactly the last one, with the rate-limit reason.  The first
    envelope validated after [T] sets the counter back to zero before it is
    counted, and, the limit being at least one, is allowed again. *)
Theorem rate_limit_window (helm : Helm) (T : Z) (batch : list (Z * SignalPacket))
    (lastNow : Z) (lastSignal : SignalPacket) :
  active helm = true ->
  Z.of_nat (List.length batch) = rateLimitPerMinute helm ->
  Forall (fun e => fst e <= T /\ otherwiseValid helm (fst e) (snd e))
         (batch ++ [(lastNow, lastSignal)])%list ->
  submitAll helm {| count := 0; resetTime := T |} (batch ++ [(lastNow, lastSignal)])%list
  = ((repeat (Returned allow) (List.length batch) ++ [Returned (block reasonRate)])%list,
     {| count := rateLimitPerMinute helm + 1; resetTime := T |})
  /\ forall (now' : Z) (signal' : SignalPacket),
       now' > T ->
       otherwiseValid helm now' signal' ->
       count (rateWindow now' {| count := rateLimitPerMinute helm + 1; resetTime := T |}) = 0
       /\ (1 <= rateLimitPerMinute helm ->
           validateSignalSecurity helm
             {| count := rateLimitPerMinute helm + 1; resetTime := T |} now' signal'
           = (Returned allow, {| count := 1; resetTime := now' + 60000 |})).
Proof.
  intros Hact Hlen Hall.
  apply Forall_app in Hall. destruct Hall as [Hbatch Hlast].
  inversion Hlast as [|e l [HlastNow HlastValid] _]; subst e l.
  simpl in HlastNow, HlastValid.
  split.
  - rewrite submitAll_app.
    rewrite (submitAll_within_limit helm T batch Hact 0 Hbatch) by lia.
    cbn [fst snd submitAll].
    rewrite (validate_otherwiseValid _ _ _ _ Hact HlastValid).
    unfold counted, rateWindow. cbn [resetTime count].
    replace (lastNow >? T) with false by (symmetry; apply gtb_false; lia).
    unfold rateCount. cbn [resetTime count].
    rewrite Hlen. cbn [Z.add].
    replace (rateLimitPerMinute helm + 1 >? rateLimitPerMinute helm) with true
      by (symmetry; apply Z.gtb_lt; lia).
    reflexivity.
  - intros now' signal' Hnow Hvalid.
    assert (Hgt : (now' >? T) = true) by (apply Z.gtb_lt; lia).
    split.
    + unfold rateWindow. cbn [resetTime]. rewrite Hgt. reflexivity.
    + intros Hlim.
      rewrite (validate_otherwiseValid _ _ _ _ Hact Hvalid).
      unfold counted, rateWindow. cbn [resetTime]. rewrite Hgt.
      unfold rateCount. cbn [resetTime count Z.add].
      replace (1 >? rateLimitPerMinute helm) with false
        by (symmetry; apply gtb_false; lia).
      reflexivity.
Qed.

(** The envelopes of [burst] pass every check other than the rate limit of
    the default helm. *)
Lemma burst_otherwiseValid (now : Z) :
  now = clock0 + 1000 ->
  otherwiseValid HELM now (inboundFrom "dvd557s" now (cancelPayload "J1")).
Proof.
  intros ->. split.
  - eexists. reflexivity.
  - intros tracker [] H; try congruence; vm_compute; reflexivity.
Qed.

Lemma rate_limit_window_witness :
  submitAll HELM tracker0 (burst 61 (clock0 + 1000))
  = ((repeat (Returned allow) 60 ++ [Returned (block reasonRate)])%list,
     {| count := 61; resetTime := clock0 + 60000 |}).
Proof.
  apply (rate_limit_window HELM (clock0 + 60000) (burst 60 (clock0 + 1000))
           (clock0 + 1000) (inboundFrom "dvd557s" (clock0 + 1000) (cancelPayload "J1"))).
  - reflexivity.
  - reflexivity.
  - apply Forall_forall. intros e He.
    assert (E : e = (clock0 + 1000,
                     inboundFrom "dvd557s" (clock0 + 1000) (cancelPayload "J1"))).
    { apply in_app_or in He. destruct He as [He | [He | []]].
      - apply repeat_spec in He. exact He.
      - symmetry. exact He. }
    subst e. split.
    + vm_compute. discriminate.
    + apply burst_otherwiseValid. reflexivity.
Defined.

(** C7 as stated does not hold.  With the helm switched off, 61 valid
    envelopes submitted in one window are all allowed and the counter does
    not move.  With the default helm, 61 valid envelopes submitted within two
    milliseconds, 30 just before the tracker's reset time and 31 just after
    it, are all allowed as well: the window is a fixed one, restarted at the
    first envelope after the reset time. *)
Lemma rate_limit_not_applied :
  submitAll (deactivateHelm HELM) tracker0 (burst 61 (clock0 + 1000))
  = (repeat (Returned allow) 61, tracker0)
  /\ submitAll HELM tracker0 (burst 30 (clock0 + 59999) ++ burst 31 (clock0 + 60001))%list
     = (repeat (Returned allow) 61, {| count := 31; resetTime := clock0 + 120001 |}).
Proof. split; vm_compute; reflexivity. Qed.

(** On an envelope whose digest verifies the gateway never answers with
    the invalid-checksum rejection. *)
Lemma verified_never_invalid_checksum (helm : Helm) (tracker : RateTracker) (now : Z)
    (signal : SignalPacket) :
  integrityHolds signal = true ->
  fst (validateSignalSecurity helm tracker now signal)
  <> Returned {| allowed := false; reason := Some reasonChecksum |}.
Proof.
  intros Hint. unfold integrityHolds in Hint.
  unfold validateSignalSecurity.
  destruct (active helm); simpl negb; cbv iota; [|discriminate].
  destruct (onlyDVD557s helm && negb (sourceAllowed signal)); [discriminate|].
  destruct (now - timestamp signal >? maxSignalAge helm); [discriminate|].
  destruct (count (rateCount (rateWindow now tracker)) >? rateLimitPerMinute helm);
    [discriminate|].
  destruct (if blockScriptInjection helm
            then firstMatch (blockedPatterns helm) (payloadText signal)
            else None); [unfold block, reasonInjection, reasonChecksum; simpl;
                         discriminate|].
  destruct (blockWebSockets helm && RegExp.test webSocketPattern (payloadText signal));
    [discriminate|].
  destruct (generateChecksum (payload signal)); [|discriminate].
  rewrite Hint. discriminate.
Qed.

(** C3 (as amended).  For every payload that is a JSON value,
    [createSignal] returns an envelope whose digest verifies: the integrity
    check of the gateway, taken alone, passes on it, and the gateway never
    rejects it for its checksum.  The digest is a function of
    [JSON.stringify(payload)]: payloads with the same serialization have the
    same digest.  The serialization keeps the key order of the payload. *)
Theorem createSignal_verifies (ty : SignalType) (p : json) (now : Z) :
  (exists signal,
      createSignal ty (Some p) now = Returned signal
      /\ payload signal = Some p
      /\ integrityHolds signal = true
      /\ forall helm tracker now',
           failure helm tracker now' signal Integrity = None
           /\ fst (validateSignalSecurity helm tracker now' signal)
              <> Returned {| allowed := false; reason := Some reasonChecksum |})
  /\ forall q : json,
       stringify p = stringify q ->
       generateChecksum (Some p) = generateChecksum (Some q).
Proof.
  split.
  - eexists. split; [reflexivity|]. split; [reflexivity|].
    assert (H : integrityHolds
                  {| type := ty; direction := outbound; timestamp := now;
                     payload := Some p;
                     checksum := toString16 (rollingHash (stringify p));
                     source := None; deviceId := None |} = true).
    { unfold integrityHolds. simpl. apply String.eqb_refl. }
    split; [exact H|]. intros. split.
    + unfold failure. rewrite H. reflexivity.
    + apply verified_never_invalid_checksum, H.
  - intros q Hq. unfold generateChecksum. rewrite Hq. reflexivity.
Qed.

Lemma createSignal_verifies_witness :
  exists signal,
    createSignal t_status (Some payloadAB) clock0 = Returned signal
    /\ checksum signal = "4b9bdd50"
    /\ integrityHolds signal = true.
Proof.
  destruct (createSignal_verifies t_status payloadAB clock0)
    as [(signal & Hmade & _ & Hholds & _) _].
  exists signal. split; [exact Hmade|]. split; [|exact Hholds].
  injection Hmade as <-. vm_compute. reflexivity.
Defined.

(** C3 as stated does not hold: nothing puts the payload into a
    canonical form before it is hashed.  The two payloads below hold the same
    properties in the two orders and get different digests. *)
Lemma digest_depends_on_key_order :
  keyPermuted payloadAB payloadBA
  /\ stringify payloadAB = unquoted "{'a':1,'b':2}"
  /\ stringify payloadBA = unquoted "{'b':2,'a':1}"
  /\ generateChecksum (Some payloadAB) = Returned "4b9bdd50"
  /\ generateChecksum (Some payloadBA) = Returned "4853a550".
Proof.
  split; [constructor; apply perm_swap|].
  repeat split; vm_compute; reflexivity.
Qed.

End GatewayFacts.

(* ================================================================== *)
(** ** The polling executor *)
(* ================================================================== *)

Section SortFacts.
Import Js.
Context {A : Type} (key : A -> Z).

(** A comparator that subtracts keys, as the one of the executor does. *)
Definition byKey (a b : A) : Z := key a - key b.

Lemma insertSorted_perm (x : A) (l : list A) :
  Permutation (x :: l) (insertSorted byKey x l).
Proof.
  induction l as [|y l IH]; simpl; [reflexivity|].
  destruct (byKey x y <=? 0); [reflexivity|].
  rewrite perm_swap. apply perm_skip, IH.
Qed.

Lemma sort_perm (l : list A) : Permutation l (sort byKey l).
Proof.
  induction l as [|x l IH]; simpl; [constructor|].
  rewrite <- insertSorted_perm. apply perm_skip, IH.
Qed.

Lemma insertSorted_sorted (x : A) (l : list A) :
  StronglySorted (fun a b => key a <= key b) l ->
  StronglySorted (fun a b => key a <= key b) (insertSorted byKey x l).
Proof.
  induction l as [|y l IH]; intros Hs; simpl.
  - constructor; constructor.
  - inversion Hs as [|? ? Hl Hy]; subst.
    destruct (byKey x y <=? 0) eqn:E; unfold byKey in E.
    + apply Z.leb_le in E. constructor; [exact Hs|].
      constructor; [lia|].
      eapply Forall_impl; [|exact Hy]. simpl. intros; lia.
    + apply Z.leb_gt in E. constructor; [apply IH, Hl|].
      eapply Permutation_Forall; [apply insertSorted_perm|].
      constructor; [lia | exact Hy].
Qed.

(** The result is in ascending key order. *)
Lemma sort_sorted (l : list A) :
  StronglySorted (fun a b => key a <= key b) (sort byKey l).
Proof.
  induction l as [|x l IH]; simpl; [constructor|].
  apply insertSorted_sorted, IH.
Qed.

Lemma insertSorted_filter (k : Z) (x : A) (l : list A) :
  filter (fun a => key a =? k) (insertSorted byKey x l)
  = filter (fun a => key a =? k) (x :: l).
Proof.
  induction l as [|y l IH]; simpl; [reflexivity|].
  destruct (byKey x y <=? 0) eqn:E; [reflexivity|].
  unfold byKey in E. apply Z.leb_gt in E.
  simpl. rewrite IH. simpl.
  destruct (key x =? k) eqn:Ex; [|reflexivity].
  apply Z.eqb_eq in Ex.
  replace (key y =? k) with false by (symmetry; apply Z.eqb_neq; lia).
  reflexivity.
Qed.

(** The sort is stable: elements of equal key keep their order. *)
Lemma sort_stable (k : Z) (l : list A) :
  filter (fun a => key a =? k) (sort byKey l) = filter (fun a => key a =? k) l.
Proof.
  induction l as [|x l IH]; simpl; [reflexivity|].
  rewrite insertSorted_filter. simpl. rewrite IH. reflexivity.
Qed.

End SortFacts.

Section SelectionFacts.
Import Js Json World Executor.

Lemma comparePriority_byKey : comparePriority = byKey rank.
Proof. reflexivity. Qed.

(** What the poll selects: a job of least rank, and among those the one
    the store listed first. *)
Lemma selectJob_least (jobs : list BurnJob) (job : BurnJob) :
  selectJob jobs = Some job ->
  In job jobs
  /\ (forall other, In other jobs -> rank job <= rank other)
  /\ hd_error (filter (fun a => rank a =? rank job) jobs) = Some job.
Proof.
  unfold selectJob, sortJobs. rewrite comparePriority_byKey. intros H.
  pose proof (sort_perm rank jobs) as Hp.
  pose proof (sort_sorted rank jobs) as Hs.
  pose proof (sort_stable rank (rank job) jobs) as Hst.
  destruct (sort (byKey rank) jobs) as [|j rest]; [discriminate|].
  simpl in H. injection H as ->.
  split; [|split].
  - eapply Permutation_in; [symmetry; exact Hp | left; reflexivity].
  - intros other Ho.
    eapply Permutation_in in Ho; [|exact Hp].
    inversion Hs as [|? ? _ Hall]; subst.
    destruct Ho as [<- | Ho]; [lia|].
    rewrite Forall_forall in Hall. apply Hall, Ho.
  - rewrite <- Hst. simpl. rewrite Z.eqb_refl. reflexivity.
Qed.

(** The rank of an urgent job is the rank of a normal one: the zero of
    [priorityOrder] is falsy and is replaced by the default 2. *)
Lemma rank_values :
  forall job,
    rank job = match priority job with
               | Manifest.urgent => 2
               | Manifest.high => 1
               | Manifest.normal => 2
               | Manifest.low => 3
               end.
Proof. intros job. unfold rank. destruct (priority job); reflexivity. Qed.

(** Whenever a high job is pending, the poll selects a high job, urgent
    jobs or not. *)
Lemma high_job_is_selected_first (jobs : list BurnJob) (job h : BurnJob) :
  selectJob jobs = Some job ->
  In h jobs -> priority h = Manifest.high ->
  priority job = Manifest.high.
Proof.
  intros Hsel Hin Hh.
  apply selectJob_least in Hsel. destruct Hsel as (_ & Hleast & _).
  specialize (Hleast h Hin). rewrite !rank_values, Hh in Hleast.
  destruct (priority job); try reflexivity; lia.
Qed.

(** C1, on the failing input: for the jobs low, urgent, normal, high,
    listed by the store in that order, the sort puts the high job in front of
    the urgent one, in core/executor.ts and in automate.ts alike, and the
    executor processes them in the order high, urgent, normal, low. *)
Theorem poll_selects_high_before_urgent :
  map priority (sortJobs fourJobs)
  = [Manifest.high; Manifest.urgent; Manifest.normal; Manifest.low]
  /\ option_map priority (selectJob fourJobs) = Some Manifest.high
  /\ fst (Automate.fetchPendingJobs (worldWith fourJobs [] []))
     = Returned [jobOf "J4" Manifest.high 0; jobOf "J2" Manifest.urgent 0;
                 jobOf "J3" Manifest.normal 0; jobOf "J1" Manifest.low 0]
  /\ option_map (map (fun r => (jobId (fst r), snd r)))
       (match fst (rounds 4 (worldWith fourJobs [] [])) with
        | Returned rs => Some rs
        | Thrown _ => None
        end)
     = Some [("J4", Completed); ("J2", Completed); ("J3", Completed); ("J1", Completed)].
Proof. repeat split; vm_compute; reflexivity. Qed.

End SelectionFacts.

Section StoreFacts.
Import Js Json World.

Lemma lookup_put_same (path : string) (b : blob) (s : list (string * blob)) :
  lookup path (put path b s) = Some b.
Proof.
  unfold lookup. induction s as [|[k v] s IH]; simpl.
  - rewrite String.eqb_refl. reflexivity.
  - destruct (String.eqb k path) eqn:E; simpl; rewrite E; [reflexivity | exact IH].
Qed.

Lemma lookup_put_other (path other : string) (b : blob) (s : list (string * blob)) :
  path <> other -> lookup other (put path b s) = lookup other s.
Proof.
  intros Hne. unfold lookup. induction s as [|[k v] s IH]; simpl.
  - destruct (String.eqb path other) eqn:E; [|reflexivity].
    apply String.eqb_eq in E. contradiction.
  - destruct (String.eqb k path) eqn:E; simpl.
    + apply String.eqb_eq in E. subst k.
      destruct (String.eqb path other) eqn:E'; [|reflexivity].
      apply String.eqb_eq in E'. contradiction.
    + rewrite IH. reflexivity.
Qed.

Lemma bind_Returned {A B : Type} (m : M A) (f : A -> M B) (w w' : World) (b : B) :
  bind m f w = (Returned b, w') ->
  exists a w1, m w = (Returned a, w1) /\ f a w1 = (Returned b, w').
Proof.
  unfold bind. destruct (m w) as [[a|msg] w1]; intros H; [|discriminate].
  exists a, w1. split; [reflexivity | exact H].
Qed.

Lemma ret_Returned {A : Type} (a b : A) (w w' : World) :
  ret a w = (Returned b, w') -> a = b /\ w = w'.
Proof. unfold ret. intros H. injection H as -> ->. split; reflexivity. Qed.

End StoreFacts.

Section CancelFacts.
Import Js Json World Executor.

Local Opaque toString16 rollingHash stringify toISOString isoDate.

Lemma uploadToOneDrive_Returned (path : string) (b : blob) (w w' : World) :
  uploadToOneDrive path b w = (Returned tt, w') ->
  store w' = put path b (store w) /\ sameButStore w w'.
Proof.
  unfold uploadToOneDrive, bind, nextFault, throw, sameButStore.
  destruct (faults w) as [|[] fs]; simpl; intros H; inversion H; subst; simpl; auto.
Qed.

Lemma createSignal_Some (ty : UsbSignal.SignalType) (p : json) (t : Z) :
  UsbSignal.createSignal ty (Some p) t
  = Returned {| UsbSignal.type := ty; UsbSignal.direction := UsbSignal.outbound;
                UsbSignal.timestamp := t; UsbSignal.payload := Some p;
                UsbSignal.checksum := toString16 (rollingHash (stringify p));
                UsbSignal.source := None; UsbSignal.deviceId := None |}.
Proof. reflexivity. Qed.

(** What a call of [sendCommand] that returns has done. *)
Lemma sendCommand_Returned (command : string) (params : option json)
    (w w' : World) (s : UsbSignal.SignalPacket) :
  sendCommand command params w = (Returned s, w') ->
  UsbSignal.payload s = Some (commandPayload command params)
  /\ (exists ob, store w' = put "signals/outbound.json" ob (store w))
  /\ exec w' = exec w /\ clock w' = clock w /\ inboundFeed w' = inboundFeed w
  /\ UsbSignal.signalQueue (adapter w') = (UsbSignal.signalQueue (adapter w) ++ [s])%list
  /\ UsbSignal.responseBuffer (adapter w') = UsbSignal.responseBuffer (adapter w)
  /\ UsbSignal.helm (adapter w') = UsbSignal.helm (adapter w).
Proof.
  unfold sendCommand. intros H.
  apply bind_Returned in H. destruct H as (t & w1 & Ht & H).
  unfold now in Ht. injection Ht as <- <-.
  rewrite createSignal_Some in H.
  apply bind_Returned in H. destruct H as ([] & w2 & H2 & H).
  injection H2 as <-.
  apply bind_Returned in H. destruct H as (queue & w3 & H3 & H).
  injection H3 as <- <-.
  apply bind_Returned in H. destruct H as (t' & w4 & H4 & H).
  unfold now in H4. injection H4 as <- <-.
  apply bind_Returned in H. destruct H as ([] & w5 & H5 & H).
  apply ret_Returned in H. destruct H as [<- <-].
  apply uploadToOneDrive_Returned in H5.
  destruct H5 as (Hstore & Hexec & Hadapter & Hclock & Hfeed).
  simpl in *. rewrite Hadapter.
  repeat split; try assumption; try reflexivity.
  eexists. exact Hstore.
Qed.

(** What a call of [updateJobStatus] that returns has done. *)
Lemma updateJobStatus_Returned (id : string) (st : Manifest.JobStatus) (progress : Z)
    (err : option string) (w w' : World) :
  updateJobStatus id st progress err w = (Returned tt, w') ->
  let u := {| su_jobId := id; su_status := st; su_progress := progress;
              su_error := err; su_updated := toISOString (clock w);
              su_device := DEVICE |} in
  (exists ob, store w' = put "signals/outbound.json" ob
                           (put (statusPath id) (BStatus u) (store w)))
  /\ exec w' = exec w /\ clock w' = clock w /\ inboundFeed w' = inboundFeed w
  /\ (exists s, UsbSignal.payload s = Some (commandPayload "status" (Some (statusJson u)))
                /\ UsbSignal.signalQueue (adapter w')
                   = (UsbSignal.signalQueue (adapter w) ++ [s])%list)
  /\ UsbSignal.responseBuffer (adapter w') = UsbSignal.responseBuffer (adapter w)
  /\ UsbSignal.helm (adapter w') = UsbSignal.helm (adapter w).
Proof.
  unfold updateJobStatus. intros H.
  apply bind_Returned in H. destruct H as (t & w1 & Ht & H).
  unfold now in Ht. injection Ht as <- <-.
  apply bind_Returned in H. destruct H as ([] & w2 & H2 & H).
  apply bind_Returned in H. destruct H as (s & w3 & H3 & H).
  apply ret_Returned in H. destruct H as [_ <-].
  apply uploadToOneDrive_Returned in H2.
  destruct H2 as (Hstore & Hexec & Hadapter & Hclock & Hfeed).
  apply sendCommand_Returned in H3.
  destruct H3 as (Hpay & [ob Hstore3] & Hexec3 & Hclock3 & Hfeed3 & Hqueue & Hbuf & Hhelm).
  cbv zeta. rewrite Hclock in *. rewrite Hadapter in *.
  repeat split; try congruence.
  - exists ob. rewrite Hstore3, Hstore. reflexivity.
  - exists s. split; assumption.
Qed.

(** What a call of [syncToOneDriveAfterBurn] that returns has done. *)
Lemma syncToOneDriveAfterBurn_Returned (id : string) (st : Manifest.JobStatus)
    (err : option string) (w w' : World) :
  syncToOneDriveAfterBurn id st err w = (Returned tt, w') ->
  let r := {| cr_jobId := id; cr_status := st; cr_completedAt := toISOString (clock w);
              cr_error := err; cr_device := DEVICE; cr_syncedToOneDrive := true |} in
  store w' = put (archivePath (isoDate (clock w)) id) (BCompletion r)
               (put (completedPath id) (BCompletion r) (store w))
  /\ sameButStore w w'.
Proof.
  unfold syncToOneDriveAfterBurn. intros H.
  apply bind_Returned in H. destruct H as (t & w1 & Ht & H).
  unfold now in Ht. injection Ht as <- <-.
  apply bind_Returned in H. destruct H as ([] & w2 & H2 & H).
  apply bind_Returned in H. destruct H as (t' & w3 & H3 & H).
  unfold now in H3. injection H3 as <- <-.
  apply bind_Returned in H. destruct H as ([] & w4 & H4 & H).
  apply ret_Returned in H. destruct H as [_ <-].
  apply uploadToOneDrive_Returned in H2, H4.
  destruct H2 as (Hs2 & He2 & Ha2 & Hc2 & Hf2).
  destruct H4 as (Hs4 & He4 & Ha4 & Hc4 & Hf4).
  cbv zeta. unfold sameButStore. rewrite Hc2 in Hs4.
  repeat split; try congruence.
Qed.

(** [receiveSignals] touches neither the store nor the executor state nor
    the outbound queue, and only adds to the response buffer the signals it
    returns. *)
Lemma receiveSignals_Returned (w w' : World) (signals : list UsbSignal.SignalPacket) :
  receiveSignals w = (Returned signals, w') ->
  store w' = store w /\ exec w' = exec w /\ clock w' = clock w
  /\ UsbSignal.signalQueue (adapter w') = UsbSignal.signalQueue (adapter w)
  /\ UsbSignal.responseBuffer (adapter w')
     = (UsbSignal.responseBuffer (adapter w) ++ signals)%list.
Proof.
  unfold receiveSignals.
  destruct (match inboundFeed w with
            | [] => (None, [])
            | d :: rest => (d, rest)
            end) as [data feed].
  destruct (UsbSignal.receiveSignals data (clock w) (adapter w)) as [sigs a] eqn:E.
  intros H. injection H as <- <-. simpl.
  assert (UsbSignal.signalQueue a = UsbSignal.signalQueue (adapter w)
          /\ UsbSignal.responseBuffer a
             = (UsbSignal.responseBuffer (adapter w) ++ sigs)%list) as [Hq Hb].
  { unfold UsbSignal.receiveSignals in E.
    destruct data as [queue|].
    - destruct (UsbSignal.validateEach _ _ _ _ _) as [[validated|msg] t'].
      + destruct (map UsbSignal.timestamp validated) eqn:Em.
        * injection E as <- <-. simpl. rewrite app_nil_r. split; reflexivity.
        * injection E as <- <-. simpl. split; reflexivity.
      + injection E as <- <-. simpl. rewrite app_nil_r. split; reflexivity.
    - injection E as <- <-. rewrite app_nil_r. split; reflexivity. }
  repeat split; assumption.
Qed.

Lemma validateEach_validated (h : UsbSignal.Helm) (now : Z)
    (signals : list UsbSignal.SignalPacket) :
  forall t acc out t',
    UsbSignal.validateEach h t now signals acc = (Returned out, t') ->
    Forall (validated h now) acc ->
    Forall (validated h now) out.
Proof.
  induction signals as [|s rest IH]; intros t acc out t' H Hacc; simpl in H.
  - injection H as <- <-. exact Hacc.
  - destruct (UsbSignal.validateSignalSecurity h t now s) as [[r|msg] t1] eqn:E;
      [|discriminate].
    destruct (UsbSignal.allowed r) eqn:Er.
    + apply (IH _ _ _ _ H). apply Forall_app. split; [exact Hacc|].
      constructor; [|constructor]. exists t, r. rewrite E. split; [reflexivity | exact Er].
    + apply (IH _ _ _ _ H Hacc).
Qed.

(** Every signal [receiveSignals] returns was allowed by the gateway. *)
Lemma receiveSignals_validated (w w' : World) (signals : list UsbSignal.SignalPacket) :
  receiveSignals w = (Returned signals, w') ->
  UsbSignal.helm (adapter w') = UsbSignal.helm (adapter w)
  /\ Forall (validated (UsbSignal.helm (adapter w)) (clock w)) signals.
Proof.
  unfold receiveSignals.
  destruct (match inboundFeed w with
            | [] => (None, [])
            | d :: rest => (d, rest)
            end) as [data feed].
  destruct (UsbSignal.receiveSignals data (clock w) (adapter w)) as [sigs a] eqn:E.
  intros H. injection H as <- <-. simpl.
  unfold UsbSignal.receiveSignals in E.
  destruct data as [queue|].
  - destruct (UsbSignal.validateEach _ _ _ _ _) as [[out|msg] t'] eqn:Ev.
    + apply validateEach_validated in Ev; [|constructor].
      destruct (map UsbSignal.timestamp out) eqn:Em.
      * injection E as <- <-. simpl. split; [reflexivity | constructor].
      * injection E as <- <-. simpl. split; [reflexivity | exact Ev].
    + injection E as <- <-. simpl. split; [reflexivity | constructor].
  - injection E as <- <-. split; [reflexivity | constructor].
Qed.

Lemma advanced_refl (id : string) (w : World) : advanced id w w.
Proof.
  unfold advanced. repeat split; try reflexivity.
  - exists []. rewrite app_nil_r. split; reflexivity.
  - exists []. rewrite app_nil_r. reflexivity.
Qed.

Lemma advanced_trans (id : string) (w0 w1 w2 : World) :
  advanced id w0 w1 -> advanced id w1 w2 -> advanced id w0 w2.
Proof.
  intros (Hp1 & He1 & Hh1 & (n1 & Hq1 & Hn1) & (g1 & Hb1))
         (Hp2 & He2 & Hh2 & (n2 & Hq2 & Hn2) & (g2 & Hb2)).
  unfold advanced. repeat split; try congruence.
  - exists (n1 ++ n2)%list. rewrite Hq2, Hq1, <- app_assoc. split; [reflexivity|].
    rewrite forallb_app, Hn1, Hn2. reflexivity.
  - exists (g1 ++ g2)%list. rewrite Hb2, Hb1, <- app_assoc. reflexivity.
Qed.

Lemma pending_not_status (a b : string) : statusPath a <> pendingPath b.
Proof. unfold statusPath, pendingPath. simpl. discriminate. Qed.
Lemma pending_not_outbound (b : string) : "signals/outbound.json" <> pendingPath b.
Proof. unfold pendingPath. simpl. discriminate. Qed.
Lemma pending_not_completed (a b : string) : completedPath a <> pendingPath b.
Proof. unfold completedPath, pendingPath. simpl. discriminate. Qed.
Lemma pending_not_archive (d a b : string) : archivePath d a <> pendingPath b.
Proof. unfold archivePath, pendingPath. simpl. discriminate. Qed.
Lemma status_not_outbound (a : string) : "signals/outbound.json" <> statusPath a.
Proof. unfold statusPath. simpl. discriminate. Qed.
Lemma status_not_completed (a b : string) : completedPath a <> statusPath b.
Proof. unfold completedPath, statusPath. simpl. discriminate. Qed.
Lemma status_not_archive (d a b : string) : archivePath d a <> statusPath b.
Proof. unfold archivePath, statusPath. simpl. discriminate. Qed.
Lemma completed_not_archive (d a b : string) : archivePath d a <> completedPath b.
Proof. unfold archivePath, completedPath. simpl. discriminate. Qed.

Lemma quiet_status (s : UsbSignal.SignalPacket) (u : StatusUpdate) :
  UsbSignal.payload s = Some (commandPayload "status" (Some (statusJson u))) ->
  su_status u <> Manifest.complete ->
  su_status u <> Manifest.verifying ->
  quiet s = true.
Proof.
  intros Hp Hc Hv. unfold quiet, announces. rewrite Hp.
  destruct u as [id st pr er up dv]. simpl in Hc, Hv.
  destruct st; try contradiction; reflexivity.
Qed.

Lemma quiet_burn (s : UsbSignal.SignalPacket) (job : BurnJob) :
  UsbSignal.payload s = Some (commandPayload "burn" (Some (burnParams job))) ->
  quiet s = true.
Proof. intros Hp. unfold quiet, announces. rewrite Hp. reflexivity. Qed.

Lemma updateJobStatus_advanced (id : string) (st : Manifest.JobStatus) (progress : Z)
    (err : option string) (w w' : World) :
  st <> Manifest.complete -> st <> Manifest.verifying ->
  updateJobStatus id st progress err w = (Returned tt, w') ->
  advanced id w w' /\ clock w' = clock w.
Proof.
  intros Hc Hv H. apply updateJobStatus_Returned in H. cbv zeta in H.
  destruct H as ([ob Hs] & He & Hcl & Hf & (s & Hp & Hq) & Hb & Hh).
  split; [|exact Hcl]. unfold advanced. repeat split.
  - rewrite Hs, lookup_put_other by apply pending_not_outbound.
    apply lookup_put_other, pending_not_status.
  - exact He.
  - exact Hh.
  - exists [s]. split; [exact Hq|]. simpl.
    rewrite (quiet_status s _ Hp); [reflexivity | exact Hc | exact Hv].
  - exists []. rewrite app_nil_r. exact Hb.
Qed.

Lemma sendCommand_burn_advanced (id : string) (job : BurnJob) (w w' : World)
    (s : UsbSignal.SignalPacket) :
  sendCommand "burn" (Some (burnParams job)) w = (Returned s, w') ->
  advanced id w w' /\ clock w' = clock w.
Proof.
  intros H. apply sendCommand_Returned in H.
  destruct H as (Hp & [ob Hs] & He & Hcl & Hf & Hq & Hb & Hh).
  split; [|exact Hcl]. unfold advanced. repeat split.
  - rewrite Hs. apply lookup_put_other, pending_not_outbound.
  - exact He.
  - exact Hh.
  - exists [s]. split; [exact Hq|]. simpl. rewrite (quiet_burn s job Hp). reflexivity.
  - exists []. rewrite app_nil_r. exact Hb.
Qed.

Lemma receiveSignals_advanced (id : string) (w w' : World)
    (signals : list UsbSignal.SignalPacket) :
  receiveSignals w = (Returned signals, w') ->
  advanced id w w' /\ clock w' = clock w.
Proof.
  intros H. pose proof (receiveSignals_validated _ _ _ H) as [Hh _].
  apply receiveSignals_Returned in H. destruct H as (Hs & He & Hcl & Hq & Hb).
  split; [|exact Hcl]. unfold advanced. rewrite Hs. repeat split.
  - exact He.
  - exact Hh.
  - exists []. rewrite app_nil_r. split; [exact Hq | reflexivity].
  - exists signals. exact Hb.
Qed.

Lemma sleep_advanced (id : string) (ms : Z) (w w' : World) :
  sleep ms w = (Returned tt, w') -> advanced id w w'.
Proof.
  unfold sleep. intros H. injection H as <-.
  unfold advanced. simpl. repeat split.
  - exists []. rewrite app_nil_r. split; reflexivity.
  - exists []. rewrite app_nil_r. reflexivity.
Qed.

End CancelFacts.

Section ReliableStore.
Import Js Json World Executor.

Local Opaque toString16 rollingHash stringify toISOString isoDate.

(** With no fault to come every request to the store succeeds, and the
    calls built from them return. *)
Lemma sendCommand_ok (command : string) (params : option json) (w : World) :
  faults w = [] ->
  exists s w', sendCommand command params w = (Returned s, w') /\ faults w' = [].
Proof.
  intros Hf. unfold sendCommand, uploadToOneDrive, nextFault, throw, ret, now, bind.
  rewrite createSignal_Some. cbn. rewrite Hf.
  eexists. eexists. split; [reflexivity| exact Hf].
Qed.
Lemma updateJobStatus_ok (id : string) (st : Manifest.JobStatus) (progress : Z)
    (err : option string) (w : World) :
  faults w = [] ->
  exists w', updateJobStatus id st progress err w = (Returned tt, w') /\ faults w' = [].
Proof.
  intros Hf. unfold updateJobStatus, sendCommand, uploadToOneDrive, nextFault, throw, ret, now, bind.
  rewrite Hf. cbn. rewrite Hf.
  eexists. split; [reflexivity| exact Hf].
Qed.
Lemma syncToOneDriveAfterBurn_ok (id : string) (st : Manifest.JobStatus)
    (err : option string) (w : World) :
  faults w = [] ->
  exists w', syncToOneDriveAfterBurn id st err w = (Returned tt, w') /\ faults w' = [].
Proof.
  intros Hf. unfold syncToOneDriveAfterBurn, uploadToOneDrive, nextFault, throw, ret, now, bind.
  rewrite Hf. cbn. rewrite Hf.
  eexists. split; [reflexivity| exact Hf].
Qed.
(** A step that returns hands its value and world to the rest. *)
Lemma bind_eq {A B : Type} (m : M A) (f : A -> M B) (w w1 : World) (a : A) :
  m w = (Returned a, w1) -> bind m f w = f a w1.
Proof. unfold bind. intros ->. reflexivity. Qed.

Lemma receiveSignals_ok (w : World) :
  exists signals w',
    receiveSignals w = (Returned signals, w') /\ faults w' = faults w.
Proof.
  unfold receiveSignals.
  destruct (match inboundFeed w with
            | [] => (None, [])
            | d :: rest => (d, rest)
            end) as [data feed].
  destruct (UsbSignal.receiveSignals data (clock w) (adapter w)) as [signals a].
  eexists. eexists. split; reflexivity.
Qed.

(** With a reliable store the burning loop returns: at the progress of
    the first poll that finds a cancel request for the job, or at its end. *)
Lemma burnLoop_ok (job : BurnJob) (steps : list Z) :
  forall w,
    faults w = [] ->
    exists r w', burnLoop job steps w = (Returned r, w') /\ faults w' = [].
Proof.
  induction steps as [|p rest IH]; intros w Hf; simpl.
  - exists None, w. split; [reflexivity | exact Hf].
  - rewrite (bind_eq (sleep 1000) _ w (setClock (clock w + 1000) w) tt eq_refl).
    destruct (updateJobStatus_ok (jobId job) Manifest.burning p None
                (setClock (clock w + 1000) w) Hf) as (w1 & H1 & Hf1).
    rewrite (bind_eq _ _ _ _ _ H1).
    destruct (receiveSignals_ok w1) as (signals & w2 & H2 & Hf2).
    rewrite Hf1 in Hf2. rewrite (bind_eq _ _ _ _ _ H2).
    destruct (find (isCancelFor (jobId job)) signals).
    + destruct (updateJobStatus_ok (jobId job) Manifest.cancelled p None w2 Hf2)
        as (w3 & H3 & Hf3).
      destruct (syncToOneDriveAfterBurn_ok (jobId job) Manifest.cancelled None w3 Hf3)
        as (w4 & H4 & Hf4).
      rewrite (bind_eq _ _ _ _ _ H3), (bind_eq _ _ _ _ _ H4).
      exists (Some p), w4. split; [reflexivity | exact Hf4].
    + apply IH, Hf2.
Qed.

Lemma processBody_ok (job : BurnJob) (w : World) :
  faults w = [] ->
  exists exit w',
    processBody job w = (Returned exit, w')
    /\ (exit = Completed \/ exists p, exit = Cancelled p).
Proof.
  intros Hf. unfold processBody.
  destruct (updateJobStatus_ok (jobId job) Manifest.queued 0 None w Hf)
    as (w1 & H1 & Hf1).
  destruct (sendCommand_ok "burn" (Some (burnParams job)) w1 Hf1)
    as (s & w2 & H2 & Hf2).
  destruct (updateJobStatus_ok (jobId job) Manifest.burning 10 None w2 Hf2)
    as (w3 & H3 & Hf3).
  destruct (burnLoop_ok job progressSteps w3 Hf3) as (r & w4 & H4 & Hf4).
  rewrite (bind_eq _ _ _ _ _ H1), (bind_eq _ _ _ _ _ H2), (bind_eq _ _ _ _ _ H3),
    (bind_eq _ _ _ _ _ H4).
  destruct r as [p|].
  - eexists. eexists. split; [reflexivity | right; eexists; reflexivity].
  - destruct (updateJobStatus_ok (jobId job) Manifest.verifying 95 None w4 Hf4)
      as (w5 & H5 & Hf5).
    rewrite (bind_eq _ _ _ _ _ H5).
    rewrite (bind_eq (sleep 500) _ w5 (setClock (clock w5 + 500) w5) tt eq_refl).
    destruct (updateJobStatus_ok (jobId job) Manifest.complete 100 None
                (setClock (clock w5 + 500) w5) Hf5) as (w7 & H7 & Hf7).
    rewrite (bind_eq _ _ _ _ _ H7).
    destruct (syncToOneDriveAfterBurn_ok (jobId job) Manifest.complete None w7 Hf7)
      as (w8 & H8 & Hf8).
    rewrite (bind_eq _ _ _ _ _ H8).
    unfold deleteFromOneDrive, nextFault, pushCompleted, ret, bind. rewrite Hf8.
    destruct (lookup (pendingPath (jobId job)) (store w8));
      (eexists; eexists; split; [reflexivity | left; reflexivity]).
Qed.

(** With a reliable store [processJob] returns, and it ends as completed
    or as cancelled, never in the [catch] block. *)
Lemma processJob_ok (job : BurnJob) (w : World) :
  faults w = [] ->
  exists exit w',
    processJob job w = (Returned exit, w')
    /\ (exit = Completed \/ exists p, exit = Cancelled p).
Proof.
  intros Hf. unfold processJob.
  rewrite (bind_eq (setCurrentJob (Some job)) _ w _ tt eq_refl).
  match goal with
  | |- context [bind (tryCatch _ _) _ ?w0] =>
      destruct (processBody_ok job w0 Hf) as (exit & w1 & Hb & Hexit)
  end.
  erewrite bind_eq by (unfold tryCatch; rewrite Hb; reflexivity).
  destruct Hexit as [-> | [p ->]].
  - eexists. eexists. split; [reflexivity | left; reflexivity].
  - eexists. eexists. split; [reflexivity | right; eexists; reflexivity].
Qed.

End ReliableStore.

(* ================================================================== *)
(** ** A cancel request received during the burn *)
(* ================================================================== *)

Section CancelTheorems.
Import Js Json World Executor.

Local Opaque toString16 rollingHash stringify toISOString isoDate.

Lemma serves_same (n : nat) (w w' : World) :
  faults w' = faults w -> serves n w -> serves n w'.
Proof. unfold serves. intros ->. exact (fun H => H). Qed.

(** A request the store serves succeeds. *)
Lemma uploadToOneDrive_serves (path : string) (b : blob) (w : World) (n : nat) :
  serves (S n) w ->
  exists w', uploadToOneDrive path b w = (Returned tt, w') /\ serves n w'.
Proof.
  unfold serves, uploadToOneDrive, bind, nextFault, throw. intros H.
  destruct (faults w) as [|[|] fs] eqn:E; cbn [firstn forallb negb andb] in H.
  - eexists. split; [reflexivity|]. cbn [faults setStore]. rewrite E.
    destruct n; reflexivity.
  - discriminate.
  - eexists. split; [reflexivity|]. cbn [faults setStore setFaults]. exact H.
Qed.

Lemma sendCommand_serves (command : string) (params : option json) (w : World) (n : nat) :
  serves (S n) w ->
  exists s w', sendCommand command params w = (Returned s, w') /\ serves n w'.
Proof.
  intros H. unfold sendCommand.
  rewrite (bind_eq now _ w w (clock w) eq_refl).
  rewrite createSignal_Some.
  erewrite bind_eq by reflexivity.
  erewrite bind_eq by reflexivity.
  erewrite bind_eq by reflexivity.
  match goal with
  | |- context [bind (uploadToOneDrive ?p ?b) _ ?w0] =>
      destruct (uploadToOneDrive_serves p b w0 n (serves_same _ w w0 eq_refl H))
        as (w1 & H1 & S1)
  end.
  rewrite (bind_eq _ _ _ _ _ H1).
  eexists. eexists. split; [reflexivity | exact S1].
Qed.

Lemma updateJobStatus_serves (id : string) (st : Manifest.JobStatus) (progress : Z)
    (err : option string) (w : World) (n : nat) :
  serves (S (S n)) w ->
  exists w', updateJobStatus id st progress err w = (Returned tt, w') /\ serves n w'.
Proof.
  intros H. unfold updateJobStatus.
  rewrite (bind_eq now _ w w (clock w) eq_refl). cbv zeta.
  match goal with
  | |- context [bind (uploadToOneDrive ?p ?b) _ w] =>
      destruct (uploadToOneDrive_serves p b w (S n) H) as (w1 & H1 & S1)
  end.
  rewrite (bind_eq _ _ _ _ _ H1).
  match goal with
  | |- context [bind (sendCommand ?c ?ps) _ w1] =>
      destruct (sendCommand_serves c ps w1 n S1) as (s & w2 & H2 & S2)
  end.
  rewrite (bind_eq _ _ _ _ _ H2).
  exists w2. split; [reflexivity | exact S2].
Qed.

Lemma syncToOneDriveAfterBurn_serves (id : string) (st : Manifest.JobStatus)
    (err : option string) (w : World) (n : nat) :
  serves (S (S n)) w ->
  exists w', syncToOneDriveAfterBurn id st err w = (Returned tt, w') /\ serves n w'.
Proof.
  intros H. unfold syncToOneDriveAfterBurn.
  rewrite (bind_eq now _ w w (clock w) eq_refl). cbv zeta.
  match goal with
  | |- context [bind (uploadToOneDrive ?p ?b) _ w] =>
      destruct (uploadToOneDrive_serves p b w (S n) H) as (w1 & H1 & S1)
  end.
  rewrite (bind_eq _ _ _ _ _ H1).
  rewrite (bind_eq now _ w1 w1 (clock w1) eq_refl).
  match goal with
  | |- context [bind (uploadToOneDrive ?p ?b) _ w1] =>
      destruct (uploadToOneDrive_serves p b w1 n S1) as (w2 & H2 & S2)
  end.
  rewrite (bind_eq _ _ _ _ _ H2).
  exists w2. split; [reflexivity | exact S2].
Qed.

(** The rounds of the burning loop that found no cancel request have
    left the loop where a later round takes it up. *)
Lemma burnLoop_app (job : BurnJob) (before steps : list Z) :
  forall w w1,
    burnLoop job before w = (Returned None, w1) ->
    burnLoop job (before ++ steps) w = burnLoop job steps w1.
Proof.
  induction before as [|p0 rest IH]; intros w w1 H.
  - cbn [burnLoop] in H. apply ret_Returned in H. destruct H as [_ <-]. reflexivity.
  - cbn [burnLoop List.app] in *.
    apply bind_Returned in H. destruct H as ([] & wa & Ha & H).
    apply bind_Returned in H. destruct H as ([] & wb & Hb & H).
    apply bind_Returned in H. destruct H as (signals & wc & Hc & H).
    rewrite (bind_eq _ _ _ _ _ Ha), (bind_eq _ _ _ _ _ Hb), (bind_eq _ _ _ _ _ Hc).
    destruct (find (isCancelFor (jobId job)) signals).
    + exfalso.
      apply bind_Returned in H. destruct H as ([] & wd & _ & H).
      apply bind_Returned in H. destruct H as ([] & we & _ & H).
      apply ret_Returned in H. destruct H as [H _]. discriminate.
    + apply IH. exact H.
Qed.

(** Rounds that found no cancel request have written [burning] statuses
    only. *)
Lemma burnLoop_passed (job : BurnJob) (steps : list Z) :
  forall w w',
    burnLoop job steps w = (Returned None, w') -> advanced (jobId job) w w'.
Proof.
  induction steps as [|p0 rest IH]; intros w w' H; cbn [burnLoop] in H.
  - apply ret_Returned in H. destruct H as [_ <-]. apply advanced_refl.
  - apply bind_Returned in H. destruct H as ([] & wa & Ha & H).
    apply bind_Returned in H. destruct H as ([] & wb & Hb & H).
    apply bind_Returned in H. destruct H as (signals & wc & Hc & H).
    apply (sleep_advanced (jobId job)) in Ha.
    apply (updateJobStatus_advanced (jobId job)) in Hb; [|discriminate|discriminate].
    apply (receiveSignals_advanced (jobId job)) in Hc.
    destruct Hb as [Hb _]. destruct Hc as [Hc _].
    pose proof (advanced_trans _ _ _ _ (advanced_trans _ _ _ _ Ha Hb) Hc) as Hadv.
    destruct (find (isCancelFor (jobId job)) signals).
    + exfalso.
      apply bind_Returned in H. destruct H as ([] & wd & _ & H).
      apply bind_Returned in H. destruct H as ([] & we & _ & H).
      apply ret_Returned in H. destruct H as [H _]. discriminate.
    + exact (advanced_trans _ _ _ _ Hadv (IH _ _ H)).
Qed.

Lemma announces_status (s : UsbSignal.SignalPacket) (u : StatusUpdate) :
  UsbSignal.payload s = Some (commandPayload "status" (Some (statusJson u))) ->
  announces (su_status u) s = true.
Proof.
  intros Hp. unfold announces. rewrite Hp.
  destruct u as [id st pr er up dv]. cbn [su_status].
  destruct st; reflexivity.
Qed.

(** C4 (as amended).  The job has come to the poll of the burning loop at
    progress [p], and that poll's [receiveSignals] has returned a cancel
    request for the job's id, which the gateway therefore allowed.  When the
    store serves the four uploads of the cancel branch, [processJob] leaves
    through that branch: it has written the [cancelled] status at that
    progress to status/<jobId>.json and sent the status signal that
    announces it, has written one completion record with status [cancelled]
    to completed/<jobId>.json and to archive/<date>/<jobId>.json, and has
    stopped there: it has emitted no [verifying] and no [complete] status
    signal and has not listed the job as completed or failed. *)
Theorem cancel_branch_effects (job : BurnJob) (before rest : list Z) (p : Z)
    (w wp : World) (signals : list UsbSignal.SignalPacket)
    (s : UsbSignal.SignalPacket) :
  progressSteps = (before ++ p :: rest)%list ->
  pollAt job before p w = (Returned (Some signals), wp) ->
  find (isCancelFor (jobId job)) signals = Some s ->
  serves 4 wp ->
  (exists checkedAt, validated (UsbSignal.helm (adapter wp)) checkedAt s)
  /\ exists w',
       processJob job w = (Returned (Cancelled p), w')
       /\ (exists written,
             lookup (statusPath (jobId job)) (store w')
             = Some (BStatus (cancelledStatus job p written)))
       /\ (exists completedAt archivedAt,
             lookup (completedPath (jobId job)) (store w')
             = Some (BCompletion (cancelledRecord job completedAt))
             /\ lookup (archivePath (isoDate archivedAt) (jobId job)) (store w')
                = Some (BCompletion (cancelledRecord job completedAt)))
       /\ completedJobs (exec w') = completedJobs (exec w)
       /\ failedJobs (exec w') = failedJobs (exec w)
       /\ exists new,
            UsbSignal.signalQueue (adapter w')
            = (UsbSignal.signalQueue (adapter w) ++ new)%list
            /\ forallb quiet new = true
            /\ existsb (announces Manifest.cancelled) new = true.
Proof.
  intros Hsteps Hpoll Hfind Hserves.
  unfold pollAt in Hpoll.
  apply bind_Returned in Hpoll. destruct Hpoll as ([] & w0 & H0 & Hpoll).
  apply bind_Returned in Hpoll. destruct Hpoll as ([] & wa & Ha & Hpoll).
  apply bind_Returned in Hpoll. destruct Hpoll as (sb & wb & Hb & Hpoll).
  apply bind_Returned in Hpoll. destruct Hpoll as ([] & wc & Hc & Hpoll).
  apply bind_Returned in Hpoll. destruct Hpoll as (earlier & wd & Hd & Hpoll).
  destruct earlier as [p'|].
  { apply ret_Returned in Hpoll. destruct Hpoll as [Hp _]. discriminate. }
  apply bind_Returned in Hpoll. destruct Hpoll as ([] & we & He & Hpoll).
  apply bind_Returned in Hpoll. destruct Hpoll as ([] & wq & Hq & Hpoll).
  apply bind_Returned in Hpoll. destruct Hpoll as (sigs & wr & Hr & Hpoll).
  apply ret_Returned in Hpoll. destruct Hpoll as [Hs <-]. injection Hs as <-.
  (* the cancel branch *)
  destruct (updateJobStatus_serves (jobId job) Manifest.cancelled p None wr 2 Hserves)
    as (w3 & H3 & Hs3).
  destruct (syncToOneDriveAfterBurn_serves (jobId job) Manifest.cancelled None w3 0 Hs3)
    as (w4 & H4 & _).
  assert (Eloop : burnLoop job (p :: rest) wd = (Returned (Some p), w4)).
  { cbn [burnLoop].
    rewrite (bind_eq _ _ _ _ _ He), (bind_eq _ _ _ _ _ Hq), (bind_eq _ _ _ _ _ Hr), Hfind.
    rewrite (bind_eq _ _ _ _ _ H3), (bind_eq _ _ _ _ _ H4). reflexivity. }
  assert (Ebody : processBody job w0 = (Returned (Cancelled p), w4)).
  { unfold processBody.
    rewrite (bind_eq _ _ _ _ _ Ha), (bind_eq _ _ _ _ _ Hb), (bind_eq _ _ _ _ _ Hc).
    rewrite Hsteps, (bind_eq _ _ _ _ _ (eq_trans (burnLoop_app job before _ _ _ Hd) Eloop)).
    reflexivity. }
  assert (Ejob : processJob job w = (Returned (Cancelled p), w4)).
  { unfold processJob. rewrite (bind_eq _ _ _ _ _ H0).
    erewrite bind_eq by (unfold tryCatch; rewrite Ebody; reflexivity).
    reflexivity. }
  (* what the poll returned was allowed by the gateway *)
  pose proof (receiveSignals_validated _ _ _ Hr) as [Hhelm Hval].
  pose proof (receiveSignals_Returned _ _ _ Hr) as (_ & _ & Hclock & _ & _).
  apply find_some in Hfind. destruct Hfind as [Hin _].
  split.
  { exists (clock wr). rewrite Hhelm, Hclock.
    rewrite Forall_forall in Hval. apply Hval, Hin. }
  exists w4. split; [exact Ejob|].
  (* the run up to the poll *)
  unfold setCurrentJob in H0. injection H0 as <-.
  apply (updateJobStatus_advanced (jobId job)) in Ha; [|discriminate|discriminate].
  apply (sendCommand_burn_advanced (jobId job)) in Hb.
  apply (updateJobStatus_advanced (jobId job)) in Hc; [|discriminate|discriminate].
  apply burnLoop_passed in Hd.
  apply (sleep_advanced (jobId job)) in He.
  apply (updateJobStatus_advanced (jobId job)) in Hq; [|discriminate|discriminate].
  apply (receiveSignals_advanced (jobId job)) in Hr.
  destruct Ha as [Ha _]. destruct Hb as [Hb _]. destruct Hc as [Hc _].
  destruct Hq as [Hq _]. destruct Hr as [Hr _].
  pose proof (advanced_trans _ _ _ _
                (advanced_trans _ _ _ _
                   (advanced_trans _ _ _ _
                      (advanced_trans _ _ _ _
                         (advanced_trans _ _ _ _ (advanced_trans _ _ _ _ Ha Hb) Hc) Hd)
                      He) Hq) Hr)
    as (_ & Hexec & _ & (new0 & Hqueue & Hquiet) & _).
  cbn [setExec exec adapter] in Hexec, Hqueue.
  (* the cancel branch *)
  pose proof (updateJobStatus_Returned _ _ _ _ _ _ H3) as U. cbv zeta in U.
  destruct U as ([ob Hs3'] & He3 & Hc3 & _ & (s' & Hpay & Hq3) & _ & _).
  pose proof (syncToOneDriveAfterBurn_Returned _ _ _ _ _ H4) as S. cbv zeta in S.
  destruct S as (Hs4 & He4 & Ha4 & _ & _).
  split; [|split; [|split; [|split]]].
  - exists (clock wr). unfold cancelledStatus. rewrite Hs4, Hs3'.
    rewrite lookup_put_other by apply status_not_archive.
    rewrite lookup_put_other by apply status_not_completed.
    rewrite lookup_put_other by apply status_not_outbound.
    apply lookup_put_same.
  - exists (clock w3), (clock w3). unfold cancelledRecord. rewrite Hs4. split.
    + rewrite lookup_put_other by apply completed_not_archive.
      apply lookup_put_same.
    + apply lookup_put_same.
  - rewrite He4, He3, Hexec. reflexivity.
  - rewrite He4, He3, Hexec. reflexivity.
  - exists (new0 ++ [s'])%list. rewrite Ha4, Hq3, Hqueue, <- app_assoc.
    split; [reflexivity|]. split.
    + rewrite forallb_app, Hquiet. cbn [forallb].
      rewrite (quiet_status s' _ Hpay); [reflexivity | discriminate | discriminate].
    + rewrite existsb_app. cbn [existsb].
      pose proof (announces_status s' _ Hpay) as Hann. cbn [su_status] in Hann.
      rewrite Hann. cbn [orb]. apply orb_true_r.
Qed.

End CancelTheorems.

Section CancelInstances.
Import Js Json World Executor.

Lemma cancel_branch_effects_witness :
  fst (processJob (jobOf "J1" Manifest.high 0) cancelWorld) = Returned (Cancelled 30)
  /\ (exists written,
        lookup (statusPath "J1")
          (store (snd (processJob (jobOf "J1" Manifest.high 0) cancelWorld)))
        = Some (BStatus (cancelledStatus (jobOf "J1" Manifest.high 0) 30 written)))
  /\ (exists completedAt,
        lookup (completedPath "J1")
          (store (snd (processJob (jobOf "J1" Manifest.high 0) cancelWorld)))
        = Some (BCompletion (cancelledRecord (jobOf "J1" Manifest.high 0) completedAt)))
  /\ completedJobs (exec (snd (processJob (jobOf "J1" Manifest.high 0) cancelWorld))) = []
  /\ failedJobs (exec (snd (processJob (jobOf "J1" Manifest.high 0) cancelWorld))) = [].
Proof.
  assert (Hpoll : pollAt (jobOf "J1" Manifest.high 0) [20] 30 cancelWorld
                  = (Returned (Some [cancelJ1]),
                     snd (pollAt (jobOf "J1" Manifest.high 0) [20] 30 cancelWorld))).
  { rewrite (surjective_pairing (pollAt _ _ _ _)) at 1.
    apply f_equal2; [vm_compute; reflexivity | reflexivity]. }
  destruct (cancel_branch_effects (jobOf "J1" Manifest.high 0) [20] [40; 50; 60; 70; 80; 90]
              30 cancelWorld _ [cancelJ1] cancelJ1 eq_refl Hpoll)
    as (_ & w' & Ejob & Hstatus & (completedAt & archivedAt & Hrecord & _)
        & Hcompleted & Hfailed & _).
  - vm_compute. reflexivity.
  - vm_compute. reflexivity.
  - rewrite Ejob. cbn [fst snd].
    split; [reflexivity|]. split; [exact Hstatus|].
    split; [exists completedAt; exact Hrecord|].
    split; [exact Hcompleted | exact Hfailed].
Defined.

(** C4 as stated does not hold: the cancel branch calls
    [syncToOneDriveAfterBurn(job.jobId, 'cancelled')], which writes the
    completion record.  Job J1, of high priority, is picked by the poll and
    cancelled during the burn at progress 30; completed/J1.json did not exist
    before and holds a record afterwards, and so does the archive. *)
Lemma cancelled_job_gets_completion_record :
  lookup "completed/J1.json" (store cancelWorld) = None
  /\ fst (pollAndProcess cancelWorld)
     = Returned (Some (jobOf "J1" Manifest.high 0, Cancelled 30))
  /\ lookup "completed/J1.json" (store (snd (pollAndProcess cancelWorld)))
     = Some (BCompletion
               {| cr_jobId := "J1"; cr_status := Manifest.cancelled;
                  cr_completedAt := "2023-11-14T22:13:22.000Z"; cr_error := None;
                  cr_device := "HP DVD557s"; cr_syncedToOneDrive := true |})
  /\ lookup "archive/2023-11-14/J1.json" (store (snd (pollAndProcess cancelWorld)))
     = Some (BCompletion
               {| cr_jobId := "J1"; cr_status := Manifest.cancelled;
                  cr_completedAt := "2023-11-14T22:13:22.000Z"; cr_error := None;
                  cr_device := "HP DVD557s"; cr_syncedToOneDrive := true |}).
Proof. repeat split; vm_compute; reflexivity. Qed.


(** The cancel branch is inside the [try] block: when the upload of the
    [cancelled] status fails, the [catch] block takes over and the job ends
    as failed. *)
Lemma cancel_with_failed_upload_ends_failed :
  fst (processJob (jobOf "J1" Manifest.high 0) cancelFaultWorld)
  = Returned (Failed "OneDrive request failed")
  /\ failedJobs (exec (snd (processJob (jobOf "J1" Manifest.high 0) cancelFaultWorld)))
     = ["J1"].
Proof. split; vm_compute; reflexivity. Qed.

End CancelInstances.

Section RetryFacts.
Import Js Json World Executor.

Local Opaque toString16 rollingHash stringify toISOString isoDate.

(** The rank of a job, and so the choice of the poll, does not read the
    retry count. *)
Lemma rank_ignores_retryCount (job : BurnJob) (n : Z) :
  rank {| jobId := jobId job; status := status job; priority := priority job;
          files := files job; created := created job; started := started job;
          completed := completed job; progress := progress job; error := error job;
          retryCount := n |}
  = rank job.
Proof. reflexivity. Qed.

(** The retry loop of [executeAutomate] requeues a failed status only
    while its retry count is a number below 3, and then writes the count
    plus one. *)
Lemma requeue_bound (s : Automate.StatusObject) (nowIso : string) :
  Automate.shouldRequeue s = true ->
  exists n,
    Automate.so_retryCount s = Some n /\ n < 3
    /\ Automate.so_status (Automate.requeued s nowIso) = "pending"
    /\ Automate.so_retryCount (Automate.requeued s nowIso) = Some (orNumber n 0 + 1).
Proof.
  unfold Automate.shouldRequeue. intros H.
  apply andb_prop in H. destruct H as [_ H].
  destruct (Automate.so_retryCount s) as [n|] eqn:E; [|discriminate].
  apply Z.ltb_lt in H. exists n.
  unfold Automate.requeued. rewrite E. simpl. repeat split. exact H.
Qed.

(** The status files the executor writes carry no retry count, so the
    retry loop never requeues them. *)
Lemma executor_status_never_requeued (u : StatusUpdate) :
  Automate.shouldRequeue (Automate.ofStatusUpdate u) = false.
Proof. unfold Automate.shouldRequeue. simpl. apply andb_false_r. Qed.

Section FailureFacts.
Variable id : string.

Lemma steady_refl (w : World) : steady id w w.
Proof. split; reflexivity. Qed.

Lemma steady_trans (w0 w1 w2 : World) : steady id w0 w1 -> steady id w1 w2 -> steady id w0 w2.
Proof. intros [H1 H2] [H3 H4]. split; congruence. Qed.

Lemma keeps_ret {A : Type} (a : A) : keeps id (ret a).
Proof. intros w o w' H. injection H as _ <-. apply steady_refl. Qed.

Lemma keeps_throw {A : Type} (msg : string) : keeps id (@throw A msg).
Proof. intros w o w' H. injection H as _ <-. apply steady_refl. Qed.

Lemma keeps_bind {A B : Type} (m : M A) (f : A -> M B) :
  keeps id m -> (forall a, keeps id (f a)) -> keeps id (bind m f).
Proof.
  intros Hm Hf w o w' H. unfold bind in H.
  destruct (m w) as [[a|msg] w1] eqn:E.
  - eapply steady_trans; [eapply Hm, E | eapply Hf, H].
  - injection H as _ <-. eapply Hm, E.
Qed.

Lemma keepsOnThrow_bind {A B : Type} (m : M A) (f : A -> M B) :
  keeps id m -> (forall a, keepsOnThrow id (f a)) -> keepsOnThrow id (bind m f).
Proof.
  intros Hm Hf w msg w' H. unfold bind in H.
  destruct (m w) as [[a|e] w1] eqn:E.
  - eapply steady_trans; [eapply Hm, E | eapply Hf, H].
  - injection H as _ <-. eapply Hm, E.
Qed.

Lemma keeps_keepsOnThrow {A : Type} (m : M A) : keeps id m -> keepsOnThrow id m.
Proof. intros H w msg w' E. eapply H, E. Qed.

Lemma keeps_now : keeps id now.
Proof. intros w o w' H. injection H as _ <-. apply steady_refl. Qed.

Lemma keeps_sleep (ms : Z) : keeps id (sleep ms).
Proof. intros w o w' H. injection H as _ <-. split; reflexivity. Qed.

Lemma keeps_nextFault : keeps id nextFault.
Proof.
  intros w o w' H. unfold nextFault in H.
  destruct (faults w); injection H as _ <-; split; reflexivity.
Qed.

Lemma keeps_uploadToOneDrive (path : string) (b : blob) :
  path <> pendingPath id -> keeps id (uploadToOneDrive path b).
Proof.
  intros Hne. unfold uploadToOneDrive. apply keeps_bind; [apply keeps_nextFault|].
  intros []; [apply keeps_throw|].
  intros w o w' H. injection H as _ <-. split; [|reflexivity].
  simpl. apply lookup_put_other, Hne.
Qed.

Lemma keeps_sendCommand (command : string) (params : option json) :
  keeps id (sendCommand command params).
Proof.
  unfold sendCommand. apply keeps_bind; [apply keeps_now|]. intros t.
  rewrite createSignal_Some.
  apply keeps_bind.
  { intros w o w' H. injection H as _ <-. split; reflexivity. }
  intros _. apply keeps_bind.
  { intros w o w' H. injection H as _ <-. split; reflexivity. }
  intros queue. apply keeps_bind; [apply keeps_now|]. intros t'.
  apply keeps_bind; [apply keeps_uploadToOneDrive, pending_not_outbound|].
  intros _. apply keeps_ret.
Qed.

Lemma keeps_updateJobStatus (jid : string) (st : Manifest.JobStatus) (progress : Z)
    (err : option string) :
  keeps id (updateJobStatus jid st progress err).
Proof.
  unfold updateJobStatus. apply keeps_bind; [apply keeps_now|]. intros t.
  apply keeps_bind; [apply keeps_uploadToOneDrive, pending_not_status|].
  intros _. apply keeps_bind; [apply keeps_sendCommand|].
  intros _. apply keeps_ret.
Qed.

Lemma keeps_syncToOneDriveAfterBurn (jid : string) (st : Manifest.JobStatus)
    (err : option string) :
  keeps id (syncToOneDriveAfterBurn jid st err).
Proof.
  unfold syncToOneDriveAfterBurn. apply keeps_bind; [apply keeps_now|]. intros t.
  apply keeps_bind; [apply keeps_uploadToOneDrive, pending_not_completed|].
  intros _. apply keeps_bind; [apply keeps_now|]. intros t'.
  apply keeps_bind; [apply keeps_uploadToOneDrive, pending_not_archive|].
  intros _. apply keeps_ret.
Qed.

Lemma keeps_receiveSignals : keeps id receiveSignals.
Proof.
  intros w o w' H.
  unfold receiveSignals in H.
  destruct (match inboundFeed w with
            | [] => (None, [])
            | d :: rest => (d, rest)
            end) as [data feed].
  destruct (UsbSignal.receiveSignals data (clock w) (adapter w)) as [signals a].
  injection H as _ <-. split; reflexivity.
Qed.

Lemma keeps_burnLoop (job : BurnJob) (steps : list Z) : keeps id (burnLoop job steps).
Proof.
  induction steps as [|p rest IH]; simpl; [apply keeps_ret|].
  apply keeps_bind; [apply keeps_sleep|]. intros _.
  apply keeps_bind; [apply keeps_updateJobStatus|]. intros _.
  apply keeps_bind; [apply keeps_receiveSignals|]. intros signals.
  destruct (find (isCancelFor (jobId job)) signals); [|exact IH].
  apply keeps_bind; [apply keeps_updateJobStatus|]. intros _.
  apply keeps_bind; [apply keeps_syncToOneDriveAfterBurn|]. intros _.
  apply keeps_ret.
Qed.

(** The last three statements of the [try] block do not throw. *)
Lemma removal_never_throws (job : BurnJob) (w w' : World) (msg : string) :
  (deleteFromOneDrive (pendingPath (jobId job)) ;;
   pushCompleted (jobId job) ;; ret Completed) w <> (Thrown msg, w').
Proof.
  unfold deleteFromOneDrive, nextFault, pushCompleted, ret, bind.
  destruct (faults w) as [|[] fs]; simpl; try discriminate.
  - destruct (lookup _ _); discriminate.
  - destruct (lookup _ _); discriminate.
Qed.

Lemma keepsOnThrow_processBody (job : BurnJob) : keepsOnThrow id (processBody job).
Proof.
  unfold processBody.
  apply keepsOnThrow_bind; [apply keeps_updateJobStatus|]. intros _.
  apply keepsOnThrow_bind; [apply keeps_sendCommand|]. intros _.
  apply keepsOnThrow_bind; [apply keeps_updateJobStatus|]. intros _.
  apply keepsOnThrow_bind; [apply keeps_burnLoop|]. intros [p|].
  - apply keeps_keepsOnThrow, keeps_ret.
  - apply keepsOnThrow_bind; [apply keeps_updateJobStatus|]. intros _.
    apply keepsOnThrow_bind; [apply keeps_sleep|]. intros _.
    apply keepsOnThrow_bind; [apply keeps_updateJobStatus|]. intros _.
    apply keepsOnThrow_bind; [apply keeps_syncToOneDriveAfterBurn|]. intros _.
    intros w msg w' H. exfalso. exact (removal_never_throws _ _ _ _ H).
Qed.

End FailureFacts.

Lemma processBody_not_Failed (job : BurnJob) (w w' : World) (msg : string) :
  processBody job w <> (Returned (Failed msg), w').
Proof.
  unfold processBody. intros H.
  apply bind_Returned in H. destruct H as (? & ? & _ & H).
  apply bind_Returned in H. destruct H as (? & ? & _ & H).
  apply bind_Returned in H. destruct H as (? & ? & _ & H).
  apply bind_Returned in H. destruct H as ([p|] & ? & _ & H).
  - apply ret_Returned in H. destruct H as [H _]. discriminate.
  - repeat (apply bind_Returned in H; destruct H as (? & ? & _ & H)).
    apply ret_Returned in H. destruct H as [H _]. discriminate.
Qed.

(** Whenever [processJob] ends in its [catch] block, the descriptor of the
    job is still under pending/, unchanged, retry count included; the failure
    is recorded under completed/ and archive/ and in [failedJobs]. *)
Lemma failure_leaves_job_pending (job : BurnJob) (w w' : World) (msg : string) :
  processJob job w = (Returned (Failed msg), w') ->
  lookup (pendingPath (jobId job)) (store w')
  = lookup (pendingPath (jobId job)) (store w)
  /\ lookup (completedPath (jobId job)) (store w')
     = Some (BCompletion (failedRecord job msg (clock w')))
  /\ lookup (archivePath (isoDate (clock w')) (jobId job)) (store w')
     = Some (BCompletion (failedRecord job msg (clock w')))
  /\ failedJobs (exec w') = (failedJobs (exec w) ++ [jobId job])%list
  /\ completedJobs (exec w') = completedJobs (exec w).
Proof.
  unfold processJob. intros H.
  apply bind_Returned in H. destruct H as ([] & w1 & H1 & H).
  unfold setCurrentJob in H1. injection H1 as <-.
  apply bind_Returned in H. destruct H as (exit & w2 & Hbody & H).
  assert (exit = Failed msg) as ->.
  { destruct exit.
    - apply ret_Returned in H. destruct H as [H _]. discriminate.
    - apply bind_Returned in H. destruct H as ([] & w3 & _ & H).
      apply ret_Returned in H. destruct H as [H _]. discriminate.
    - apply bind_Returned in H. destruct H as ([] & w3 & _ & H).
      apply ret_Returned in H. destruct H as [H _]. exact H. }
  apply bind_Returned in H. destruct H as ([] & w3 & H3 & H).
  apply ret_Returned in H. destruct H as [_ <-].
  unfold setCurrentJob in H3. injection H3 as <-.
  unfold tryCatch in Hbody.
  match type of Hbody with
  | context [processBody job ?w0] => destruct (processBody job w0) as [[e|m] wb] eqn:Eb
  end.
  { injection Hbody as -> ->. exfalso. exact (processBody_not_Failed _ _ _ _ Eb). }
  apply (keepsOnThrow_processBody (jobId job)) in Eb. destruct Eb as [Hpend Hexec].
  simpl in Hpend, Hexec.
  unfold processFailure in Hbody.
  apply bind_Returned in Hbody. destruct Hbody as ([] & wc & Hc & Hbody).
  apply bind_Returned in Hbody. destruct Hbody as ([] & wd & Hd & Hbody).
  apply bind_Returned in Hbody. destruct Hbody as ([] & we & He & Hbody).
  apply ret_Returned in Hbody. destruct Hbody as [Hm <-]. injection Hm as ->.
  unfold pushFailed in He. injection He as <-.
  pose proof (keeps_updateJobStatus (jobId job) _ _ _ _ _ _ _ Hc) as [Hpc Hec].
  pose proof (keeps_syncToOneDriveAfterBurn (jobId job) _ _ _ _ _ _ Hd) as [Hpd Hed].
  apply syncToOneDriveAfterBurn_Returned in Hd. cbv zeta in Hd.
  destruct Hd as (Hsd & _ & _ & Hcd & _).
  simpl. unfold failedRecord. rewrite Hcd, Hed, Hec, Hexec. simpl.
  repeat split.
  - congruence.
  - rewrite Hsd, lookup_put_other by apply completed_not_archive.
    apply lookup_put_same.
  - rewrite Hsd. apply lookup_put_same.
Qed.

(** C5, on the failing input: a job whose processing fails in every round
    is processed again in each of five rounds, past the bound of three; each
    failure writes the completion record and archives it, the descriptor stays
    under pending/ with its retry count still zero, and the job is selected
    again.  A descriptor whose retry count is already three is processed as
    well. *)
Theorem failed_job_retried_without_bound :
  option_map (map (fun r => (jobId (fst r), retryCount (fst r), snd r)))
    (match fst (rounds 5 failingWorld) with
     | Returned rs => Some rs
     | Thrown _ => None
     end)
  = Some (repeat ("J1", 0, Failed "OneDrive request failed") 5)
  /\ failedJobs (exec (snd (rounds 5 failingWorld))) = repeat "J1" 5
  /\ lookup "pending/J1.json" (store (snd (rounds 5 failingWorld)))
     = Some (BJob (jobOf "J1" Manifest.normal 0))
  /\ option_map (fun b => match b with
                          | BCompletion r => Some (cr_status r)
                          | _ => None
                          end)
       (lookup "completed/J1.json" (store (snd (rounds 5 failingWorld))))
     = Some (Some Manifest.failed)
  /\ fst (rounds 1 exhaustedWorld)
     = Returned [(jobOf "J9" Manifest.normal 3, Completed)].
Proof. repeat split; vm_compute; reflexivity. Qed.

End RetryFacts.

(* ================================================================== *)
(** ** The rolling hash of the two checksum functions *)
(* ================================================================== *)

Section HashFacts.
Import Js Json UsbSignal.

Lemma int32_range (z : Z) : - 2 ^ 31 <= int32 z < 2 ^ 31.
Proof.
  unfold int32.
  pose proof (Z.mod_pos_bound (z + 2 ^ 31) (2 ^ 32) ltac:(lia)). lia.
Qed.

Lemma int32_small (z : Z) : - 2 ^ 31 <= z < 2 ^ 31 -> int32 z = z.
Proof. intros H. unfold int32. rewrite Z.mod_small by lia. lia. Qed.

Lemma int32_shift (z k : Z) : int32 (z + k * 2 ^ 32) = int32 z.
Proof.
  unfold int32.
  replace (z + k * 2 ^ 32 + 2 ^ 31) with (z + 2 ^ 31 + k * 2 ^ 32) by lia.
  rewrite Z_mod_plus_full. reflexivity.
Qed.

Lemma int32_wraps (z : Z) : exists k, int32 z = z + k * 2 ^ 32.
Proof.
  exists (- ((z + 2 ^ 31) / 2 ^ 32)). unfold int32.
  pose proof (Z.div_mod (z + 2 ^ 31) (2 ^ 32) ltac:(lia)). lia.
Qed.

(** One round of the loop is [hash * 31 + c], wrapped to 32 bits. *)
Lemma hashStep_polynomial (hash : Z) (c : ascii) :
  hashStep hash c = int32 (31 * hash + charCode c).
Proof.
  unfold hashStep. cbv zeta. rewrite Z.land_diag.
  rewrite (int32_small (int32 _)) by apply int32_range.
  rewrite Z.shiftl_mul_pow2 by lia.
  destruct (int32_wraps hash) as [k1 ->].
  destruct (int32_wraps ((hash + k1 * 2 ^ 32) * 2 ^ 5)) as [k2 ->].
  replace ((hash + k1 * 2 ^ 32) * 2 ^ 5 + k2 * 2 ^ 32 - hash + charCode c)
    with (31 * hash + charCode c + (32 * k1 + k2) * 2 ^ 32) by lia.
  apply int32_shift.
Qed.

Lemma hashFrom_app (hash : Z) (a b : string) :
  hashFrom hash (a ++ b) = hashFrom (hashFrom hash a) b.
Proof. revert hash. induction a as [|c a IH]; intros hash; simpl; [reflexivity | apply IH]. Qed.

Lemma hashFrom_range (hash : Z) (s : string) :
  - 2 ^ 31 <= hash < 2 ^ 31 -> - 2 ^ 31 <= hashFrom hash s < 2 ^ 31.
Proof.
  revert hash. induction s as [|c s IH]; intros hash H; simpl; [exact H|].
  apply IH. rewrite hashStep_polynomial. apply int32_range.
Qed.

(** The hash of a text is a signed 32-bit number. *)
Lemma rollingHash_range (s : string) : - 2 ^ 31 <= rollingHash s < 2 ^ 31.
Proof. unfold rollingHash. apply hashFrom_range. lia. Qed.

Lemma hashStep_Aa_BB (hash : Z) :
  hashStep (hashStep hash "A") "a" = hashStep (hashStep hash "B") "B".
Proof.
  rewrite !hashStep_polynomial.
  destruct (int32_wraps (31 * hash + charCode "A")) as [k1 ->].
  destruct (int32_wraps (31 * hash + charCode "B")) as [k2 ->].
  change (charCode "A") with 65. change (charCode "a") with 97.
  change (charCode "B") with 66.
  replace (31 * (31 * hash + 65 + k1 * 2 ^ 32) + 97)
    with (961 * hash + 2112 + (31 * k1) * 2 ^ 32) by lia.
  replace (31 * (31 * hash + 66 + k2 * 2 ^ 32) + 66)
    with (961 * hash + 2112 + (31 * k2) * 2 ^ 32) by lia.
  rewrite !int32_shift. reflexivity.
Qed.

(** Two texts that differ by one [Aa] against [BB] have the same hash. *)
Lemma rollingHash_Aa_BB (pre post : string) :
  rollingHash (pre ++ "Aa" ++ post) = rollingHash (pre ++ "BB" ++ post).
Proof.
  unfold rollingHash. rewrite !hashFrom_app. simpl hashFrom at 2 4.
  simpl. rewrite hashStep_Aa_BB. reflexivity.
Qed.

Lemma escape_app (a b : string) : escape (a ++ b) = escape a ++ escape b.
Proof.
  induction a as [|c a IH]; simpl; [reflexivity|].
  rewrite IH.
  generalize (escapeChar c). intros e.
  induction e as [|x e IHe]; simpl; [reflexivity | rewrite IHe; reflexivity].
Qed.

Lemma append_assoc (a b c : string) : (a ++ b) ++ c = a ++ (b ++ c).
Proof. induction a as [|x a IH]; simpl; [reflexivity | rewrite IH; reflexivity]. Qed.

(** X8.  The integrity digest does not tell [Aa] from [BB]: an envelope whose
    string payload had one [Aa] replaced by [BB] after it was signed still
    passes the integrity check of the gateway. *)
Theorem checksum_misses_Aa_BB (pre post : string) (signal : SignalPacket) :
  payload signal = Some (JStr (pre ++ "Aa" ++ post)) ->
  integrityHolds signal = true ->
  generateChecksum (Some (JStr (pre ++ "BB" ++ post)))
  = generateChecksum (Some (JStr (pre ++ "Aa" ++ post)))
  /\ integrityHolds
       {| type := type signal; direction := direction signal;
          timestamp := timestamp signal;
          payload := Some (JStr (pre ++ "BB" ++ post));
          checksum := checksum signal;
          source := source signal; deviceId := deviceId signal |} = true.
Proof.
  intros Hp Hok.
  assert (E : stringify (JStr (pre ++ "BB" ++ post))
              = String dquote (escape pre) ++ "BB" ++ (escape post ++ String dquote "")
              /\ stringify (JStr (pre ++ "Aa" ++ post))
                 = String dquote (escape pre) ++ "Aa" ++ (escape post ++ String dquote "")).
  { simpl. unfold quote. rewrite !escape_app. simpl.
    rewrite !append_assoc. simpl. split; reflexivity. }
  destruct E as [EB EA].
  assert (G : generateChecksum (Some (JStr (pre ++ "BB" ++ post)))
              = generateChecksum (Some (JStr (pre ++ "Aa" ++ post)))).
  { unfold generateChecksum. rewrite EB, EA, rollingHash_Aa_BB. reflexivity. }
  split; [exact G|].
  unfold integrityHolds in *. cbn [payload checksum]. rewrite G.
  rewrite Hp in Hok. exact Hok.
Qed.

End HashFacts.

Section PolynomialHash.
Import Js Json UsbSignal Hashing.

Lemma int32_step (h c : Z) : int32 (31 * int32 h + c) = int32 (31 * h + c).
Proof.
  destruct (int32_wraps h) as [k ->].
  replace (31 * (h + k * 2 ^ 32) + c) with (31 * h + c + (31 * k) * 2 ^ 32) by lia.
  apply int32_shift.
Qed.

Lemma hashFrom_polynomial (s : string) :
  forall hash, hashFrom (int32 hash) s = int32 (polynomial hash s).
Proof.
  unfold polynomial.
  induction s as [|c s IH]; intros hash; cbn [hashFrom list_ascii_of_string fold_left].
  - reflexivity.
  - rewrite hashStep_polynomial, int32_step. apply IH.
Qed.

(** X7.  The loop of the two checksum functions, with its shift, subtraction
    and [hash & hash], computes the polynomial hash of the text in base 31,
    wrapped to a signed 32-bit number; the integrity digest of a payload is
    that number in hexadecimal. *)
Theorem rollingHash_is_polynomial_hash (s : string) (p : json) :
  rollingHash s = int32 (polynomial 0 s)
  /\ - 2 ^ 31 <= rollingHash s < 2 ^ 31
  /\ generateChecksum (Some p)
     = Returned (toString16 (int32 (polynomial 0 (stringify p)))).
Proof.
  assert (H : forall t, rollingHash t = int32 (polynomial 0 t)).
  { intros t. unfold rollingHash. rewrite <- hashFrom_polynomial. reflexivity. }
  split; [apply H|]. split; [apply rollingHash_range|].
  unfold generateChecksum. rewrite H. reflexivity.
Qed.

End PolynomialHash.

Section HashInstances.
Import Js Json UsbSignal.

Lemma checksum_misses_Aa_BB_witness :
  generateChecksum (Some (JStr "xBBy")) = generateChecksum (Some (JStr "xAay"))
  /\ integrityHolds
       {| type := type signedText; direction := direction signedText;
          timestamp := timestamp signedText;
          payload := Some (JStr "xBBy");
          checksum := checksum signedText;
          source := source signedText; deviceId := deviceId signedText |} = true.
Proof.
  apply (checksum_misses_Aa_BB "x" "y" signedText).
  - reflexivity.
  - vm_compute. reflexivity.
Defined.

End HashInstances.

(* ================================================================== *)
(** ** The payload checksum and the manifest's file list *)
(* ================================================================== *)

Section PayloadFacts.
Import Js Manifest ManifestPaths.

Lemma notAfter_compare (a b : string) : notAfter a b <-> String.compare a b <> Gt.
Proof.
  unfold notAfter, defaultCompare.
  destruct (String.compare a b); split; intros H; try lia; try discriminate; congruence.
Qed.

Lemma compare_trans (a b c : string) :
  String.compare a b <> Gt -> String.compare b c <> Gt -> String.compare a c <> Gt.
Proof.
  revert b c. induction a as [|x a IH]; intros [|y b] [|z c]; simpl; try congruence.
  unfold Ascii.compare.
  destruct (N.compare_spec (N_of_ascii x) (N_of_ascii y)) as [E1|E1|E1];
    destruct (N.compare_spec (N_of_ascii y) (N_of_ascii z)) as [E2|E2|E2];
    destruct (N.compare_spec (N_of_ascii x) (N_of_ascii z)) as [E3|E3|E3];
    try congruence; try lia.
  apply IH.
Qed.

Lemma compare_same (a : string) : String.compare a a = Eq.
Proof.
  induction a as [|x a IH]; simpl; [reflexivity|].
  unfold Ascii.compare. rewrite N.compare_refl. exact IH.
Qed.

Lemma notAfter_refl (a : string) : notAfter a a.
Proof. apply notAfter_compare. rewrite compare_same. discriminate. Qed.

Lemma notAfter_trans (a b c : string) : notAfter a b -> notAfter b c -> notAfter a c.
Proof. rewrite !notAfter_compare. apply compare_trans. Qed.

Lemma notAfter_total (a b : string) : ~ notAfter a b -> notAfter b a.
Proof.
  rewrite !notAfter_compare. rewrite (String.compare_antisym b a).
  destruct (String.compare a b); simpl; intros H; try discriminate.
  exfalso. apply H. discriminate.
Qed.

Lemma notAfter_antisym (a b : string) : notAfter a b -> notAfter b a -> a = b.
Proof.
  rewrite !notAfter_compare. rewrite (String.compare_antisym b a).
  destruct (String.compare a b) eqn:E; simpl; try congruence.
  intros _ _. apply String.compare_eq_iff. exact E.
Qed.

Lemma insertSorted_permutation (x : string) (l : list string) :
  Permutation (x :: l) (insertSorted defaultCompare x l).
Proof.
  induction l as [|y l IH]; simpl; [apply Permutation_refl|].
  destruct (defaultCompare x y <=? 0); [apply Permutation_refl|].
  eapply perm_trans; [apply perm_swap|]. apply perm_skip. exact IH.
Qed.

Lemma sort_permutation (l : list string) : Permutation l (sort defaultCompare l).
Proof.
  induction l as [|x l IH]; simpl; [apply Permutation_refl|].
  eapply perm_trans; [|apply insertSorted_permutation]. apply perm_skip. exact IH.
Qed.

Lemma insertSorted_ordered (x : string) (l : list string) :
  StronglySorted notAfter l -> StronglySorted notAfter (insertSorted defaultCompare x l).
Proof.
  induction 1 as [|y l Hs IH Hall]; simpl.
  - constructor; constructor.
  - destruct (defaultCompare x y <=? 0) eqn:E.
    + apply Z.leb_le in E. constructor; [constructor; assumption|].
      constructor; [exact E|].
      eapply Forall_impl; [|exact Hall]. intros z Hz. eapply notAfter_trans; eauto.
    + apply Z.leb_gt in E. constructor; [exact IH|].
      eapply Permutation_Forall; [apply insertSorted_permutation|].
      constructor; [|exact Hall]. apply notAfter_total. unfold notAfter. lia.
Qed.

Lemma sort_ordered (l : list string) : StronglySorted notAfter (sort defaultCompare l).
Proof.
  induction l as [|x l IH]; simpl; [constructor | apply insertSorted_ordered, IH].
Qed.

(** A list has one ordered arrangement. *)
Lemma ordered_unique (l1 l2 : list string) :
  StronglySorted notAfter l1 -> StronglySorted notAfter l2 ->
  Permutation l1 l2 -> l1 = l2.
Proof.
  intros H1. revert l2. induction H1 as [|x l1 Hs1 IH Hall1]; intros l2 H2 HP.
  - apply Permutation_nil in HP. symmetry. exact HP.
  - destruct H2 as [|y l2 Hs2 Hall2].
    + apply Permutation_sym, Permutation_nil in HP. discriminate.
    + assert (Exy : x = y).
      { apply notAfter_antisym.
        - assert (In y (x :: l1)) as [->|Hin]
            by (eapply Permutation_in; [apply Permutation_sym, HP | left; reflexivity]).
          + apply notAfter_refl.
          + rewrite Forall_forall in Hall1. apply Hall1, Hin.
        - assert (In x (y :: l2)) as [->|Hin]
            by (eapply Permutation_in; [apply HP | left; reflexivity]).
          + apply notAfter_refl.
          + rewrite Forall_forall in Hall2. apply Hall2, Hin. }
      subst y. f_equal. apply IH; [exact Hs2|].
      eapply Permutation_cons_inv. exact HP.
Qed.

Lemma sort_of_permutation (fs gs : list string) :
  Permutation fs gs -> sort defaultCompare fs = sort defaultCompare gs.
Proof.
  intros HP. apply ordered_unique; try apply sort_ordered.
  eapply perm_trans; [apply Permutation_sym, sort_permutation|].
  eapply perm_trans; [exact HP | apply sort_permutation].
Qed.

Lemma calculatePayloadChecksum_permutation_helper (fs gs : list string) :
  Permutation fs gs -> calculatePayloadChecksum fs = calculatePayloadChecksum gs.
Proof.
  intros HP. unfold calculatePayloadChecksum.
  rewrite (sort_of_permutation fs gs HP). reflexivity.
Qed.

Lemma length_append (a b : string) :
  String.length (a ++ b) = (String.length a + String.length b)%nat.
Proof. induction a as [|c a IH]; simpl; [reflexivity | rewrite IH; reflexivity]. Qed.

Lemma length_repeatChar (n : nat) (c : ascii) : String.length (repeatChar n c) = n.
Proof. induction n as [|n IH]; simpl; [reflexivity | rewrite IH; reflexivity]. Qed.

Lemma hexDigits_length (fuel : nat) (n : Z) (acc : string) (k : nat) :
  0 <= n < 16 ^ Z.of_nat k -> (1 <= fuel)%nat -> (1 <= k)%nat ->
  (String.length acc + 1 <= String.length (hexDigits fuel n acc)
   <= String.length acc + k)%nat.
Proof.
  revert n acc k. induction fuel as [|fuel IH]; intros n acc k Hn Hf Hk; [lia|].
  simpl. destruct (n / 16 =? 0) eqn:E.
  - simpl. lia.
  - apply Z.eqb_neq in E.
    destruct fuel as [|fuel].
    + simpl. lia.
    + destruct k as [|k]; [lia|].
      destruct k as [|k].
      { exfalso. apply E. apply Z.div_small. simpl in Hn. lia. }
      specialize (IH (n / 16) (String (hexDigit (n mod 16)) acc) (S k)).
      assert (H : 0 <= n / 16 < 16 ^ Z.of_nat (S k)).
      { split; [apply Z.div_pos; lia|].
        apply Z.div_lt_upper_bound; [lia|].
        replace (Z.of_nat (S (S k))) with (Z.of_nat (S k) + 1) in Hn by lia.
        rewrite Z.pow_add_r in Hn by lia. lia. }
      specialize (IH H ltac:(lia) ltac:(lia)).
      change (String.length (String (hexDigit (n mod 16)) acc))
        with (S (String.length acc)) in IH. lia.
Qed.

Lemma toString16_length (n : Z) :
  0 <= n < 16 ^ 8 -> (1 <= String.length (toString16 n) <= 8)%nat.
Proof.
  intros Hn. unfold toString16.
  assert ((n <? 0) = false) as -> by (apply Z.ltb_ge; lia).
  rewrite Z.abs_eq by lia.
  pose proof (hexDigits_length (S (Z.to_nat (Z.log2 n))) n "" 8 Hn ltac:(lia) ltac:(lia)) as H.
  change (String.length "") with 0%nat in H. cbv zeta. lia.
Qed.

Lemma hexDigit_value (d : Z) :
  0 <= d < 16 -> Hashing.hexDigitValue (hexDigit d) = Some d.
Proof.
  intros H.
  assert (d = 0 \/ d = 1 \/ d = 2 \/ d = 3 \/ d = 4 \/ d = 5 \/ d = 6 \/ d = 7
          \/ d = 8 \/ d = 9 \/ d = 10 \/ d = 11 \/ d = 12 \/ d = 13 \/ d = 14 \/ d = 15)
    as E by lia.
  repeat (destruct E as [->|E]; [reflexivity|]). subst d. reflexivity.
Qed.

Lemma hexDigit_leading (d : Z) : 0 < d < 16 -> hexDigit d <> "0"%char.
Proof.
  intros H.
  assert (d = 1 \/ d = 2 \/ d = 3 \/ d = 4 \/ d = 5 \/ d = 6 \/ d = 7
          \/ d = 8 \/ d = 9 \/ d = 10 \/ d = 11 \/ d = 12 \/ d = 13 \/ d = 14 \/ d = 15)
    as E by lia.
  repeat (destruct E as [->|E]; [discriminate|]). subst d. discriminate.
Qed.

(** Reading back the digits [hexDigits] writes gives the number. *)
Lemma hexValueFrom_hexDigits (fuel : nat) :
  forall (n : Z) (acc : string),
    0 <= n < 16 ^ Z.of_nat fuel ->
    Hashing.hexValueFrom 0 (hexDigits fuel n acc) = Hashing.hexValueFrom n acc.
Proof.
  induction fuel as [|fuel IH]; intros n acc Hn.
  - change (16 ^ Z.of_nat 0) with 1 in Hn. assert (n = 0) as -> by lia. reflexivity.
  - assert (Hpow : 16 ^ Z.of_nat (S fuel) = 16 * 16 ^ Z.of_nat fuel).
    { replace (Z.of_nat (S fuel)) with (Z.of_nat fuel + 1) by lia.
      rewrite Z.pow_add_r by lia. lia. }
    cbn [hexDigits]. cbv zeta.
    pose proof (Z.mod_pos_bound n 16 ltac:(lia)) as Hm.
    pose proof (Z.div_mod n 16 ltac:(lia)) as Hdm.
    destruct (n / 16 =? 0) eqn:E.
    + apply Z.eqb_eq in E. cbn [Hashing.hexValueFrom].
      rewrite hexDigit_value by exact Hm. f_equal. lia.
    + rewrite IH.
      * cbn [Hashing.hexValueFrom]. rewrite hexDigit_value by exact Hm. f_equal. lia.
      * split; [apply Z.div_pos; lia|].
        apply Z.div_lt_upper_bound; lia.
Qed.

(** The digits [hexDigits] writes for a positive number do not open with
    a zero. *)
Lemma hexDigits_leading (fuel : nat) :
  forall (n : Z) (acc : string),
    0 < n < 16 ^ Z.of_nat fuel ->
    exists c rest, hexDigits fuel n acc = String c rest /\ c <> "0"%char.
Proof.
  induction fuel as [|fuel IH]; intros n acc Hn.
  - change (16 ^ Z.of_nat 0) with 1 in Hn. lia.
  - assert (Hpow : 16 ^ Z.of_nat (S fuel) = 16 * 16 ^ Z.of_nat fuel).
    { replace (Z.of_nat (S fuel)) with (Z.of_nat fuel + 1) by lia.
      rewrite Z.pow_add_r by lia. lia. }
    cbn [hexDigits]. cbv zeta.
    pose proof (Z.mod_pos_bound n 16 ltac:(lia)) as Hm.
    pose proof (Z.div_mod n 16 ltac:(lia)) as Hdm.
    destruct (n / 16 =? 0) eqn:E.
    + apply Z.eqb_eq in E. eexists. eexists. split; [reflexivity|].
      apply hexDigit_leading. lia.
    + apply Z.eqb_neq in E. apply IH.
      assert (0 <= n / 16) by (apply Z.div_pos; lia).
      split; [lia|]. apply Z.div_lt_upper_bound; lia.
Qed.

Lemma log2_fuel (n : Z) : 0 <= n -> n < 16 ^ Z.of_nat (S (Z.to_nat (Z.log2 n))).
Proof.
  intros Hn.
  destruct (Z.eq_dec n 0) as [->|Hz]; [reflexivity|].
  pose proof (Z.log2_nonneg n) as Hl.
  pose proof (Z.log2_spec n ltac:(lia)) as [_ Hup].
  replace (Z.of_nat (S (Z.to_nat (Z.log2 n)))) with (Z.succ (Z.log2 n)) by lia.
  eapply Z.lt_le_trans; [exact Hup|].
  apply Z.pow_le_mono_l. lia.
Qed.

Lemma hexDigits_nonempty (fuel : nat) :
  forall (n : Z) (c : ascii) (acc : string),
    exists c' rest, hexDigits fuel n (String c acc) = String c' rest.
Proof.
  induction fuel as [|fuel IH]; intros n c acc; cbn [hexDigits]; cbv zeta.
  - eexists. eexists. reflexivity.
  - destruct (n / 16 =? 0); [eexists; eexists; reflexivity | apply IH].
Qed.

(** [n.toString(16)] of a number that is not negative is its hexadecimal
    numeral, without a leading zero. *)
Lemma toString16_numeral (n : Z) :
  0 <= n ->
  Hashing.hexValue (toString16 n) = Some n
  /\ (toString16 n = "0" \/ exists c rest, toString16 n = String c rest /\ c <> "0"%char).
Proof.
  intros Hn. unfold toString16.
  assert ((n <? 0) = false) as -> by (apply Z.ltb_ge; lia).
  rewrite Z.abs_eq by lia. cbv zeta.
  pose proof (log2_fuel n Hn) as Hfuel.
  split.
  - pose proof (hexValueFrom_hexDigits _ n "" (conj Hn Hfuel)) as H.
    cbn [Hashing.hexValueFrom] in H. unfold Hashing.hexValue.
    destruct (hexDigits (S (Z.to_nat (Z.log2 n))) n "") eqn:E; [|exact H].
    exfalso. cbn [hexDigits] in E. cbv zeta in E.
    destruct (n / 16 =? 0); [discriminate|].
    destruct (hexDigits_nonempty (Z.to_nat (Z.log2 n)) (n / 16) (hexDigit (n mod 16)) "")
      as (c & r & Hc).
    rewrite Hc in E. discriminate.
  - destruct (Z.eq_dec n 0) as [->|Hz]; [left; reflexivity|].
    right. apply hexDigits_leading. lia.
Qed.

End PayloadFacts.

Section PayloadTheorems.
Import Js Manifest ManifestPaths.

(** X1.  [calculatePayloadChecksum] sorts before it hashes: the sorted list and
    the checksum are the same for every order in which the same files are
    given. *)
Theorem calculatePayloadChecksum_permutation (fs gs : list string) :
  Permutation fs gs -> calculatePayloadChecksum fs = calculatePayloadChecksum gs.
Proof.
  intros HP. unfold calculatePayloadChecksum.
  rewrite (sort_of_permutation fs gs HP). reflexivity.
Qed.

Lemma calculatePayloadChecksum_permutation_witness :
  calculatePayloadChecksum ["b.txt"; "a.txt"; "c.txt"]
  = calculatePayloadChecksum ["c.txt"; "a.txt"; "b.txt"].
Proof.
  apply calculatePayloadChecksum_permutation.
  apply (perm_trans (l' := ["b.txt"; "c.txt"; "a.txt"])).
  - apply perm_skip, perm_swap.
  - apply (perm_trans (l' := ["c.txt"; "b.txt"; "a.txt"])).
    + apply perm_swap.
    + apply perm_skip, perm_swap.
Defined.

(** X2.  The checksum is the text [sha256:] followed by sixteen characters.
    The last one to eight of them are the hexadecimal numeral, in lower case
    and without a leading zero, of the absolute value of the 32-bit hash of
    the sorted paths joined by newlines; all the others, so at least the
    first eight, are the filler [0].  The first component is the file list in
    code-unit order. *)
Theorem calculatePayloadChecksum_format (fs : list string) :
  let sorted := fst (calculatePayloadChecksum fs) in
  let hash := rollingHash (join (String (ascii_of_nat 10) "") sorted) in
  exists digits : string,
    snd (calculatePayloadChecksum fs)
    = "sha256:" ++ repeatChar (16 - String.length digits) "0" ++ digits
    /\ (1 <= String.length digits <= 8)%nat
    /\ Hashing.hexValue digits = Some (Z.abs hash)
    /\ (digits = "0" \/ exists c rest, digits = String c rest /\ c <> "0"%char)
    /\ - 2 ^ 31 <= hash < 2 ^ 31
    /\ String.length (snd (calculatePayloadChecksum fs)) = 23%nat
    /\ StronglySorted notAfter sorted
    /\ Permutation fs sorted.
Proof.
  unfold calculatePayloadChecksum. cbv zeta. cbn [fst snd].
  set (hash := rollingHash _).
  exists (toString16 (Z.abs hash)).
  pose proof (rollingHash_range
                (join (String (ascii_of_nat 10) "") (sort defaultCompare fs))) as Hr.
  fold hash in Hr.
  assert (Hd : (1 <= String.length (toString16 (Z.abs hash)) <= 8)%nat).
  { apply toString16_length. change (16 ^ 8) with (2 ^ 32). lia. }
  destruct (toString16_numeral (Z.abs hash) (Z.abs_nonneg hash)) as [Hval Hlead].
  split; [reflexivity|]. split; [exact Hd|]. split; [exact Hval|].
  split; [exact Hlead|]. split; [exact Hr|]. split.
  - unfold padStart. rewrite !length_append, length_repeatChar.
    change (String.length "sha256:") with 7%nat. lia.
  - split; [apply sort_ordered | apply sort_permutation].
Qed.

(** X3.  [createManifest] lists the files in code-unit order and counts them;
    the manifest is the same for every order in which the caller gives the
    same files. *)
Theorem createManifest_files (cwd : string) (now : Z) (options : ManifestOptions)
    (gs : list string) :
  Permutation (o_files options) gs ->
  let m := createManifest cwd now options in
  map path (files (payload m)) = sort defaultCompare (o_files options)
  /\ Forall (fun f => include f = true /\ size f = None /\ f_checksum f = None)
       (files (payload m))
  /\ totalFiles (payload m) = Z.of_nat (List.length (files (payload m)))
  /\ createManifest cwd now (withFiles options gs) = m.
Proof.
  intros HP m. subst m. unfold createManifest.
  cbn [o_files o_jobId o_target o_priority o_device withFiles].
  rewrite <- (calculatePayloadChecksum_permutation_helper _ _ HP).
  unfold calculatePayloadChecksum. cbv zeta.
  cbn [payload files totalFiles].
  rewrite map_map. cbn [path]. rewrite map_id.
  rewrite <- (Permutation_length HP).
  split; [reflexivity|]. split.
  - apply Forall_forall. intros f Hf. apply in_map_iff in Hf.
    destruct Hf as [x [<- _]]. repeat split.
  - split; [|reflexivity].
    rewrite length_map. f_equal.
    apply Permutation_length, sort_permutation.
Qed.

End PayloadTheorems.

Section PayloadInstances.
Import Js Json Manifest ManifestPaths.

Lemma createManifest_files_witness :
  map path (files (payload sampleManifest)) = ["a.txt"; "b.txt"]
  /\ createManifest "/home/runner/workspace" 1700000000000
       (withFiles sampleOptions ["a.txt"; "b.txt"])
     = sampleManifest.
Proof.
  destruct (createManifest_files "/home/runner/workspace" 1700000000000 sampleOptions
              ["a.txt"; "b.txt"] (perm_swap "a.txt" "b.txt" []))
    as (Hsorted & _ & _ & Hsame).
  split; [exact Hsorted | exact Hsame].
Defined.

End PayloadInstances.

(* ================================================================== *)
(** ** Histories of the manifest state machine *)
(* ================================================================== *)

Section LifecycleFacts.
Import Js Manifest ManifestPaths.

Lemma JobStatus_eqb_refl (s : JobStatus) : JobStatus_eqb s s = true.
Proof. destruct s; reflexivity. Qed.

Lemma endState_app (start : JobStatus) (rs : list StateTransition) (r : StateTransition) :
  endState start (rs ++ [r]) = to r.
Proof. unfold endState. rewrite fold_left_app. reflexivity. Qed.

Lemma chained_app (prev : JobStatus) (rs : list StateTransition) (r : StateTransition) :
  chained prev (rs ++ [r])
  = chained prev rs
    && (optStatus_eqb (from r) (endState prev rs)
        && isValidTransition (endState prev rs) (to r)).
Proof.
  revert prev. induction rs as [|x rs IH]; intros prev; simpl.
  - rewrite andb_true_r. reflexivity.
  - rewrite IH. unfold endState. simpl. rewrite !andb_assoc. reflexivity.
Qed.

Lemma tracked_create (cwd : string) (now : Z) (options : ManifestOptions) :
  tracked (createManifest cwd now options).
Proof.
  unfold createManifest. destruct (calculatePayloadChecksum _) as [sorted sum].
  eexists _, []. cbn. repeat split.
Qed.

Lemma tracked_transition (m : BurnManifest) (s : JobStatus) (actor : string)
    (reason : option string) (now : Z) :
  tracked m -> tracked (snd (transitionState m s actor reason now)).
Proof.
  intros (r & rest & Hst & Hf & Ht & Hc & Hcur).
  unfold transitionState. cbv zeta.
  destruct (isValidTransition (currentState (lifecycle m)) s) eqn:E; cbn [negb snd].
  - exists r, (rest ++ [recordOf m s actor reason now])%list.
    unfold applyTransition. cbn [lifecycle states currentState].
    rewrite Hst. split; [reflexivity|]. split; [exact Hf|]. split; [exact Ht|].
    rewrite chained_app, endState_app, Hc, <- Hcur.
    cbn [recordOf from to optStatus_eqb]. rewrite JobStatus_eqb_refl, E.
    split; reflexivity.
  - exists r, rest. repeat split; assumption.
Qed.

Lemma transitionState_valid (m : BurnManifest) (s : JobStatus) (actor : string)
    (reason : option string) (now : Z) :
  isValidTransition (currentState (lifecycle m)) s = true ->
  transitionState m s actor reason now
  = (Returned (applyTransition m s (toISOString now) actor reason),
     applyTransition m s (toISOString now) actor reason).
Proof. intros E. unfold transitionState. cbv zeta. rewrite E. reflexivity. Qed.

End LifecycleFacts.

Section LifecycleTheorems.
Import Js Manifest ManifestPaths.

(** X4.  Every manifest the module can produce has a history that opens with the
    creation record and continues by moves of the transition table, each
    record leaving the state the one before it reached; its status field is
    the current state, the audit log has one entry per record, the
    last-modified stamp is the time of the last record, and the retry
    counter is still 0 of 3: no transition ever counts a retry. *)
Theorem produced_manifest_invariants (m : BurnManifest) :
  produced m ->
  legalHistory (states (lifecycle m))
  /\ status (job m) = currentState (lifecycle m)
  /\ List.length (auditLog (admin m)) = List.length (states (lifecycle m))
  /\ stampedByLast m
  /\ retryCount (lifecycle m) = 0
  /\ maxRetries (lifecycle m) = 3.
Proof.
  intros H. split.
  { assert (T : tracked m).
    { induction H; [apply tracked_create | apply tracked_transition; assumption]. }
    destruct T as (r & rest & -> & Hf & Ht & Hc & _). repeat split; assumption. }
  induction H as [cwd now options | m s actor reason now H IH].
  - unfold createManifest. destruct (calculatePayloadChecksum _) as [sorted sum].
    cbn. repeat split.
  - destruct IH as (I1 & I2 & I3 & I4 & I5).
    unfold transitionState. cbv zeta.
    destruct (isValidTransition (currentState (lifecycle m)) s); cbn [negb snd];
      [|repeat split; assumption].
    unfold applyTransition, stampedByLast.
    cbn [job status lifecycle currentState admin auditLog states retryCount maxRetries updated].
    rewrite !length_app, I2, lastOf_app_one. cbn. repeat split; assumption.
Qed.

(** X5.  No state but [complete] is a dead end: from any manifest, whatever its
    state, the calls of [transitionState] along [pathToComplete] all
    succeed, need at most six moves and end in [complete], each adding one
    record to the history.  From [complete] the path is empty. *)
Theorem every_state_reaches_complete (m : BurnManifest) (actor : string) (now : Z) :
  let path := pathToComplete (currentState (lifecycle m)) in
  exists m',
    drive m path actor now = (Returned m', m')
    /\ currentState (lifecycle m') = complete
    /\ map to (states (lifecycle m')) = (map to (states (lifecycle m)) ++ path)%list
    /\ (List.length path <= 6)%nat
    /\ payload m' = payload m.
Proof.
  cbv zeta.
  assert (step : forall m s rest now,
    isValidTransition (currentState (lifecycle m)) s = true ->
    drive m (s :: rest) actor now
    = drive (applyTransition m s (toISOString now) actor None) rest actor (now + 1)).
  { intros m0 s rest now0 E. cbn [drive]. rewrite (transitionState_valid _ _ _ _ _ E).
    reflexivity. }
  destruct (currentState (lifecycle m)) eqn:E; cbn [pathToComplete];
    repeat (rewrite step by (cbn [applyTransition lifecycle currentState]; try rewrite E; reflexivity));
    cbn [drive]; eexists; (split; [reflexivity|]);
    cbn [applyTransition lifecycle currentState states payload];
    rewrite ?map_app, <- ?app_assoc; cbn [map to List.app List.length];
    repeat split; try lia; try assumption.
  rewrite app_nil_r. reflexivity.
Qed.

(** X6.  The state machine does not bound retries: a failed job can be taken
    through [pending], [queued], [downloading] and back to [failed] any
    number of times; every call succeeds and the retry counter of the
    manifest stays what it was. *)
Theorem retry_cycle_is_unbounded (n : nat) (m : BurnManifest) (actor : string) (now : Z) :
  currentState (lifecycle m) = failed ->
  exists m',
    drive m (List.concat (List.repeat [pending; queued; downloading; failed] n)) actor now
    = (Returned m', m')
    /\ currentState (lifecycle m') = failed
    /\ retryCount (lifecycle m') = retryCount (lifecycle m)
    /\ maxRetries (lifecycle m') = maxRetries (lifecycle m)
    /\ List.length (states (lifecycle m'))
       = (List.length (states (lifecycle m)) + 4 * n)%nat.
Proof.
  revert m now. induction n as [|n IH]; intros m now E.
  - exists m. cbn. repeat split; try assumption. lia.
  - cbn [List.repeat List.concat List.app drive].
    rewrite transitionState_valid by (rewrite E; reflexivity).
    rewrite transitionState_valid by reflexivity.
    rewrite transitionState_valid by reflexivity.
    rewrite transitionState_valid by reflexivity.
    match goal with |- context [drive ?x _ _ ?t] =>
      destruct (IH x t eq_refl) as (m' & Hd & Hc & Hr & Hm & Hl) end.
    exists m'. split; [exact Hd|]. split; [exact Hc|].
    split; [exact Hr|]. split; [exact Hm|].
    rewrite Hl. cbn [applyTransition lifecycle states].
    rewrite !length_app. cbn [List.length]. lia.
Qed.

End LifecycleTheorems.

Section LifecycleInstances.
Import Js Json Manifest ManifestPaths.

Lemma produced_manifest_invariants_witness :
  legalHistory (states (lifecycle sampleQueued))
  /\ status (job sampleQueued) = currentState (lifecycle sampleQueued)
  /\ List.length (auditLog (admin sampleQueued))
     = List.length (states (lifecycle sampleQueued))
  /\ stampedByLast sampleQueued
  /\ retryCount (lifecycle sampleQueued) = 0
  /\ maxRetries (lifecycle sampleQueued) = 3.
Proof.
  apply (produced_manifest_invariants sampleQueued).
  unfold sampleQueued, sampleManifest.
  apply produced_transition, produced_transition, produced_create.
Defined.

Lemma retry_cycle_is_unbounded_witness :
  exists m',
    drive sampleFailed
      (List.concat (List.repeat [pending; queued; downloading; failed] 5))
      "executor" 1700000009000
    = (Returned m', m')
    /\ currentState (lifecycle m') = failed
    /\ retryCount (lifecycle m') = retryCount (lifecycle sampleFailed)
    /\ maxRetries (lifecycle m') = maxRetries (lifecycle sampleFailed)
    /\ List.length (states (lifecycle m'))
       = (List.length (states (lifecycle sampleFailed)) + 4 * 5)%nat.
Proof.
  apply (retry_cycle_is_unbounded 5 sampleFailed "executor" 1700000009000).
  vm_compute. reflexivity.
Defined.

End LifecycleInstances.

(* ================================================================== *)
(** ** Receiving and sending signals *)
(* ================================================================== *)

Section ReceiveFacts.
Import Js Json UsbSignal GatewaySpec.

Lemma maxOf_ge_start (xs : list Z) (x : Z) : x <= maxOf x xs.
Proof.
  unfold maxOf. revert x. induction xs as [|y xs IH]; intros x; simpl; [lia|].
  specialize (IH (Z.max x y)). lia.
Qed.

Lemma maxOf_upper (xs : list Z) (x y : Z) : In y (x :: xs) -> y <= maxOf x xs.
Proof.
  revert x. induction xs as [|z xs IH]; intros x Hin.
  - destruct Hin as [<-|[]]. unfold maxOf. simpl. lia.
  - change (maxOf x (z :: xs)) with (maxOf (Z.max x z) xs).
    pose proof (maxOf_ge_start xs (Z.max x z)) as H.
    destruct Hin as [<-|[<-|Hin]]; try lia.
    apply IH. right. exact Hin.
Qed.

Lemma maxOf_In (xs : list Z) (x : Z) : In (maxOf x xs) (x :: xs).
Proof.
  unfold maxOf. revert x. induction xs as [|z xs IH]; intros x; simpl; [left; reflexivity|].
  destruct (IH (Z.max x z)) as [H|H].
  - rewrite <- H. destruct (Z.max_spec x z) as [[_ ->]|[_ ->]]; auto.
  - right. right. exact H.
Qed.

(** The validation loop selects from the signals it is given, in order. *)
Lemma validateEach_selects (h : Helm) (now : Z) (signals : list SignalPacket) :
  forall t acc out t',
    validateEach h t now signals acc = (Returned out, t') ->
    exists picked, out = (acc ++ picked)%list /\ incl picked signals.
Proof.
  induction signals as [|s rest IH]; intros t acc out t' H; simpl in H.
  - injection H as <- <-. exists []. rewrite app_nil_r. split; [reflexivity|].
    intros x [].
  - destruct (validateSignalSecurity h t now s) as [[r|msg] t1]; [|discriminate].
    destruct (allowed r).
    + destruct (IH _ _ _ _ H) as (picked & -> & Hincl).
      exists (s :: picked). rewrite <- app_assoc. split; [reflexivity|].
      intros x [<-|Hx]; [left; reflexivity | right; apply Hincl, Hx].
    + destruct (IH _ _ _ _ H) as (picked & -> & Hincl).
      exists picked. split; [reflexivity|].
      intros x Hx. right. apply Hincl, Hx.
Qed.

(** What [receiveSignals] returns and how it leaves the adapter. *)
Lemma receiveSignals_delivery (data : option (list SignalPacket)) (now : Z)
    (a a' : Adapter) (out : list SignalPacket) :
  receiveSignals data now a = (out, a') ->
  lastSignal (state a) <= lastSignal (state a')
  /\ responseBuffer a' = (responseBuffer a ++ out)%list
  /\ signalQueue a' = signalQueue a
  /\ helm a' = helm a
  /\ forall s, In s out ->
       lastSignal (state a) < timestamp s <= lastSignal (state a')
       /\ exists queue, data = Some queue /\ In s queue.
Proof.
  assert (nothing : forall a' : Adapter,
    state a' = state a -> responseBuffer a' = responseBuffer a ->
    signalQueue a' = signalQueue a -> helm a' = helm a ->
    lastSignal (state a) <= lastSignal (state a')
    /\ responseBuffer a' = (responseBuffer a ++ [])%list
    /\ signalQueue a' = signalQueue a
    /\ helm a' = helm a
    /\ forall s, In s [] ->
         lastSignal (state a) < timestamp s <= lastSignal (state a')
         /\ exists queue, data = Some queue /\ In s queue).
  { intros b Hs Hb Hq Hh. rewrite Hs, Hb, app_nil_r.
    split; [lia|]. split; [reflexivity|]. split; [exact Hq|]. split; [exact Hh|].
    intros s []. }
  unfold receiveSignals. destruct data as [queue|].
  2:{ intros H. injection H as <- <-. apply nothing; reflexivity. }
  destruct (validateEach _ _ _ _ _) as [[validatedSignals|msg] t'] eqn:Ev.
  2:{ intros H. injection H as <- <-. apply nothing; reflexivity. }
  apply validateEach_selects in Ev. destruct Ev as (picked & -> & Hincl).
  cbn [List.app] in *.
  assert (Hnew : forall s, In s picked ->
            lastSignal (state a) < timestamp s /\ In s queue).
  { intros s Hs. apply Hincl, filter_In in Hs. destruct Hs as [Hq Ht].
    split; [|exact Hq].
    rewrite Z.gtb_ltb in Ht. apply Z.ltb_lt in Ht. exact Ht. }
  destruct (map timestamp picked) as [|ts tss] eqn:Em.
  - intros H. injection H as <- <-.
    destruct picked; [|discriminate]. apply nothing; reflexivity.
  - intros H. injection H as <- <-. cbn [state lastSignal responseBuffer signalQueue helm].
    assert (Hmax : In (maxOf ts tss) (map timestamp picked))
      by (rewrite Em; apply maxOf_In).
    apply in_map_iff in Hmax. destruct Hmax as (smax & Hsmax & Hin).
    pose proof (Hnew smax Hin) as [Hlt _].
    split; [lia|]. split; [reflexivity|]. split; [reflexivity|]. split; [reflexivity|].
    intros s Hs. split; [split|].
    + apply Hnew, Hs.
    + apply maxOf_upper. rewrite <- Em. apply in_map, Hs.
    + exists queue. split; [reflexivity|]. apply Hnew, Hs.
Qed.

Lemma rateWindow_after (now : Z) (t : RateTracker) :
  rateWindow now (counted now t) = counted now t
  /\ count (counted now t) = count (rateWindow now t) + 1.
Proof.
  unfold counted, rateWindow, rateCount. 
  destruct (now >? resetTime t) eqn:E; cbn [count resetTime].
  - rewrite gtb_false by lia. split; reflexivity.
  - rewrite E. split; reflexivity.
Qed.

Lemma rateWindow_idem (now : Z) (t : RateTracker) :
  rateWindow now (rateWindow now t) = rateWindow now t.
Proof.
  unfold rateWindow. destruct (now >? resetTime t) eqn:E; cbn [count resetTime].
  - rewrite gtb_false by lia. reflexivity.
  - rewrite E. reflexivity.
Qed.

(** One validation moves the counter of the current window by at most one. *)
Lemma validate_counts_one (h : Helm) (t : RateTracker) (now : Z) (s : SignalPacket) :
  count (rateWindow now (snd (validateSignalSecurity h t now s)))
  <= count (rateWindow now t) + 1.
Proof.
  destruct (active h) eqn:Ha.
  - rewrite (validate_tracker h t now s Ha).
    destruct (failure h t now s SourceAllowList); [lia|].
    destruct (failure h t now s Freshness); [lia|].
    destruct (rateWindow_after now t) as [-> ->]. lia.
  - unfold validateSignalSecurity. rewrite Ha. cbn. lia.
Qed.

(** An envelope without payload that gets past the source, freshness, rate
    and content checks makes the validation throw. *)
Lemma validate_throws_without_payload (h : Helm) (t : RateTracker) (now : Z)
    (s : SignalPacket) :
  active h = true ->
  payload s = None ->
  onlyDVD557s h && negb (sourceAllowed s) = false ->
  now - timestamp s <= maxSignalAge h ->
  count (rateWindow now t) + 1 <= rateLimitPerMinute h ->
  (if blockScriptInjection h then firstMatch (blockedPatterns h) "{}" else None) = None ->
  exists msg t', validateSignalSecurity h t now s = (Thrown msg, t').
Proof.
  intros Ha Hp Hsrc Hage Hrate Hpat.
  unfold validateSignalSecurity. rewrite Ha, Hsrc. cbn [negb].
  rewrite (gtb_false _ _ Hage). cbv zeta.
  rewrite gtb_false by (unfold rateCount; cbn [count]; lia).
  assert (Htext : payloadText s = "{}") by (unfold payloadText; rewrite Hp; reflexivity).
  rewrite Htext, Hpat.
  assert (Hws : RegExp.test webSocketPattern "{}" = false) by (vm_compute; reflexivity).
  rewrite Hws, andb_false_r, Hp. cbn [generateChecksum].
  eexists. eexists. reflexivity.
Qed.

Lemma validateEach_throws (h : Helm) (now : Z) (bad : SignalPacket)
    (signals : list SignalPacket) :
  active h = true ->
  payload bad = None ->
  onlyDVD557s h && negb (sourceAllowed bad) = false ->
  now - timestamp bad <= maxSignalAge h ->
  (if blockScriptInjection h then firstMatch (blockedPatterns h) "{}" else None) = None ->
  In bad signals ->
  forall t acc,
    count (rateWindow now t) + Z.of_nat (List.length signals) <= rateLimitPerMinute h ->
    exists msg t', validateEach h t now signals acc = (Thrown msg, t').
Proof.
  intros Ha Hp Hsrc Hage Hpat.
  induction signals as [|s rest IH]; intros Hin t acc Hrate; [destruct Hin|].
  cbn [validateEach].
  destruct Hin as [->|Hin].
  - destruct (validate_throws_without_payload h t now bad Ha Hp Hsrc Hage) as (msg & t' & ->);
      [cbn [List.length] in Hrate; lia | exact Hpat |].
    eexists. eexists. reflexivity.
  - pose proof (validate_counts_one h t now s) as Hone.
    destruct (validateSignalSecurity h t now s) as [[r|msg] t1].
    2:{ eexists. eexists. reflexivity. }
    cbn [snd] in Hone. cbn [List.length] in Hrate.
    destruct (allowed r); apply IH; try exact Hin; lia.
Qed.

End ReceiveFacts.

Section ReceiveTheorems.
Import Js Json UsbSignal GatewaySpec.


(** X10.  One envelope without a payload suppresses the whole batch.  With the
    helm active, if the inbound queue holds a new envelope that has no
    payload, passes the source check, is fresh and is within the rate limit,
    then its integrity check throws inside the [try] of [receiveSignals]:
    the call returns the empty list, whatever other valid signals the queue
    holds, and neither [lastSignal] nor the response buffer moves, so the
    next poll meets the same envelope again. *)
Theorem payloadless_envelope_suppresses_batch (queue : list SignalPacket) (now : Z)
    (a : Adapter) (bad : SignalPacket) :
  active (helm a) = true ->
  In bad queue ->
  timestamp bad > lastSignal (state a) ->
  payload bad = None ->
  onlyDVD557s (helm a) && negb (sourceAllowed bad) = false ->
  now - timestamp bad <= maxSignalAge (helm a) ->
  count (rateWindow now (tracker a)) + Z.of_nat (List.length queue)
    <= rateLimitPerMinute (helm a) ->
  (if blockScriptInjection (helm a)
   then firstMatch (blockedPatterns (helm a)) "{}" else None) = None ->
  fst (receiveSignals (Some queue) now a) = []
  /\ state (snd (receiveSignals (Some queue) now a)) = state a
  /\ responseBuffer (snd (receiveSignals (Some queue) now a)) = responseBuffer a.
Proof.
  intros Ha Hin Hnew Hp Hsrc Hage Hrate Hpat.
  unfold receiveSignals.
  set (newSignals := filter _ queue).
  assert (Hin' : In bad newSignals).
  { apply filter_In. split; [exact Hin|].
    rewrite Z.gtb_ltb. apply Z.ltb_lt. lia. }
  assert (Hlen : Z.of_nat (List.length newSignals) <= Z.of_nat (List.length queue)).
  { apply inj_le. apply filter_length_le. }
  destruct (validateEach_throws (helm a) now bad newSignals Ha Hp Hsrc Hage Hpat Hin'
              (tracker a) [] ltac:(lia)) as (msg & t' & ->).
  cbn. repeat split.
Qed.

End ReceiveTheorems.

Section SendFacts.
Import Js Json World Executor SignalCommands.

Local Opaque toString16 rollingHash stringify.

Lemma lastN_suffix {A : Type} (n : nat) (xs : list A) :
  (List.length (lastN n xs) <= n)%nat /\ endsWithList (lastN n xs) xs.
Proof.
  unfold lastN, endsWithList. split.
  - rewrite length_skipn. lia.
  - exists (firstn (List.length xs - n) xs). symmetry. apply firstn_skipn.
Qed.

Lemma lastN_last {A : Type} (n : nat) (xs : list A) (x : A) :
  (1 <= n)%nat -> Manifest.lastOf (lastN n (xs ++ [x])%list) = Some x.
Proof.
  intros Hn. unfold lastN. rewrite length_app. cbn [List.length].
  destruct (Nat.le_gt_cases (List.length xs + 1) n) as [H|H].
  - replace (List.length xs + 1 - n)%nat with 0%nat by lia. cbn [skipn].
    apply lastOf_app_one.
  - rewrite skipn_app.
    replace (List.length xs + 1 - n - List.length xs)%nat with 0%nat by lia.
    cbn [skipn]. apply lastOf_app_one.
Qed.

(** The envelope [sendCommand] builds names [phone-cli] as its source and
    no device. *)
Lemma commandPayload_source (command : string) (params : option json) :
  getProp "source" (Some (commandPayload command params)) = Some (JStr "phone-cli")
  /\ getProp "deviceId" (Some (commandPayload command params)) = None
  /\ getProp "jobId" (Some (commandPayload command params)) = None.
Proof. unfold commandPayload. destruct params; cbn; repeat split. Qed.

End SendFacts.

Section SendTheorems.
Import Js Json World Executor SignalCommands.

Local Opaque toString16 rollingHash stringify.

(** X11.  [sendCommand] appends its envelope, which carries the digest of its
    own payload, to the in-memory queue before it uploads, and the queue is
    never trimmed: it grows by one also when the upload throws, and then the
    store is left as it was.  When the upload succeeds
    signals/outbound.json holds the last ten envelopes of the queue at
    most, the new one last. *)
Theorem sendCommand_outbound_window (command : string) (params : option json)
    (w : World) :
  let '(r, w') := sendCommand command params w in
  exists s,
    UsbSignal.signalQueue (adapter w') = (UsbSignal.signalQueue (adapter w) ++ [s])%list
    /\ UsbSignal.integrityHolds s = true
    /\ match r with
       | Returned s' =>
           s' = s
           /\ exists window t,
                lookup "signals/outbound.json" (store w') = Some (BOutbound window t)
                /\ (List.length window <= 10)%nat
                /\ endsWithList window (UsbSignal.signalQueue (adapter w'))
                /\ Manifest.lastOf window = Some s
       | Thrown _ => store w' = store w
       end.
Proof.
  unfold sendCommand, uploadToOneDrive, nextFault, throw, ret, now, bind.
  rewrite createSignal_Some. cbn [setAdapter adapter faults clock].
  destruct (faults w) as [|[|] fs]; cbn [setAdapter setStore setFaults adapter store faults
    UsbSignal.signalQueue];
    eexists; (split; [reflexivity|]);
    (split; [unfold UsbSignal.integrityHolds; cbn; apply String.eqb_refl|]).
  - split; [reflexivity|]. eexists. eexists. rewrite lookup_put_same.
    split; [reflexivity|]. split; [apply lastN_suffix|].
    split; [apply lastN_suffix | apply lastN_last; lia].
  - reflexivity.
  - split; [reflexivity|]. eexists. eexists. rewrite lookup_put_same.
    split; [reflexivity|]. split; [apply lastN_suffix|].
    split; [apply lastN_suffix | apply lastN_last; lia].
Qed.

(** X12.  The gateway refuses the envelopes of [sendCommand]: they name
    [phone-cli] as their source, which is not on the allow-list, so with the
    helm active and [onlyDVD557s] set an envelope the CLI sent is rejected
    with the source reason wherever it is validated, and the rate counter
    does not move. *)
Theorem own_commands_refused_by_gateway (command : string) (params : option json)
    (w w' : World) (s : UsbSignal.SignalPacket)
    (h : UsbSignal.Helm) (t : UsbSignal.RateTracker) (at_ : Z) :
  sendCommand command params w = (Returned s, w') ->
  UsbSignal.active h = true ->
  UsbSignal.onlyDVD557s h = true ->
  UsbSignal.validateSignalSecurity h t at_ s
  = (Returned (UsbSignal.block UsbSignal.reasonSource), t).
Proof.
  intros H Ha Ho.
  pose proof (sendCommand_Returned _ _ _ _ _ H) as (Hp & _).
  assert (Hs : UsbSignal.source s = None /\ UsbSignal.deviceId s = None).
  { unfold sendCommand in H.
    apply bind_Returned in H. destruct H as (t0 & w1 & Ht & H).
    rewrite createSignal_Some in H.
    apply bind_Returned in H. destruct H as ([] & w2 & H2 & H).
    apply bind_Returned in H. destruct H as (queue & w3 & H3 & H).
    apply bind_Returned in H. destruct H as (t' & w4 & H4 & H).
    apply bind_Returned in H. destruct H as ([] & w5 & H5 & H).
    apply ret_Returned in H. destruct H as [<- <-]. split; reflexivity. }
  destruct Hs as [Hsrc Hdev].
  destruct (commandPayload_source command params) as (Gs & Gd & _).
  unfold UsbSignal.validateSignalSecurity. rewrite Ha, Ho. cbn [negb andb].
  unfold UsbSignal.sourceAllowed, UsbSignal.declared.
  rewrite Hsrc, Hdev, Hp, Gs, Gd. reflexivity.
Qed.

(** X13.  The envelope of [sendCancel(jobId)] carries the job id under [params],
    while the executor looks for it at the top of the payload: for no job
    does the executor take an envelope of [sendCancel], or of any other
    [sendCommand], for a cancel request. *)
Theorem sendCancel_is_no_cancel_request (jobId : string)
    (w w' : World) (s : UsbSignal.SignalPacket) :
  sendCancel jobId w = (Returned s, w') ->
  getProp "action" (UsbSignal.payload s) = Some (JStr "cancel")
  /\ getProp "params" (UsbSignal.payload s) = Some (JObj [("jobId", JStr jobId)])
  /\ forall job, isCancelFor job s = false.
Proof.
  unfold sendCancel. intros H.
  pose proof (sendCommand_Returned _ _ _ _ _ H) as (Hp & _).
  rewrite Hp. split; [reflexivity|]. split; [reflexivity|].
  intros job. unfold isCancelFor. rewrite Hp. reflexivity.
Qed.

End SendTheorems.

Section ReceiveInstances.
Import Js Json UsbSignal GatewaySpec.

Lemma payloadless_envelope_suppresses_batch_witness :
  fst (receiveSignals (Some mixedBatch) (clock0 + 50000) (initialAdapter clock0)) = []
  /\ state (snd (receiveSignals (Some mixedBatch) (clock0 + 50000) (initialAdapter clock0)))
     = state (initialAdapter clock0)
  /\ responseBuffer
       (snd (receiveSignals (Some mixedBatch) (clock0 + 50000) (initialAdapter clock0)))
     = responseBuffer (initialAdapter clock0).
Proof.
  apply (payloadless_envelope_suppresses_batch mixedBatch (clock0 + 50000)
           (initialAdapter clock0) bareSignal).
  - reflexivity.
  - simpl. right. left. reflexivity.
  - vm_compute. reflexivity.
  - reflexivity.
  - vm_compute. reflexivity.
  - vm_compute. discriminate.
  - vm_compute. discriminate.
  - vm_compute. reflexivity.
Defined.

End ReceiveInstances.

Section SendInstances.
Import Js Json World Executor SignalCommands.

Lemma own_commands_refused_by_gateway_witness :
  UsbSignal.validateSignalSecurity UsbSignal.HELM tracker0 (clock0 + 1000) sentCancel
  = (Returned (UsbSignal.block UsbSignal.reasonSource), tracker0).
Proof.
  apply (own_commands_refused_by_gateway "cancel" (Some (JObj [("jobId", JStr "J1")]))
           quietWorld (snd (sendCancel "J1" quietWorld)) sentCancel).
  - fold (sendCancel "J1"). rewrite (surjective_pairing (sendCancel _ _)) at 1.
    apply f_equal2; [vm_compute; reflexivity | reflexivity].
  - reflexivity.
  - reflexivity.
Defined.

Lemma sendCancel_is_no_cancel_request_witness :
  getProp "action" (UsbSignal.payload sentCancel) = Some (JStr "cancel")
  /\ getProp "params" (UsbSignal.payload sentCancel) = Some (JObj [("jobId", JStr "J1")])
  /\ forall job, isCancelFor job sentCancel = false.
Proof.
  apply (sendCancel_is_no_cancel_request "J1" quietWorld (snd (sendCancel "J1" quietWorld))).
  rewrite (surjective_pairing (sendCancel _ _)) at 1.
  apply f_equal2; [vm_compute; reflexivity | reflexivity].
Defined.

End SendInstances.

(* ================================================================== *)
(** ** The probe and the patterns of the helm *)
(* ================================================================== *)

Section MatcherFacts.
Import RegExp RegExpSemantics.

Lemma nullable_mkAlt (x y : regex) : nullable (mkAlt x y) = nullable x || nullable y.
Proof.
  destruct x, y; cbn; rewrite ?orb_false_r, ?orb_true_r; reflexivity.
Qed.

Lemma anyPrefix_Void (s : string) : anyPrefix Void s = false.
Proof. induction s as [|c s IH]; cbn; [reflexivity | exact IH]. Qed.

Lemma anyPrefix_alt (s : string) :
  forall x y,
    anyPrefix (Alt x y) s = anyPrefix x s || anyPrefix y s
    /\ anyPrefix (mkAlt x y) s = anyPrefix x s || anyPrefix y s.
Proof.
  induction s as [|c s IH]; intros x y.
  - split; reflexivity.
  - assert (A : anyPrefix (Alt x y) (String c s)
                = anyPrefix x (String c s) || anyPrefix y (String c s)).
    { cbn [anyPrefix deriv]. rewrite nullable_mkAlt.
      rewrite (proj2 (IH (deriv c x) (deriv c y))).
      destruct (nullable (deriv c x)), (nullable (deriv c y)),
        (anyPrefix (deriv c x) s), (anyPrefix (deriv c y) s); reflexivity. }
    split; [exact A|].
    destruct x; try exact A;
      try (cbn [mkAlt]; rewrite anyPrefix_Void; reflexivity);
      destruct y; try exact A;
      cbn [mkAlt]; rewrite anyPrefix_Void, orb_false_r; reflexivity.
Qed.

(** The scan looks for a prefix that continues a match under way, or for
    a part that matches from a later start. *)
Lemma scan_parts (r : regex) (s : string) :
  forall live, scan live r s = anyPrefix live s || anyPart r s.
Proof.
  induction s as [|c s IH]; intros live; [reflexivity|].
  cbn [scan anyPrefix anyPart]. cbv zeta.
  rewrite IH, nullable_mkAlt, (proj2 (anyPrefix_alt s _ _)).
  destruct (nullable (deriv c live)), (nullable (deriv c r)),
    (anyPrefix (deriv c live) s), (anyPrefix (deriv c r) s), (anyPart r s);
    reflexivity.
Qed.

Lemma test_parts (r : regex) (s : string) : test r s = nullable r || anyPart r s.
Proof. unfold test. rewrite scan_parts, anyPrefix_Void. reflexivity. Qed.

Lemma anyPart_Alt (x y : regex) (s : string) :
  anyPart (Alt x y) s = anyPart x s || anyPart y s.
Proof.
  induction s as [|c s IH]; [reflexivity|].
  cbn [anyPart]. rewrite IH, (proj1 (anyPrefix_alt (String c s) x y)).
  destruct (anyPrefix x (String c s)), (anyPrefix y (String c s)),
    (anyPart x s), (anyPart y s); reflexivity.
Qed.

(** An alternation matches where one of its branches does. *)
Lemma test_Alt (x y : regex) (s : string) : test (Alt x y) s = test x s || test y s.
Proof.
  rewrite !test_parts, anyPart_Alt. cbn [nullable].
  destruct (nullable x), (nullable y), (anyPart x s), (anyPart y s); reflexivity.
Qed.

End MatcherFacts.

Section ShadowFacts.
Import Js Json UsbSignal RegExpSemantics.

Lemma firstMatch_In (ps : list RegExp.pattern) (p : RegExp.pattern) (s : string) :
  In p ps -> RegExp.matches p s = true -> exists q, firstMatch ps s = Some q.
Proof.
  induction ps as [|x ps IH]; intros Hin Hm; [destruct Hin|].
  cbn [firstMatch]. destruct (RegExp.matches x s) eqn:E; [eexists; reflexivity|].
  destruct Hin as [->|Hin]; [congruence|]. apply IH; assumption.
Qed.

Lemma webSocketPattern_listed (s : string) :
  RegExp.test webSocketPattern s = true ->
  exists q, firstMatch defaultPatterns s = Some q.
Proof.
  unfold webSocketPattern. rewrite !test_Alt. intros H.
  apply orb_true_iff in H. destruct H as [H|H].
  { apply (firstMatch_In _ {| RegExp.printed := "/websocket/i";
                              RegExp.re := RegExp.lit "websocket" |});
      [cbn; tauto | exact H]. }
  apply orb_true_iff in H. destruct H as [H|H].
  { apply (firstMatch_In _ {| RegExp.printed := "/ws:\/\//i";
                              RegExp.re := RegExp.lit "ws://" |});
      [cbn; tauto | exact H]. }
  apply orb_true_iff in H. destruct H as [H|H].
  { apply (firstMatch_In _ {| RegExp.printed := "/wss:\/\//i";
                              RegExp.re := RegExp.lit "wss://" |});
      [cbn; tauto | exact H]. }
  apply (firstMatch_In _ {| RegExp.printed := "/socket\.io/i";
                            RegExp.re := RegExp.lit "socket.io" |});
    [cbn; tauto | exact H].
Qed.

End ShadowFacts.

Section ShadowTheorems.
Import Js Json UsbSignal Probe.

(** X14.  The WebSocket check of the gateway never decides.  Each alternative
    of its pattern is also on the list of blocked patterns, which is tried
    first: with script-injection blocking on and the list as shipped, a
    payload the WebSocket pattern matches is already rejected as a script
    injection, and no call returns the WebSocket reason. *)
Theorem websocket_check_is_shadowed (h : Helm) (t : RateTracker) (now : Z)
    (s : SignalPacket) :
  blockScriptInjection h = true ->
  blockedPatterns h = defaultPatterns ->
  (RegExp.test webSocketPattern (payloadText s) = true ->
   exists p, firstMatch (blockedPatterns h) (payloadText s) = Some p)
  /\ forall r,
       fst (validateSignalSecurity h t now s) = Returned r ->
       reason r <> Some reasonWebSocket.
Proof.
  intros Hb Hp. rewrite Hp. split; [apply webSocketPattern_listed|].
  intros r. unfold validateSignalSecurity. rewrite Hb, Hp.
  destruct (negb (active h)); [intros H; injection H as <-; discriminate|].
  destruct (onlyDVD557s h && negb (sourceAllowed s));
    [intros H; injection H as <-; discriminate|].
  destruct (now - timestamp s >? maxSignalAge h);
    [intros H; injection H as <-; discriminate|].
  cbv zeta.
  destruct (count (rateCount (rateWindow now t)) >? rateLimitPerMinute h);
    [intros H; injection H as <-; discriminate|].
  destruct (firstMatch defaultPatterns (payloadText s)) as [p|] eqn:Ef.
  { intros H. injection H as <-. cbn [reason block]. unfold reasonInjection, reasonWebSocket.
    cbn. discriminate. }
  destruct (RegExp.test webSocketPattern (payloadText s)) eqn:Ew.
  { destruct (webSocketPattern_listed _ Ew) as [q Hq]. congruence. }
  rewrite andb_false_r.
  destruct (generateChecksum (payload s)); [|discriminate].
  destruct (negb (String.eqb (checksum s) a));
    intros H; injection H as <-; discriminate.
Qed.

(** X15.  A probe that runs to its end marks everything stamped up to then as
    seen: it sets [lastSignal] to the clock reading and queues its probe
    signal, so the next [receiveSignals] returns only signals stamped later
    than the probe, and nothing at all from a queue whose signals were all
    stamped before it. *)
Theorem probe_hides_earlier_signals (env : Surroundings) (t0 t1 : Z) (a : Adapter)
    (data : option (list SignalPacket)) (now : Z) :
  completes env = true ->
  let a1 := probeConnection env t0 t1 a in
  lastSignal (state a1) = t1
  /\ signalQueue a1 = (signalQueue a ++ [probeSignal t0])%list
  /\ (forall s, In s (fst (receiveSignals data now a1)) -> t1 < timestamp s)
  /\ (forall queue,
        data = Some queue ->
        Forall (fun s => timestamp s <= t1) queue ->
        fst (receiveSignals data now a1) = []).
Proof.
  intros Hc a1.
  assert (Hl : lastSignal (state a1) = t1 /\
               signalQueue a1 = (signalQueue a ++ [probeSignal t0])%list).
  { subst a1. unfold probeConnection, completes in *.
    destruct (usb env) as [[devices|msg]|]; try discriminate;
      destruct (dev env) as [devs|msg']; try discriminate; split; reflexivity. }
  destruct Hl as [Hl Hq]. split; [exact Hl|]. split; [exact Hq|].
  assert (Hnew : forall s, In s (fst (receiveSignals data now a1)) ->
            t1 < timestamp s /\ exists queue, data = Some queue /\ In s queue).
  { intros s Hs.
    destruct (receiveSignals data now a1) as [out a2] eqn:E.
    apply receiveSignals_delivery in E. destruct E as (_ & _ & _ & _ & H).
    destruct (H s Hs) as [[Hlt _] Hfrom]. rewrite Hl in Hlt. split; assumption. }
  split; [intros s Hs; apply (Hnew s Hs)|].
  intros queue Hd Hall.
  remember (fst (receiveSignals data now a1)) as out eqn:E.
  destruct out as [|s out]; [reflexivity|].
  exfalso.
  destruct (Hnew s (or_introl eq_refl)) as [Hlt (q & Hq' & Hinq)].
  rewrite Hd in Hq'. injection Hq' as <-.
  rewrite Forall_forall in Hall. specialize (Hall s Hinq). cbn beta in Hall. lia.
Qed.

End ShadowTheorems.

Section ShadowInstances.
Import Js Json UsbSignal GatewaySpec Probe.

Lemma websocket_check_is_shadowed_witness :
  (RegExp.test webSocketPattern (payloadText socketSignal) = true ->
   exists p, firstMatch (blockedPatterns HELM) (payloadText socketSignal) = Some p)
  /\ forall r,
       fst (validateSignalSecurity HELM tracker0 clock0 socketSignal) = Returned r ->
       reason r <> Some reasonWebSocket.
Proof.
  apply (websocket_check_is_shadowed HELM tracker0 clock0 socketSignal); reflexivity.
Defined.

Lemma probe_hides_earlier_signals_witness :
  lastSignal (state (probeConnection driveFound clock0 (clock0 + 5) (initialAdapter clock0)))
  = clock0 + 5
  /\ signalQueue (probeConnection driveFound clock0 (clock0 + 5) (initialAdapter clock0))
     = (signalQueue (initialAdapter clock0) ++ [probeSignal clock0])%list
  /\ (forall s,
        In s (fst (receiveSignals (Some [cancelJ1]) (clock0 + 10)
                     (probeConnection driveFound clock0 (clock0 + 5)
                        (initialAdapter clock0)))) ->
        clock0 + 5 < timestamp s)
  /\ (forall queue,
        Some [cancelJ1] = Some queue ->
        Forall (fun s => timestamp s <= clock0 + 5) queue ->
        fst (receiveSignals (Some [cancelJ1]) (clock0 + 10)
               (probeConnection driveFound clock0 (clock0 + 5) (initialAdapter clock0)))
        = []).
Proof.
  apply (probe_hides_earlier_signals driveFound clock0 (clock0 + 5) (initialAdapter clock0)
           (Some [cancelJ1]) (clock0 + 10)).
  reflexivity.
Defined.

End ShadowInstances.

(* ================================================================== *)
(** ** The executor loop, the completed job and the single burn *)
(* ================================================================== *)

Section CompletionFacts.
Import Js Json World Executor SingleBurn.

Local Opaque toString16 rollingHash stringify toISOString isoDate.

Lemma lookup_remove_other (path other : string) (s : list (string * blob)) :
  path <> other -> lookup other (remove path s) = lookup other s.
Proof.
  intros Hne. unfold lookup. induction s as [|[k v] s IH]; simpl; [reflexivity|].
  destruct (String.eqb k path) eqn:E; simpl.
  - apply String.eqb_eq in E. subst k.
    destruct (String.eqb path other) eqn:E'; [|reflexivity].
    apply String.eqb_eq in E'. contradiction.
  - rewrite IH. reflexivity.
Qed.

(** [deleteFromOneDrive] never throws, and it leaves every other file, the
    clock, the adapter and the executor state alone. *)
Lemma deleteFromOneDrive_Returned (path : string) (w : World) :
  exists ok w',
    deleteFromOneDrive path w = (Returned ok, w')
    /\ exec w' = exec w /\ clock w' = clock w /\ adapter w' = adapter w
    /\ (forall other, path <> other ->
          lookup other (store w') = lookup other (store w)).
Proof.
  unfold deleteFromOneDrive, nextFault, ret, bind.
  destruct (faults w) as [|[|] fs]; cbn [setFaults store faults];
    try (destruct (lookup path (store w)) eqn:E);
    eexists; eexists; (split; [reflexivity|]); cbn;
    repeat split; intros; try reflexivity; apply lookup_remove_other; assumption.
Qed.

Lemma pollAndProcess_Returned (w : World) :
  exists r w', pollAndProcess w = (Returned r, w').
Proof.
  unfold pollAndProcess, tryCatch, ret.
  match goal with |- context [match ?x with _ => _ end] => destruct x as [[r|msg] w1] end;
    eexists; eexists; reflexivity.
Qed.

End CompletionFacts.

Section CompletionTheorems.
Import Js Json World Executor SingleBurn.

Local Opaque toString16 rollingHash stringify toISOString isoDate.

(** X16.  The loop of [startExecutor] never throws: whatever the store and the
    signal channel do, [pollAndProcess] catches it, so [n] rounds return, and
    they process at most one job per round. *)
Theorem executor_loop_never_throws (n : nat) (w : World) :
  exists processed w',
    rounds n w = (Returned processed, w')
    /\ (List.length processed <= n)%nat.
Proof.
  revert w. induction n as [|n IH]; intros w.
  - exists [], w. split; [reflexivity | apply Nat.le_refl].
  - cbn [rounds].
    destruct (pollAndProcess_Returned w) as (r & w1 & H1).
    rewrite (bind_eq _ _ _ _ _ H1).
    rewrite (bind_eq (sleep 5000) _ w1 (setClock (clock w1 + 5000) w1) tt eq_refl).
    destruct (IH (setClock (clock w1 + 5000) w1)) as (rs & w2 & H2 & Hlen).
    rewrite (bind_eq _ _ _ _ _ H2).
    eexists. eexists. split; [reflexivity|].
    destruct r; cbn [List.length]; lia.
Qed.

(** X17.  Whenever [processJob] runs to the end of its [try] block, it has
    written the [complete] status at 100 to status/<jobId>.json and one
    completion record with status [complete] to both completed/<jobId>.json
    and archive/<date>/<jobId>.json, each stamped with a reading of the
    clock, has listed the job as completed and not as failed, and has cleared
    the current job. *)
Theorem completed_job_effects (job : BurnJob) (w w' : World) :
  processJob job w = (Returned Completed, w') ->
  (exists written,
      lookup (statusPath (jobId job)) (store w')
      = Some (BStatus (completeStatus job written)))
  /\ (exists completedAt archivedAt,
        lookup (completedPath (jobId job)) (store w')
        = Some (BCompletion (completeRecord job completedAt))
        /\ lookup (archivePath (isoDate archivedAt) (jobId job)) (store w')
           = Some (BCompletion (completeRecord job completedAt)))
  /\ completedJobs (exec w') = (completedJobs (exec w) ++ [jobId job])%list
  /\ failedJobs (exec w') = failedJobs (exec w)
  /\ currentJob (exec w') = None.
Proof.
  unfold processJob. intros H.
  apply bind_Returned in H. destruct H as ([] & w1 & H1 & H).
  unfold setCurrentJob in H1. injection H1 as <-.
  apply bind_Returned in H. destruct H as (exit & w2 & Hbody & H).
  assert (exit = Completed) as ->.
  { destruct exit.
    - apply ret_Returned in H. destruct H as [H _]. discriminate.
    - reflexivity.
    - apply bind_Returned in H. destruct H as ([] & w3 & _ & H).
      apply ret_Returned in H. destruct H as [H _]. discriminate. }
  apply bind_Returned in H. destruct H as ([] & w3 & H3 & H).
  apply ret_Returned in H. destruct H as [_ <-].
  unfold setCurrentJob in H3. injection H3 as <-.
  unfold tryCatch in Hbody.
  match type of Hbody with
  | context [processBody job ?w0] => destruct (processBody job w0) as [[e|m] wb] eqn:Eb
  end.
  2:{ exfalso. unfold processFailure in Hbody.
      apply bind_Returned in Hbody. destruct Hbody as ([] & wc & _ & Hbody).
      apply bind_Returned in Hbody. destruct Hbody as ([] & wd & _ & Hbody).
      apply bind_Returned in Hbody. destruct Hbody as ([] & we & _ & Hbody).
      apply ret_Returned in Hbody. destruct Hbody as [Hm _]. discriminate. }
  injection Hbody as -> ->.
  unfold processBody in Eb.
  apply bind_Returned in Eb. destruct Eb as ([] & wa & Ha & Eb).
  apply bind_Returned in Eb. destruct Eb as (sb & wb & Hb & Eb).
  apply bind_Returned in Eb. destruct Eb as ([] & wc & Hc & Eb).
  apply bind_Returned in Eb. destruct Eb as (cancelledAt & wd & Hd & Eb).
  destruct cancelledAt as [p'|].
  { apply ret_Returned in Eb. destruct Eb as [Eb _]. discriminate. }
  apply bind_Returned in Eb. destruct Eb as ([] & w5 & H5 & Eb).
  apply bind_Returned in Eb. destruct Eb as ([] & w6 & H6 & Eb).
  apply bind_Returned in Eb. destruct Eb as ([] & w7 & H7 & Eb).
  apply bind_Returned in Eb. destruct Eb as ([] & w8 & H8 & Eb).
  apply bind_Returned in Eb. destruct Eb as (ok & w9 & H9 & Eb).
  apply bind_Returned in Eb. destruct Eb as ([] & w10 & H10 & Eb).
  apply ret_Returned in Eb. destruct Eb as [_ <-].
  unfold pushCompleted in H10. injection H10 as <-.
  pose proof (keeps_updateJobStatus (jobId job) _ _ _ _ _ _ _ Ha) as [_ Ea].
  pose proof (keeps_sendCommand (jobId job) _ _ _ _ _ Hb) as [_ Eb].
  pose proof (keeps_updateJobStatus (jobId job) _ _ _ _ _ _ _ Hc) as [_ Ec].
  pose proof (keeps_burnLoop (jobId job) _ _ _ _ _ Hd) as [_ Ed].
  pose proof (keeps_updateJobStatus (jobId job) _ _ _ _ _ _ _ H5) as [_ E5].
  pose proof (keeps_sleep (jobId job) _ _ _ _ H6) as [_ E6].
  pose proof (keeps_updateJobStatus (jobId job) _ _ _ _ _ _ _ H7) as [_ E7].
  pose proof (keeps_syncToOneDriveAfterBurn (jobId job) _ _ _ _ _ _ H8) as [_ E8].
  apply updateJobStatus_Returned in H7. cbv zeta in H7.
  destruct H7 as ([ob Hs7] & _ & Hc7 & _).
  apply syncToOneDriveAfterBurn_Returned in H8. cbv zeta in H8.
  destruct H8 as (Hs8 & _ & _ & Hc8 & _).
  destruct (deleteFromOneDrive_Returned (pendingPath (jobId job)) w8)
    as (ok' & w9' & H9' & E9 & Hc9 & _ & Hs9).
  rewrite H9 in H9'. injection H9' as <- <-.
  cbn [exec setExec store clock completedJobs failedJobs currentJob].
  unfold completeStatus, completeRecord.
  split; [|split; [|split; [|split]]].
  - eexists.
    rewrite Hs9 by (apply not_eq_sym, pending_not_status).
    rewrite Hs8, lookup_put_other by apply status_not_archive.
    rewrite lookup_put_other by apply status_not_completed.
    rewrite Hs7, lookup_put_other by apply status_not_outbound.
    apply lookup_put_same.
  - eexists. eexists. split.
    + rewrite Hs9 by (apply not_eq_sym, pending_not_completed).
      rewrite Hs8, lookup_put_other by apply completed_not_archive.
      apply lookup_put_same.
    + rewrite Hs9 by (apply not_eq_sym, pending_not_archive).
      rewrite Hs8. apply lookup_put_same.
  - rewrite E9, E8, E7, E6, E5, Ed, Ec, Eb, Ea. reflexivity.
  - rewrite E9, E8, E7, E6, E5, Ed, Ec, Eb, Ea. reflexivity.
  - reflexivity.
Qed.

(** X19.  [runSingleBurn] reports success whenever [processJob] returns, also
    when the burn failed: the [catch] block of [processJob] records the
    failure under completed/ and in [failedJobs] and then returns normally,
    so the caller is told [Burn complete]. *)
Theorem failed_burn_reported_as_success (id : string) (job : BurnJob)
    (w w1 w' : World) (msg : string) :
  readFromOneDrive ("pending/" ++ id ++ ".json") w = (Returned (Some (BJob job)), w1) ->
  processJob job w1 = (Returned (Failed msg), w') ->
  runSingleBurn id w
  = (Returned {| success := true;
                 message := "Burn complete: " ++ id ++ " -> synced to OneDrive" |}, w')
  /\ failedJobs (exec w') = (failedJobs (exec w1) ++ [jobId job])%list
  /\ lookup (completedPath (jobId job)) (store w')
     = Some (BCompletion (failedRecord job msg (clock w'))).
Proof.
  intros Hread Hproc. split.
  - unfold runSingleBurn, tryCatch.
    rewrite (bind_eq _ _ _ _ _ Hread). cbn [nonEmpty parseJob].
    rewrite (bind_eq _ _ _ _ _ Hproc). reflexivity.
  - destruct (failure_leaves_job_pending _ _ _ _ Hproc) as (_ & Hc & _ & Hf & _).
    split; assumption.
Qed.

End CompletionTheorems.

Section CompletionInstances.
Import Js Json World Executor SingleBurn.

Lemma completed_job_effects_witness :
  fst (processJob (jobOf "J1" Manifest.high 0) oneJobWorld) = Returned Completed
  /\ (exists written,
        lookup (statusPath "J1")
          (store (snd (processJob (jobOf "J1" Manifest.high 0) oneJobWorld)))
        = Some (BStatus (completeStatus (jobOf "J1" Manifest.high 0) written)))
  /\ completedJobs (exec (snd (processJob (jobOf "J1" Manifest.high 0) oneJobWorld)))
     = ["J1"]
  /\ currentJob (exec (snd (processJob (jobOf "J1" Manifest.high 0) oneJobWorld))) = None.
Proof.
  assert (E : processJob (jobOf "J1" Manifest.high 0) oneJobWorld
              = (Returned Completed,
                 snd (processJob (jobOf "J1" Manifest.high 0) oneJobWorld))).
  { rewrite (surjective_pairing (processJob _ _)) at 1.
    apply f_equal2; [vm_compute; reflexivity | reflexivity]. }
  destruct (completed_job_effects _ _ _ E) as (Hs & _ & Hc & _ & Hj).
  revert E Hs Hc Hj.
  generalize (snd (processJob (jobOf "J1" Manifest.high 0) oneJobWorld)) as w'.
  intros w' E Hs Hc Hj.
  split; [rewrite E; reflexivity|].
  split; [exact Hs | split; [exact Hc | exact Hj]].
Defined.

Lemma failed_burn_reported_as_success_witness :
  fst (runSingleBurn "J1" failingBurnWorld)
  = Returned {| success := true;
                message := "Burn complete: J1 -> synced to OneDrive" |}
  /\ failedJobs (exec (snd (runSingleBurn "J1" failingBurnWorld))) = ["J1"].
Proof.
  assert (Hread : readFromOneDrive ("pending/" ++ "J1" ++ ".json") failingBurnWorld
                  = (Returned (Some (BJob (jobOf "J1" Manifest.normal 0))),
                     snd (readFromOneDrive "pending/J1.json" failingBurnWorld))).
  { change ("pending/" ++ "J1" ++ ".json") with "pending/J1.json".
    rewrite (surjective_pairing (readFromOneDrive _ _)) at 1.
    apply f_equal2; [vm_compute; reflexivity | reflexivity]. }
  assert (Hproc : processJob (jobOf "J1" Manifest.normal 0)
                    (snd (readFromOneDrive "pending/J1.json" failingBurnWorld))
                  = (Returned (Failed "OneDrive request failed"),
                     snd (processJob (jobOf "J1" Manifest.normal 0)
                            (snd (readFromOneDrive "pending/J1.json" failingBurnWorld))))).
  { rewrite (surjective_pairing (processJob _ _)) at 1.
    apply f_equal2; [vm_compute; reflexivity | reflexivity]. }
  assert (Hnone : failedJobs (exec (snd (readFromOneDrive "pending/J1.json" failingBurnWorld)))
                  = []) by (vm_compute; reflexivity).
  destruct (failed_burn_reported_as_success "J1" _ _ _ _ _ Hread Hproc) as (Hr & Hf & _).
  rewrite Hnone in Hf. clear Hread Hproc Hnone. revert Hr Hf.
  generalize (snd (processJob (jobOf "J1" Manifest.normal 0)
                     (snd (readFromOneDrive "pending/J1.json" failingBurnWorld)))) as w'.
  intros w' Hr Hf. rewrite Hr. split; [reflexivity | exact Hf].
Defined.
End CompletionInstances.

(* ================================================================== *)
(** ** Draining the pending folder *)
(* ================================================================== *)

Section DrainFacts.
Import Js Json World Executor PendingFolder.

Local Opaque toString16 rollingHash stringify toISOString isoDate.

Lemma substring_all (s : string) : String.substring 0 (String.length s) s = s.
Proof. induction s as [|c s IH]; simpl; [reflexivity | rewrite IH; reflexivity]. Qed.

Lemma nameIn_pendingPath (id : string) :
  inPending (pendingPath id) = true ->
  nameIn "pending" (pendingPath id) = Some (id ++ ".json").
Proof.
  unfold inPending, nameIn, pendingPath, startsWith. cbn.
  rewrite Nat.sub_0_r, substring_all.
  assert (Hp : String.prefix "" (id ++ ".json") = true) by (destruct id; reflexivity).
  rewrite Hp.
  destruct (splitChar "/" (id ++ ".json")) as [|x [|y l]]; try discriminate.
  reflexivity.
Qed.

Lemma outside_pending :
  inPending "signals/outbound.json" = false
  /\ (forall id, inPending (statusPath id) = false)
  /\ (forall id, inPending (completedPath id) = false)
  /\ (forall d id, inPending (archivePath d id) = false).
Proof. repeat split. Qed.

Lemma pendingView_put_outside (path : string) (b : blob) (s : list (string * blob)) :
  inPending path = false -> pendingView (put path b s) = pendingView s.
Proof.
  intros Hout. unfold pendingView. induction s as [|[k v] s IH]; simpl.
  - rewrite Hout. reflexivity.
  - destruct (String.eqb k path) eqn:E; simpl.
    + apply String.eqb_eq in E. subst k. rewrite Hout. reflexivity.
    + rewrite IH. reflexivity.
Qed.

Lemma pendingView_remove (path : string) (s : list (string * blob)) :
  inPending path = true -> pendingView (remove path s) = remove path (pendingView s).
Proof.
  intros Hin. unfold pendingView. induction s as [|[k v] s IH]; simpl; [reflexivity|].
  destruct (String.eqb k path) eqn:E; simpl.
  - apply String.eqb_eq in E. subst k. rewrite Hin. simpl.
    rewrite String.eqb_refl. reflexivity.
  - destruct (inPending k); simpl; [rewrite E, IH|]; auto.
Qed.

Lemma remove_absent (path : string) (s : list (string * blob)) :
  lookup path s = None -> remove path s = s.
Proof.
  unfold lookup. induction s as [|[k v] s IH]; simpl; [reflexivity|].
  destruct (String.eqb k path); [discriminate|].
  intros H. rewrite IH by exact H. reflexivity.
Qed.

Lemma lookup_pendingView (path : string) (s : list (string * blob)) :
  inPending path = true -> lookup path (pendingView s) = lookup path s.
Proof.
  intros Hin. unfold lookup, pendingView. induction s as [|[k v] s IH]; simpl; [reflexivity|].
  destruct (String.eqb k path) eqn:E.
  - apply String.eqb_eq in E. subst k. rewrite Hin. simpl.
    rewrite String.eqb_refl. reflexivity.
  - destruct (inPending k); simpl; [rewrite E|]; exact IH.
Qed.

Lemma namesIn_pendingView (s : list (string * blob)) :
  namesIn "pending" (pendingView s) = namesIn "pending" s.
Proof.
  unfold pendingView, inPending. induction s as [|[k v] s IH]; simpl; [reflexivity|].
  destruct (nameIn "pending" k) eqn:E; simpl; [rewrite E, IH|]; auto.
Qed.


Lemma append_inv_tail (a b t : string) : a ++ t = b ++ t -> a = b.
Proof.
  revert b. induction a as [|x a IH]; intros [|y b] H.
  - reflexivity.
  - exfalso. apply (f_equal String.length) in H. simpl in H.
    rewrite length_append in H. lia.
  - exfalso. apply (f_equal String.length) in H. simpl in H.
    rewrite length_append in H. lia.
  - simpl in H. injection H as -> H. f_equal. apply IH, H.
Qed.

Lemma pendingPath_inj (a b : string) : pendingPath a = pendingPath b -> a = b.
Proof.
  unfold pendingPath. intros H. simpl in H.
  repeat (injection H as H). apply (append_inv_tail _ _ _ H).
Qed.

Lemma pendingPath_eqb (a b : string) :
  String.eqb (pendingPath a) (pendingPath b) = String.eqb a b.
Proof.
  destruct (String.eqb a b) eqn:E.
  - apply String.eqb_eq in E. subst. apply String.eqb_refl.
  - apply String.eqb_neq. intros H. apply pendingPath_inj in H.
    apply String.eqb_neq in E. contradiction.
Qed.

Lemma without_absent (id : string) (jobs : list BurnJob) :
  ~ In id (map jobId jobs) -> without id jobs = jobs.
Proof.
  unfold without. induction jobs as [|j jobs IH]; simpl; intros H; [reflexivity|].
  destruct (String.eqb (jobId j) id) eqn:E.
  - apply String.eqb_eq in E. exfalso. apply H. left. exact E.
  - simpl. rewrite IH; [reflexivity|]. intros Hin. apply H. right. exact Hin.
Qed.

Lemma remove_filed (id : string) (jobs : list BurnJob) :
  NoDup (map jobId jobs) ->
  remove (pendingPath id) (filed jobs) = filed (without id jobs).
Proof.
  unfold filed, without.
  induction jobs as [|j jobs IH]; cbn [map remove filter]; intros Hnd; [reflexivity|].
  inversion Hnd as [|x l Hnotin Hnd']; subst.
  rewrite pendingPath_eqb.
  destruct (String.eqb (jobId j) id) eqn:E; cbn [negb map].
  - apply String.eqb_eq in E. subst id.
    pose proof (without_absent (jobId j) jobs Hnotin) as Hw. unfold without in Hw.
    rewrite Hw. reflexivity.
  - rewrite IH by exact Hnd'. reflexivity.
Qed.

Lemma without_NoDup (id : string) (jobs : list BurnJob) :
  NoDup (map jobId jobs) -> NoDup (map jobId (without id jobs)).
Proof.
  unfold without. induction jobs as [|j jobs IH]; simpl; intros Hnd; [constructor|].
  inversion Hnd as [|x l Hnotin Hnd']; subst.
  destruct (String.eqb (jobId j) id); simpl; [apply IH, Hnd'|].
  constructor; [|apply IH, Hnd'].
  intros Hin. apply Hnotin. apply in_map_iff in Hin. destruct Hin as (z & Hz & Hin).
  apply filter_In in Hin. apply in_map_iff. exists z. split; [exact Hz | apply Hin].
Qed.

Lemma lookup_filed (jobs : list BurnJob) (j : BurnJob) :
  NoDup (map jobId jobs) -> In j jobs ->
  lookup (pendingPath (jobId j)) (filed jobs) = Some (BJob j).
Proof.
  unfold lookup, filed.
  induction jobs as [|x jobs IH]; cbn [map assoc]; intros Hnd Hin; [destruct Hin|].
  inversion Hnd as [|y l Hnotin Hnd']; subst.
  rewrite pendingPath_eqb.
  destruct Hin as [->|Hin].
  - rewrite String.eqb_refl. reflexivity.
  - destruct (String.eqb (jobId x) (jobId j)) eqn:E.
    + apply String.eqb_eq in E. exfalso. apply Hnotin. rewrite E.
      apply in_map, Hin.
    + apply IH; assumption.
Qed.

(** The names the listing of pending/ gives for a folder of filed
    descriptors. *)
Lemma namesIn_filed (jobs : list BurnJob) :
  Forall (fun kv => inPending (fst kv) = true) (filed jobs) ->
  namesIn "pending" (filed jobs) = map (fun j => jobId j ++ ".json") jobs.
Proof.
  unfold filed.
  induction jobs as [|j jobs IH]; cbn [map namesIn]; intros H; [reflexivity|].
  inversion H as [|x l Hj Hrest]; subst. cbn [fst] in Hj.
  rewrite (nameIn_pendingPath _ Hj), IH by exact Hrest. reflexivity.
Qed.

Lemma pendingView_all (s : list (string * blob)) :
  Forall (fun kv => inPending (fst kv) = true) (pendingView s).
Proof.
  unfold pendingView. apply Forall_forall. intros kv Hin.
  apply filter_In in Hin. apply Hin.
Qed.

Lemma readAll_filed (s : list (string * blob)) (l acc : list BurnJob) :
  (forall j, In j l -> lookup (pendingPath (jobId j)) s = Some (BJob j)) ->
  readAll s (map (fun j => jobId j ++ ".json") l) acc = (acc ++ l)%list.
Proof.
  revert acc. induction l as [|j l IH]; intros acc H; cbn [map readAll].
  - rewrite app_nil_r. reflexivity.
  - change ("pending/" ++ (jobId j ++ ".json")) with (pendingPath (jobId j)).
    rewrite (H j (or_introl eq_refl)). cbn [nonEmpty parseJob].
    rewrite IH by (intros x Hx; apply H; right; exact Hx).
    rewrite <- app_assoc. reflexivity.
Qed.

(** The poll takes the head of the sorted list; sorting what is left
    gives the tail. *)
Lemma sortJobs_without_head (jobs : list BurnJob) :
  NoDup (map jobId jobs) ->
  forall j rest,
    sortJobs jobs = j :: rest -> sortJobs (without (jobId j) jobs) = rest.
Proof.
  unfold sortJobs. rewrite comparePriority_byKey.
  induction jobs as [|x jobs IH]; intros Hnd j rest H; [discriminate|].
  inversion Hnd as [|y l Hnotin Hnd']; subst.
  cbn [sort fold_right] in H. fold (sort (byKey rank) jobs) in H.
  destruct (sort (byKey rank) jobs) as [|y s'] eqn:E.
  - cbn in H. injection H as <- <-.
    assert (jobs = []) as ->.
    { pose proof (sort_perm rank jobs) as P. rewrite E in P.
      apply Permutation_sym, Permutation_nil in P. exact P. }
    unfold without. cbn. rewrite String.eqb_refl. reflexivity.
  - cbn [insertSorted] in H.
    assert (Hy : In y jobs).
    { eapply Permutation_in; [apply Permutation_sym, (sort_perm rank jobs)|].
      rewrite E. left. reflexivity. }
    destruct (byKey rank x y <=? 0).
    + injection H as <- <-.
      unfold without. cbn [filter]. rewrite String.eqb_refl. cbn [negb].
      pose proof (without_absent (jobId x) jobs Hnotin) as Hw. unfold without in Hw.
      rewrite Hw. exact E.
    + injection H as <- <-.
      unfold without. cbn [filter].
      assert (Hne : String.eqb (jobId x) (jobId y) = false).
      { apply String.eqb_neq. intros Heq. apply Hnotin. rewrite Heq.
        apply in_map, Hy. }
      rewrite Hne. cbn [negb sort fold_right].
      fold (sort (byKey rank) (filter (fun j => negb (String.eqb (jobId j) (jobId y))) jobs)).
      pose proof (IH Hnd' y s' eq_refl) as IH'. unfold without in IH'.
      rewrite IH'. reflexivity.
Qed.

End DrainFacts.

Section DrainRun.
Import Js Json World Executor PendingFolder.

Local Opaque toString16 rollingHash stringify toISOString isoDate.

Lemma calm_trans (w0 w1 w2 : World) : calm w0 w1 -> calm w1 w2 -> calm w0 w2.
Proof.
  intros (_ & P1 & E1) (U2 & P2 & E2). repeat split; try apply U2; congruence.
Qed.

Lemma updateJobStatus_calm (id : string) (st : Manifest.JobStatus) (progress : Z)
    (err : option string) (w : World) :
  undisturbed w ->
  exists w', updateJobStatus id st progress err w = (Returned tt, w') /\ calm w w'.
Proof.
  intros [Hf Hi].
  destruct (updateJobStatus_ok id st progress err w Hf) as (w' & H & Hf').
  exists w'. split; [exact H|].
  apply updateJobStatus_Returned in H. cbv zeta in H.
  destruct H as ([ob Hs] & He & _ & Hfeed & _).
  repeat split; try congruence.
  rewrite Hs. rewrite !pendingView_put_outside; [reflexivity | | ]; apply outside_pending.
Qed.

Lemma sendCommand_calm (command : string) (params : option json) (w : World) :
  undisturbed w ->
  exists s w', sendCommand command params w = (Returned s, w') /\ calm w w'.
Proof.
  intros [Hf Hi].
  destruct (sendCommand_ok command params w Hf) as (s & w' & H & Hf').
  exists s, w'. split; [exact H|].
  apply sendCommand_Returned in H.
  destruct H as (_ & [ob Hs] & He & _ & Hfeed & _).
  repeat split; try congruence.
  rewrite Hs. rewrite pendingView_put_outside; [reflexivity|]. apply outside_pending.
Qed.

Lemma syncToOneDriveAfterBurn_calm (id : string) (st : Manifest.JobStatus)
    (err : option string) (w : World) :
  undisturbed w ->
  exists w', syncToOneDriveAfterBurn id st err w = (Returned tt, w') /\ calm w w'.
Proof.
  intros [Hf Hi].
  destruct (syncToOneDriveAfterBurn_ok id st err w Hf) as (w' & H & Hf').
  exists w'. split; [exact H|].
  apply syncToOneDriveAfterBurn_Returned in H. cbv zeta in H.
  destruct H as (Hs & He & _ & _ & Hfeed).
  repeat split; try congruence.
  rewrite Hs. rewrite !pendingView_put_outside; [reflexivity | | ]; apply outside_pending.
Qed.

Lemma sleep_calm (ms : Z) (w : World) :
  undisturbed w -> calm w (setClock (clock w + ms) w).
Proof. intros [Hf Hi]. repeat split; assumption. Qed.

Lemma receiveSignals_calm (w : World) :
  undisturbed w ->
  exists w', receiveSignals w = (Returned [], w') /\ calm w w'.
Proof.
  intros [Hf Hi]. unfold receiveSignals. rewrite Hi. cbn.
  eexists. split; [reflexivity|]. repeat split; assumption.
Qed.

Lemma burnLoop_calm (job : BurnJob) (steps : list Z) :
  forall w,
    undisturbed w ->
    exists w', burnLoop job steps w = (Returned None, w') /\ calm w w'.
Proof.
  induction steps as [|p rest IH]; intros w Hu; cbn [burnLoop].
  - exists w. split; [reflexivity|]. repeat split; apply Hu.
  - rewrite (bind_eq (sleep 1000) _ w (setClock (clock w + 1000) w) tt eq_refl).
    pose proof (sleep_calm 1000 w Hu) as C0.
    destruct (updateJobStatus_calm (jobId job) Manifest.burning p None _ (proj1 C0))
      as (w1 & H1 & C1).
    rewrite (bind_eq _ _ _ _ _ H1).
    destruct (receiveSignals_calm w1 (proj1 C1)) as (w2 & H2 & C2).
    rewrite (bind_eq _ _ _ _ _ H2). cbn [find].
    destruct (IH w2 (proj1 C2)) as (w3 & H3 & C3).
    exists w3. split; [exact H3|].
    exact (calm_trans _ _ _ (calm_trans _ _ _ (calm_trans _ _ _ C0 C1) C2) C3).
Qed.

Lemma deleteFromOneDrive_calm (path : string) (w : World) :
  undisturbed w ->
  inPending path = true ->
  exists ok w',
    deleteFromOneDrive path w = (Returned ok, w')
    /\ undisturbed w'
    /\ pendingView (store w') = remove path (pendingView (store w))
    /\ exec w' = exec w.
Proof.
  intros [Hf Hi] Hin. unfold deleteFromOneDrive, nextFault, ret, bind. rewrite Hf.
  destruct (lookup path (store w)) eqn:E.
  - eexists. eexists. split; [reflexivity|]. cbn.
    repeat split; try assumption. apply pendingView_remove, Hin.
  - eexists. eexists. split; [reflexivity|].
    repeat split; try assumption.
    rewrite remove_absent; [reflexivity|].
    rewrite lookup_pendingView by exact Hin. exact E.
Qed.

(** Undisturbed, [processJob] completes the job and removes its
    descriptor. *)
Lemma processJob_calm (job : BurnJob) (w : World) :
  undisturbed w ->
  inPending (pendingPath (jobId job)) = true ->
  exists w',
    processJob job w = (Returned Completed, w')
    /\ undisturbed w'
    /\ pendingView (store w')
       = remove (pendingPath (jobId job)) (pendingView (store w))
    /\ completedJobs (exec w') = (completedJobs (exec w) ++ [jobId job])%list
    /\ failedJobs (exec w') = failedJobs (exec w).
Proof.
  intros Hu Hin. unfold processJob.
  rewrite (bind_eq (setCurrentJob (Some job)) _ w _ tt eq_refl).
  set (w0 := setExec _ w).
  assert (U0 : undisturbed w0) by exact Hu.
  destruct (updateJobStatus_calm (jobId job) Manifest.queued 0 None w0 U0)
    as (w1 & H1 & C1).
  destruct (sendCommand_calm "burn" (Some (burnParams job)) w1 (proj1 C1))
    as (s & w2 & H2 & C2).
  destruct (updateJobStatus_calm (jobId job) Manifest.burning 10 None w2 (proj1 C2))
    as (w3 & H3 & C3).
  destruct (burnLoop_calm job progressSteps w3 (proj1 C3)) as (w4 & H4 & C4).
  destruct (updateJobStatus_calm (jobId job) Manifest.verifying 95 None w4 (proj1 C4))
    as (w5 & H5 & C5).
  pose proof (sleep_calm 500 w5 (proj1 C5)) as C6.
  destruct (updateJobStatus_calm (jobId job) Manifest.complete 100 None _ (proj1 C6))
    as (w7 & H7 & C7).
  destruct (syncToOneDriveAfterBurn_calm (jobId job) Manifest.complete None w7 (proj1 C7))
    as (w8 & H8 & C8).
  destruct (deleteFromOneDrive_calm (pendingPath (jobId job)) w8 (proj1 C8) Hin)
    as (ok & w9 & H9 & U9 & P9 & E9).
  pose proof (calm_trans _ _ _ (calm_trans _ _ _ (calm_trans _ _ _ (calm_trans _ _ _
               (calm_trans _ _ _ (calm_trans _ _ _ (calm_trans _ _ _ C1 C2) C3) C4)
               C5) C6) C7) C8) as (_ & P & E).
  assert (Eb : processBody job w0
               = (Returned Completed,
                  setExec {| running := running (exec w9);
                             currentJob := currentJob (exec w9);
                             completedJobs := (completedJobs (exec w9) ++ [jobId job])%list;
                             failedJobs := failedJobs (exec w9) |} w9)).
  { unfold processBody.
    rewrite (bind_eq _ _ _ _ _ H1), (bind_eq _ _ _ _ _ H2), (bind_eq _ _ _ _ _ H3),
      (bind_eq _ _ _ _ _ H4), (bind_eq _ _ _ _ _ H5).
    rewrite (bind_eq (sleep 500) _ w5 (setClock (clock w5 + 500) w5) tt eq_refl).
    rewrite (bind_eq _ _ _ _ _ H7), (bind_eq _ _ _ _ _ H8), (bind_eq _ _ _ _ _ H9).
    reflexivity. }
  erewrite bind_eq by (unfold tryCatch; rewrite Eb; reflexivity).
  eexists. split; [reflexivity|].
  cbn [setCurrentJob setExec bind ret store exec faults inboundFeed
       completedJobs failedJobs].
  split; [exact U9|]. split; [rewrite P9, P; reflexivity|].
  rewrite E9, E. split; reflexivity.
Qed.

Lemma readJobs_calm (names : list string) :
  forall acc w,
    faults w = [] ->
    readJobs names acc w = (Returned (readAll (store w) names acc), w).
Proof.
  induction names as [|name rest IH]; intros acc w Hf; cbn [readJobs readAll].
  - reflexivity.
  - assert (R : readFromOneDrive ("pending/" ++ name) w
                = (Returned (lookup ("pending/" ++ name) (store w)), w)).
    { unfold readFromOneDrive, nextFault, bind. rewrite Hf. reflexivity. }
    rewrite (bind_eq _ _ _ _ _ R).
    destruct (lookup ("pending/" ++ name) (store w)) as [c|]; [|apply IH, Hf].
    destruct (nonEmpty c); [|apply IH, Hf].
    destruct (parseJob c); apply IH, Hf.
Qed.

Lemma sortJobs_nil (jobs : list BurnJob) : sortJobs jobs = [] -> jobs = [].
Proof.
  unfold sortJobs. rewrite comparePriority_byKey. intros E.
  pose proof (sort_perm rank jobs) as P. rewrite E in P.
  apply Permutation_sym, Permutation_nil in P. exact P.
Qed.

Lemma sortJobs_In (jobs : list BurnJob) (j : BurnJob) :
  In j (sortJobs jobs) -> In j jobs.
Proof.
  unfold sortJobs. rewrite comparePriority_byKey. intros H.
  eapply Permutation_in; [apply Permutation_sym, (sort_perm rank jobs) | exact H].
Qed.

(** One undisturbed poll: the head of the sorted descriptors is completed
    and its descriptor removed. *)
Lemma pollAndProcess_calm (jobs : list BurnJob) (w : World) :
  undisturbed w ->
  pendingView (store w) = filed jobs ->
  NoDup (map jobId jobs) ->
  exists w',
    pollAndProcess w
    = (Returned (option_map (fun j => (j, Completed)) (hd_error (sortJobs jobs))), w')
    /\ undisturbed w'
    /\ pendingView (store w') = filed (match hd_error (sortJobs jobs) with
                                       | Some j => without (jobId j) jobs
                                       | None => jobs
                                       end)
    /\ completedJobs (exec w')
       = (completedJobs (exec w) ++ match hd_error (sortJobs jobs) with
                                    | Some j => [jobId j]
                                    | None => []
                                    end)%list
    /\ failedJobs (exec w') = failedJobs (exec w).
Proof.
  intros Hu Hview Hnd.
  assert (Hall : Forall (fun kv => inPending (fst kv) = true) (filed jobs))
    by (rewrite <- Hview; apply pendingView_all).
  assert (Hnames : namesIn "pending" (store w)
                   = map (fun j => jobId j ++ ".json") jobs).
  { rewrite <- namesIn_pendingView, Hview. apply namesIn_filed, Hall. }
  assert (Hlist : listOneDriveFiles "pending" w
                  = (Returned (map (fun j => jobId j ++ ".json") jobs), w)).
  { unfold listOneDriveFiles, nextFault, bind. rewrite (proj1 Hu), Hnames. reflexivity. }
  assert (Hread : readAll (store w) (map (fun j => jobId j ++ ".json") jobs) [] = jobs).
  { rewrite readAll_filed; [reflexivity|].
    intros j Hj.
    assert (Hjp : inPending (pendingPath (jobId j)) = true).
    { rewrite Forall_forall in Hall.
      apply (Hall (pendingPath (jobId j), BJob j)).
      unfold filed. apply in_map_iff. exists j. split; [reflexivity | exact Hj]. }
    rewrite <- (lookup_pendingView _ _ Hjp), Hview.
    apply lookup_filed; assumption. }
  unfold pollAndProcess, tryCatch.
  rewrite (bind_eq _ _ _ _ _ Hlist).
  destruct jobs as [|j0 jobs0].
  { cbn. exists w. rewrite app_nil_r. repeat split; try apply Hu. exact Hview. }
  cbn [map].
  change ((jobId j0 ++ ".json") :: map (fun j => jobId j ++ ".json") jobs0)
    with (map (fun j => jobId j ++ ".json") (j0 :: jobs0)).
  rewrite (bind_eq _ _ _ _ _ (readJobs_calm _ [] w (proj1 Hu))), Hread.
  unfold selectJob.
  destruct (sortJobs (j0 :: jobs0)) as [|j rest] eqn:Es.
  { apply sortJobs_nil in Es. discriminate. }
  cbn [hd_error option_map].
  assert (Hj : In j (j0 :: jobs0)) by (apply sortJobs_In; rewrite Es; left; reflexivity).
  assert (Hjp : inPending (pendingPath (jobId j)) = true).
  { rewrite Forall_forall in Hall.
    apply (Hall (pendingPath (jobId j), BJob j)).
    unfold filed. apply in_map_iff. exists j. split; [reflexivity | exact Hj]. }
  destruct (processJob_calm j w Hu Hjp) as (w' & Hp & U' & P' & Ec & Ef).
  rewrite (bind_eq _ _ _ _ _ Hp).
  exists w'. split; [reflexivity|]. split; [exact U'|].
  split; [|split; assumption].
  rewrite P', Hview. apply remove_filed, Hnd.
Qed.

(** Undisturbed, the rounds of the executor work through the folder in
    the order of the sort. *)
Lemma rounds_calm (n : nat) :
  forall (jobs : list BurnJob) (w : World),
    undisturbed w ->
    pendingView (store w) = filed jobs ->
    NoDup (map jobId jobs) ->
    exists w' remaining,
      rounds n w
      = (Returned (map (fun j => (j, Completed)) (firstn n (sortJobs jobs))), w')
      /\ pendingView (store w') = filed remaining
      /\ sortJobs remaining = skipn n (sortJobs jobs)
      /\ completedJobs (exec w')
         = (completedJobs (exec w) ++ map jobId (firstn n (sortJobs jobs)))%list
      /\ failedJobs (exec w') = failedJobs (exec w).
Proof.
  induction n as [|n IH]; intros jobs w Hu Hview Hnd.
  - exists w, jobs. cbn. rewrite app_nil_r. repeat split. exact Hview.
  - cbn [rounds].
    destruct (pollAndProcess_calm jobs w Hu Hview Hnd) as (w1 & H1 & U1 & P1 & C1 & F1).
    rewrite (bind_eq _ _ _ _ _ H1).
    rewrite (bind_eq (sleep 5000) _ w1 (setClock (clock w1 + 5000) w1) tt eq_refl).
    pose proof (sleep_calm 5000 w1 U1) as (U2 & P2 & E2).
    destruct (sortJobs jobs) as [|j rest] eqn:Es; cbn [hd_error option_map] in *.
    + apply sortJobs_nil in Es. subst jobs.
      destruct (IH [] _ U2 (eq_trans P2 P1) Hnd) as (w' & remaining & H & P & S & C & F).
      change (sortJobs []) with (@nil BurnJob) in H, S, C.
      rewrite firstn_nil in H, C. rewrite skipn_nil in S.
      rewrite (bind_eq _ _ _ _ _ H).
      exists w', remaining. split; [reflexivity|].
      split; [exact P|]. split; [exact S|].
      rewrite C, F, E2, C1, F1. cbn. rewrite !app_nil_r. split; reflexivity.
    + pose proof (sortJobs_without_head jobs Hnd j rest Es) as Hs.
      destruct (IH (without (jobId j) jobs) _ U2 (eq_trans P2 P1)
                  (without_NoDup _ _ Hnd))
        as (w' & remaining & H & P & S & C & F).
      rewrite (bind_eq _ _ _ _ _ H).
      exists w', remaining. split; [rewrite Hs; reflexivity|].
      split; [exact P|]. split; [rewrite S, Hs; reflexivity|].
      rewrite C, F, E2, C1, F1, Hs. cbn [firstn map].
      rewrite <- app_assoc. split; reflexivity.
Qed.

End DrainRun.

Section DrainTheorems.
Import Js Json World Executor PendingFolder.

(** X20.  With a store that serves every request and no inbound signals, the
    executor works through the pending folder: when the folder holds the
    descriptors of [jobs], each filed under its own id, [n] rounds complete
    the first [n] jobs of the sorted list, in that order, list them as
    completed and none as failed, and leave under pending/ exactly the
    descriptors of the others.  After as many rounds as there are jobs the
    folder is empty. *)
Theorem undisturbed_executor_drains_pending (n : nat) (jobs : list BurnJob) (w : World) :
  undisturbed w ->
  pendingView (store w) = filed jobs ->
  NoDup (map jobId jobs) ->
  exists w' remaining,
    rounds n w
    = (Returned (map (fun j => (j, Completed)) (firstn n (sortJobs jobs))), w')
    /\ pendingView (store w') = filed remaining
    /\ sortJobs remaining = skipn n (sortJobs jobs)
    /\ completedJobs (exec w')
       = (completedJobs (exec w) ++ map jobId (firstn n (sortJobs jobs)))%list
    /\ failedJobs (exec w') = failedJobs (exec w)
    /\ ((List.length jobs <= n)%nat -> namesIn "pending" (store w') = []).
Proof.
  intros Hu Hview Hnd.
  destruct (rounds_calm n jobs w Hu Hview Hnd) as (w' & remaining & H & P & S & C & F).
  exists w', remaining. repeat split; try assumption.
  intros Hlen.
  assert (Hl : List.length (sortJobs jobs) = List.length jobs).
  { unfold sortJobs. rewrite comparePriority_byKey.
    symmetry. apply Permutation_length, sort_perm. }
  rewrite skipn_all2 in S by lia.
  apply sortJobs_nil in S. subst remaining.
  rewrite <- namesIn_pendingView, P. reflexivity.
Qed.

End DrainTheorems.

Section ServedFacts.
Import Js Json World Executor.

Local Opaque toString16 rollingHash stringify toISOString isoDate.

(** The store serves the uploads of the call, and the call returns. *)
Lemma updateJobStatus_served (id : string) (st : Manifest.JobStatus) (progress : Z)
    (err : option string) (w : World) (fs : list bool) :
  faults w = false :: false :: fs ->
  exists w',
    updateJobStatus id st progress err w = (Returned tt, w')
    /\ faults w' = fs /\ inboundFeed w' = inboundFeed w.
Proof.
  intros Hf. unfold updateJobStatus, sendCommand, uploadToOneDrive, nextFault, throw, ret, now, bind.
  rewrite Hf. cbn.
  eexists. split; [reflexivity|]. split; reflexivity.
Qed.

Lemma sendCommand_served (command : string) (params : option json) (w : World)
    (fs : list bool) :
  faults w = false :: fs ->
  exists s w',
    sendCommand command params w = (Returned s, w')
    /\ faults w' = fs /\ inboundFeed w' = inboundFeed w.
Proof.
  intros Hf. unfold sendCommand, uploadToOneDrive, nextFault, throw, ret, now, bind.
  rewrite createSignal_Some. cbn. rewrite Hf.
  eexists. eexists. split; [reflexivity|]. split; reflexivity.
Qed.

Lemma syncToOneDriveAfterBurn_served (id : string) (st : Manifest.JobStatus)
    (err : option string) (w : World) (fs : list bool) :
  faults w = false :: false :: fs ->
  exists w',
    syncToOneDriveAfterBurn id st err w = (Returned tt, w')
    /\ faults w' = fs /\ inboundFeed w' = inboundFeed w.
Proof.
  intros Hf. unfold syncToOneDriveAfterBurn, uploadToOneDrive, nextFault, throw, ret, now, bind.
  rewrite Hf. cbn.
  eexists. split; [reflexivity|]. split; reflexivity.
Qed.

Lemma receiveSignals_silent (w : World) :
  inboundFeed w = [] ->
  exists w',
    receiveSignals w = (Returned [], w')
    /\ faults w' = faults w /\ inboundFeed w' = [].
Proof.
  intros Hi. unfold receiveSignals. rewrite Hi. cbn.
  eexists. split; [reflexivity|]. split; reflexivity.
Qed.

Lemma burnLoop_served (job : BurnJob) (steps : list Z) :
  forall (w : World) (fs : list bool),
    faults w = (repeat false (2 * List.length steps) ++ fs)%list ->
    inboundFeed w = [] ->
    exists w',
      burnLoop job steps w = (Returned None, w')
      /\ faults w' = fs /\ inboundFeed w' = [].
Proof.
  induction steps as [|p rest IH]; intros w fs Hf Hi; cbn [burnLoop].
  - exists w. split; [reflexivity|]. split; assumption.
  - rewrite (bind_eq (sleep 1000) _ w (setClock (clock w + 1000) w) tt eq_refl).
    replace (2 * List.length (p :: rest))%nat
      with (S (S (2 * List.length rest))) in Hf by (cbn [List.length]; lia).
    cbn [repeat List.app] in Hf.
    destruct (updateJobStatus_served (jobId job) Manifest.burning p None
                (setClock (clock w + 1000) w) _ Hf) as (w1 & H1 & Hf1 & Hi1).
    rewrite (bind_eq _ _ _ _ _ H1).
    destruct (receiveSignals_silent w1 (eq_trans Hi1 Hi)) as (w2 & H2 & Hf2 & Hi2).
    rewrite (bind_eq _ _ _ _ _ H2). cbn [find].
    apply IH; [congruence | exact Hi2].
Qed.

End ServedFacts.

Section UndeletedTheorems.
Import Js Json World Executor.

Local Opaque toString16 rollingHash stringify toISOString isoDate.

(** X18.  A completed job can stay pending.  [deleteFromOneDrive] reports a
    failed request by returning [false], and [processJob] does not look at
    the answer: when the store serves the twenty-seven uploads of a burn and
    then fails the request that removes the descriptor, the job ends as
    completed and is listed as completed, and its descriptor is still under
    pending/ as it was, for the next poll to find. *)
Theorem completed_job_can_stay_pending (job : BurnJob) (w : World) (fs : list bool) :
  faults w = (repeat false 27 ++ true :: fs)%list ->
  inboundFeed w = [] ->
  exists w',
    processJob job w = (Returned Completed, w')
    /\ lookup (pendingPath (jobId job)) (store w')
       = lookup (pendingPath (jobId job)) (store w)
    /\ completedJobs (exec w') = (completedJobs (exec w) ++ [jobId job])%list
    /\ faults w' = fs.
Proof.
  intros Hf Hi. cbn [repeat List.app] in Hf.
  unfold processJob.
  rewrite (bind_eq (setCurrentJob (Some job)) _ w _ tt eq_refl).
  set (w0 := setExec _ w).
  assert (Hf0 : faults w0 = faults w) by reflexivity. rewrite <- Hf0 in Hf.
  assert (Hi0 : inboundFeed w0 = []) by exact Hi.
  destruct (updateJobStatus_served (jobId job) Manifest.queued 0 None w0 _ Hf)
    as (w1 & H1 & Hf1 & Hi1).
  destruct (sendCommand_served "burn" (Some (burnParams job)) w1 _ Hf1)
    as (s & w2 & H2 & Hf2 & Hi2).
  destruct (updateJobStatus_served (jobId job) Manifest.burning 10 None w2 _ Hf2)
    as (w3 & H3 & Hf3 & Hi3).
  destruct (burnLoop_served job progressSteps w3
              (false :: false :: false :: false :: false :: false :: true :: fs)
              Hf3 ltac:(congruence)) as (w4 & H4 & Hf4 & Hi4).
  destruct (updateJobStatus_served (jobId job) Manifest.verifying 95 None w4 _ Hf4)
    as (w5 & H5 & Hf5 & Hi5).
  assert (Hf6 : faults (setClock (clock w5 + 500) w5)
                = false :: false :: false :: false :: true :: fs) by exact Hf5.
  destruct (updateJobStatus_served (jobId job) Manifest.complete 100 None _ _ Hf6)
    as (w7 & H7 & Hf7 & Hi7).
  destruct (syncToOneDriveAfterBurn_served (jobId job) Manifest.complete None w7 _ Hf7)
    as (w8 & H8 & Hf8 & Hi8).
  assert (H9 : deleteFromOneDrive (pendingPath (jobId job)) w8
               = (Returned false, setFaults fs w8)).
  { unfold deleteFromOneDrive, nextFault, ret, bind. rewrite Hf8. reflexivity. }
  pose proof (keeps_updateJobStatus (jobId job) _ _ _ _ _ _ _ H1) as [P1 E1].
  pose proof (keeps_sendCommand (jobId job) _ _ _ _ _ H2) as [P2 E2].
  pose proof (keeps_updateJobStatus (jobId job) _ _ _ _ _ _ _ H3) as [P3 E3].
  pose proof (keeps_burnLoop (jobId job) _ _ _ _ _ H4) as [P4 E4].
  pose proof (keeps_updateJobStatus (jobId job) _ _ _ _ _ _ _ H5) as [P5 E5].
  pose proof (keeps_updateJobStatus (jobId job) _ _ _ _ _ _ _ H7) as [P7 E7].
  pose proof (keeps_syncToOneDriveAfterBurn (jobId job) _ _ _ _ _ _ H8) as [P8 E8].
  assert (Eb : processBody job w0
               = (Returned Completed,
                  setExec {| running := running (exec w8);
                             currentJob := currentJob (exec w8);
                             completedJobs := (completedJobs (exec w8) ++ [jobId job])%list;
                             failedJobs := failedJobs (exec w8) |} (setFaults fs w8))).
  { unfold processBody.
    rewrite (bind_eq _ _ _ _ _ H1), (bind_eq _ _ _ _ _ H2), (bind_eq _ _ _ _ _ H3),
      (bind_eq _ _ _ _ _ H4), (bind_eq _ _ _ _ _ H5).
    rewrite (bind_eq (sleep 500) _ w5 (setClock (clock w5 + 500) w5) tt eq_refl).
    rewrite (bind_eq _ _ _ _ _ H7), (bind_eq _ _ _ _ _ H8), (bind_eq _ _ _ _ _ H9).
    reflexivity. }
  erewrite bind_eq by (unfold tryCatch; rewrite Eb; reflexivity).
  eexists. split; [reflexivity|].
  cbn [setCurrentJob setExec setFaults bind ret store exec faults completedJobs].
  split; [|split; [|reflexivity]].
  - rewrite P8, P7. cbn [store setClock]. rewrite P5, P4, P3, P2, P1. reflexivity.
  - rewrite E8, E7. cbn [exec setClock]. rewrite E5, E4, E3, E2, E1. reflexivity.
Qed.

End UndeletedTheorems.

Section DrainInstances.
Import Js Json World Executor PendingFolder.

Lemma undisturbed_executor_drains_pending_witness :
  exists w' remaining,
    rounds 4 (worldWith fourJobs [] [])
    = (Returned (map (fun j => (j, Completed)) (firstn 4 (sortJobs fourJobs))), w')
    /\ pendingView (store w') = filed remaining
    /\ sortJobs remaining = skipn 4 (sortJobs fourJobs)
    /\ completedJobs (exec w')
       = (completedJobs (exec (worldWith fourJobs [] []))
          ++ map jobId (firstn 4 (sortJobs fourJobs)))%list
    /\ failedJobs (exec w') = failedJobs (exec (worldWith fourJobs [] []))
    /\ ((List.length fourJobs <= 4)%nat -> namesIn "pending" (store w') = []).
Proof.
  apply (undisturbed_executor_drains_pending 4 fourJobs (worldWith fourJobs [] [])).
  - split; reflexivity.
  - vm_compute. reflexivity.
  - simpl. repeat constructor; simpl; intuition discriminate.
Defined.

Lemma completed_job_can_stay_pending_witness :
  exists w',
    processJob (jobOf "J1" Manifest.normal 0) undeletedWorld = (Returned Completed, w')
    /\ lookup (pendingPath "J1") (store w')
       = lookup (pendingPath "J1") (store undeletedWorld)
    /\ completedJobs (exec w') = (completedJobs (exec undeletedWorld) ++ ["J1"])%list
    /\ faults w' = [].
Proof.
  apply (completed_job_can_stay_pending (jobOf "J1" Manifest.normal 0) undeletedWorld []).
  - reflexivity.
  - reflexivity.
Defined.

End DrainInstances.

(* ================================================================== *)
(** ** The retry bound of the automation script *)
(* ================================================================== *)

Section ScriptFacts.
Import Js Json Script.

Local Opaque toISOString isoDate.

Lemma keepsCounters_ret {A : Type} (a : A) : keepsCounters (ret a).
Proof. intros w o w' H. injection H as <- <-. split; reflexivity. Qed.

Lemma keepsCounters_throw {A : Type} (msg : string) : keepsCounters (@throw A msg).
Proof. intros w o w' H. injection H as <- <-. split; reflexivity. Qed.

Lemma keepsCounters_bind {A B : Type} (m : M A) (f : A -> M B) :
  keepsCounters m -> (forall a, keepsCounters (f a)) -> keepsCounters (bind m f).
Proof.
  intros Hm Hf w o w' H. unfold bind in H.
  destruct (m w) as [[a|msg] w1] eqn:E.
  - destruct (Hm _ _ _ E) as [P1 F1]. destruct (Hf a _ _ _ H) as [P2 F2].
    split; congruence.
  - injection H as <- <-. exact (Hm _ _ _ E).
Qed.

Lemma keepsCounters_tryCatch {A : Type} (m : M A) (h : string -> M A) :
  keepsCounters m -> (forall msg, keepsCounters (h msg)) -> keepsCounters (tryCatch m h).
Proof.
  intros Hm Hh w o w' H. unfold tryCatch in H.
  destruct (m w) as [[a|msg] w1] eqn:E.
  - injection H as <- <-. exact (Hm _ _ _ E).
  - destruct (Hm _ _ _ E) as [P1 F1]. destruct (Hh msg _ _ _ H) as [P2 F2].
    split; congruence.
Qed.

Lemma keepsCounters_now : keepsCounters now.
Proof. intros w o w' H. injection H as <- <-. split; reflexivity. Qed.

Lemma keepsCounters_sleep (ms : Z) : keepsCounters (sleep ms).
Proof. intros w o w' H. injection H as <- <-. split; reflexivity. Qed.

Lemma keepsCounters_nextFault : keepsCounters nextFault.
Proof.
  intros w o w' H. unfold nextFault in H.
  destruct (faults w); injection H as <- <-; split; reflexivity.
Qed.

Lemma keepsCounters_uploadToOneDrive (path : string) (b : file) :
  keepsCounters (uploadToOneDrive path b).
Proof.
  apply keepsCounters_bind; [apply keepsCounters_nextFault|].
  intros [|]; [apply keepsCounters_throw|].
  intros w o w' H. injection H as <- <-. split; reflexivity.
Qed.

Lemma keepsCounters_readFromOneDrive (path : string) :
  keepsCounters (readFromOneDrive path).
Proof.
  apply keepsCounters_bind; [apply keepsCounters_nextFault|].
  intros [|]; [apply keepsCounters_ret|].
  intros w o w' H. injection H as <- <-. split; reflexivity.
Qed.

Lemma keepsCounters_deleteFromOneDrive (path : string) :
  keepsCounters (deleteFromOneDrive path).
Proof.
  apply keepsCounters_bind; [apply keepsCounters_nextFault|].
  intros [|]; [apply keepsCounters_ret|].
  intros w o w' H. destruct (lookup path (store w)); injection H as <- <-;
    split; reflexivity.
Qed.

Lemma keepsCounters_listOneDriveFiles (folder : string) :
  keepsCounters (listOneDriveFiles folder).
Proof.
  apply keepsCounters_bind; [apply keepsCounters_nextFault|].
  intros [|]; [apply keepsCounters_throw|].
  intros w o w' H. injection H as <- <-. split; reflexivity.
Qed.

Lemma keepsCounters_readJobs (names : list string) :
  forall jobs, keepsCounters (readJobs names jobs).
Proof.
  induction names as [|name rest IH]; intros jobs; cbn [readJobs].
  - apply keepsCounters_ret.
  - destruct (negb (endsWith ".json" name)); [apply IH|].
    apply keepsCounters_bind; [apply keepsCounters_readFromOneDrive|].
    intros [c|]; [|apply IH].
    destruct (nonEmpty c); [|apply IH].
    destruct (parseJob c); apply IH.
Qed.

Lemma keepsCounters_fetchPendingJobs : keepsCounters fetchPendingJobs.
Proof.
  apply keepsCounters_tryCatch; [|intros; apply keepsCounters_ret].
  apply keepsCounters_bind; [apply keepsCounters_listOneDriveFiles|]. intros names.
  apply keepsCounters_bind; [apply keepsCounters_readJobs|]. intros jobs.
  apply keepsCounters_ret.
Qed.

Lemma keepsCounters_updateStatus (id st : string) (p : Z) (err : option string) :
  keepsCounters (updateStatus id st p err).
Proof.
  apply keepsCounters_bind; [apply keepsCounters_now|]. intros t.
  apply keepsCounters_uploadToOneDrive.
Qed.

Lemma keepsCounters_runPhases (id : string) (ps : list (string * Z)) :
  keepsCounters (runPhases id ps).
Proof.
  induction ps as [|[name p] rest IH]; cbn [runPhases]; [apply keepsCounters_ret|].
  apply keepsCounters_bind; [apply keepsCounters_updateStatus|]. intros _.
  apply keepsCounters_bind; [apply keepsCounters_sleep|]. intros _. exact IH.
Qed.

Lemma keepsCounters_executeBurn (job : BurnJob) : keepsCounters (executeBurn job).
Proof.
  apply keepsCounters_tryCatch.
  - apply keepsCounters_bind; [apply keepsCounters_updateStatus|]. intros _.
    apply keepsCounters_bind; [apply keepsCounters_runPhases|]. intros _.
    apply keepsCounters_bind; [apply keepsCounters_updateStatus|]. intros _.
    apply keepsCounters_ret.
  - intros msg.
    apply keepsCounters_bind; [apply keepsCounters_updateStatus|]. intros _.
    apply keepsCounters_ret.
Qed.

Lemma keepsCounters_syncCompletion (id : string) (ok : bool) (err : option string) :
  keepsCounters (syncCompletion id ok err).
Proof.
  apply keepsCounters_bind; [apply keepsCounters_now|]. intros t.
  apply keepsCounters_bind; [apply keepsCounters_uploadToOneDrive|]. intros _.
  apply keepsCounters_bind; [apply keepsCounters_now|]. intros t'.
  apply keepsCounters_bind; [apply keepsCounters_uploadToOneDrive|]. intros _.
  apply keepsCounters_bind; [apply keepsCounters_deleteFromOneDrive|]. intros _.
  apply keepsCounters_ret.
Qed.

Lemma budget_same (id : string) (w w' : State) :
  sameCounters w w' -> budget id w' = budget id w.
Proof.
  intros [P F]. unfold budget, processed, failures. rewrite P, F. reflexivity.
Qed.

Lemma budget_nonneg (id : string) (w : State) : 0 <= budget id w.
Proof. unfold budget. destruct (processed id w); lia. Qed.

Lemma orNumber_zero (n : Z) : Executor.orNumber n 0 = n.
Proof. unfold Executor.orNumber. destruct (n =? 0) eqn:E; [|reflexivity]. lia. Qed.

Lemma assoc_setCount_same (id : string) (n : Z) (m : list (string * Z)) :
  assoc id (setCount id n m) = Some n.
Proof.
  induction m as [|[k v] m IH]; simpl.
  - rewrite String.eqb_refl. reflexivity.
  - destruct (String.eqb k id) eqn:E; simpl; rewrite E; [reflexivity | exact IH].
Qed.

Lemma assoc_setCount_other (id other : string) (n : Z) (m : list (string * Z)) :
  id <> other -> assoc other (setCount id n m) = assoc other m.
Proof.
  intros Hne. induction m as [|[k v] m IH]; simpl.
  - destruct (String.eqb id other) eqn:E; [|reflexivity].
    apply String.eqb_eq in E. contradiction.
  - destruct (String.eqb k id) eqn:E; simpl.
    + apply String.eqb_eq in E. subst k.
      destruct (String.eqb id other) eqn:E'; [|reflexivity].
      apply String.eqb_eq in E'. contradiction.
    + rewrite IH. reflexivity.
Qed.


Lemma budget_eligible (w : State) (job : BurnJob) :
  eligible w job = true ->
  processed (jobId job) w = false
  /\ failures (jobId job) w < maxRetries
  /\ budget (jobId job) w = maxRetries - failures (jobId job) w.
Proof.
  unfold eligible, budget. intros H. apply andb_true_iff in H. destruct H as [Hp Hf].
  apply negb_true_iff in Hp. apply Z.ltb_lt in Hf. rewrite Hp.
  repeat split; try assumption. lia.
Qed.

Lemma budget_pushProcessed (job id : string) (w : State) :
  let w' := {| store := store w; faults := faults w; clock := clock w;
               processedJobs := (processedJobs w ++ [job])%list;
               failedJobs := failedJobs w |} in
  budget id w' <= budget id w
  /\ budget job w' = 0.
Proof.
  cbv zeta. unfold budget, processed, failures. cbn [processedJobs failedJobs].
  rewrite !existsb_app. cbn [existsb]. rewrite String.eqb_refl.
  rewrite orb_true_r. split; [|reflexivity].
  destruct (existsb (String.eqb id) (processedJobs w)); cbn [orb]; [lia|].
  destruct (String.eqb id job); cbn [orb]; lia.
Qed.

Lemma budget_setFailures (job id : string) (w : State) :
  let w' := {| store := store w; faults := faults w; clock := clock w;
               processedJobs := processedJobs w;
               failedJobs := setCount job (failures job w + 1) (failedJobs w) |} in
  failures job w' = failures job w + 1
  /\ (job <> id -> budget id w' = budget id w)
  /\ processed id w' = processed id w.
Proof.
  cbv zeta. unfold budget, processed, failures. cbn [processedJobs failedJobs].
  rewrite assoc_setCount_same, orNumber_zero.
  split; [reflexivity|]. split; [|reflexivity].
  intros Hne. rewrite (assoc_setCount_other _ _ _ _ Hne). reflexivity.
Qed.

(** One round never adds to a budget, and it takes one from the budget of
    the job it executes, however it ends. *)
Lemma processNextJob_budget (w w' : State) (o : outcome (option (BurnJob * bool)))
    (id : string) :
  processNextJob w = (o, w') ->
  budget id w' <= budget id w
  /\ forall r, o = Returned r -> budget id w' + charge id r <= budget id w.
Proof.
  unfold processNextJob, bind. intros H.
  destruct (fetchPendingJobs w) as [[jobs|msg] w1] eqn:Ef.
  2:{ injection H as <- <-.
      rewrite (budget_same id _ _ (keepsCounters_fetchPendingJobs _ _ _ Ef)).
      split; [lia | discriminate]. }
  pose proof (budget_same id _ _ (keepsCounters_fetchPendingJobs _ _ _ Ef)) as B1.
  pose proof (budget_nonneg id w1) as N1.
  destruct (filter (eligible w1) jobs) as [|job rest] eqn:Epending.
  { injection H as <- <-. split; [lia|]. intros r Hr. injection Hr as <-. cbn. lia. }
  assert (Hel : eligible w1 job = true).
  { assert (Hin : In job (filter (eligible w1) jobs)) by (rewrite Epending; left; reflexivity).
    apply filter_In in Hin. apply Hin. }
  destruct (budget_eligible _ _ Hel) as (Hproc & Hfail & Hbud).
  destruct (executeBurn job w1) as [[ok|msg] w2] eqn:Eb.
  2:{ injection H as <- <-.
      rewrite (budget_same id _ _ (keepsCounters_executeBurn job _ _ _ Eb)).
      split; [lia | discriminate]. }
  pose proof (keepsCounters_executeBurn job _ _ _ Eb) as S2.
  pose proof (budget_same id _ _ S2) as B2.
  pose proof (budget_same (jobId job) _ _ S2) as B2'.
  assert (F2 : failures (jobId job) w2 = failures (jobId job) w1).
  { unfold failures. rewrite (proj2 S2). reflexivity. }
  assert (Main : forall w3 : State,
    (if ok
     then budget id w3 <= budget id w2 /\ budget (jobId job) w3 = 0
     else failures (jobId job) w3 = failures (jobId job) w2 + 1
          /\ (jobId job <> id -> budget id w3 = budget id w2)
          /\ processed id w3 = processed id w2) ->
    budget id w3 + (if String.eqb (jobId job) id then 1 else 0) <= budget id w).
  { intros w3 H3. destruct (String.eqb (jobId job) id) eqn:Eid.
    - apply String.eqb_eq in Eid. subst id. destruct ok.
      + destruct H3 as [_ H0]. lia.
      + destruct H3 as (Hf3 & _ & Hp3).
        assert (processed (jobId job) w2 = false) as Hp2
          by (unfold processed; rewrite (proj1 S2); exact Hproc).
        unfold budget at 1. rewrite Hp3, Hp2, Hf3. lia.
    - apply String.eqb_neq in Eid. destruct ok.
      + destruct H3 as [Hle _]. lia.
      + destruct H3 as (_ & Hsame & _). rewrite (Hsame Eid). lia. }
  destruct ok.
  - cbn [pushProcessed] in H.
    match type of H with
    | context [syncCompletion ?a ?b ?c ?w3] =>
        pose proof (Main w3 (budget_pushProcessed (jobId job) id w2)) as M;
        destruct (syncCompletion a b c w3) as [[u|msg] w4] eqn:Es
    end;
      pose proof (budget_same id _ _ (keepsCounters_syncCompletion _ _ _ _ _ _ Es)) as B4;
      injection H as <- <-;
      (split; [destruct (String.eqb (jobId job) id); lia|]);
      intros r Hr; inversion Hr; subst r; cbn [charge]; lia.
  - cbn [setFailures] in H.
    match type of H with
    | context [setCount _ _ _] =>
        pose proof (Main _ (budget_setFailures (jobId job) id w2)) as M
    end.
    cbv zeta in M.
    destruct (failures (jobId job) w2 + 1 >=? maxRetries).
    + match type of H with
      | context [syncCompletion ?a ?b ?c ?w3] =>
          destruct (syncCompletion a b c w3) as [[u|msg] w4] eqn:Es
      end;
        pose proof (budget_same id _ _ (keepsCounters_syncCompletion _ _ _ _ _ _ Es)) as B4;
        injection H as <- <-;
        (split; [destruct (String.eqb (jobId job) id); lia|]);
        intros r Hr; inversion Hr; subst r; cbn [charge]; lia.
    + cbn [ret] in H. injection H as <- <-.
      split; [destruct (String.eqb (jobId job) id); lia|].
      intros r Hr. injection Hr as <-. cbn [charge]. lia.
Qed.

Lemma executions_cons (id : string) (x : BurnJob * bool) (run : list (BurnJob * bool)) :
  executions id (x :: run) = charge id (Some x) + executions id run.
Proof.
  unfold executions, charge. destruct x as [job ok]. cbn [filter fst].
  destruct (String.eqb (jobId job) id); cbn [List.length]; lia.
Qed.

Lemma rounds_budget (n : nat) (id : string) :
  forall w w' run,
    rounds n w = (Returned run, w') ->
    executions id run + budget id w' <= budget id w.
Proof.
  induction n as [|n IH]; intros w w' run H; cbn [rounds] in H.
  - injection H as <- <-. unfold executions. cbn. lia.
  - unfold bind in H.
    destruct (processNextJob w) as [[r|msg] w1] eqn:Ep; [|discriminate].
    destruct (processNextJob_budget _ _ _ id Ep) as [_ Hstep].
    specialize (Hstep r eq_refl).
    cbn [sleep] in H.
    match type of H with
    | context [rounds n ?w2] =>
        destruct (rounds n w2) as [[rs|msg] w3] eqn:Er; [|discriminate];
        pose proof (IH _ _ _ Er) as Hrest;
        assert (B2 : budget id w2 = budget id w1) by reflexivity
    end.
    cbn [ret] in H. injection H as <- <-.
    destruct r as [x|].
    + rewrite executions_cons. lia.
    + cbn [charge] in Hstep. lia.
Qed.

End ScriptFacts.

Section ScriptTheorems.
Import Js Json Script.

(** X21.  The script keeps to its retry bound.  In a run of the loop each round
    takes one from the budget of the job it executes and adds to no budget;
    the budget of a job is the number of failures it has left up to
    [maxRetries], and nothing once the job is listed as processed.  So a
    script that starts with its two variables empty executes no job more than
    three times, whatever the store does. *)
Theorem automation_retry_bound (n : nat) (w w' : State) (run : list (BurnJob * bool))
    (id : string) :
  rounds n w = (Returned run, w') ->
  executions id run + budget id w' <= budget id w
  /\ 0 <= budget id w'
  /\ (processedJobs w = [] -> failedJobs w = [] -> executions id run <= maxRetries).
Proof.
  intros H. pose proof (rounds_budget n id _ _ _ H) as Hb.
  pose proof (budget_nonneg id w') as Hn.
  split; [exact Hb|]. split; [exact Hn|].
  intros Hp Hf.
  assert (budget id w = maxRetries).
  { unfold budget, processed, failures. rewrite Hp, Hf. reflexivity. }
  lia.
Qed.

End ScriptTheorems.

Section ScriptStoreFacts.
Import Js Json Script.

Local Opaque toISOString isoDate.

Lemma script_bind_Returned {A B : Type} (m : M A) (f : A -> M B) (w w' : State) (b : B) :
  bind m f w = (Returned b, w') ->
  exists a w1, m w = (Returned a, w1) /\ f a w1 = (Returned b, w').
Proof.
  unfold bind. destruct (m w) as [[a|msg] w1]; intros H; [|discriminate].
  exists a, w1. split; [reflexivity | exact H].
Qed.

Lemma script_lookup_put_same (path : string) (b : file) (s : list (string * file)) :
  lookup path (put path b s) = Some b.
Proof.
  unfold lookup. induction s as [|[k v] s IH]; simpl.
  - rewrite String.eqb_refl. reflexivity.
  - destruct (String.eqb k path) eqn:E; simpl; rewrite E; [reflexivity | exact IH].
Qed.

Lemma script_lookup_put_other (path other : string) (b : file) (s : list (string * file)) :
  path <> other -> lookup other (put path b s) = lookup other s.
Proof.
  intros Hne. unfold lookup. induction s as [|[k v] s IH]; simpl.
  - destruct (String.eqb path other) eqn:E; [|reflexivity].
    apply String.eqb_eq in E. contradiction.
  - destruct (String.eqb k path) eqn:E; simpl.
    + apply String.eqb_eq in E. subst k.
      destruct (String.eqb path other) eqn:E'; [|reflexivity].
      apply String.eqb_eq in E'. contradiction.
    + rewrite IH. reflexivity.
Qed.

Lemma script_lookup_remove_other (path other : string) (s : list (string * file)) :
  path <> other -> lookup other (remove path s) = lookup other s.
Proof.
  intros Hne. unfold lookup. induction s as [|[k v] s IH]; simpl; [reflexivity|].
  destruct (String.eqb k path) eqn:E; simpl.
  - apply String.eqb_eq in E. subst k.
    destruct (String.eqb path other) eqn:E'; [|reflexivity].
    apply String.eqb_eq in E'. contradiction.
  - rewrite IH. reflexivity.
Qed.

Lemma readsOnly_touchesOnly {A : Type} (path : string) (m : M A) :
  readsOnly m -> touchesOnly path m.
Proof. intros H w o w' E other _. rewrite (H _ _ _ E). reflexivity. Qed.

Lemma readsOnly_ret {A : Type} (a : A) : readsOnly (ret a).
Proof. intros w o w' H. injection H as <- <-. reflexivity. Qed.

Lemma readsOnly_throw {A : Type} (msg : string) : readsOnly (@throw A msg).
Proof. intros w o w' H. injection H as <- <-. reflexivity. Qed.

Lemma readsOnly_bind {A B : Type} (m : M A) (f : A -> M B) :
  readsOnly m -> (forall a, readsOnly (f a)) -> readsOnly (bind m f).
Proof.
  intros Hm Hf w o w' H. unfold bind in H.
  destruct (m w) as [[a|msg] w1] eqn:E.
  - rewrite (Hf a _ _ _ H). exact (Hm _ _ _ E).
  - injection H as <- <-. exact (Hm _ _ _ E).
Qed.

Lemma readsOnly_tryCatch {A : Type} (m : M A) (h : string -> M A) :
  readsOnly m -> (forall msg, readsOnly (h msg)) -> readsOnly (tryCatch m h).
Proof.
  intros Hm Hh w o w' H. unfold tryCatch in H.
  destruct (m w) as [[a|msg] w1] eqn:E.
  - injection H as <- <-. exact (Hm _ _ _ E).
  - rewrite (Hh msg _ _ _ H). exact (Hm _ _ _ E).
Qed.

Lemma readsOnly_nextFault : readsOnly nextFault.
Proof.
  intros w o w' H. unfold nextFault in H.
  destruct (faults w); injection H as <- <-; reflexivity.
Qed.

Lemma readsOnly_readFromOneDrive (path : string) : readsOnly (readFromOneDrive path).
Proof.
  apply readsOnly_bind; [apply readsOnly_nextFault|].
  intros [|]; [apply readsOnly_ret|].
  intros w o w' H. injection H as <- <-. reflexivity.
Qed.

Lemma readsOnly_listOneDriveFiles (folder : string) : readsOnly (listOneDriveFiles folder).
Proof.
  apply readsOnly_bind; [apply readsOnly_nextFault|].
  intros [|]; [apply readsOnly_throw|].
  intros w o w' H. injection H as <- <-. reflexivity.
Qed.

Lemma readsOnly_readJobs (names : list string) :
  forall jobs, readsOnly (readJobs names jobs).
Proof.
  induction names as [|name rest IH]; intros jobs; cbn [readJobs].
  - apply readsOnly_ret.
  - destruct (negb (endsWith ".json" name)); [apply IH|].
    apply readsOnly_bind; [apply readsOnly_readFromOneDrive|].
    intros [c|]; [|apply IH].
    destruct (nonEmpty c); [|apply IH].
    destruct (parseJob c); apply IH.
Qed.

Lemma readsOnly_fetchPendingJobs : readsOnly fetchPendingJobs.
Proof.
  apply readsOnly_tryCatch; [|intros; apply readsOnly_ret].
  apply readsOnly_bind; [apply readsOnly_listOneDriveFiles|]. intros names.
  apply readsOnly_bind; [apply readsOnly_readJobs|]. intros jobs.
  apply readsOnly_ret.
Qed.

Lemma touchesOnly_bind {A B : Type} (path : string) (m : M A) (f : A -> M B) :
  touchesOnly path m -> (forall a, touchesOnly path (f a)) -> touchesOnly path (bind m f).
Proof.
  intros Hm Hf w o w' H other Hne. unfold bind in H.
  destruct (m w) as [[a|msg] w1] eqn:E.
  - rewrite (Hf a _ _ _ H other Hne). exact (Hm _ _ _ E other Hne).
  - injection H as <- <-. exact (Hm _ _ _ E other Hne).
Qed.

Lemma touchesOnly_tryCatch {A : Type} (path : string) (m : M A) (h : string -> M A) :
  touchesOnly path m -> (forall msg, touchesOnly path (h msg)) ->
  touchesOnly path (tryCatch m h).
Proof.
  intros Hm Hh w o w' H other Hne. unfold tryCatch in H.
  destruct (m w) as [[a|msg] w1] eqn:E.
  - injection H as <- <-. exact (Hm _ _ _ E other Hne).
  - rewrite (Hh msg _ _ _ H other Hne). exact (Hm _ _ _ E other Hne).
Qed.

Lemma touchesOnly_uploadToOneDrive (path : string) (b : file) :
  touchesOnly path (uploadToOneDrive path b).
Proof.
  intros w o w' H other Hne. unfold uploadToOneDrive, bind, nextFault, throw in H.
  destruct (faults w) as [|[|] fs]; injection H as <- <-; cbn [store setStore setFaults];
    try reflexivity; apply script_lookup_put_other, Hne.
Qed.

Lemma touchesOnly_updateStatus (id st : string) (p : Z) (err : option string) :
  touchesOnly ("status/" ++ id ++ ".json") (updateStatus id st p err).
Proof.
  apply touchesOnly_bind.
  - apply readsOnly_touchesOnly. intros w o w' H. injection H as <- <-. reflexivity.
  - intros t. apply touchesOnly_uploadToOneDrive.
Qed.

Lemma touchesOnly_sleep (path : string) (ms : Z) : touchesOnly path (sleep ms).
Proof. intros w o w' H other _. injection H as <- <-. reflexivity. Qed.

Lemma touchesOnly_runPhases (id : string) (ps : list (string * Z)) :
  touchesOnly ("status/" ++ id ++ ".json") (runPhases id ps).
Proof.
  induction ps as [|[name p] rest IH]; cbn [runPhases].
  - apply readsOnly_touchesOnly, readsOnly_ret.
  - apply touchesOnly_bind; [apply touchesOnly_updateStatus|]. intros _.
    apply touchesOnly_bind; [apply touchesOnly_sleep|]. intros _. exact IH.
Qed.

Lemma touchesOnly_executeBurn (job : BurnJob) :
  touchesOnly ("status/" ++ jobId job ++ ".json") (executeBurn job).
Proof.
  apply touchesOnly_tryCatch.
  - apply touchesOnly_bind; [apply touchesOnly_updateStatus|]. intros _.
    apply touchesOnly_bind; [apply touchesOnly_runPhases|]. intros _.
    apply touchesOnly_bind; [apply touchesOnly_updateStatus|]. intros _.
    apply readsOnly_touchesOnly, readsOnly_ret.
  - intros msg.
    apply touchesOnly_bind; [apply touchesOnly_updateStatus|]. intros _.
    apply readsOnly_touchesOnly, readsOnly_ret.
Qed.

Lemma script_upload_Returned (path : string) (b : file) (w w' : State) :
  uploadToOneDrive path b w = (Returned tt, w') ->
  store w' = put path b (store w) /\ clock w' = clock w.
Proof.
  unfold uploadToOneDrive, bind, nextFault, throw.
  destruct (faults w) as [|[|] fs]; intros H; try discriminate;
    injection H as <-; split; reflexivity.
Qed.

Lemma script_delete_Returned (path : string) (w w' : State) (ok : bool) :
  deleteFromOneDrive path w = (Returned ok, w') ->
  clock w' = clock w
  /\ forall other, path <> other -> lookup other (store w') = lookup other (store w).
Proof.
  unfold deleteFromOneDrive, bind, nextFault, ret.
  destruct (faults w) as [|[|] fs]; cbn [setFaults store faults];
    try (destruct (lookup path (store w)));
    intros H; injection H as <- <-; cbn [store setStore setFaults clock];
    (split; [reflexivity|]); intros other Hne;
    try reflexivity; apply script_lookup_remove_other, Hne.
Qed.

(** What a call of [syncCompletion] that returns has written. *)
Lemma syncCompletion_Returned (id : string) (ok : bool) (err : option string)
    (w w' : State) :
  syncCompletion id ok err w = (Returned tt, w') ->
  let record := {| cr_jobId := id;
                   cr_status := if ok then "complete" else "failed";
                   cr_completedAt := toISOString (clock w');
                   cr_error := err;
                   cr_device := "HP DVD557s" |} in
  lookup ("completed/" ++ id ++ ".json") (store w') = Some (FCompletion record)
  /\ lookup ("archive/" ++ isoDate (clock w') ++ "/" ++ id ++ ".json") (store w')
     = Some (FCompletion record).
Proof.
  unfold syncCompletion. intros H. cbv zeta.
  apply script_bind_Returned in H. destruct H as (t & w1 & Ht & H).
  unfold now in Ht. injection Ht as <- <-.
  apply script_bind_Returned in H. destruct H as ([] & w2 & H2 & H).
  apply script_bind_Returned in H. destruct H as (t' & w3 & H3 & H).
  unfold now in H3. injection H3 as <- <-.
  apply script_bind_Returned in H. destruct H as ([] & w4 & H4 & H).
  apply script_bind_Returned in H. destruct H as (okd & w5 & H5 & H).
  injection H as <-.
  apply script_upload_Returned in H2, H4.
  destruct H2 as [S2 C2]. destruct H4 as [S4 C4].
  apply script_delete_Returned in H5. destruct H5 as [C5 S5].
  rewrite C5, C4, C2.
  split.
  - rewrite S5 by discriminate. rewrite S4, script_lookup_put_other by discriminate.
    rewrite S2. apply script_lookup_put_same.
  - rewrite S5 by discriminate. rewrite S4, C2. apply script_lookup_put_same.
Qed.

End ScriptStoreFacts.

Section ScriptStoreTheorems.
Import Js Json Script.

Local Opaque toISOString isoDate.

(** X22.  A failed burn is counted, and what follows depends on the count.
    Below [maxRetries] the script writes no completion record and leaves the
    descriptor under pending/, so a later round executes the job again; at
    [maxRetries] it writes the completion record with status [failed] and
    the error [Max retries exceeded] to completed/ and to archive/, and the
    job has no budget left. *)
Theorem failed_job_is_retried_then_archived (w w' : State) (job : BurnJob) :
  processNextJob w = (Returned (Some (job, false)), w') ->
  failures (jobId job) w' = failures (jobId job) w + 1
  /\ failures (jobId job) w' <= maxRetries
  /\ (failures (jobId job) w' < maxRetries ->
        lookup ("pending/" ++ jobId job ++ ".json") (store w')
        = lookup ("pending/" ++ jobId job ++ ".json") (store w)
        /\ lookup ("completed/" ++ jobId job ++ ".json") (store w')
           = lookup ("completed/" ++ jobId job ++ ".json") (store w)
        /\ 1 <= budget (jobId job) w')
  /\ (failures (jobId job) w' = maxRetries ->
        let record := {| cr_jobId := jobId job; cr_status := "failed";
                         cr_completedAt := toISOString (clock w');
                         cr_error := Some "Max retries exceeded";
                         cr_device := "HP DVD557s" |} in
        lookup ("completed/" ++ jobId job ++ ".json") (store w')
        = Some (FCompletion record)
        /\ lookup ("archive/" ++ isoDate (clock w') ++ "/" ++ jobId job ++ ".json")
             (store w')
           = Some (FCompletion record)
        /\ budget (jobId job) w' = 0).
Proof.
  unfold processNextJob. intros H.
  apply script_bind_Returned in H. destruct H as (jobs & w1 & Hf & H).
  apply script_bind_Returned in H. destruct H as (pending & w1' & Hp & H).
  injection Hp as <- <-.
  destruct (filter (eligible w1) jobs) as [|job' rest] eqn:Epending; [discriminate|].
  assert (Hel : eligible w1 job' = true).
  { assert (Hin : In job' (filter (eligible w1) jobs)) by (rewrite Epending; left; reflexivity).
    apply filter_In in Hin. apply Hin. }
  apply script_bind_Returned in H. destruct H as (ok & w2 & Hb & H).
  apply script_bind_Returned in H. destruct H as ([] & w4 & Hrest & H).
  injection H as -> -> <-.
  pose proof (keepsCounters_fetchPendingJobs _ _ _ Hf) as K1.
  pose proof (readsOnly_fetchPendingJobs _ _ _ Hf) as S1.
  pose proof (keepsCounters_executeBurn _ _ _ _ Hb) as K2.
  pose proof (touchesOnly_executeBurn _ _ _ _ Hb) as S2.
  destruct (budget_eligible _ _ Hel) as (Hproc & Hfail & _).
  assert (F1 : failures (jobId job) w1 = failures (jobId job) w)
    by (unfold failures; rewrite (proj2 K1); reflexivity).
  assert (F2 : failures (jobId job) w2 = failures (jobId job) w1)
    by (unfold failures; rewrite (proj2 K2); reflexivity).
  assert (P2 : processed (jobId job) w2 = false)
    by (unfold processed; rewrite (proj1 K2); exact Hproc).
  apply script_bind_Returned in Hrest. destruct Hrest as (retries & w2' & Hr & Hrest).
  injection Hr as <- <-.
  apply script_bind_Returned in Hrest. destruct Hrest as ([] & w3 & H3 & Hrest).
  unfold setFailures in H3. injection H3 as <-.
  destruct (budget_setFailures (jobId job) (jobId job) w2) as (F3 & _ & P3).
  cbv zeta in F3, P3.
  match type of Hrest with
  | _ ?w3 = _ => set (w3' := w3) in *
  end.
  assert (Hstore3 : store w3' = store w2) by reflexivity.
  assert (after : failures (jobId job) w4 = failures (jobId job) w3'
                  /\ processed (jobId job) w4 = processed (jobId job) w3').
  { destruct (failures (jobId job) w2 + 1 >=? maxRetries).
    - pose proof (keepsCounters_syncCompletion _ _ _ _ _ _ Hrest) as [Kp Kf].
      unfold failures, processed. rewrite Kp, Kf. split; reflexivity.
    - injection Hrest as <-. split; reflexivity. }
  destruct after as [F4 P4].
  assert (Fw' : failures (jobId job) w4 = failures (jobId job) w + 1) by congruence.
  split; [exact Fw'|]. split; [lia|]. split.
  - intros Hlt.
    assert (E : (failures (jobId job) w2 + 1 >=? maxRetries) = false).
    { rewrite Z.geb_leb. apply Z.leb_gt. lia. }
    rewrite E in Hrest. injection Hrest as <-.
    rewrite Hstore3.
    rewrite (S2 ("pending/" ++ jobId job ++ ".json")) by discriminate.
    rewrite (S2 ("completed/" ++ jobId job ++ ".json")) by discriminate.
    rewrite S1.
    split; [reflexivity|]. split; [reflexivity|].
    unfold budget. rewrite P3, P2, F3. lia.
  - intros Heq. cbv zeta.
    assert (E : (failures (jobId job) w2 + 1 >=? maxRetries) = true).
    { rewrite Z.geb_leb. apply Z.leb_le. lia. }
    rewrite E in Hrest.
    destruct (syncCompletion_Returned _ _ _ _ _ Hrest) as [Hc Ha].
    split; [exact Hc|]. split; [exact Ha|].
    unfold budget. rewrite P4, P3, P2, Heq. reflexivity.
Qed.

(** X23.  The loop of the script is not protected.  When the upload of the
    first status of a burn fails and the upload of the [failed] status in the
    [catch] block fails too, [executeBurn] throws, and nothing in
    [processNextJob] or in the loop catches it: the run ends with the error,
    and the failure has not been counted. *)
Theorem automation_loop_is_unprotected (n : nat) (w w1 : State)
    (jobs rest : list BurnJob) (job : BurnJob) (fs : list bool) :
  fetchPendingJobs w = (Returned jobs, w1) ->
  filter (eligible w1) jobs = job :: rest ->
  faults w1 = true :: true :: fs ->
  exists w',
    rounds (S n) w = (Thrown "OneDrive request failed", w')
    /\ failedJobs w' = failedJobs w
    /\ processedJobs w' = processedJobs w.
Proof.
  intros Hf Hp Hfaults.
  pose proof (keepsCounters_fetchPendingJobs _ _ _ Hf) as [Kp Kf].
  assert (Hb : executeBurn job w1 = (Thrown "OneDrive request failed", setFaults fs w1)).
  { unfold executeBurn, tryCatch, updateStatus, uploadToOneDrive, nextFault, throw, now, bind.
    rewrite Hfaults. reflexivity. }
  assert (Hn : processNextJob w = (Thrown "OneDrive request failed", setFaults fs w1)).
  { unfold processNextJob, bind. rewrite Hf, Hp, Hb. reflexivity. }
  exists (setFaults fs w1). cbn [rounds]. unfold bind at 1. rewrite Hn.
  split; [reflexivity|]. split; assumption.
Qed.

End ScriptStoreTheorems.

Section ScriptInstances.
Import Js Json Script.

Lemma automation_retry_bound_witness :
  executions "J1" [(scriptJob, false); (scriptJob, false); (scriptJob, false)]
  + budget "J1" (snd (rounds 5 (scriptStart (failedRound ++ failedRound ++ failedRound))))
  <= budget "J1" (scriptStart (failedRound ++ failedRound ++ failedRound))
  /\ 0 <= budget "J1" (snd (rounds 5 (scriptStart (failedRound ++ failedRound ++ failedRound))))
  /\ (processedJobs (scriptStart (failedRound ++ failedRound ++ failedRound)) = [] ->
      failedJobs (scriptStart (failedRound ++ failedRound ++ failedRound)) = [] ->
      executions "J1" [(scriptJob, false); (scriptJob, false); (scriptJob, false)]
      <= maxRetries).
Proof.
  apply (automation_retry_bound 5 (scriptStart (failedRound ++ failedRound ++ failedRound))).
  rewrite (surjective_pairing (rounds _ _)) at 1.
  apply f_equal2; [vm_compute; reflexivity | reflexivity].
Defined.

Lemma failed_job_is_retried_then_archived_witness :
  failures "J1" (snd (processNextJob (scriptStart failedRound)))
  = failures "J1" (scriptStart failedRound) + 1
  /\ lookup "pending/J1.json" (store (snd (processNextJob (scriptStart failedRound))))
     = Some (FJob scriptJob).
Proof.
  assert (E : processNextJob (scriptStart failedRound)
              = (Returned (Some (scriptJob, false)),
                 snd (processNextJob (scriptStart failedRound)))).
  { rewrite (surjective_pairing (processNextJob _)) at 1.
    apply f_equal2; [vm_compute; reflexivity | reflexivity]. }
  destruct (failed_job_is_retried_then_archived _ _ _ E) as (Hf & _ & Hretry & _).
  split; [exact Hf|].
  destruct Hretry as (Hp & _ & _).
  - rewrite Hf. vm_compute. reflexivity.
  - exact Hp.
Defined.

Lemma automation_loop_is_unprotected_witness :
  exists w',
    rounds 3 (scriptStart [false; false; true; true])
    = (Thrown "OneDrive request failed", w')
    /\ failedJobs w' = failedJobs (scriptStart [false; false; true; true])
    /\ processedJobs w' = processedJobs (scriptStart [false; false; true; true]).
Proof.
  apply (automation_loop_is_unprotected 2 (scriptStart [false; false; true; true])
           (snd (fetchPendingJobs (scriptStart [false; false; true; true])))
           [scriptJob] [] scriptJob []).
  - vm_compute. reflexivity.
  - vm_compute. reflexivity.
  - reflexivity.
Defined.

End ScriptInstances.

(* ================================================================== *)
(** ** The audit log and the command history *)
(* ================================================================== *)

Section LogFacts.
Import Js Json Admin.

Lemma sliceFrom_last {A : Type} (n : nat) (xs : list A) :
  sliceFrom (- Z.of_nat (S n)) xs = skipn (List.length xs - S n) xs.
Proof.
  unfold sliceFrom. cbv zeta.
  assert ((- Z.of_nat (S n) <? 0) = true) as -> by (apply Z.ltb_lt; lia).
  f_equal. lia.
Qed.

Lemma skipn_skipn_last {A : Type} (n : nat) (xs : list A) (x : A) :
  skipn (List.length (skipn (List.length xs - S n) xs ++ [x]) - S n)
    (skipn (List.length xs - S n) xs ++ [x])
  = skipn (List.length (xs ++ [x]) - S n) (xs ++ [x]).
Proof.
  rewrite !length_app, length_skipn. cbn [List.length].
  destruct (Nat.le_gt_cases (List.length xs) n) as [H|H].
  - replace (List.length xs - S n)%nat with 0%nat by lia. cbn [skipn].
    rewrite Nat.sub_0_r. reflexivity.
  - set (k := (List.length xs - S n)%nat).
    replace (List.length xs - k + 1 - S n)%nat with 1%nat by lia.
    replace (List.length xs + 1 - S n)%nat with (1 + k)%nat by lia.
    rewrite !skipn_app, length_skipn.
    replace (1 - (List.length xs - k))%nat with 0%nat by lia.
    replace (1 + k - List.length xs)%nat with 0%nat by lia.
    rewrite skipn_skipn. reflexivity.
Qed.

(** Trimming after every entry is trimming once at the end. *)
Lemma sliceFrom_step {A : Type} (n : nat) (xs : list A) (x : A) :
  sliceFrom (- Z.of_nat (S n)) (sliceFrom (- Z.of_nat (S n)) xs ++ [x])
  = sliceFrom (- Z.of_nat (S n)) (xs ++ [x]).
Proof. rewrite !sliceFrom_last. apply skipn_skipn_last. Qed.

Lemma sliceFrom_idem {A : Type} (n : nat) (xs : list A) :
  sliceFrom (- Z.of_nat (S n)) (sliceFrom (- Z.of_nat (S n)) xs)
  = sliceFrom (- Z.of_nat (S n)) xs.
Proof.
  rewrite !sliceFrom_last, length_skipn, skipn_skipn. f_equal. lia.
Qed.

Lemma sliceFrom_length {A : Type} (n : nat) (xs : list A) :
  List.length (sliceFrom (- Z.of_nat (S n)) xs) = Nat.min (S n) (List.length xs).
Proof. rewrite sliceFrom_last, length_skipn. lia. Qed.

Lemma sliceFrom_suffix {A : Type} (start : Z) (xs : list A) :
  exists dropped, xs = (dropped ++ sliceFrom start xs)%list.
Proof.
  unfold sliceFrom. cbv zeta. eexists. symmetry. apply firstn_skipn.
Qed.

Lemma sliceFrom_app_left {A : Type} (n : nat) (xs ys : list A) :
  sliceFrom (- Z.of_nat (S n)) (sliceFrom (- Z.of_nat (S n)) xs ++ ys)
  = sliceFrom (- Z.of_nat (S n)) (xs ++ ys).
Proof.
  induction ys as [|y l IH] using rev_ind.
  - rewrite !app_nil_r. apply sliceFrom_idem.
  - rewrite !app_assoc.
    rewrite <- (sliceFrom_step n (sliceFrom (- Z.of_nat (S n)) xs ++ l)).
    rewrite IH. apply sliceFrom_step.
Qed.

(** A write that returns has left the entries it was given. *)
Lemma writeJsonFile_Returned (entries : list AuditEntry) (fs fs' : Files) :
  writeJsonFile entries fs = (Returned tt, fs') -> audit fs' = Some entries.
Proof.
  unfold writeJsonFile, nextWrite.
  destruct (writeFaults fs) as [|[[m|m]|] rest]; intros H; try discriminate;
    injection H as <-; reflexivity.
Qed.

Lemma logAll_entries (calls : list (AuditInput * Z)) :
  forall fs fs',
    logAll calls fs = (Returned tt, fs') ->
    sliceFrom (-500) (readAudit fs')
    = sliceFrom (-500)
        (readAudit fs ++ map (fun c => stamp (fst c) (snd c)) calls)%list.
Proof.
  induction calls as [|[entry now] rest IH]; intros fs fs' H; cbn [logAll] in H.
  - injection H as <-. cbn [map]. rewrite app_nil_r. reflexivity.
  - destruct (logAudit entry now fs) as [[[]|msg] fs1] eqn:E; [|discriminate].
    unfold logAudit in E. cbv zeta in E. apply writeJsonFile_Returned in E.
    apply IH in H. rewrite H. unfold readAudit at 1. rewrite E. cbn [map fst snd].
    change (-500) with (- Z.of_nat 500).
    rewrite sliceFrom_app_left, <- app_assoc. reflexivity.
Qed.

Lemma logAll_trimmed (calls : list (AuditInput * Z)) :
  forall fs fs',
    calls <> [] ->
    logAll calls fs = (Returned tt, fs') ->
    sliceFrom (-500) (readAudit fs') = readAudit fs'.
Proof.
  induction calls as [|[entry now] rest IH]; intros fs fs' Hne H; [congruence|].
  cbn [logAll] in H.
  destruct (logAudit entry now fs) as [[[]|msg] fs1] eqn:E; [|discriminate].
  unfold logAudit in E. cbv zeta in E. apply writeJsonFile_Returned in E.
  destruct rest as [|c rest].
  - cbn [logAll] in H. injection H as <-. unfold readAudit. rewrite E.
    change (-500) with (- Z.of_nat 500). apply sliceFrom_idem.
  - apply IH in H; [exact H | discriminate].
Qed.

End LogFacts.

Section LogTheorems.
Import Js Json Admin.

(** X24.  The audit log keeps the last 500 entries.  After a series of
    [logAudit] calls that all succeed, the file holds the last 500 of the
    entries it held before followed by the new ones, in order, each stamped
    with its clock reading: trimming after every call loses nothing that
    trimming once at the end would keep.  The newest entry is always
    there. *)
Theorem audit_log_keeps_last_500 (first : AuditInput * Z) (more : list (AuditInput * Z))
    (fs fs' : Files) :
  logAll (first :: more) fs = (Returned tt, fs') ->
  let logged := map (fun c => stamp (fst c) (snd c)) (first :: more) in
  readAudit fs' = sliceFrom (-500) (readAudit fs ++ logged)%list
  /\ (List.length (readAudit fs') <= 500)%nat
  /\ Manifest.lastOf (readAudit fs') = Manifest.lastOf logged.
Proof.
  intros H logged.
  pose proof (logAll_entries _ _ _ H) as He.
  assert (Hcalls : first :: more <> []) by discriminate.
  rewrite (logAll_trimmed _ _ _ Hcalls H) in He.
  fold logged in He.
  split; [exact He|]. rewrite He.
  change (-500) with (- Z.of_nat 500). split.
  - rewrite sliceFrom_length. lia.
  - rewrite sliceFrom_last.
    assert (Hn : logged <> []) by (subst logged; discriminate).
    destruct (exists_last Hn) as (l & x & Hl). rewrite Hl.
    rewrite app_assoc, length_app, skipn_app. cbn [List.length].
    replace (List.length (readAudit fs ++ l) + 1 - 500 - List.length (readAudit fs ++ l))%nat
      with 0%nat by lia.
    cbn [skipn]. rewrite !lastOf_app_one. reflexivity.
Qed.

(** X25.  [getAuditLog(limit)] returns the last [limit] entries for a positive
    [limit], all of them when there are fewer; for [limit] zero it returns
    the whole log, not the empty list, and for a negative [limit] it drops
    that many entries from the front. *)
Theorem getAuditLog_limits (limit : Z) (fs : Files) :
  (exists older, readAudit fs = (older ++ getAuditLog limit fs)%list)
  /\ (0 < limit ->
        Z.of_nat (List.length (getAuditLog limit fs))
        = Z.min limit (Z.of_nat (List.length (readAudit fs))))
  /\ (limit = 0 -> getAuditLog limit fs = readAudit fs)
  /\ (limit < 0 ->
        getAuditLog limit fs = skipn (Z.to_nat (- limit)) (readAudit fs)).
Proof.
  unfold getAuditLog. split; [apply sliceFrom_suffix|].
  unfold sliceFrom. cbv zeta. split; [|split].
  - intros Hpos.
    assert ((- limit <? 0) = true) as -> by (apply Z.ltb_lt; lia).
    rewrite length_skipn. lia.
  - intros ->. change (- 0 <? 0) with false. cbv iota.
    rewrite Z.min_l by lia. reflexivity.
  - intros Hneg.
    assert ((- limit <? 0) = false) as -> by (apply Z.ltb_ge; lia).
    destruct (Z.le_gt_cases (- limit) (Z.of_nat (List.length (readAudit fs)))) as [H|H].
    + rewrite Z.min_l by lia. reflexivity.
    + rewrite Z.min_r by lia. rewrite Nat2Z.id.
      rewrite skipn_all. symmetry. apply skipn_all2. lia.
Qed.

End LogTheorems.

Section HistoryFacts.
Import Js Json History.

(** A write that returns has left the entries it was given. *)
Lemma history_write_Returned (entries : list HistoryEntry) (fs fs' : Files) :
  writeJsonFile entries fs = (Returned tt, fs') -> history fs' = Some entries.
Proof.
  unfold writeJsonFile, Admin.nextWrite.
  destruct (writeFaults fs) as [|[[m|m]|] rest]; intros H; try discriminate;
    injection H as <-; reflexivity.
Qed.

Lemma addAll_entries (calls : list (HistoryInput * Z)) :
  forall fs fs',
    addAll calls fs = (Returned tt, fs') ->
    Admin.sliceFrom (-100) (getHistory fs')
    = Admin.sliceFrom (-100)
        (getHistory fs ++ map (fun c => stamp (fst c) (snd c)) calls)%list.
Proof.
  induction calls as [|[entry now] rest IH]; intros fs fs' H; cbn [addAll] in H.
  - injection H as <-. cbn [map]. rewrite app_nil_r. reflexivity.
  - destruct (addToHistory entry now fs) as [[[]|msg] fs1] eqn:E; [|discriminate].
    unfold addToHistory in E. cbv zeta in E. apply history_write_Returned in E.
    apply IH in H. rewrite H. unfold getHistory at 1. rewrite E. cbn [map fst snd].
    change (-100) with (- Z.of_nat 100).
    rewrite sliceFrom_app_left, <- app_assoc. reflexivity.
Qed.

Lemma addAll_trimmed (calls : list (HistoryInput * Z)) :
  forall fs fs',
    calls <> [] ->
    addAll calls fs = (Returned tt, fs') ->
    Admin.sliceFrom (-100) (getHistory fs') = getHistory fs'.
Proof.
  induction calls as [|[entry now] rest IH]; intros fs fs' Hne H; [congruence|].
  cbn [addAll] in H.
  destruct (addToHistory entry now fs) as [[[]|msg] fs1] eqn:E; [|discriminate].
  unfold addToHistory in E. cbv zeta in E. apply history_write_Returned in E.
  destruct rest as [|c rest].
  - cbn [addAll] in H. injection H as <-. unfold getHistory. rewrite E.
    change (-100) with (- Z.of_nat 100). apply sliceFrom_idem.
  - apply IH in H; [exact H | discriminate].
Qed.

End HistoryFacts.

Section HistoryTheorems.
Import Js Json History.

(** X26.  The command history keeps the last 100 entries: after a series of
    [addToHistory] calls that all succeed, [getHistory] returns the last 100
    of the entries there were before followed by the new ones, in order, the
    newest last; after a [clearHistory] that succeeds it returns none. *)
Theorem history_keeps_last_100 (first : HistoryInput * Z) (more : list (HistoryInput * Z))
    (fs fs' : Files) :
  addAll (first :: more) fs = (Returned tt, fs') ->
  let added := map (fun c => stamp (fst c) (snd c)) (first :: more) in
  getHistory fs' = Admin.sliceFrom (-100) (getHistory fs ++ added)%list
  /\ (List.length (getHistory fs') <= 100)%nat
  /\ Manifest.lastOf (getHistory fs') = Manifest.lastOf added
  /\ forall cleared, clearHistory fs' = (Returned tt, cleared) -> getHistory cleared = [].
Proof.
  intros H added.
  pose proof (addAll_entries _ _ _ H) as He.
  assert (Hcalls : first :: more <> []) by discriminate.
  rewrite (addAll_trimmed _ _ _ Hcalls H) in He.
  fold added in He.
  split; [exact He|]. split; [|split].
  - rewrite He. change (-100) with (- Z.of_nat 100). rewrite sliceFrom_length. lia.
  - rewrite He. change (-100) with (- Z.of_nat 100). rewrite sliceFrom_last.
    assert (Hn : added <> []) by (subst added; discriminate).
    destruct (exists_last Hn) as (l & x & Hl). rewrite Hl.
    rewrite app_assoc, length_app, skipn_app. cbn [List.length].
    replace (List.length (getHistory fs ++ l) + 1 - 100 - List.length (getHistory fs ++ l))%nat
      with 0%nat by lia.
    cbn [skipn]. rewrite !lastOf_app_one. reflexivity.
  - intros cleared Hc. unfold clearHistory in Hc. apply history_write_Returned in Hc.
    unfold getHistory. rewrite Hc. reflexivity.
Qed.

End HistoryTheorems.

Section LogInstances.
Import Js Json.

Lemma audit_log_keeps_last_500_witness :
  Admin.readAudit (snd (Admin.logAll [(commandAudit, clock0)] noAuditFile))
  = Admin.sliceFrom (-500)
      (Admin.readAudit noAuditFile ++ [Admin.stamp commandAudit clock0])%list
  /\ (List.length (Admin.readAudit (snd (Admin.logAll [(commandAudit, clock0)] noAuditFile)))
      <= 500)%nat
  /\ Manifest.lastOf (Admin.readAudit (snd (Admin.logAll [(commandAudit, clock0)] noAuditFile)))
     = Some (Admin.stamp commandAudit clock0).
Proof.
  apply (audit_log_keeps_last_500 (commandAudit, clock0) [] noAuditFile
           (snd (Admin.logAll [(commandAudit, clock0)] noAuditFile))).
  reflexivity.
Defined.

Lemma history_keeps_last_100_witness :
  List.length (History.getHistory fullHistoryFile) = 100%nat
  /\ History.getHistory (snd (History.addAll twoCommands fullHistoryFile))
     = (skipn 2 (History.getHistory fullHistoryFile)
        ++ map (fun c => History.stamp (fst c) (snd c)) twoCommands)%list
  /\ fst (History.clearHistory (snd (History.addAll twoCommands fullHistoryFile)))
     = Returned tt
  /\ History.getHistory
       (snd (History.clearHistory (snd (History.addAll twoCommands fullHistoryFile))))
     = [].
Proof.
  assert (E : History.addAll twoCommands fullHistoryFile
              = (Returned tt, snd (History.addAll twoCommands fullHistoryFile))).
  { rewrite (surjective_pairing (History.addAll _ _)) at 1.
    apply f_equal2; [vm_compute; reflexivity | reflexivity]. }
  assert (C : History.clearHistory (snd (History.addAll twoCommands fullHistoryFile))
              = (Returned tt,
                 snd (History.clearHistory
                        (snd (History.addAll twoCommands fullHistoryFile))))).
  { rewrite (surjective_pairing (History.clearHistory _)) at 1.
    apply f_equal2; [vm_compute; reflexivity | reflexivity]. }
  destruct (history_keeps_last_100 _ _ _ _ E) as (Hkept & _ & _ & Hcleared).
  split; [vm_compute; reflexivity|]. split; [|split].
  - rewrite Hkept. vm_compute. reflexivity.
  - rewrite C. reflexivity.
  - exact (Hcleared _ C).
Defined.

End LogInstances.

(* ================================================================== *)
(** ** The workspace scan and the change detection *)
(* ================================================================== *)

Section WorkspaceFacts.
Import Js Workspace.

Lemma splitChar_cons (sep : ascii) (s : string) :
  exists w ws, splitChar sep s = w :: ws.
Proof.
  induction s as [|c s (w & ws & IH)]; cbn [splitChar]; [eexists; eexists; reflexivity|].
  destruct (Ascii.eqb c sep); [eexists; eexists; reflexivity|].
  rewrite IH. eexists; eexists; reflexivity.
Qed.

Lemma splitChar_app (sep : ascii) (a b : string) :
  splitChar sep (a ++ String sep b) = (splitChar sep a ++ splitChar sep b)%list.
Proof.
  induction a as [|c a IH]; cbn [append splitChar].
  - rewrite Ascii.eqb_refl. reflexivity.
  - rewrite IH. destruct (Ascii.eqb c sep); [reflexivity|].
    destruct (splitChar_cons sep a) as (w & ws & ->). reflexivity.
Qed.

Lemma splitChar_fileName (name : string) :
  forallb (fun c => negb (Ascii.eqb c "/")) (list_ascii_of_string name) = true ->
  splitChar "/" name = [name].
Proof.
  induction name as [|c name IH]; cbn [list_ascii_of_string forallb splitChar];
    [reflexivity|].
  intros H. apply andb_true_iff in H. destruct H as [Hc Hrest].
  apply negb_true_iff in Hc. rewrite Hc, (IH Hrest). reflexivity.
Qed.

Lemma segments_relativePath (prefix name : string) :
  fileName name = true ->
  segments (relativePath prefix name) = (segments prefix ++ [name])%list
  /\ splitChar "/" (relativePath prefix name) = (segments prefix ++ [name])%list.
Proof.
  unfold fileName. intros H. apply andb_true_iff in H. destruct H as [Hne Hplain].
  apply negb_true_iff in Hne.
  assert (Hsplit : splitChar "/" (relativePath prefix name) = (segments prefix ++ [name])%list).
  { unfold relativePath, segments. destruct (String.eqb prefix "") eqn:E.
    - apply splitChar_fileName, Hplain.
    - change (prefix ++ "/" ++ name) with (prefix ++ String "/" name).
      rewrite splitChar_app, (splitChar_fileName _ Hplain). reflexivity. }
  split; [|exact Hsplit].
  unfold segments at 1.
  assert (String.eqb (relativePath prefix name) "" = false) as ->; [|exact Hsplit].
  unfold relativePath. destruct (String.eqb prefix "") eqn:E; [exact Hne|].
  destruct prefix; [discriminate | reflexivity].
Qed.

(** Below a prefix whose segments are all kept, the scan lists only paths
    whose segments are all kept. *)
Lemma scanEntry_kept (e : Entry) :
  forall prefix,
    wellNamed e = true ->
    Forall (fun seg => skipped seg = false) (segments prefix) ->
    Forall (fun p => Forall (fun seg => skipped seg = false) (splitChar "/" p))
      (scanEntry prefix e).
Proof.
  induction e as [name | name readable children IH] using Entry_induction;
    intros prefix Hw Hp; cbn [scanEntry wellNamed] in *.
  - destruct (skipped name) eqn:Es; constructor; [|constructor].
    rewrite (proj2 (segments_relativePath prefix name Hw)).
    apply Forall_app. split; [exact Hp|]. constructor; [exact Es | constructor].
  - apply andb_true_iff in Hw. destruct Hw as [Hn Hc].
    destruct (skipped name) eqn:Es; [constructor|].
    destruct readable; [|constructor].
    assert (Hp' : Forall (fun seg => skipped seg = false)
                    (segments (relativePath prefix name))).
    { rewrite (proj1 (segments_relativePath prefix name Hn)).
      apply Forall_app. split; [exact Hp|]. constructor; [exact Es | constructor]. }
    generalize dependent children.
    induction children as [|c cs IHc]; intros IH Hc; cbn [flat_map]; [constructor|].
    cbn [forallb] in Hc. apply andb_true_iff in Hc. destruct Hc as [Hc1 Hc2].
    inversion IH as [|x l Hx Hl]; subst.
    apply Forall_app. split; [apply Hx; assumption | apply IHc; assumption].
Qed.

Lemma join_length (x y : string) (l : list string) :
  String.length (join "|" (x :: y :: l))
  = (String.length x + 1 + String.length (join "|" (y :: l)))%nat.
Proof.
  cbn [join]. rewrite !length_append. cbn [String.length]. lia.
Qed.

Lemma join_same_lengths (fs gs : list string) :
  Forall2 (fun a b => String.length a = String.length b) fs gs ->
  String.length (join "|" fs) = String.length (join "|" gs).
Proof.
  induction 1 as [|x y l l' Hxy Hrest IH]; [reflexivity|].
  destruct Hrest as [|x' y' l l' Hxy' Hrest].
  - cbn [join]. exact Hxy.
  - rewrite !join_length, Hxy, IH. reflexivity.
Qed.

End WorkspaceFacts.

Section WorkspaceTheorems.
Import Js Workspace.

(** X27.  The scan never lists what it is told to skip, at any depth: every
    segment of every path [scanWorkspaceFiles] returns is a name that is on
    neither ignore list and does not start with a dot.  So nothing below a
    directory called [data] or [node_modules], and no dot file, is burnt or
    backed up, wherever in the tree it sits. *)
Theorem scan_lists_no_skipped_name (root : list Entry) :
  forallb wellNamed root = true ->
  Forall (fun p => Forall (fun seg => skipped seg = false) (splitChar "/" p))
    (scanWorkspaceFiles (Some root))
  /\ scanWorkspaceFiles None = [].
Proof.
  intros Hw. split; [|reflexivity].
  cbn [scanWorkspaceFiles].
  induction root as [|e root IH]; cbn [flat_map]; [constructor|].
  cbn [forallb] in Hw. apply andb_true_iff in Hw. destruct Hw as [He Hr].
  apply Forall_app. split; [|apply IH, Hr].
  apply scanEntry_kept; [exact He | constructor].
Qed.

(** X28.  The change detection of [executeAutomate] sees the lengths of the
    file names only: two listings with as many files whose names are as long,
    one by one, give the same value, so a rename to a name of the same
    length - and any change to the content of a file - is not detected.
    The first run, with no value kept yet, never reports a change. *)
Theorem change_detection_sees_only_name_lengths (fs gs : list string) :
  Forall2 (fun a b => String.length a = String.length b) fs gs ->
  currentHash fs = currentHash gs
  /\ filesChanged (currentHash fs) (currentHash gs) = false
  /\ filesChanged "" (currentHash gs) = false.
Proof.
  intros H. unfold currentHash. rewrite (join_same_lengths _ _ H).
  split; [reflexivity|]. split; [|reflexivity].
  unfold filesChanged. rewrite String.eqb_refl, andb_false_r. reflexivity.
Qed.

End WorkspaceTheorems.

(* ================================================================== *)
(** ** The burn package *)
(* ================================================================== *)

Section PackageFacts.
Import Js Json IsoGenerator.

Lemma byteLength_nonneg (s : string) : 0 <= byteLength s.
Proof.
  unfold byteLength. induction (list_ascii_of_string s) as [|c l IH]; cbn [fold_right]; [lia|].
  destruct (charCode c <? 128); lia.
Qed.

Lemma sumSizes_from (entries : list FileEntry) :
  forall start,
    fold_left (fun total e => total + size e) entries start
    = start + fold_right (fun e n => size e + n) 0 entries.
Proof.
  induction entries as [|e l IH]; intros start; cbn [fold_left fold_right]; [lia|].
  rewrite IH. lia.
Qed.

Lemma readEntries_read (readFile : string -> option string) (files : list string) :
  Forall (fun e => readFile (path e) = Some (content e)
                   /\ size e = byteLength (content e)
                   /\ In (path e) files)
    (readEntries readFile files)
  /\ (List.length (readEntries readFile files) <= List.length files)%nat
  /\ map path (readEntries readFile files)
     = filter (fun f => match readFile f with Some _ => true | None => false end) files.
Proof.
  induction files as [|f files (IH1 & IH2 & IH3)]; cbn [readEntries filter].
  - repeat split; [constructor | apply Nat.le_refl].
  - assert (Hweak : Forall (fun e => readFile (path e) = Some (content e)
                                     /\ size e = byteLength (content e)
                                     /\ In (path e) (f :: files))
                      (readEntries readFile files)).
    { eapply Forall_impl; [|exact IH1]. intros e (A & B & C).
      repeat split; try assumption. right. exact C. }
    destruct (readFile f) as [text|] eqn:E.
    + split; [|split].
      * constructor; [|exact Hweak]. cbn [path content size].
        repeat split; [exact E | left; reflexivity].
      * cbn [List.length]. lia.
      * cbn [map path]. rewrite IH3. reflexivity.
    + split; [exact Hweak|]. split; [cbn [List.length]; lia | exact IH3].
Qed.

Lemma package_lookup_put_same (name : string) (b : PackageFile)
    (s : list (string * PackageFile)) :
  assoc name (put name b s) = Some b.
Proof.
  induction s as [|[k v] s IH]; simpl.
  - rewrite String.eqb_refl. reflexivity.
  - destruct (String.eqb k name) eqn:E; simpl; rewrite E; [reflexivity | exact IH].
Qed.

End PackageFacts.

Section PackageTheorems.
Import Js Json IsoGenerator.

Local Opaque toString10 toISOString instructions megabytes.

(** X29.  [generateBurnPackage] packs what it can read.  The files of the
    manifest are the files that could be read, in the order given, each with
    the byte length of its text; a file that cannot be read is left out
    without a word, so the package is reported ready also when it is empty.
    The total size is the sum of the sizes.  The call succeeds exactly when it
    returns a manifest; when the first upload is served and the second fails,
    the call fails and BURN_PACKAGE.json stays on OneDrive. *)
Theorem burn_package_totals (readFile : string -> option string)
    (files : list string) (now : Z) (c : Cloud) :
  let '(r, c') := generateBurnPackage readFile files now c in
  let entries := readEntries readFile files in
  (success r = true ->
     exists m,
       manifest r = Some m
       /\ IsoGenerator.files m = entries
       /\ totalSize m = fold_right (fun e n => size e + n) 0 entries
       /\ message r = "Burn package ready: "
                      ++ toString10 (Z.of_nat (List.length entries)) ++ " files, "
                      ++ megabytes (totalSize m) ++ " MB")
  /\ (success r = false -> manifest r = None)
  /\ Forall (fun e => readFile (path e) = Some (content e)
                      /\ size e = byteLength (content e)
                      /\ In (path e) files) entries
  /\ map path entries
     = filter (fun f => match readFile f with Some _ => true | None => false end) files
  /\ (forall fs, faults c = false :: true :: fs ->
        success r = false
        /\ exists archive,
             assoc ("burn-ready/disc-" ++ toString10 now ++ "/BURN_PACKAGE.json")
               (written c')
             = Some (PArchive archive)
             /\ a_totalFiles archive = Z.of_nat (List.length entries)).
Proof.
  destruct (generateBurnPackage readFile files now c) as [r c'] eqn:E.
  cbv zeta.
  destruct (readEntries_read readFile files) as (Hread & _ & Hpaths).
  unfold generateBurnPackage in E. cbv zeta in E.
  unfold uploadToOneDrive in E.
  split; [|split; [|split; [exact Hread | split; [exact Hpaths|]]]].
  - intros Hs.
    destruct (faults c) as [|[|] [|[|] fs]]; cbn [faults written] in E;
      injection E as <- <-; try discriminate;
      (eexists; split; [reflexivity|]; cbn [IsoGenerator.files totalSize message];
       split; [reflexivity|]; split; [|reflexivity];
       unfold sumSizes; rewrite sumSizes_from; lia).
  - intros Hs.
    destruct (faults c) as [|[|] [|[|] fs]]; cbn [faults written] in E;
      injection E as <- <-; try discriminate; reflexivity.
  - intros fs Hf. rewrite Hf in E. cbn [faults written] in E.
    injection E as <- <-. split; [reflexivity|].
    eexists. cbn [written]. split; [apply package_lookup_put_same | reflexivity].
Qed.

End PackageTheorems.

Section WorkspaceInstances.
Import Js Json Workspace.

Lemma scan_lists_no_skipped_name_witness :
  Forall (fun p => Forall (fun seg => skipped seg = false) (splitChar "/" p))
    (scanWorkspaceFiles (Some sampleTree))
  /\ scanWorkspaceFiles None = [].
Proof.
  apply (scan_lists_no_skipped_name sampleTree). reflexivity.
Defined.

Lemma change_detection_sees_only_name_lengths_witness :
  currentHash ["a.txt"; "notes.md"] = currentHash ["b.txt"; "draft.md"]
  /\ filesChanged (currentHash ["a.txt"; "notes.md"]) (currentHash ["b.txt"; "draft.md"])
     = false
  /\ filesChanged "" (currentHash ["b.txt"; "draft.md"]) = false.
Proof.
  apply (change_detection_sees_only_name_lengths ["a.txt"; "notes.md"] ["b.txt"; "draft.md"]).
  repeat constructor.
Defined.

End WorkspaceInstances.
(* ================================================================== *)
(** ** Sanity checks of the JavaScript primitives *)
(* ================================================================== *)

Example toString16_pos : Js.toString16 255 = "ff".
Proof. reflexivity. Qed.
Example toString16_neg : Js.toString16 (-4096) = "-1000".
Proof. reflexivity. Qed.
Example toString16_zero : Js.toString16 0 = "0".
Proof. reflexivity. Qed.
Example toISOString_epoch : Js.toISOString 0 = "1970-01-01T00:00:00.000Z".
Proof. reflexivity. Qed.
Example toISOString_2023 :
  Js.toISOString 1700000000123 = "2023-11-14T22:13:20.123Z".
Proof. vm_compute. reflexivity. Qed.
Example toISOString_leap :
  Js.toISOString 1709210096789 = "2024-02-29T12:34:56.789Z".
Proof. vm_compute. reflexivity. Qed.
Example splitChar_ex : Js.splitChar "-" "job-1700000000123-x" = ["job"; "1700000000123"; "x"].
Proof. reflexivity. Qed.
Example rollingHash_abc : Js.rollingHash "abc" = 96354.
Proof. reflexivity. Qed.
Example stringify_obj :
  Json.stringify (Json.JObj [("a", Json.JNum 1);
                             ("b", Json.JArr [Json.JStr (Json.unquoted "x'y"); Json.JNull])])
  = Json.unquoted "{'a':1,'b':['x\'y',null]}".
Proof. vm_compute. reflexivity. Qed.
Example regexp_eval :
  RegExp.test (RegExp.seq [RegExp.lit "eval"; RegExp.Star RegExp.space; RegExp.lit "("]) "x = EVAL  (1)" = true.
Proof. reflexivity. Qed.
Example regexp_eval_no :
  RegExp.test (RegExp.seq [RegExp.lit "eval"; RegExp.Star RegExp.space; RegExp.lit "("]) "evaluate x" = false.
Proof. reflexivity. Qed.
Example pattern_onclick :
  map (fun p => RegExp.matches p "<img onerror = x>") UsbSignal.defaultPatterns
  = [false; false; false; false; true; false; false; false; false; false; false].
Proof. vm_compute. reflexivity. Qed.
Example pattern_websocket :
  map (fun p => RegExp.matches p "new  WebSocket('wss://h')") UsbSignal.defaultPatterns
  = [false; false; false; false; false; true; false; true; true; false; false].
Proof. vm_compute. reflexivity. Qed.
Example pattern_cancel :
  UsbSignal.firstMatch UsbSignal.defaultPatterns (Json.stringify (cancelPayload "J1")) = None.
Proof. vm_compute. reflexivity. Qed.
Example checksum_cancel :
  UsbSignal.generateChecksum (Some (cancelPayload "J1")) = Js.Returned "-323e271b".
Proof. vm_compute. reflexivity. Qed.

Example setKey_order :
  fold_left (fun acc kv => IsoGenerator.setKey (fst kv) (snd kv) acc)
    [("b.txt", "1"); ("10", "2"); ("2", "3"); ("__proto__", "4"); ("a.txt", "5");
     ("b.txt", "6"); ("007", "7")] []
  = [("2", "3"); ("10", "2"); ("b.txt", "6"); ("a.txt", "5"); ("007", "7")].
Proof. vm_compute. reflexivity. Qed.
